(* ===== verification/_CoqProject ===== *)
-Q . S2P
Prelude.v
PyDict.v
Json.v
JsonOps.v
PyStr.v
PyNumbers.v
SpecialistLimits.v
SpeakerProvenance.v
VoiceResult.v
Routes.v
JobTypes.v
JobRegistry.v
Delivery.v
JobLifecycle.v
JobInvariants.v
JobRecovery.v
JobEffects.v
JobSnapshot.v
JobSafety.v
JobProperties.v
DeliveryProperties.v
VerdictBroker.v
BrokerProperties.v
WebhookAuth.v
WebhookProperties.v
RateLimit.v
RateProperties.v
Retry.v
RetryProperties.v
TextUtil.v
Challenge.v
Provenance.v
Authz.v
AuthzProperties.v
Engagement.v
EngagementRegistry.v
EngagementCalls.v
EngagementEffects.v
EngagementHistory.v
EngagementScenario.v
EngagementSafety.v
EngagementReload.v
EngagementDurable.v
EngagementSweep.v
EngagementExamples.v
Bus.v
BusInvariants.v
BusReach.v
BusEvents.v
BusScenario.v
BusProperties.v
BusLiveness.v
Files.v
FilesLaws.v
PluginRegistry.v
InstallConsent.v
BundleJournal.v
InstanceBinding.v
BundleOps.v
BundleScenario.v
RegistryLaws.v
RegistryProperties.v
ConsentLaws.v
JournalLaws.v
BundleLaws.v
UninstallLaws.v
UninstallProperties.v
InstanceLaws.v
InstanceProperties.v
BootProperties.v
TopicLedger.v
LedgerProperties.v
