(* ===== verification/Prelude.v ===== *)
(** * Casa: a verified model of its core

    Casa is a Home Assistant add-on that runs Claude agents: a voice channel, a
    Telegram channel, webhooks, plugins with protected tools, and the durable state
    between them.  This library models the parts whose correctness is their own
    logic, from [src/casa/rootfs/opt/casa/], and proves what they promise.  Paths
    below are relative to that directory.

    ** How the program is modelled

    A Python call is a state-and-exception computation [PyM] (this file): it returns
    or raises, and keeps the changes it made before raising.  Pure code is plain
    functions.  A dict is an association list in insertion order ([PyDict.v]); a
    JSON value is [json] ([Json.v]); a [str] is a string of code points below 256, or
    a list of code points where astral or bidirectional characters matter
    ([TextUtil.v]).  Objects that are shared and mutated (broker requests,
    challenges, closures) live in stores, and references are indices.  Time is
    integer microseconds and is an argument; where the code computes with [float]
    and the rounding matters, the arithmetic is an interface with a rational and a
    binary64 instance ([PyNumbers.v]).  The event loop is the explicit set of pending
    callbacks; a step relation interleaves operations at the code's [await] points.
    What is not in the repository (HMAC, SHA-256, uuids, JSON text, random numbers,
    the file system's failures, the Bot API) is a parameter, with its documented
    laws as hypotheses where a theorem needs them.

    ** Durable voice jobs: [job_registry.py]

    [JobTypes.v] rows and environment; [JobRegistry.v] every operation, guard by
    guard, with the snapshot codec; [JobLifecycle.v] the abstract machine of a row;
    [JobInvariants.v], [JobRecovery.v], [JobEffects.v] what each operation keeps,
    recovers and changes; [JobSnapshot.v] the snapshot round trip; [JobSafety.v] and
    [JobProperties.v] the theorems: the file always leads memory, terminal states
    absorb, every step refines the abstract machine, a delivery is entered only by
    its attempt, capacity and queue numbers are respected, recovery orphans live
    rows, reconciliation ends.

    ** What a voice job may say: [speaker_provenance.py], [voice_job_result.py],
       [voice_phrases.py], [channel_trust.py], [sensitivity.py]

    [SpeakerProvenance.v] and [VoiceResult.v]: identities never mix, the codec round
    trips, private results are never spoken.

    ** Getting it spoken: [channels/voice/routes.py], [channels/voice/delivery.py]

    [Routes.v] the route table and its invariant; [Delivery.v] the coordinator over
    the registry; [DeliveryProperties.v]: playback follows authorization, offers
    follow the queues, attempts do not outlive rows.

    ** Asking the operator: [verdict_broker.py], [authz_grants.py], [provenance.py],
       [text_util.py], [channels/telegram.py]

    [VerdictBroker.v] requests as shared objects, with timers, tombstones, hooks and
    posts as pending callbacks; [BrokerProperties.v]: a request is resolved once, by
    the bound operator, and is never left without a way to be resolved.
    [TextUtil.v] text measures and escapes; [Challenge.v] the message of a challenge
    and its template language, whose scan is proved equal to an inductive relation;
    [Provenance.v] the classification of a turn; [Authz.v] the grant store, the
    challenge coordinator, the hook that guards protected tools and the tap,
    composed with the broker; [AuthzProperties.v]: every allowed call spent its own
    fresh approval by the operator, the hook fails closed, a challenge holds its key
    exactly while it is unsettled.

    ** Webhooks: [webhook_auth.py]

    [WebhookAuth.v] the verifiers and the secret files, one effect per system call,
    under a plan that makes any of them fail or be the last one before a power loss;
    [WebhookProperties.v]: rotation converges, publication is all or nothing, a
    secret is never inherited, and exactly the signed timestamps are accepted.

    ** Engagements: [engagement_registry.py], [specialist_limits.py]

    [SpecialistLimits.v] the permits a delegation holds.  [Engagement.v] a record and
    its row in the tombstone file; [EngagementRegistry.v] every operation, with the
    three ways it waits for its write when its caller is cancelled;
    [EngagementCalls.v] calls as a type and the effect each kind may have;
    [EngagementEffects.v] every call has its effect; [EngagementHistory.v] histories
    of calls, of assignments made by other modules without the lock, of writes that
    land late or never, and of restarts; [EngagementSafety.v], [EngagementReload.v],
    [EngagementDurable.v]: strict calls are all or nothing, one caller ends an
    engagement, its clearance only falls, its slot is returned, a restart gives back
    what was written, and no question number is issued twice; [EngagementSweep.v]
    the idle sweep, with other tasks running while it waits; [EngagementScenario.v]
    and [EngagementExamples.v] concrete histories, among them those in which a
    promise of the source's comments fails.  The keys of the two dicts are JSON
    values compared structurally (an engagement id is a string and a topic an integer
    in every record [create] makes); [dict(...)] of a sequence of pairs is modelled
    for string keys, which are the only ones a later write accepts; readers run
    between calls, although in the code they may see a strict call's provisional
    value while its write is under way.

    ** The message bus: [bus.py]

    [Bus.v] messages, queues, futures and tasks as shared objects, and every
    operation on them; a consumer, a dispatch and a waiting caller advance by separate
    events, and anything may happen in between.  [BusInvariants.v], [BusReach.v],
    [BusEvents.v]: what holds of every reachable bus, one lemma per event.
    [BusProperties.v]: work that was called off, because its caller is gone or its
    agent was evicted, never begins, and an answer is the answer to the request of
    the caller that gets it.  [BusLiveness.v]: a waiting caller always has somebody to
    answer it, unless one of three lapses happened, which [BusScenario.v] shows.

    ** Specialists and their plugins: [plugin_registry.py],
       [specialist_install_consent.py], [specialist_bundle_journal.py],
       [personality_binding.py], [specialist_install.py], [tools.py], [atomic_io.py]

    [Files.v] the files these modules share: a map from paths, with one effect per
    system call.  The calls end as a list of endings says: they succeed, raise, or are
    the last one before the process dies, having written part of their data or none.
    [FilesLaws.v] one law per call, over every list of endings or over quiet ones only;
    hidden temporary files and the files of a directory apart.
    [PluginRegistry.v] the registry of plugins, its validation and the owned swap;
    [RegistryLaws.v], [RegistryProperties.v]: validation is sound, a swap publishes a
    valid registry or changes nothing.  [InstallConsent.v] and [ConsentLaws.v] the
    ledger of approvals.  [BundleJournal.v] the journal of a bundle operation, its
    rollback and the reconciliation at boot; [BundleOps.v] the uninstall, from the tool
    to the file calls; [JournalLaws.v], [BundleLaws.v], [UninstallLaws.v] what each of
    their steps leaves; [UninstallProperties.v]: whatever an uninstall meets, the next
    boot leaves the specialist whole or gone.  Its hypotheses are that the uuids are
    hexadecimal ([UuidHex]), that the registry can be loaded and no earlier journal is
    left ([ready]), that the first read succeeds ([reads_first]) and that the process
    did not die while a journal had its temporary name ([clean]); two examples show
    what happens without the last two.  [BootProperties.v]: the boot itself ends
    whatever the journals hold.  [InstanceBinding.v] bindings, the tuple
    files of an instance and a resident's reconciliation; [InstanceLaws.v],
    [InstanceProperties.v]: a commit converges over interruptions, tuples survive being
    written.  [BundleScenario.v] one specialist with its files, for the witnesses.
    Symbolic links are modelled at the one place that follows one ([op_dir]), and the
    two locks make the operations of this part sequential.

    ** The topics of ended engagements: [topic_ledger.py]

    [TopicLedger.v] the ledger file and the sweep that deletes due topics, over the
    files of [Files.v]; what the channel answers, what other tasks append at each wait
    and where the sweep is cancelled are arguments.  [LedgerProperties.v]: the ledger
    loses only entries that the sweep has resolved, and only due topics of its own chat
    are deleted; examples show the entries that stop a sweep, or go with another one.
    Deadlines are finite.  The lock makes each append and removal one step, except that
    a cancelled caller, which can leave its write running, is not modelled.

    ** Limits and retries: [rate_limit.py], [error_kinds.py], [retry.py],
       [settle_gate.py]

    [RateLimit.v], [RateProperties.v]: evicting idle buckets is invisible over the
    rationals (an example shows that it is not in binary64), admissions are bounded,
    Retry-After is honoured.  [Retry.v], [RetryProperties.v]: loops end within their
    attempts with bounded delays, and edits are confirmed truly.

    ** Fuel and bounds

    Recursions are structural except: [show] (fuel from the binary logarithm, proved
    enough by [int_of_show]), [scan] of a template (fuel its length, proved enough by
    [scan_complete]), [strip_punct] (fuel its length, proved enough by
    [strip_punct_spec]), the loops of the retry code (fuel the number of attempts,
    which is their bound), and the reconciliation loop (its theorem finds the fuel).

    ** Not modelled, and the plan

    Wiring of HTTP handlers, SDK sessions, configuration files, supervision of
    subprocesses and calls of the Bot API are I/O and are left out, as are logging
    and code that only waits.  Of specialists, the installation, upgrade and rollback
    are not modelled (they fetch repositories and publish content-addressed trees
    before they use the journal, the swap and the tuple commit that are), nor are the
    sweeps of aged receipts and staging trees, and the resolution of plugins against
    their store.  Of the rest, the next parts would be the spools and attempt ledgers of
    callbacks and events, the output sequencer and the rich-text paginator. *)

From stdpp Require Export prelude strings list sorting.
From Stdlib Require Import Lia.

(** ** Exceptions and outcomes

    Python exceptions are values of [exn], one constructor per exception class
    the modelled code raises or catches; messages are not modelled, because no
    modelled code reads them back. *)

Inductive exn :=
  | ValueError
  | TypeError
  | KeyError
  | AttributeError
  | YAMLError            (** [yaml.YAMLError] *)
  | ValidationError      (** [jsonschema.ValidationError] *)
  | RuntimeError
  | OSError              (** any failure of a file or socket call *)
  | FileExistsError      (** an [OSError], told apart where the source does *)
  | OverflowError
  | PowerLoss            (** the process dies here: no handler, no [finally] *)
  | CancelledError       (** [asyncio.CancelledError] *)
  | SpecialistInstallError
  | TerminalPreconditionFailed
  | BusShutdownError
  | JobRegistryError
  | JobTransitionError
  | JobRouteCapacityError
  | JobAuthorizationError
  | VoiceJobResultError.

#[export] Instance exn_eq_dec : EqDecision exn.
Proof. solve_decision. Defined.

Inductive outcome (A : Type) :=
  | Ok (a : A)
  | Raise (e : exn).

Arguments Ok {A} a.
Arguments Raise {A} e.

Definition is_Ok {A} (o : outcome A) : Prop := match o with Ok _ => True | Raise _ => False end.

(** ** The effect of a Python call

    A call runs in a state [S], returns or raises, and keeps the state changes
    it made before raising, as Python does. *)

Definition PyM (S A : Type) : Type := S → outcome A * S.

#[export] Instance pym_ret S : MRet (PyM S) := λ A a s, (Ok a, s).

#[export] Instance pym_bind S : MBind (PyM S) := λ A B k m s,
  match m s with
  | (Ok a, s') => k a s'
  | (Raise e, s') => (Raise e, s')
  end.

Definition raise {S A} (e : exn) : PyM S A := λ s, (Raise e, s).
Definition get {S} : PyM S S := λ s, (Ok s, s).
Definition gets {S A} (f : S → A) : PyM S A := λ s, (Ok (f s), s).
Definition modify {S} (f : S → S) : PyM S unit := λ s, (Ok tt, f s).

(** [if b: raise e] *)
Definition raise_when {S} (b : bool) (e : exn) : PyM S unit :=
  if b then raise e else mret tt.

(** [try: m  except e when h e is Some: ...] *)
Definition try_except {S A} (m : PyM S A) (h : exn → option (PyM S A)) : PyM S A :=
  λ s, match m s with
       | (Raise e, s') => match h e with Some k => k s' | None => (Raise e, s') end
       | r => r
       end.

(** [try: m  finally: f]; nothing runs after a power loss. *)
Definition try_finally {S A} (m : PyM S A) (f : PyM S unit) : PyM S A := λ s,
  match m s with
  | (Raise PowerLoss, s') => (Raise PowerLoss, s')
  | (o, s') => match f s' with
               | (Ok _, s'') => (o, s'')
               | (Raise e, s'') => (Raise e, s'')
               end
  end.

(** A pure computation that may raise, run inside a call. *)
Definition lift {S A} (o : outcome A) : PyM S A := λ s, (o, s).

(** [for x in l: f x] *)
Fixpoint for_each {S A} (l : list A) (f : A → PyM S unit) : PyM S unit :=
  match l with
  | [] => mret tt
  | x :: l' => f x ≫= λ _, for_each l' f
  end.

(** The outcome monad, for code that raises and has no state. *)
#[export] Instance outcome_ret : MRet outcome := λ A a, Ok a.
#[export] Instance outcome_bind : MBind outcome := λ A B k m,
  match m with Ok a => k a | Raise e => Raise e end.

Definition fail_when (b : bool) (e : exn) : outcome unit :=
  if b then Raise e else Ok tt.

Declare Scope py_scope.
Delimit Scope py_scope with py.

Notation "'let*' x ':=' m 'in' k" := (mbind (λ x, k) m)
  (at level 10, x pattern, m at level 100, k at level 200,
   format "'let*'  x  ':='  m  'in' '//' k") : py_scope.
Notation "m ;;; k" := (mbind (λ _, k) m)
  (at level 199, k at level 200, right associativity,
   format "m  ;;; '//' k") : py_scope.
Open Scope py_scope.

(** A list comprehension whose body may raise. *)
Fixpoint map_outcome {A B} (f : A → outcome B) (l : list A) : outcome (list B) :=
  match l with
  | [] => Ok []
  | x :: l' => let* y := f x in let* ys := map_outcome f l' in Ok (y :: ys)
  end.

Lemma outcome_bind_ok {A B} (m : outcome A) (k : A → outcome B) b :
  (let* x := m in k x) = Ok b ↔ ∃ a, m = Ok a ∧ k a = Ok b.
Proof.
  destruct m as [a|e]; cbn; split; [by eauto|by intros (? & [= ->] & ?)|done|by intros (? & ? & _)].
Qed.

(** ** Reasoning about calls

    [wp m Q R s]: run from [s], the call [m] either returns a value and a
    state satisfying [Q], or raises with [R]. *)

Definition wp {S A} (m : PyM S A) (Q : A → S → Prop) (R : exn → S → Prop) (s : S) : Prop :=
  match m s with
  | (Ok a, s') => Q a s'
  | (Raise e, s') => R e s'
  end.

Section wp.
Context {S : Type}.

Lemma wp_ret {A} (a : A) (Q : A → S → Prop) R s :
  Q a s → wp (mret a) Q R s.
Proof. done. Qed.

Lemma wp_bind {A B} (m : PyM S A) (k : A → PyM S B) Q R s :
  wp m (λ a s', wp (k a) Q R s') R s → wp (mbind k m) Q R s.
Proof. unfold wp, mbind, pym_bind. by destruct (m s) as [[a|e] s']. Qed.

Lemma wp_raise {A} e (Q : A → S → Prop) R s : R e s → wp (raise e) Q R s.
Proof. done. Qed.

Lemma wp_get (Q : S → S → Prop) R s : Q s s → wp get Q R s.
Proof. done. Qed.

Lemma wp_gets {A} (f : S → A) (Q : A → S → Prop) R s :
  Q (f s) s → wp (gets f) Q R s.
Proof. done. Qed.

Lemma wp_modify (f : S → S) Q R s : Q tt (f s) → wp (modify f) Q R s.
Proof. done. Qed.

Lemma wp_raise_when b e Q R (s : S) :
  (b = true → R e s) → (b = false → Q tt s) → wp (raise_when b e) Q R s.
Proof. destruct b; unfold wp, raise_when; naive_solver. Qed.

Lemma wp_mono {A} (m : PyM S A) (Q Q' : A → S → Prop) (R R' : exn → S → Prop) s :
  wp m Q R s → (∀ a s', Q a s' → Q' a s') → (∀ e s', R e s' → R' e s') →
  wp m Q' R' s.
Proof. unfold wp. destruct (m s) as [[a|e] s']; naive_solver. Qed.

Lemma wp_try_except {A} (m : PyM S A) h Q R s :
  wp m Q (λ e s', match h e with Some k => wp k Q R s' | None => R e s' end) s →
  wp (try_except m h) Q R s.
Proof.
  unfold wp, try_except. destruct (m s) as [[a|e] s']; [done|].
  by destruct (h e).
Qed.

Lemma wp_lift {A} (o : outcome A) (Q : A → S → Prop) R s :
  (∀ a, o = Ok a → Q a s) → (∀ e, o = Raise e → R e s) → wp (lift o) Q R s.
Proof. unfold wp, lift. destruct o; naive_solver. Qed.

(** A loop keeps every invariant its body keeps. *)
Lemma wp_for_each {A} (l : list A) (f : A → PyM S unit) (I : S → Prop) R s :
  (∀ x s', x ∈ l → I s' → wp (f x) (λ _, I) R s') →
  I s → wp (for_each l f) (λ _, I) R s.
Proof.
  revert s. induction l as [|x l IH]; intros s Hf Hs; [by apply wp_ret|].
  apply wp_bind. eapply wp_mono.
  - apply Hf; [left|done].
  - intros [] s' Hs'. apply IH; [|done]. intros y t Hy. apply Hf. by right.
  - done.
Qed.

(** What a run shows: the rule that turns a [wp] into facts about the pair
    the call computes. *)
Lemma wp_run {A} (m : PyM S A) Q R s :
  wp m Q R s →
  ∀ o s', m s = (o, s') →
    match o with Ok a => Q a s' | Raise e => R e s' end.
Proof. unfold wp. intros H o s' E. by rewrite E in H. Qed.
End wp.

(** One step of symbolic execution, and its closure. *)
Ltac wp_step :=
  lazymatch goal with
  | |- wp (mbind _ _) _ _ _ => apply wp_bind
  | |- wp (mret _) _ _ _ => apply wp_ret
  | |- wp (raise _) _ _ _ => apply wp_raise
  | |- wp get _ _ _ => apply wp_get
  | |- wp (gets _) _ _ _ => apply wp_gets
  | |- wp (modify _) _ _ _ => apply wp_modify
  | |- wp (raise_when _ _) _ _ _ => apply wp_raise_when; intros ?
  | |- wp (match ?x with _ => _ end) _ _ _ => destruct x eqn:?
  end.
Ltac wp_go := repeat wp_step.

(** ** Record update

    [r <| f := v |>] is Python's [dataclasses.replace(r, f=v)].  A record type
    opts in with an [Eta] instance that rebuilds it from its projections; the
    setter of a projection is then found by abstracting that projection. *)

Class Eta (R : Type) := eta_expand : R → R.
Class Update {R T : Type} (proj : R → T) := update : (T → T) → R → R.
Arguments update {R T} proj {_} _ _ : simpl never.

Ltac solve_update :=
  match goal with
  | |- @Update ?R ?T ?p =>
    let e := eval hnf in (_ : Eta R) in
    let f := fresh "f" in let r := fresh "r" in
    refine (λ (f : T → T) (r : R), _);
    let b := eval cbv beta in (e r) in
    let b' := eval pattern (p r) in b in
    match b' with
    | ?g _ => let t := eval cbv beta in (g (f (p r))) in exact t
    end
  end.
#[export] Hint Extern 1 (Update _) => solve_update : typeclass_instances.

Notation "r <| f := v |>" := (update f (λ _, v) r)
  (at level 1, left associativity, format "r <| f  :=  v |>") : py_scope.
Notation "r <| f ::= g |>" := (update f g r)
  (at level 1, left associativity, format "r <| f  ::=  g |>") : py_scope.

(** ** Python odds and ends *)

(** Truth of a [str] or [None]-or-[str]: [bool(s)]. *)
Definition str_true (s : string) : bool := negb (bool_decide (s = "")).
Definition opt_str_true (o : option string) : bool :=
  match o with Some s => str_true s | None => false end.

(** Characters are code points below 256, and these are the ones
    [str.strip] removes among them. *)
Definition py_space (c : Ascii.ascii) : bool :=
  let n := Ascii.nat_of_ascii c in
  ((9 <=? n) && (n <=? 13)) || ((28 <=? n) && (n <=? 32)) || (n =? 133) || (n =? 160).

Fixpoint lstrip (s : string) : string :=
  match s with
  | EmptyString => ""
  | String c s' => if py_space c then lstrip s' else s
  end.

Fixpoint string_rev_app (s acc : string) : string :=
  match s with
  | EmptyString => acc
  | String c s' => string_rev_app s' (String c acc)
  end.

Definition string_rev (s : string) : string := string_rev_app s "".

Definition strip (s : string) : string :=
  string_rev (lstrip (string_rev (lstrip s))).

(** Seconds: every clock reading, deadline and window is a [Z] number of
    microseconds. *)
Definition seconds (n : Z) : Z := n * 1000000.

(** ** Lists *)

Lemma Forall_sublist {A} (P : A → Prop) l l' : sublist l l' → Forall P l' → Forall P l.
Proof.
  intros Hs Hl. rewrite Forall_forall in *. intros x Hx. apply Hl. by eapply sublist_subseteq.
Qed.

Lemma filter_none {X} (P : X → Prop) `{∀ x, Decision (P x)} (l : list X) :
  (∀ x, x ∈ l → ¬ P x) → filter P l = [].
Proof.
  induction l as [|x l IH]; intros HP; [done|]. rewrite filter_cons_False by (apply HP; left).
  apply IH. intros y Hy. apply HP. by right.
Qed.

Lemma filter_agree {X} (P Q : X → Prop) `{∀ x, Decision (P x), ∀ x, Decision (Q x)} (l : list X) :
  (∀ x, x ∈ l → P x ↔ Q x) → filter P l = filter Q l.
Proof.
  induction l as [|x l IH]; intros HP; [done|]. rewrite !filter_cons.
  rewrite IH by (intros y Hy; apply HP; by right).
  destruct (decide (P x)), (decide (Q x)); first [done|exfalso; specialize (HP x ltac:(left)); tauto].
Qed.

Lemma filter_sublist {X} (P : X → Prop) `{∀ x, Decision (P x)} (l l' : list X) :
  sublist l l' → sublist (filter P l) (filter P l').
Proof.
  induction 1 as [|x l l' _ IH|x l l' _ IH]; [done|rewrite !filter_cons..].
  - case_decide; [by constructor|done].
  - case_decide; [by constructor|done].
Qed.

Lemma NoDup_by_count {X Y} `{EqDecision Y} (f : X → Y) l :
  (∀ y, (length (filter (λ x, f x = y) l) ≤ 1)%nat) → NoDup (f <$> l).
Proof.
  induction l as [|x l IH]; intros Hc; [apply NoDup_nil_2|]. csimpl. apply NoDup_cons. split.
  - intros (x' & E & Hin)%list_elem_of_fmap. specialize (Hc (f x)). rewrite filter_cons_True in Hc by done.
    cbn in Hc. assert (x' ∈ filter (λ x0, f x0 = f x) l) as Hf by (by apply list_elem_of_filter).
    destruct (filter _ l); [by apply not_elem_of_nil in Hf|cbn in Hc; lia].
  - apply IH. intros y. specialize (Hc y). rewrite filter_cons in Hc. case_decide; cbn in Hc; lia.
Qed.

(** ** Shared tactics *)

(** Case analysis on the boolean and decidable tests of a goal. *)
Ltac case_tests := repeat (case_match || case_decide); simplify_eq/=; try done.
