(* ===== verification/PyDict.v ===== *)
(** * Python dictionaries

    A [dict] is the list of its items in insertion order: assigning to a
    present key keeps its place, a new key goes to the end, deleting removes
    the item.  Iteration order is observable in the modelled code (recovery
    numbers orphaned jobs in dict order, a ledger is written in list order), so
    an ordered representation is used throughout; [wf_dict] says that keys are
    unique, and every operation keeps it. *)

From S2P Require Import Prelude.

Section dict.
Context {K V : Type} `{EqDecision K}.
Implicit Types (d : list (K * V)) (k : K) (v : V).

(** [d.get(k)] *)
Fixpoint dget (d : list (K * V)) (k : K) : option V :=
  match d with
  | [] => None
  | (k', v) :: d' => if decide (k = k') then Some v else dget d' k
  end.

(** [d[k] = v] *)
Fixpoint dset (d : list (K * V)) (k : K) (v : V) : list (K * V) :=
  match d with
  | [] => [(k, v)]
  | (k', v') :: d' =>
    if decide (k = k') then (k', v) :: d' else (k', v') :: dset d' k v
  end.

(** [d.pop(k, None)] *)
Definition ddel (d : list (K * V)) (k : K) : list (K * V) :=
  filter (λ p, p.1 ≠ k) d.

(** [k in d] *)
Definition dhas (d : list (K * V)) (k : K) : bool := bool_decide (is_Some (dget d k)).

Definition dkeys (d : list (K * V)) : list K := d.*1.
Definition dvals (d : list (K * V)) : list V := d.*2.

Definition wf_dict (d : list (K * V)) : Prop := NoDup (dkeys d).

Lemma dhas_false d k : dhas d k = false ↔ dget d k = None.
Proof. unfold dhas. by rewrite bool_decide_eq_false, eq_None_not_Some. Qed.

Lemma dhas_true d k : dhas d k = true ↔ is_Some (dget d k).
Proof. unfold dhas. by rewrite bool_decide_eq_true. Qed.

Lemma wf_nil : wf_dict [].
Proof. apply NoDup_nil_2. Qed.

Lemma dget_dset d k v k' :
  dget (dset d k v) k' = if decide (k' = k) then Some v else dget d k'.
Proof. induction d as [|[k0 v0] d IH]; simpl; repeat (case_decide; simpl); naive_solver. Qed.

Lemma dget_dset_eq d k v : dget (dset d k v) k = Some v.
Proof. rewrite dget_dset. by case_decide. Qed.

Lemma dget_dset_ne d k v k' : k' ≠ k → dget (dset d k v) k' = dget d k'.
Proof. rewrite dget_dset. by case_decide. Qed.

Lemma dget_ddel d k k' :
  dget (ddel d k) k' = if decide (k' = k) then None else dget d k'.
Proof.
  unfold ddel. induction d as [|[k0 v0] d IH]; simpl; [by case_decide|].
  destruct (decide (k0 = k)) as [->|Hne].
  - rewrite filter_cons_False by (simpl; tauto). rewrite IH.
    by destruct (decide (k' = k)).
  - rewrite filter_cons_True by done. simpl. rewrite IH.
    destruct (decide (k' = k0)), (decide (k' = k)); congruence.
Qed.

Lemma dget_ddel_eq d k : dget (ddel d k) k = None.
Proof. rewrite dget_ddel. by case_decide. Qed.

Lemma dget_ddel_ne d k k' : k' ≠ k → dget (ddel d k) k' = dget d k'.
Proof. rewrite dget_ddel. by case_decide. Qed.

Lemma dget_None d k : dget d k = None ↔ k ∉ dkeys d.
Proof.
  unfold dkeys. induction d as [|[k0 v0] d IH]; simpl.
  - split; [intros _; apply not_elem_of_nil|done].
  - rewrite not_elem_of_cons, <-IH. case_decide; [subst; split; [done|by intros [? ?]]|tauto].
Qed.

Lemma dget_elem d k v : dget d k = Some v → (k, v) ∈ d.
Proof.
  induction d as [|[k0 v0] d IH]; simpl; [done|].
  case_decide; intros; simplify_eq; [left|right; eauto].
Qed.

Lemma elem_dget d k v : wf_dict d → (k, v) ∈ d → dget d k = Some v.
Proof.
  unfold wf_dict, dkeys. induction d as [|[k0 v0] d IH]; simpl; [by intros ? ?%not_elem_of_nil|].
  intros [Hk Hd]%NoDup_cons [E|Hin]%elem_of_cons.
  - simplify_eq. by rewrite decide_True.
  - rewrite decide_False; [by apply IH|]. intros ->. apply Hk.
    apply list_elem_of_fmap. by exists (k0, v).
Qed.

Lemma elem_of_dict d k v : wf_dict d → (k, v) ∈ d ↔ dget d k = Some v.
Proof. split; eauto using elem_dget, dget_elem. Qed.

Lemma elem_of_dvals d v : wf_dict d → v ∈ dvals d ↔ ∃ k, dget d k = Some v.
Proof.
  intros Hd. unfold dvals. rewrite list_elem_of_fmap. split.
  - intros [[k v'] [-> Hin]]. exists k. by apply elem_dget.
  - intros [k Hk]. exists (k, v). split; [done|by apply dget_elem].
Qed.

Lemma elem_of_dkeys d k : k ∈ dkeys d ↔ is_Some (dget d k).
Proof.
  destruct (dget d k) eqn:E.
  - split; [eauto|]. intros _. apply list_elem_of_fmap. exists (k, v).
    split; [done|by apply dget_elem].
  - apply dget_None in E. split; [done|]. by intros [? ?].
Qed.

Lemma dkeys_dset_present d k v : k ∈ dkeys d → dkeys (dset d k v) = dkeys d.
Proof.
  unfold dkeys. induction d as [|[k0 v0] d IH]; simpl; [by intros ?%not_elem_of_nil|].
  intros [->|Hk]%elem_of_cons; [by rewrite decide_True|].
  case_decide; simpl; [done|]. f_equal. by apply IH.
Qed.

Lemma dkeys_dset_new d k v : k ∉ dkeys d → dkeys (dset d k v) = dkeys d ++ [k].
Proof.
  unfold dkeys. induction d as [|[k0 v0] d IH]; simpl; [done|].
  intros [? ?]%not_elem_of_cons. rewrite decide_False; simpl; [|done]. f_equal. by apply IH.
Qed.

Lemma wf_dset d k v : wf_dict d → wf_dict (dset d k v).
Proof.
  unfold wf_dict. intros Hd. destruct (decide (k ∈ dkeys d)).
  { by rewrite dkeys_dset_present. }
  rewrite dkeys_dset_new by done. apply NoDup_app. split_and!; [done| |apply NoDup_singleton].
  intros x Hx ->%list_elem_of_singleton. done.
Qed.

Lemma wf_ddel d k : wf_dict d → wf_dict (ddel d k).
Proof.
  unfold wf_dict, dkeys, ddel. induction d as [|[k0 v0] d IH]; simpl; [done|].
  intros [Hk Hd]%NoDup_cons. rewrite filter_cons. case_decide; [|by apply IH].
  simpl. apply NoDup_cons. split; [|by apply IH].
  rewrite !list_elem_of_fmap in Hk |- *. intros ([k1 v1] & -> & Hin).
  apply Hk. exists (k1, v1). split; [done|]. by apply list_elem_of_filter in Hin as [_ ?].
Qed.

Lemma dset_new d k v : dget d k = None → dset d k v = d ++ [(k, v)].
Proof. induction d as [|[k0 v0] d IH]; simpl; [done|]. case_decide; [done|]. intros. by rewrite IH. Qed.

Lemma dset_dset d k v v' : dset (dset d k v) k v' = dset d k v'.
Proof.
  induction d as [|[k0 v0] d IH]; simpl; [by case_decide|].
  case_decide; simpl; [by rewrite decide_True|]. rewrite decide_False by done. by rewrite IH.
Qed.

Lemma dset_same d k v : dget d k = Some v → dset d k v = d.
Proof. induction d as [|[k0 v0] d IH]; simpl; [done|]. case_decide; intros; simplify_eq; [done|by rewrite IH]. Qed.

Lemma ddel_cons_eq d k v : ddel ((k, v) :: d) k = ddel d k.
Proof. unfold ddel. by rewrite filter_cons_False by (simpl; tauto). Qed.

Lemma ddel_cons_ne d k k' v : k' ≠ k → ddel ((k', v) :: d) k = (k', v) :: ddel d k.
Proof. intros. unfold ddel. by rewrite filter_cons_True. Qed.

Lemma ddel_absent d k : dget d k = None → ddel d k = d.
Proof.
  induction d as [|[k0 v0] d IH]; simpl; [done|]. case_decide; [done|]. intros.
  rewrite ddel_cons_ne by done. by rewrite IH.
Qed.

Lemma ddel_dset_new d k v : dget d k = None → ddel (dset d k v) k = d.
Proof.
  induction d as [|[k0 v0] d IH]; simpl; intros.
  - by rewrite ddel_cons_eq.
  - case_decide; [done|]. rewrite ddel_cons_ne by done. by rewrite IH.
Qed.

Lemma ddel_dset_eq d k v : ddel (dset d k v) k = ddel d k.
Proof.
  induction d as [|[k0 v0] d IH]; simpl; [by rewrite ddel_cons_eq|].
  case_decide; [subst; by rewrite !ddel_cons_eq|]. rewrite !ddel_cons_ne by done. by rewrite IH.
Qed.

Lemma ddel_dset_ne d k k' v : k' ≠ k → ddel (dset d k' v) k = dset (ddel d k) k' v.
Proof.
  intros Hk. induction d as [|[k0 v0] d IH]; simpl; [by rewrite ddel_cons_ne|].
  destruct (decide (k0 = k)) as [->|Hn].
  - rewrite decide_False by done. by rewrite !ddel_cons_eq.
  - rewrite (ddel_cons_ne d) by done. simpl. case_decide.
    + subst. by rewrite ddel_cons_ne.
    + rewrite ddel_cons_ne by done. by rewrite IH.
Qed.

Lemma dset_dset_ne d k k' v v' :
  k' ≠ k → is_Some (dget d k) → dset (dset d k' v') k v = dset (dset d k v) k' v'.
Proof.
  intros Hk. induction d as [|[k0 v0] d IH]; simpl; [by intros [? ?]|].
  destruct (decide (k = k0)) as [->|].
  - intros _. rewrite decide_False by done. simpl. by rewrite decide_True, decide_False.
  - intros Hs. destruct (decide (k' = k0)); simpl.
    + rewrite decide_False by done. by rewrite decide_True.
    + rewrite !decide_False by done. by rewrite IH.
Qed.

(** Two dicts with the same items have the same lookups. *)
Lemma dget_permutation d d' k : wf_dict d → d ≡ₚ d' → dget d k = dget d' k.
Proof.
  intros Hd Hp. assert (wf_dict d') as Hd' by (unfold wf_dict, dkeys; by rewrite <-Hp).
  apply option_eq. intros v. by rewrite <-!elem_of_dict, Hp.
Qed.

Lemma dset_present d k v : is_Some (dget d k) → length (dset d k v) = length d.
Proof.
  induction d as [|[k0 v0] d IH]; simpl; [by intros [? ?]|].
  case_decide; intros; simpl; [done|]. by rewrite IH.
Qed.

Lemma wf_filter (P : K * V → Prop) `{∀ x, Decision (P x)} d : wf_dict d → wf_dict (filter P d).
Proof.
  unfold wf_dict, dkeys. intros Hd. eapply sublist_NoDup; [exact Hd|].
  apply fmap_sublist, sublist_filter.
Qed.

Lemma dget_filter (P : K * V → Prop) `{∀ x, Decision (P x)} d k v :
  wf_dict d → dget (filter P d) k = Some v ↔ dget d k = Some v ∧ P (k, v).
Proof.
  intros Hd. rewrite <-!elem_of_dict by auto using wf_filter. rewrite list_elem_of_filter. tauto.
Qed.

(** A mapped dict: [{k: f(v) for k, v in d.items()}]. *)
Definition dmap (f : V → V) (d : list (K * V)) : list (K * V) :=
  (λ p, (p.1, f p.2)) <$> d.

Lemma dkeys_dmap f d : dkeys (dmap f d) = dkeys d.
Proof. unfold dkeys, dmap. by rewrite <-list_fmap_compose. Qed.

Lemma wf_dmap f d : wf_dict d → wf_dict (dmap f d).
Proof. unfold wf_dict. by rewrite dkeys_dmap. Qed.

Lemma dget_dmap f d k : dget (dmap f d) k = f <$> dget d k.
Proof. induction d as [|[k0 v0] d IH]; simpl; [done|]. by case_decide. Qed.

(** Counting the values that satisfy a test: [sum(1 for v in d.values() if P v)]. *)
Fixpoint dcount (P : V → bool) (d : list (K * V)) : Z :=
  match d with
  | [] => 0
  | (_, v) :: d' => (if P v then 1 else 0) + dcount P d'
  end.

Lemma dcount_dset_le P d k v :
  (∀ v0, dget d k = Some v0 → P v = true → P v0 = true) →
  is_Some (dget d k) → (dcount P (dset d k v) ≤ dcount P d)%Z.
Proof.
  intros HP Hk. induction d as [|[k0 v0] d IH]; simpl in *; [by destruct Hk|].
  case_decide; simpl.
  - specialize (HP v0 eq_refl). destruct (P v), (P v0); lia.
  - specialize (IH HP Hk). lia.
Qed.

Lemma dcount_dset_new P d k v :
  dget d k = None → dcount P (dset d k v) = (dcount P d + if P v then 1 else 0)%Z.
Proof.
  intros Hk. induction d as [|[k0 v0] d IH]; simpl in *; [lia|].
  case_decide; simpl; [done|]. rewrite IH by done. lia.
Qed.

Lemma dcount_ddel_le P d k : (dcount P (ddel d k) ≤ dcount P d)%Z.
Proof.
  unfold ddel. induction d as [|[k0 v0] d IH]; simpl; [done|].
  destruct (decide (k0 = k)) as [->|].
  - rewrite filter_cons_False by (simpl; tauto). destruct (P v0); lia.
  - rewrite filter_cons_True by done. simpl. lia.
Qed.

Lemma dcount_dmap_le P f d :
  (∀ v, v ∈ dvals d → P (f v) = true → P v = true) → (dcount P (dmap f d) ≤ dcount P d)%Z.
Proof.
  unfold dmap, dvals. intros HP. induction d as [|[k0 v0] d IH]; csimpl in *; [done|].
  assert (P (f v0) = true → P v0 = true) as H0 by (apply HP; left).
  assert (∀ v, v ∈ d.*2 → P (f v) = true → P v = true) as HP'
    by (intros; eapply HP; [by right|done]).
  specialize (IH HP'). destruct (P (f v0)), (P v0); lia.
Qed.

(** The keys of the counted values. *)
Definition counted_keys (P : V → bool) (d : list (K * V)) : list K :=
  dkeys (filter (λ p, P p.2 = true) d).

Lemma counted_keys_length P d : dcount P d = Z.of_nat (length (counted_keys P d)).
Proof.
  unfold counted_keys, dkeys. induction d as [|[k v] d IH]; [done|]. cbn [dcount].
  rewrite filter_cons. destruct (decide (P (k, v).2 = true)) as [E|E]; cbn in E.
  - rewrite E. csimpl. lia.
  - apply not_true_is_false in E. rewrite E. lia.
Qed.

Lemma elem_of_counted_keys P d k :
  wf_dict d → k ∈ counted_keys P d ↔ ∃ v, dget d k = Some v ∧ P v = true.
Proof.
  intros Hd. unfold counted_keys, dkeys. rewrite list_elem_of_fmap. split.
  - intros ([k' v] & -> & [Hp Hin]%list_elem_of_filter). exists v. split; [|done].
    by apply elem_dget.
  - intros (v & Hk & Hv). exists (k, v). split; [done|].
    apply list_elem_of_filter. split; [done|by apply dget_elem].
Qed.

Lemma counted_keys_NoDup P d : wf_dict d → NoDup (counted_keys P d).
Proof.
  unfold wf_dict, counted_keys, dkeys. induction d as [|[k v] d IH]; csimpl; [done|].
  intros [Hk Hd]%NoDup_cons. rewrite filter_cons. case_decide; [|by apply IH].
  csimpl. apply NoDup_cons. split; [|by apply IH].
  rewrite list_elem_of_fmap. intros (p & -> & [_ Hin]%list_elem_of_filter).
  apply Hk. rewrite list_elem_of_fmap. eauto.
Qed.

(** A table counts at most what another counts, and the keys it adds. *)
Lemma dcount_keys_le P d d' (extra : list K) :
  wf_dict d → wf_dict d' →
  (∀ k v', dget d' k = Some v' → P v' = true →
     k ∈ extra ∨ ∃ v, dget d k = Some v ∧ P v = true) →
  (dcount P d' ≤ dcount P d + Z.of_nat (length extra))%Z.
Proof.
  intros Hd Hd' Hk. rewrite !counted_keys_length.
  assert (counted_keys P d' ⊆+ extra ++ counted_keys P d) as Hsub.
  { apply NoDup_submseteq; [by apply counted_keys_NoDup|].
    intros k (v' & Hv' & Hp)%elem_of_counted_keys; [|done]. apply elem_of_app.
    destruct (Hk k v' Hv' Hp) as [?|?]; [by left|right]. by apply elem_of_counted_keys. }
  apply submseteq_length in Hsub. rewrite length_app in Hsub. lia.
Qed.
End dict.

(** Looking up an updated dict. *)
Create HintDb pydict.
Create Rewrite HintDb pydict.
#[export] Hint Rewrite @dget_dset_eq @dget_ddel_eq @dget_dmap : pydict.
#[export] Hint Resolve wf_nil wf_dset wf_ddel wf_dmap : pydict.
