(* ===== verification/Json.v ===== *)
(** * JSON values and Python's coercions on them

    What [json.load] hands to the code: an inductive of the JSON value types
    Python distinguishes.  A JSON object is a dict (see [PyDict]).  A number
    with a fraction or an exponent is a [JFloat], held in millionths, so that a
    clock reading and a float read from a file have one unit.

    Casa reads untrusted rows with [str(v)], [float(v)], [int(v)] and
    [bool(v)].  The text side of the first three (the [repr] of a non-string,
    and the numerals Python's parsers accept) is an argument of the model, the
    class [PyText]; every theorem holds for all of its instances. *)

From S2P Require Import Prelude PyDict.

#[warnings="-register-all"]
Inductive json :=
  | JNull
  | JBool (b : bool)
  | JInt (z : Z)
  | JFloat (z : Z)
  | JStr (s : string)
  | JList (l : list json)
  | JObj (l : list (string * json)).

#[export] Instance json_eq_dec : EqDecision json.
Proof.
  refine (fix go (x y : json) : Decision (x = y) :=
    let _ : EqDecision json := @go in
    match x, y with
    | JNull, JNull => left eq_refl
    | JBool a, JBool b => cast_if (decide (a = b))
    | JInt a, JInt b => cast_if (decide (a = b))
    | JFloat a, JFloat b => cast_if (decide (a = b))
    | JStr a, JStr b => cast_if (decide (a = b))
    | JList a, JList b => cast_if (decide (a = b))
    | JObj a, JObj b => cast_if (decide (a = b))
    | _, _ => right _
    end); repeat match goal with H : EqDecision json |- _ => clear H end; clear go; abstract congruence.
Defined.

Class PyText := {
  repr_text : json → string;            (** [str(v)] of a value that is not a [str] *)
  float_of_text : string → option Z;    (** [float(s)], in millionths *)
  int_of_text : string → option Z       (** [int(s)] *)
}.

(** [row.get(k)]: [None] and an absent key are the same answer. *)
Definition obj_get (row : list (string * json)) (k : string) : json :=
  default JNull (dget row k).

(** [row[k]] *)
Definition obj_item (row : list (string * json)) (k : string) : outcome json :=
  match dget row k with Some v => Ok v | None => Raise KeyError end.

(** [bool(v)] *)
Definition truthy (v : json) : bool :=
  match v with
  | JNull => false
  | JBool b => b
  | JInt z | JFloat z => negb (z =? 0)%Z
  | JStr s => str_true s
  | JList l => negb (bool_decide (l = []))
  | JObj l => negb (bool_decide (l = []))
  end.

Section coercions.
Context `{PyText}.

(** [str(v)] *)
Definition to_str (v : json) : string :=
  match v with JStr s => s | _ => repr_text v end.

(** [float(v)] *)
Definition to_float (v : json) : outcome Z :=
  match v with
  | JInt z => Ok (seconds z)
  | JFloat z => Ok z
  | JBool b => Ok (if b then seconds 1 else 0%Z)
  | JStr s => match float_of_text s with Some z => Ok z | None => Raise ValueError end
  | _ => Raise TypeError
  end.

(** [int(v)]: a float is truncated towards zero. *)
Definition to_int (v : json) : outcome Z :=
  match v with
  | JInt z => Ok z
  | JFloat z => Ok (Z.quot z 1000000)
  | JBool b => Ok (if b then 1 else 0)%Z
  | JStr s => match int_of_text s with Some z => Ok z | None => Raise ValueError end
  | _ => Raise TypeError
  end.
End coercions.

(** [None if v is None else JStr v] and back. *)
Definition json_of_opt_str (o : option string) : json :=
  match o with Some s => JStr s | None => JNull end.
Definition json_of_opt_float (o : option Z) : json :=
  match o with Some z => JFloat z | None => JNull end.

(** A concrete reading of the text side, used to evaluate examples: non-strings
    print as nothing and no numeral is accepted. *)
Definition no_text : PyText :=
  {| repr_text := λ _, ""; float_of_text := λ _, None; int_of_text := λ _, None |}.

(** Look up the literal keys of a literal row. *)
Ltac literal_lookup row k :=
  lazymatch row with
  | (k, ?v) :: _ => constr:(Some v)
  | _ :: ?row' => literal_lookup row' k
  | [] => lazymatch type of row with list (_ * ?V) => constr:(@None V) end
  end.
Ltac row_lookups :=
  unfold obj_get, obj_item;
  repeat match goal with
  | |- context [dget ?row ?k] =>
      let r := literal_lookup row k in change (dget row k) with r
  end;
  cbn [default from_option id].
