(* ===== verification/JsonOps.v ===== *)
(** * Python's generic operations on JSON values

    [==], [<], [sorted], [min], iteration and [dict(...)], as Python applies them
    to whatever a row of a file holds.  Comparing values of incomparable types
    raises [TypeError]; numbers of all three kinds compare by value. *)

From S2P Require Import Prelude PyDict Json.
#[local] Open Scope Z_scope.

(** The value of a number, in millionths. *)
Definition num_of (v : json) : option Z :=
  match v with
  | JBool b => Some (if b then seconds 1 else 0)
  | JInt z => Some (seconds z)
  | JFloat z => Some z
  | _ => None
  end.

(** [x == y] *)
Fixpoint py_eq (x y : json) {struct x} : bool :=
  match x, y with
  | JNull, JNull => true
  | JStr a, JStr b => bool_decide (a = b)
  | JList a, JList b =>
    (fix eqs (a b : list json) : bool :=
       match a, b with
       | [], [] => true
       | x :: a', y :: b' => py_eq x y && eqs a' b'
       | _, _ => false
       end) a b
  | JObj a, JObj b =>
    (length a =? length b)%nat
    && (fix eqs (a : list (string * json)) : bool :=
          match a with
          | [] => true
          | (k, v) :: a' => match dget b k with Some w => py_eq v w | None => false end && eqs a'
          end) a
  | _, _ => match num_of x, num_of y with Some a, Some b => a =? b | _, _ => false end
  end.

(** [x < y] *)
Fixpoint py_lt (x y : json) {struct x} : outcome bool :=
  match x, y with
  | JStr a, JStr b => Ok (String.ltb a b)
  | JList a, JList b =>
    (fix lts (a b : list json) : outcome bool :=
       match a, b with
       | _, [] => Ok false
       | [], _ :: _ => Ok true
       | x :: a', y :: b' => if py_eq x y then lts a' b' else py_lt x y
       end) a b
  | _, _ => match num_of x, num_of y with Some a, Some b => Ok (a <? b) | _, _ => Raise TypeError end
  end.

(** [sorted(l)], as the stable insertion of each value before the first that it
    is less than.  Any order of comparisons gives this result, and raises when two
    of the values are not comparable. *)
Fixpoint insert_sorted (x : json) (l : list json) : outcome (list json) :=
  match l with
  | [] => Ok [x]
  | y :: l' =>
    let* less := py_lt x y in
    if less : bool then Ok (x :: l) else let* r := insert_sorted x l' in Ok (y :: r)
  end.

Fixpoint sort_onto (l acc : list json) : outcome (list json) :=
  match l with
  | [] => Ok acc
  | x :: l' => let* acc := insert_sorted x acc in sort_onto l' acc
  end.

Definition sorted_json (l : list json) : outcome (list json) := sort_onto l [].

(** [min(l, key=key)] of [x :: l]: the first of the least. *)
Fixpoint py_min {A} (key : A → json) (x : A) (l : list A) : outcome A :=
  match l with
  | [] => Ok x
  | y :: l' => let* less := py_lt (key y) (key x) in py_min key (if less : bool then y else x) l'
  end.

(** [list(v)] *)
Fixpoint chars (s : string) : list json :=
  match s with EmptyString => [] | String c s' => JStr (String c "") :: chars s' end.

Definition json_iter (v : json) : outcome (list json) :=
  match v with
  | JList l => Ok l
  | JStr s => Ok (chars s)
  | JObj l => Ok (JStr <$> dkeys l)
  | _ => Raise TypeError
  end.

(** [list(v or ())] *)
Definition json_iter_or_empty (v : json) : outcome (list json) :=
  if truthy v then json_iter v else Ok [].

(** A dict key or set element: lists and dicts are not hashable. *)
Definition hashed (v : json) : outcome json :=
  match v with JList _ | JObj _ => Raise TypeError | _ => Ok v end.

(** [v or d] *)
Definition json_or (v d : json) : json := if truthy v then v else d.

(** [dict(v)]: an object, or a sequence of key and value pairs.  A pair whose key
    is not a string is outside the model, in which the keys of a dict read from a
    file are strings; it is refused here. *)
Fixpoint dict_of_pairs (l : list json) (acc : list (string * json)) : outcome (list (string * json)) :=
  match l with
  | [] => Ok acc
  | p :: l' =>
    let* kv := json_iter p in
    match kv with
    | [JStr k; v] => dict_of_pairs l' (dset acc k v)
    | [_; _] => Raise TypeError
    | _ => Raise ValueError
    end
  end.

Definition dict_of (v : json) : outcome (list (string * json)) :=
  match v with
  | JObj l => Ok l
  | _ => let* l := json_iter v in dict_of_pairs l []
  end.

(** [sorted] of strings. *)
Definition string_le (a b : string) : Prop := String.leb a b = true.
#[export] Instance string_le_dec a b : Decision (string_le a b).
Proof. unfold string_le. apply _. Defined.
Definition sorted_strings (l : list string) : list string := merge_sort string_le l.

(** The order that [json.dumps(v, sort_keys=True)] writes the keys in. *)
Fixpoint insert_key {V} (k : string) (v : V) (l : list (string * V)) : list (string * V) :=
  match l with
  | [] => [(k, v)]
  | (k', v') :: l' => if String.leb k k' then (k, v) :: l else (k', v') :: insert_key k v l'
  end.

Fixpoint sort_keys (v : json) : json :=
  match v with
  | JList l => JList (map sort_keys l)
  | JObj l => JObj (fold_right (λ p acc, insert_key p.1 (sort_keys p.2) acc) [] l)
  | _ => v
  end.

(** ** Laws *)

Lemma py_eq_refl x : (∀ l, x ≠ JObj l) → (∀ l, x ≠ JList l) → py_eq x x = true.
Proof.
  destruct x; intros H1 H2; cbn; try naive_solver; rewrite ?Z.eqb_refl; try done.
  by rewrite bool_decide_true.
Qed.

Lemma py_eq_int (a b : Z) : py_eq (JInt a) (JInt b) = bool_decide (a = b).
Proof.
  cbn. unfold seconds. case_bool_decide; subst; [by rewrite Z.eqb_refl|].
  apply Z.eqb_neq. lia.
Qed.

Lemma py_lt_int (a b : Z) : py_lt (JInt a) (JInt b) = Ok (a <? b).
Proof.
  cbn. unfold seconds. f_equal. destruct (Z.ltb_spec a b); [apply Z.ltb_lt|apply Z.ltb_ge]; lia.
Qed.

Lemma map_outcome_spec {A B} (f : A → outcome B) (g : A → B) l :
  (∀ x, x ∈ l → f x = Ok (g x)) → map_outcome f l = Ok (g <$> l).
Proof.
  induction l as [|x l IH]; intros H; [done|]. cbn. rewrite (H x) by left. cbn.
  rewrite IH; [done|]. intros y Hy. apply H. by right.
Qed.

(** Sorting integers. *)
Lemma insert_sorted_ints x l :
  Sorted Z.le l →
  ∃ l', insert_sorted (JInt x) (JInt <$> l) = Ok (JInt <$> l') ∧ l' ≡ₚ x :: l ∧ Sorted Z.le l'
    ∧ (∀ y, HdRel Z.le y l → y ≤ x → HdRel Z.le y l').
Proof.
  induction l as [|z l IH]; intros Hs.
  { exists [x]. repeat split; auto. }
  cbn [fmap list_fmap insert_sorted]. rewrite py_lt_int. unfold mbind, outcome_bind.
  destruct (Z.ltb_spec x z).
  - exists (x :: z :: l). split_and!; [done|done| |by constructor].
    constructor; [done|]. constructor. lia.
  - apply Sorted_inv in Hs as [Hs Hz]. destruct (IH Hs) as (l' & -> & Hp & Hs' & Hh).
    exists (z :: l'). split_and!; [done| | |].
    + rewrite Hp. apply Permutation_swap.
    + constructor; [done|]. apply Hh; [done|lia].
    + intros y Hy _. inversion Hy. by constructor.
Qed.

Lemma sort_onto_ints l acc :
  Sorted Z.le acc →
  ∃ l', sort_onto (JInt <$> l) (JInt <$> acc) = Ok (JInt <$> l') ∧ l' ≡ₚ l ++ acc ∧ Sorted Z.le l'.
Proof.
  revert acc. induction l as [|x l IH]; intros acc Hs; [by exists acc|].
  destruct (insert_sorted_ints x acc Hs) as (a' & E & Hp & Hs' & _).
  destruct (IH a' Hs') as (l' & E' & Hp' & Hl').
  exists l'. cbn [fmap list_fmap sort_onto]. rewrite E. cbn [mbind outcome_bind].
  split_and!; [done| |done]. by rewrite Hp', Hp, <-Permutation_middle.
Qed.

Lemma sorted_ints l :
  ∃ l', sorted_json (JInt <$> l) = Ok (JInt <$> l') ∧ l' ≡ₚ l ∧ Sorted Z.le l'.
Proof.
  destruct (sort_onto_ints l [] (Sorted_nil _)) as (l' & E & Hp & Hs).
  exists l'. by rewrite app_nil_r in Hp.
Qed.

Lemma dget_insert_key {V} k (v : V) l k' :
  dget (insert_key k v l) k' = if decide (k' = k) then Some v else dget l k'.
Proof.
  assert (∀ a, String.leb a a = true) as Hrefl.
  { intros a. by destruct (String.leb_total a a). }
  induction l as [|[k0 v0] l IH]; cbn; [by case_decide|].
  destruct (String.leb k k0) eqn:E; cbn; [done|]. rewrite IH.
  destruct (decide (k' = k0)) as [->|]; [|done].
  rewrite decide_False; [done|]. intros ->. by rewrite Hrefl in E.
Qed.

Definition sorted_row (l : list (string * json)) : list (string * json) :=
  match sort_keys (JObj l) with JObj l' => l' | _ => [] end.

Lemma sort_keys_obj l : sort_keys (JObj l) = JObj (sorted_row l).
Proof. done. Qed.

Lemma dget_sorted_row l k : dget (sorted_row l) k = sort_keys <$> dget l k.
Proof.
  unfold sorted_row. cbn. induction l as [|[k0 v0] l IH]; cbn; [done|].
  rewrite dget_insert_key, IH. by case_decide.
Qed.

Lemma obj_get_sorted_row l k : obj_get (sorted_row l) k = sort_keys (obj_get l k).
Proof. unfold obj_get. rewrite dget_sorted_row. by destruct (dget l k). Qed.

(** Induction on a value and the values inside it. *)
Section induction.
Context (P : json → Prop).
Context (Hnull : P JNull) (Hbool : ∀ b, P (JBool b)) (Hint : ∀ z, P (JInt z)) (Hfloat : ∀ z, P (JFloat z)).
Context (Hstr : ∀ s, P (JStr s)) (Hlist : ∀ l, Forall P l → P (JList l)).
Context (Hobj : ∀ l, Forall (λ p, P p.2) l → P (JObj l)).

Fixpoint json_induction (v : json) : P v :=
  match v with
  | JNull => Hnull
  | JBool b => Hbool b
  | JInt z => Hint z
  | JFloat z => Hfloat z
  | JStr s => Hstr s
  | JList l =>
    Hlist l ((fix go l : Forall P l :=
      match l with
      | [] => Forall_nil_2 _
      | x :: l' => Forall_cons_2 _ _ _ (json_induction x) (go l')
      end) l)
  | JObj l =>
    Hobj l ((fix go l : Forall (λ p, P p.2) l :=
      match l with
      | [] => Forall_nil_2 _
      | (k, x) :: l' => Forall_cons_2 (λ p, P p.2) (k, x) _ (json_induction x) (go l')
      end) l)
  end.
End induction.

(** ** Sorted keys *)

Lemma string_le_total a b : string_le a b ∨ string_le b a.
Proof. apply String.leb_total. Qed.

Definition keys_sorted {V} (l : list (string * V)) : Prop := Sorted string_le l.*1.

Lemma insert_key_sorted {V} k (v : V) l : keys_sorted l → keys_sorted (insert_key k v l).
Proof.
  assert (∀ a l, HdRel string_le a l.*1 → string_le a k → HdRel string_le a (insert_key k v l).*1) as Hhd.
  { intros a [|[k0 v0] l'] Ha Hk; cbn; [by constructor|]. destruct (String.leb k k0); constructor; [done|].
    by inversion Ha. }
  unfold keys_sorted. induction l as [|[k0 v0] l IH]; cbn; intros Hs; [by repeat constructor|].
  apply Sorted_inv in Hs as [Hs Hh]. destruct (String.leb k k0) eqn:E; cbn.
  - repeat constructor; [done|done|exact E].
  - constructor; [by apply IH|]. apply Hhd; [done|]. destruct (string_le_total k k0) as [Hk|Hk]; [|done].
    unfold string_le in Hk. congruence.
Qed.

Lemma insert_key_front {V} k (v : V) l : keys_sorted ((k, v) :: l) → insert_key k v l = (k, v) :: l.
Proof.
  destruct l as [|[k0 v0] l]; [done|]. intros [_ Hh]%Sorted_inv. inversion Hh as [|? ? Hk]; subst.
  unfold string_le in Hk. cbn in *. by rewrite Hk.
Qed.

Definition sort_pairs (l : list (string * json)) : list (string * json) :=
  fold_right (λ p acc, insert_key p.1 (sort_keys p.2) acc) [] l.

Lemma sort_pairs_sorted l : keys_sorted (sort_pairs l).
Proof. induction l as [|p l IH]; [by constructor|]. by apply insert_key_sorted. Qed.

Lemma sort_pairs_fixed l :
  keys_sorted l → Forall (λ p, sort_keys p.2 = p.2) l → sort_pairs l = l.
Proof.
  induction l as [|[k v] l IH]; [done|]. intros Hs [Hv Hl]%Forall_cons. cbn in *.
  pose proof Hs as [Hs' _]%Sorted_inv. rewrite Hv. cbn in IH. unfold sort_pairs in IH.
  rewrite IH by done. by apply insert_key_front.
Qed.

Lemma Forall_insert_key {V} (Q : string * V → Prop) k v l :
  Q (k, v) → Forall Q l → Forall Q (insert_key k v l).
Proof.
  intros Hk. induction l as [|[k0 v0] l IH]; cbn; [by constructor|]. intros [H0 Hl]%Forall_cons.
  destruct (String.leb k k0); repeat constructor; auto.
Qed.

Lemma sort_keys_idemp v : sort_keys (sort_keys v) = sort_keys v.
Proof.
  induction v as [| | | | |l IH|l IH] using json_induction; try done.
  - cbn. f_equal. induction IH as [|x l Hx Hl IHl]; cbn; congruence.
  - change (sort_keys (JObj l)) with (JObj (sort_pairs l)).
    change (JObj (sort_pairs (sort_pairs l)) = JObj (sort_pairs l)). f_equal.
    apply sort_pairs_fixed; [apply sort_pairs_sorted|].
    induction IH as [|[k v] l Hv Hl IHl]; [constructor|]. by apply Forall_insert_key.
Qed.

Lemma sorted_row_idemp l : sorted_row (sorted_row l) = sorted_row l.
Proof.
  pose proof (sort_keys_idemp (JObj l)) as E. change (sort_keys (JObj l)) with (JObj (sorted_row l)) in E.
  change (JObj (sorted_row (sorted_row l)) = JObj (sorted_row l)) in E. congruence.
Qed.

Lemma insert_key_perm {V} k (v : V) l : insert_key k v l ≡ₚ (k, v) :: l.
Proof.
  induction l as [|[k0 v0] l IH]; cbn; [done|]. destruct (String.leb k k0); [done|].
  rewrite IH. apply Permutation_swap.
Qed.

Lemma sorted_row_perm l : sorted_row l ≡ₚ (λ p, (p.1, sort_keys p.2)) <$> l.
Proof.
  change (sort_pairs l ≡ₚ (λ p, (p.1, sort_keys p.2)) <$> l).
  induction l as [|p l IH]; [done|]. cbn. rewrite insert_key_perm. by f_equiv.
Qed.

(** What sorting does not change. *)
Lemma sort_keys_str v s : sort_keys v = JStr s ↔ v = JStr s.
Proof. destruct v; cbn; split; congruence. Qed.
Lemma sort_keys_null v : sort_keys v = JNull ↔ v = JNull.
Proof. destruct v; cbn; split; congruence. Qed.
