(* ===== verification/PyStr.v ===== *)
(** * Text

    The [str] operations and the pieces of regular expressions that several
    components use, with their laws: maximal runs of a class of characters, literal
    prefixes, case folding and search of ASCII text, and decimal numbers.  A
    character is a code point below 256. *)

From S2P Require Import Prelude.

Definition is_ascii (s : string) : bool :=
  forallb (λ c, Ascii.nat_of_ascii c <? 128)%nat (String.list_ascii_of_string s).

Definition digit (c : Ascii.ascii) : bool :=
  let n := Ascii.nat_of_ascii c in ((48 <=? n) && (n <=? 57))%nat.
Definition lower_hex (c : Ascii.ascii) : bool :=
  let n := Ascii.nat_of_ascii c in digit c || ((97 <=? n) && (n <=? 102))%nat.

(** The longest prefix of characters that pass a test, and the rest. *)
Fixpoint span (P : Ascii.ascii → bool) (s : string) : string * string :=
  match s with
  | String c s' => if P c then let '(a, b) := span P s' in (String c a, b) else ("", s)
  | EmptyString => ("", "")
  end.

(** [s] without the prefix [p]. *)
Fixpoint after_prefix (p s : string) : option string :=
  match p, s with
  | EmptyString, _ => Some s
  | String a p', String b s' => if bool_decide (a = b) then after_prefix p' s' else None
  | _, EmptyString => None
  end.

(** The end of a match of [$]: the end, or a final newline. *)
Definition newline : string := String (Ascii.ascii_of_nat 10) "".
Definition at_end (s : string) : bool := bool_decide (s = "") || bool_decide (s = newline).

(** [int(digits)] *)
Definition int_of (s : string) : Z :=
  foldl (λ acc c, (acc * 10 + Z.of_nat (Ascii.nat_of_ascii c - 48))%Z) 0%Z
    (String.list_ascii_of_string s).

(** The decimal digits of a non-negative integer: [f"{t}"]. *)
Fixpoint digits_of (fuel : nat) (n : Z) (acc : string) : string :=
  match fuel with
  | 0 => acc
  | S f =>
    let acc := String (Ascii.ascii_of_nat (48 + Z.to_nat (n mod 10))) acc in
    if (n <? 10)%Z then acc else digits_of f (n / 10) acc
  end.
Definition show (n : Z) : string := digits_of (S (Z.to_nat (Z.log2 (Z.max 1 n)))) n "".

(** [str.lower] of ASCII letters. *)
Definition lower_char (c : Ascii.ascii) : Ascii.ascii :=
  let n := Ascii.nat_of_ascii c in
  if ((65 <=? n) && (n <=? 90))%nat then Ascii.ascii_of_nat (n + 32) else c.
Fixpoint lower (s : string) : string :=
  match s with String c s => String (lower_char c) (lower s) | EmptyString => "" end.

(** [p in s] *)
Definition contains (p s : string) : bool := bool_decide (is_Some (String.index 0 p s)).

(** [int(s)]: surrounding space, a sign, and digits with single underscores
    between them, at most 4300 of them. *)
Fixpoint int_digits (s : string) (after_digit : bool) : option string :=
  match s with
  | EmptyString => if after_digit then Some "" else None
  | String c s =>
    if digit c then String c <$> int_digits s true
    else if bool_decide (c = Ascii.ascii_of_nat 95) && after_digit then int_digits s false
    else None
  end.
Definition py_int (s : string) : option Z :=
  let s := strip s in
  let '(negative, digits) :=
    match after_prefix "-" s with
    | Some r => (true, r)
    | None => (false, default s (after_prefix "+" s))
    end in
  match int_digits digits false with
  | Some ds => if (String.length ds <=? 4300)%nat then Some (if negative then - int_of ds else int_of ds)%Z else None
  | None => None
  end.

(** ** Laws *)

Definition all_chars (P : Ascii.ascii → bool) (s : string) : bool :=
  forallb P (String.list_ascii_of_string s).

Lemma app_empty b : "" +:+ b = b.
Proof. done. Qed.
Lemma app_cons c a b : String c a +:+ b = String c (a +:+ b).
Proof. done. Qed.
Create Rewrite HintDb text.
#[export] Hint Rewrite app_empty app_cons : text.

Lemma span_spec P s a b :
  span P s = (a, b) →
  s = a +:+ b ∧ all_chars P a = true ∧ match b with String c _ => P c = false | _ => True end.
Proof.
  revert a b. induction s as [|c s IH]; intros a b; cbn [span]; [by intros [= <- <-]|].
  destruct (P c) eqn:Hc; [|by intros [= <- <-]].
  destruct (span P s) as [a' b']. intros [= <- <-].
  destruct (IH _ _ eq_refl) as (-> & ? & ?). split_and!; [done| |done]. unfold all_chars in *. cbn. by rewrite Hc.
Qed.

Lemma span_app P a b :
  all_chars P a = true → match b with String c _ => P c = false | _ => True end →
  span P (a +:+ b) = (a, b).
Proof.
  induction a as [|c a IH]; unfold all_chars; cbn; autorewrite with text; intros Ha Hb.
  - destruct b as [|c b]; [done|]. cbn. by rewrite Hb.
  - apply andb_true_iff in Ha as [Hc Ha]. cbn. by rewrite Hc, IH.
Qed.

Lemma after_prefix_spec p s r : after_prefix p s = Some r ↔ s = p +:+ r.
Proof.
  revert s. induction p as [|a p IH]; intros s; autorewrite with text.
  { cbn. split; congruence. }
  destruct s as [|b s]; cbn; [split; discriminate|].
  destruct (bool_decide (a = b)) eqn:E; [apply bool_decide_eq_true in E|apply bool_decide_eq_false in E].
  - subst. rewrite IH. split; congruence.
  - split; [discriminate|congruence].
Qed.

Lemma string_app_assoc (a b c : string) : (a +:+ b) +:+ c = a +:+ b +:+ c.
Proof. induction a; autorewrite with text; congruence. Qed.

Lemma string_app_nil_r (s : string) : s +:+ "" = s.
Proof. induction s; autorewrite with text; congruence. Qed.

Lemma string_app_inj (a b c : string) : a +:+ b = a +:+ c → b = c.
Proof. induction a; autorewrite with text; [done|]. intros [= ?]. auto. Qed.

Lemma suffix_ne name sfx : sfx ≠ "" → name +:+ sfx ≠ name.
Proof.
  intros Hs E. apply Hs, (string_app_inj name). by rewrite E, string_app_nil_r.
Qed.

Lemma hex_ascii c : lower_hex c = true → (Ascii.nat_of_ascii c < 128)%nat.
Proof.
  unfold lower_hex, digit. intros [[_ H]%andb_true_iff|[_ H]%andb_true_iff]%orb_true_iff;
    apply Nat.leb_le in H; lia.
Qed.

Lemma all_chars_app P a b : all_chars P (a +:+ b) = all_chars P a && all_chars P b.
Proof.
  unfold all_chars. induction a; autorewrite with text; [done|]. cbn. by rewrite IHa, andb_assoc.
Qed.

Lemma all_chars_mono (P Q : Ascii.ascii → bool) s :
  (∀ c, P c = true → Q c = true) → all_chars P s = true → all_chars Q s = true.
Proof.
  unfold all_chars. intros HPQ. induction s; cbn; [done|].
  intros [? ?]%andb_true_iff. by rewrite HPQ, IHs.
Qed.

(** ** Decimal timestamps *)

Lemma int_of_acc s k :
  foldl (λ acc c, (acc * 10 + Z.of_nat (Ascii.nat_of_ascii c - 48))%Z) k (String.list_ascii_of_string s)
  = (k * 10 ^ Z.of_nat (String.length s) + int_of s)%Z.
Proof.
  unfold int_of. revert k. induction s as [|c s IH]; intros k; [cbn; lia|].
  cbn [String.list_ascii_of_string foldl String.length]. rewrite IH, (IH (0 * 10 + _)%Z).
  rewrite Nat2Z.inj_succ, Z.pow_succ_r by lia. lia.
Qed.

Lemma int_of_cons c s :
  int_of (String c s) =
  (Z.of_nat (Ascii.nat_of_ascii c - 48) * 10 ^ Z.of_nat (String.length s) + int_of s)%Z.
Proof. unfold int_of at 1. cbn [String.list_ascii_of_string foldl]. rewrite int_of_acc. lia. Qed.

Lemma digit_value d :
  (0 ≤ d < 10)%Z → Z.of_nat (Ascii.nat_of_ascii (Ascii.ascii_of_nat (48 + Z.to_nat d)) - 48) = d.
Proof. intros Hd. rewrite Ascii.nat_ascii_embedding by lia. lia. Qed.

Lemma digits_of_value fuel n acc :
  (0 ≤ n < 2 ^ Z.of_nat (S fuel))%Z →
  int_of (digits_of (S fuel) n acc) = (n * 10 ^ Z.of_nat (String.length acc) + int_of acc)%Z.
Proof.
  revert n acc. induction fuel as [|fuel IH]; intros n acc Hn.
  all: pose proof (digit_value (n mod 10) (Z.mod_pos_bound n 10 ltac:(lia))) as Hv.
  - change (2 ^ Z.of_nat 1)%Z with 2%Z in Hn. unfold digits_of.
    rewrite (proj2 (Z.ltb_lt n 10)) by lia. rewrite int_of_cons, Hv, Z.mod_small by lia. lia.
  - change (digits_of (S (S fuel)) n acc) with
      (let acc := String (Ascii.ascii_of_nat (48 + Z.to_nat (n mod 10))) acc in
       if (n <? 10)%Z then acc else digits_of (S fuel) (n / 10) acc).
    cbv zeta. destruct (n <? 10)%Z eqn:Hlt.
    + apply Z.ltb_lt in Hlt. rewrite int_of_cons, Hv, Z.mod_small by lia. lia.
    + apply Z.ltb_ge in Hlt. rewrite (Nat2Z.inj_succ (S fuel)), Z.pow_succ_r in Hn by lia.
      rewrite IH by (split; [apply Z.div_pos; lia|apply Z.div_lt_upper_bound; lia]).
      cbn [String.length]. rewrite int_of_cons, Hv, Nat2Z.inj_succ, Z.pow_succ_r by lia.
      pose proof (Z.div_mod n 10 ltac:(lia)). nia.
Qed.

(** The fuel of [show] is enough, and [int] reads back what it prints. *)
Lemma int_of_show n : (0 ≤ n)%Z → int_of (show n) = n.
Proof.
  intros Hn. unfold show. rewrite digits_of_value; [cbn; lia|]. split; [done|].
  pose proof (Z.log2_nonneg (Z.max 1 n)). pose proof (Z.log2_spec (Z.max 1 n) ltac:(lia)).
  rewrite Nat2Z.inj_succ, Z2Nat.id by done. lia.
Qed.

