(* ===== verification/PyNumbers.v ===== *)
(** * Numbers

    The arithmetic of [float] as an interface, with two instances: the rationals,
    for what an algorithm promises, and IEEE binary64, which is what Python
    computes with. *)

From Stdlib Require Import QArith SpecFloat.
From S2P Require Import Prelude.
#[local] Open Scope Z_scope.

(** ** Numbers *)

Class Num (F : Type) := {
  of_Z : Z → F;
  add : F → F → F;
  sub : F → F → F;
  mul : F → F → F;
  div : F → F → F;
  ltb : F → F → bool;
  leb : F → F → bool;
  trunc : F → outcome Z                (** [int(x)] *)
}.

#[export] Instance num_Q : Num Q := {|
  of_Z := inject_Z;
  add := Qplus; sub := Qminus; mul := Qmult; div := Qdiv;
  ltb := λ x y, negb (Qle_bool y x); leb := Qle_bool;
  trunc := λ x, Ok (Z.quot (Qnum x) (Zpos (Qden x)))
|}.

(** [float(z)] rounds to nearest; [int] of a float truncates, and raises on an
    infinity or a NaN. *)
Definition trunc64 (x : spec_float) : outcome Z :=
  match x with
  | S754_zero _ => Ok 0
  | S754_finite sg m e => let n := Z.shiftl (Zpos m) e in Ok (if sg then - n else n)
  | S754_infinity _ => Raise OverflowError
  | S754_nan => Raise ValueError
  end.

#[export] Instance num_binary64 : Num spec_float := {|
  of_Z := λ z, binary_normalize 53 1024 z 0 false;
  add := SFadd 53 1024; sub := SFsub 53 1024; mul := SFmul 53 1024; div := SFdiv 53 1024;
  ltb := SFltb; leb := SFleb;
  trunc := trunc64
|}.

(** Python's [max] and [min] of two numbers: the first unless the second is
    strictly greater, or smaller. *)
Definition pymax `{Num F} (a b : F) : F := if ltb a b then b else a.
Definition pymin `{Num F} (a b : F) : F := if ltb b a then b else a.

