(* ===== verification/SpecialistLimits.v ===== *)
(** * The specialist concurrency limiter

    [specialist_limits.py]: one global cap and one slot per scope.  Permits are
    objects that several owners hold and may all release, so they live in a store
    of the limiter, and a permit is its index there.  The theorem at the end is
    what the module promises its callers, whatever they do with their permits. *)

From stdpp Require Import gmap.
From S2P Require Import Prelude.
#[local] Open Scope Z_scope.

Definition _MAX_OUTPUT_CHARS : Z := 20000.

(** [text[:n]] *)
Definition str_take (n : Z) (text : string) : string := String.substring 0 (Z.to_nat n) text.

Definition truncate_output (text : string) : string * bool :=
  if _MAX_OUTPUT_CHARS <? Z.of_nat (String.length text)
  then (str_take _MAX_OUTPUT_CHARS text, true) else (text, false).

Record Permit := mkPermit { _scope : string; _released : bool }.

Record SpecialistLimiter := mkLimiter {
  _max_global : Z;
  _global_count : Z;
  _active_scopes : gset string;
  permits : list Permit               (** every [Permit] object ever made *)
}.

#[export] Instance permit_eta : Eta Permit := λ p, mkPermit (_scope p) (_released p).
#[export] Instance limiter_eta : Eta SpecialistLimiter := λ l,
  mkLimiter (_max_global l) (_global_count l) (_active_scopes l) (permits l).

(** [SpecialistLimiter(max_global)] *)
Definition new_limiter (max_global : Z) : outcome SpecialistLimiter :=
  if max_global <? 1 then Raise ValueError else Ok (mkLimiter max_global 0 ∅ []).

(** [try_acquire]: the answer is the permit's index, or [None] for busy. *)
Definition try_acquire (scope : string) : PyM SpecialistLimiter (option nat) :=
  let* l := get in
  if bool_decide (scope ∈ _active_scopes l) then mret None
  else if _max_global l <=? _global_count l then mret None
  else
    modify (λ l, l <| _active_scopes ::= λ s, {[scope]} ∪ s |>
                   <| _global_count ::= λ n, n + 1 |>
                   <| permits ::= λ ps, ps ++ [mkPermit scope false] |>) ;;;
    mret (Some (length (permits l))).

(** [SpecialistLimiter._release] *)
Definition _release (scope : string) (l : SpecialistLimiter) : SpecialistLimiter :=
  let l := l <| _active_scopes ::= λ s, s ∖ {[scope]} |> in
  if 0 <? _global_count l then l <| _global_count ::= λ n, n - 1 |> else l.

(** [Permit.release] *)
Definition release (p : nat) (l : SpecialistLimiter) : SpecialistLimiter :=
  match permits l !! p with
  | None => l
  | Some pm =>
    if _released pm then l
    else _release (_scope pm)
           (l <| permits ::= alter (λ pm, pm <| _released := true |>) p |>)
  end.

(** [in_flight] *)
Definition in_flight (l : SpecialistLimiter) : Z := _global_count l.

(** What callers do with a limiter. *)
Inductive limiter_call := Acquire (scope : string) | Release (p : nat).

Definition limiter_step (c : limiter_call) (l : SpecialistLimiter) : SpecialistLimiter :=
  match c with
  | Acquire scope => (try_acquire scope l).2
  | Release p => release p l
  end.

Definition limiter_run (cs : list limiter_call) (l : SpecialistLimiter) : SpecialistLimiter :=
  foldl (λ l c, limiter_step c l) l cs.

(** The scopes whose permits are out. *)
Definition held (ps : list Permit) : list string :=
  _scope <$> filter (λ p, _released p = false) ps.

Arguments held : simpl never.

(** ** The limiter's books *)

Record limiter_ok (l : SpecialistLimiter) : Prop := {
  books_count : _global_count l = Z.of_nat (length (held (permits l)));
  books_scopes : ∀ s, s ∈ _active_scopes l ↔ s ∈ held (permits l);
  books_unique : NoDup (held (permits l));
  books_cap : _global_count l ≤ _max_global l
}.

Lemma held_app ps qs : held (ps ++ qs) = held ps ++ held qs.
Proof. unfold held. by rewrite filter_app, fmap_app. Qed.

Lemma held_release ps p pm :
  ps !! p = Some pm → _released pm = false →
  held ps ≡ₚ _scope pm :: held (alter (λ pm, pm <| _released := true |>) p ps).
Proof.
  revert p. induction ps as [|q ps IH]; intros p Hp Hpm; [done|].
  destruct p as [|p]; simplify_eq/=.
  - unfold held. rewrite filter_cons_True by done. by rewrite filter_cons_False by done.
  - unfold held in *. rewrite !filter_cons. case_decide; csimpl; rewrite IH by done; [|done].
    apply Permutation_swap.
Qed.

Lemma new_limiter_ok n l : new_limiter n = Ok l → limiter_ok l ∧ _max_global l = n ∧ 1 ≤ n.
Proof.
  unfold new_limiter. destruct (Z.ltb_spec n 1); [done|]. intros [= <-].
  split_and!; [|done|done]. split; cbn; [done|set_solver|apply NoDup_nil_2|lia].
Qed.

Lemma try_acquire_ok scope l : limiter_ok l → limiter_ok (limiter_step (Acquire scope) l).
Proof.
  intros [Hc Hs Hu Hm]. cbn. unfold try_acquire, mbind, pym_bind, get.
  case_bool_decide; [done|]. destruct (Z.leb_spec (_max_global l) (_global_count l)); [done|].
  assert (held (permits l ++ [mkPermit scope false]) = held (permits l) ++ [scope]) as E
    by by rewrite held_app.
  change (limiter_ok (mkLimiter (_max_global l) (_global_count l + 1)
    ({[scope]} ∪ _active_scopes l) (permits l ++ [mkPermit scope false]))).
  split; cbn; rewrite ?E.
  - rewrite length_app, Hc. cbn. lia.
  - intros s. rewrite elem_of_app, list_elem_of_singleton, <-Hs. set_solver.
  - apply NoDup_app. split_and!; [done| |apply NoDup_singleton].
    intros x Hx ->%list_elem_of_singleton. by apply Hs in Hx.
  - lia.
Qed.

Lemma release_ok p l : limiter_ok l → limiter_ok (release p l).
Proof.
  intros [Hc Hs Hu Hm]. unfold release. destruct (permits l !! p) as [pm|] eqn:Hp; [|done].
  destruct (_released pm) eqn:Hr; [done|].
  pose proof (held_release _ _ _ Hp Hr) as E.
  set (ps' := alter _ _ _) in *. rewrite E in Hu. setoid_rewrite E in Hs. apply NoDup_cons in Hu as [Hn Hu].
  assert (length (held (permits l)) = S (length (held ps'))) as Hl by by rewrite E.
  unfold _release. change (_global_count (update _ _ _)) with (_global_count l).
  destruct (Z.ltb_spec 0 (_global_count l)); [|lia].
  change (limiter_ok (mkLimiter (_max_global l) (_global_count l - 1)
    (_active_scopes l ∖ {[_scope pm]}) ps')).
  split; cbn; [lia| |done|lia]. intros s. specialize (Hs s). set_solver.
Qed.

Lemma limiter_run_ok cs l : limiter_ok l → limiter_ok (limiter_run cs l).
Proof.
  revert l. induction cs as [|[scope|p] cs IH]; intros l Hl; [done| |];
    apply IH; [by apply try_acquire_ok|by apply release_ok].
Qed.

Lemma limiter_step_cap c l : _max_global (limiter_step c l) = _max_global l.
Proof.
  destruct c as [scope|p]; cbn.
  - unfold try_acquire, mbind, pym_bind, get. case_bool_decide; [done|].
    destruct (_max_global l <=? _global_count l); done.
  - unfold release, _release. destruct (permits l !! p) as [pm|]; [|done].
    destruct (_released pm); [done|]. by case_match.
Qed.

Lemma limiter_run_cap cs l : _max_global (limiter_run cs l) = _max_global l.
Proof.
  revert l. induction cs as [|c cs IH]; intros l; [done|].
  change (limiter_run (c :: cs) l) with (limiter_run cs (limiter_step c l)). by rewrite IH, limiter_step_cap.
Qed.

(** C34: Whatever its callers do, releasing permits late, twice or not at all,
    the limiter's count is the number of permits that are out; at most the
    configured number are out at once, and at most one per scope; and an
    acquisition is refused exactly when its scope has a permit out or all slots
    are taken, and a refusal changes nothing. *)
Theorem limiter_bounds max_global l0 cs scope :
  new_limiter max_global = Ok l0 →
  let l := limiter_run cs l0 in
  let out := held (permits l) in
  in_flight l = Z.of_nat (length out) ∧ in_flight l ≤ max_global ∧ NoDup out
  ∧ (scope ∈ out ∨ in_flight l = max_global → try_acquire scope l = (Ok None, l))
  ∧ (scope ∉ out → in_flight l < max_global →
       ∃ l', try_acquire scope l = (Ok (Some (length (permits l))), l')
         ∧ held (permits l') = out ++ [scope]).
Proof.
  intros H0. apply new_limiter_ok in H0 as (Hok & Hcap & _).
  apply (limiter_run_ok cs) in Hok. rewrite <-(limiter_run_cap cs) in Hcap.
  intros l out. fold l in Hok, Hcap. destruct Hok as [Hc Hs Hu Hm]. unfold in_flight.
  split_and!; [done|lia|done| |].
  - intros Hb. unfold try_acquire, mbind, pym_bind, get.
    case_bool_decide as Hin; [done|]. destruct (Z.leb_spec (_max_global l) (_global_count l)); [done|].
    destruct Hb as [Hb%Hs|?]; [done|lia].
  - intros Hn Hlt. unfold try_acquire, mbind, pym_bind, get.
    rewrite bool_decide_false by by rewrite Hs.
    destruct (Z.leb_spec (_max_global l) (_global_count l)); [lia|].
    eexists. split; [done|]. exact (held_app (permits l) [mkPermit scope false]).
Qed.

Lemma limiter_bounds_witness :
  let l := limiter_run [Acquire "a"; Acquire "a"; Acquire "b"; Release 0; Release 0] (mkLimiter 2 0 ∅ []) in
  in_flight l = 1 ∧ (try_acquire "b" l).1 = Ok None ∧ (try_acquire "a" l).1 = Ok (Some 2%nat).
Proof.
  intros l.
  pose proof (limiter_bounds 2 (mkLimiter 2 0 ∅ [])
    [Acquire "a"; Acquire "a"; Acquire "b"; Release 0; Release 0] "b" eq_refl) as (Hn & _ & _ & Hb & _).
  fold l in Hn, Hb. split_and!.
  - rewrite Hn. by vm_compute.
  - rewrite Hb; [done|]. left. by vm_compute; left.
  - by vm_compute.
Defined.
