(* ===== verification/SpeakerProvenance.v ===== *)
(** * Speaker provenance

    [speaker_provenance.py]: the typed identity of whoever authored a turn or
    runs a job.  A provenance is validated whenever it crosses a boundary (into
    a job row, out of one), so its rules decide whether a snapshot can be
    written and read back.

    Strings are sequences of code points below 256.  On that range NFC
    normalisation is the identity, so "must already be NFC" never fails and the
    NFC calls of the factory change nothing; UTF-8 takes two bytes for a code
    point above 127. *)

From S2P Require Import Prelude PyDict Json.

Record SpeakerProvenance := mkSpeaker {
  speaker_kind : string;
  role_id : option string;
  persona_id : option string;
  persona_version : option string;
  display_name : option string;
  binding_digest : option string;
  user_peer : option string;
  user_id : option string
}.

#[export] Instance speaker_eq_dec : EqDecision SpeakerProvenance.
Proof. solve_decision. Defined.

(** [SpeakerProvenance(speaker_kind="system")] *)
Definition system_speaker : SpeakerProvenance :=
  mkSpeaker "system" None None None None None None None.

(** ** The regular expressions *)

Definition chars (s : string) : list Ascii.ascii := String.list_ascii_of_string s.

Definition in_range (lo hi : nat) (c : Ascii.ascii) : bool :=
  (lo <=? Ascii.nat_of_ascii c) && (Ascii.nat_of_ascii c <=? hi).
Definition is_digit : Ascii.ascii → bool := in_range 48 57.
Definition is_lower : Ascii.ascii → bool := in_range 97 122.
Definition is_lower_hex (c : Ascii.ascii) : bool := is_digit c || in_range 97 102 c.
Definition lower_alnum (c : Ascii.ascii) : bool := is_digit c || is_lower c.
Definition is_char (n : nat) (c : Ascii.ascii) : bool := Ascii.nat_of_ascii c =? n.

(** The text before and after the first character with code [n]. *)
Fixpoint split_first (n : nat) (l : list Ascii.ascii)
    : option (list Ascii.ascii * list Ascii.ascii) :=
  match l with
  | [] => None
  | c :: l' =>
    if is_char n c then Some ([], l')
    else match split_first n l' with
         | Some (a, b) => Some (c :: a, b)
         | None => None
         end
  end.

Definition starts_with (p : Ascii.ascii → bool) (l : list Ascii.ascii) : bool :=
  match l with c :: _ => p c | [] => false end.

(** [_ROLE_RE]: resident|specialist|executor, a colon, and a slug of at most 32. *)
Definition role_re (s : string) : bool :=
  match split_first 58 (chars s) with
  | Some (kind, slug) =>
    (bool_decide (kind = chars "resident") || bool_decide (kind = chars "specialist")
     || bool_decide (kind = chars "executor"))
    && starts_with lower_alnum slug && (length slug <=? 32)
    && forallb (λ c, lower_alnum c || is_char 45 c) slug
  | None => false
  end.

(** [_PERSONA_RE]: an owner of lower-case letters, digits, dots and dashes that
    begins and ends with a letter or digit, a slash, and a name. *)
Definition persona_re (s : string) : bool :=
  match split_first 47 (chars s) with
  | Some (owner, name) =>
    starts_with lower_alnum owner && starts_with lower_alnum (reverse owner)
    && forallb (λ c, lower_alnum c || is_char 46 c || is_char 45 c) owner
    && starts_with lower_alnum name
    && forallb (λ c, lower_alnum c || is_char 45 c) name
  | None => false
  end.

(** [_CHECKSUM_RE] *)
Definition checksum_re (s : string) : bool :=
  let l := chars s in
  bool_decide (take 7 l = chars "sha256:") && (length l =? 71)
  && forallb is_lower_hex (drop 7 l).

(** One numeral of [_SEMVER_RE]: zero, or digits without a leading zero. *)
Definition semver_part (l : list Ascii.ascii) : bool :=
  forallb is_digit l && starts_with is_digit l
  && ((length l =? 1) || negb (starts_with (is_char 48) l)).

(** [_SEMVER_RE] *)
Definition semver_re (s : string) : bool :=
  match split_first 46 (chars s) with
  | Some (major, rest) =>
    match split_first 46 rest with
    | Some (minor, patch) => semver_part major && semver_part minor && semver_part patch
    | None => false
    end
  | None => false
  end.

(** ** Validation *)

Definition utf8_length (s : string) : nat :=
  length (chars s) + length (filter (λ c, (128 <=? Ascii.nat_of_ascii c) = true) (chars s)).

(** [_validate_string_bound], with the [_FIELD_LIMITS] pair of the field. *)
Definition _validate_string_bound (limits : nat * nat) (value : option string) : outcome unit :=
  match value with
  | None => Ok tt
  | Some s => fail_when ((limits.1 <? String.length s) || (limits.2 <? utf8_length s)) ValueError
  end.

Definition starts_with_str (prefix : string) (o : option string) : bool :=
  match o with Some s => String.prefix prefix s | None => false end.

Definition matches (re : string → bool) (o : option string) : bool :=
  match o with Some s => str_true s && re s | None => false end.

Definition any_true (l : list (option string)) : bool := existsb opt_str_true l.

(** The per-kind rules of [validate_speaker_provenance]. *)
Definition kind_rules (value : SpeakerProvenance) : outcome unit :=
  let kind := speaker_kind value in
  if bool_decide (kind = "resident") || bool_decide (kind = "specialist") then
    let* _ := fail_when (negb (opt_str_true (role_id value)
                && starts_with_str (kind +:+ ":") (role_id value))) ValueError in
    let* _ := fail_when (negb (matches persona_re (persona_id value))) ValueError in
    let* _ := fail_when (negb (matches semver_re (persona_version value))) ValueError in
    let* _ := fail_when (negb (matches checksum_re (binding_digest value))) ValueError in
    fail_when (bool_decide (is_Some (user_peer value))
               || bool_decide (is_Some (user_id value))) ValueError
  else if bool_decide (kind = "executor") then
    let* _ := fail_when (negb (opt_str_true (role_id value)
                && starts_with_str "executor:" (role_id value))) ValueError in
    fail_when (any_true [persona_id value; persona_version value;
                         binding_digest value; user_peer value; user_id value]) ValueError
  else if bool_decide (kind = "user") then
    let* _ := fail_when (negb (opt_str_true (user_peer value))) ValueError in
    fail_when (any_true [role_id value; persona_id value;
                         persona_version value; binding_digest value]) ValueError
  else if bool_decide (kind = "automation") then
    let* _ := fail_when (negb (opt_str_true (user_peer value))) ValueError in
    fail_when (any_true [role_id value; persona_id value; persona_version value;
                         binding_digest value; display_name value; user_id value]) ValueError
  else if bool_decide (kind = "system") then
    fail_when (any_true [role_id value; persona_id value; persona_version value;
                         binding_digest value; user_peer value; user_id value]) ValueError
  else Raise ValueError.

(** [validate_speaker_provenance] on a value whose fields are strings or null. *)
Definition validate_speaker_provenance (value : SpeakerProvenance) : outcome unit :=
  let* _ := kind_rules value in
  let* _ := fail_when (match role_id value with
                       | Some r => negb (role_re r)
                       | None => false end) ValueError in
  let* _ := _validate_string_bound (128, 128) (role_id value) in
  let* _ := _validate_string_bound (192, 192) (persona_id value) in
  let* _ := _validate_string_bound (64, 64) (persona_version value) in
  let* _ := _validate_string_bound (80, 320) (display_name value) in
  let* _ := _validate_string_bound (256, 512) (user_peer value) in
  _validate_string_bound (256, 512) (user_id value).

(** [provenance_mapping]: validate, then [asdict]. *)
Definition provenance_mapping (value : SpeakerProvenance) : outcome json :=
  let* _ := validate_speaker_provenance value in
  Ok (JObj [("speaker_kind", JStr (speaker_kind value));
            ("role_id", json_of_opt_str (role_id value));
            ("persona_id", json_of_opt_str (persona_id value));
            ("persona_version", json_of_opt_str (persona_version value));
            ("display_name", json_of_opt_str (display_name value));
            ("binding_digest", json_of_opt_str (binding_digest value));
            ("user_peer", json_of_opt_str (user_peer value));
            ("user_id", json_of_opt_str (user_id value))]).

Definition provenance_fields : list string :=
  ["speaker_kind"; "role_id"; "persona_id"; "persona_version";
   "display_name"; "binding_digest"; "user_peer"; "user_id"].

(** A field of the raw mapping: a string or null, anything else is refused. *)
Definition str_or_null (v : json) : outcome (option string) :=
  match v with
  | JNull => Ok None
  | JStr s => Ok (Some s)
  | _ => Raise ValueError
  end.

(** [provenance_from_mapping]: exactly the eight fields, each a string or null,
    and valid.  A null [speaker_kind] is no known kind. *)
Definition provenance_from_mapping (raw : json) : outcome SpeakerProvenance :=
  match raw with
  | JObj row =>
    let* _ := fail_when (negb (forallb (λ k, dhas row k) provenance_fields
                && forallb (λ k, bool_decide (k ∈ provenance_fields)) (dkeys row))) ValueError in
    let* kind := str_or_null (obj_get row "speaker_kind") in
    let* r := str_or_null (obj_get row "role_id") in
    let* p := str_or_null (obj_get row "persona_id") in
    let* v := str_or_null (obj_get row "persona_version") in
    let* d := str_or_null (obj_get row "display_name") in
    let* b := str_or_null (obj_get row "binding_digest") in
    let* up := str_or_null (obj_get row "user_peer") in
    let* ui := str_or_null (obj_get row "user_id") in
    match kind with
    | None => Raise ValueError
    | Some k =>
      let value := mkSpeaker k r p v d b up ui in
      let* _ := validate_speaker_provenance value in
      Ok value
    end
  | _ => Raise ValueError
  end.

(** ** The trusted factory *)

Record TrustedOrigin := mkOrigin {
  route : string;
  is_authenticated : bool;
  clearance : string
}.

Record AuthenticatedUser := mkUser {
  stable_id : string;
  configured_display_name : option string
}.

Definition _AUTOMATION_SURFACES : list string := ["invoke"; "webhook"].

(** [UserProvenance.from_origin] *)
Definition from_origin (surface : string) (server_origin : TrustedOrigin)
    (authenticated_user : option AuthenticatedUser) (peer : string)
    : outcome SpeakerProvenance :=
  let* _ := fail_when (negb (bool_decide (route server_origin = surface))) ValueError in
  if bool_decide (surface ∈ _AUTOMATION_SURFACES) then
    let* _ := fail_when (bool_decide (is_Some authenticated_user)) ValueError in
    let value := mkSpeaker "automation" None None None None None (Some peer) None in
    let* _ := validate_speaker_provenance value in
    Ok value
  else if bool_decide (surface = "voice") && bool_decide (authenticated_user = None) then
    let* _ := fail_when (negb (bool_decide (peer = "voice_speaker"))) ValueError in
    let value := mkSpeaker "user" None None None None None (Some "voice_speaker") None in
    let* _ := validate_speaker_provenance value in
    Ok value
  else
    let trusted_user := if is_authenticated server_origin then authenticated_user else None in
    let display := match trusted_user with
                   | Some u => if opt_str_true (configured_display_name u)
                               then configured_display_name u else None
                   | None => None
                   end in
    let value := mkSpeaker "user" None None None display None (Some peer)
                   (stable_id <$> trusted_user) in
    let* _ := validate_speaker_provenance value in
    Ok value.

(** ** Properties *)

Lemma fail_when_ok b e : fail_when b e = Ok tt ↔ b = false.
Proof. by destruct b. Qed.

(** Split a successful chain of checks into its steps. *)
Ltac split_checks :=
  repeat match goal with
  | H : mbind _ _ = Ok _ |- _ => apply outcome_bind_ok in H as (? & ? & ?)
  | H : fail_when _ _ = Ok ?u |- _ => destruct u; apply fail_when_ok in H
  | H : context [match ?x with _ => _ end] |- _ =>
      lazymatch type of H with _ = Ok _ => destruct x eqn:? end
  end; simplify_eq/=.

Lemma any_true_Some (l : list (option string)) s :
  any_true l = false → Some s ∈ l → s = "".
Proof.
  unfold any_true. induction l as [|o l IH]; [by intros ? ?%not_elem_of_nil|].
  cbn. intros [Ho Hl]%orb_false_iff [<-|Hin]%elem_of_cons; [|by apply IH].
  unfold opt_str_true, str_true in Ho. apply negb_false_iff in Ho.
  by apply bool_decide_eq_true in Ho.
Qed.

Lemma str_or_null_json o : str_or_null (json_of_opt_str o) = Ok o.
Proof. by destruct o. Qed.

(** Decoding a mapping, shared with the job snapshot. *)
Lemma decode_mapping value raw :
  provenance_mapping value = Ok raw →
  (∃ row, raw = JObj row) ∧ provenance_from_mapping raw = Ok value.
Proof.
  unfold provenance_mapping. intros H. split_checks. split; [by eexists|].
  unfold provenance_from_mapping. row_lookups. rewrite !str_or_null_json.
  cbn -[validate_speaker_provenance].
  destruct value; cbn -[validate_speaker_provenance] in *. by rewrite H.
Qed.

(** A provenance written into a row is read back unchanged: decoding the
    mapping of a valid provenance gives that provenance. *)
Theorem provenance_mapping_roundtrip value raw :
  provenance_mapping value = Ok raw → provenance_from_mapping raw = Ok value.
Proof. intros H. by apply decode_mapping. Qed.

Lemma provenance_mapping_roundtrip_witness :
  ∃ raw, provenance_mapping system_speaker = Ok raw ∧
         provenance_from_mapping raw = Ok system_speaker.
Proof.
  eexists. split; [reflexivity|].
  apply (provenance_mapping_roundtrip system_speaker). reflexivity.
Defined.

Lemma not_some_not_true (o : option string) :
  bool_decide (is_Some o) = false → opt_str_true o = false.
Proof. by destruct o. Qed.

Lemma not_listed (k : string) (l : list string) (P : Prop) : bool_decide (k ∈ l) = false → k ∈ l → P.
Proof. by intros ?%bool_decide_eq_false ?. Qed.

(** The kind a branch of [kind_rules] fixed, against the kinds a claim is about. *)
Ltac clear_results :=
  repeat match goal with
  | H : _validate_string_bound _ _ = _ |- _ => clear H
  | H : _ || _ = _ |- _ => first [apply orb_prop in H as [H|H] | apply orb_false_iff in H as [? ?]]
  | H : bool_decide (_ = _) = true |- _ => apply bool_decide_eq_true in H
  | H : bool_decide (_ = _) = false |- _ => clear H
  | H : bool_decide (is_Some _) = false |- _ => apply not_some_not_true in H
  end.
Ltac kind_case Hk :=
  first [ congruence
        | match goal with E : speaker_kind _ = _ |- _ => rewrite E in Hk end | idtac ];
  first [ refine (not_listed _ _ _ _ Hk); reflexivity
        | unfold any_true in *; cbn in *; rewrite ?orb_false_iff in *; destruct_and?;
          repeat split; done ].

(** Identities do not mix.  A valid provenance of a resident, specialist or
    executor never carries a (non-empty) user identity; one of a user or an
    automation never carries a role, a persona or a binding; and an automation
    never names a person. *)
Theorem provenance_identity_separation value :
  validate_speaker_provenance value = Ok tt →
  (speaker_kind value ∈ ["resident"; "specialist"; "executor"; "system"] →
     opt_str_true (user_peer value) = false ∧ opt_str_true (user_id value) = false) ∧
  (speaker_kind value ∈ ["user"; "automation"; "system"] →
     any_true [role_id value; persona_id value; persona_version value;
               binding_digest value] = false) ∧
  (speaker_kind value = "automation" →
     opt_str_true (display_name value) = false ∧ opt_str_true (user_id value) = false).
Proof.
  unfold validate_speaker_provenance, kind_rules. intros H. split_checks; clear_results;
    (split_and!; [intros Hk|intros Hk|intros Hk]; kind_case Hk).
Qed.

Lemma provenance_identity_separation_witness :
  validate_speaker_provenance (mkSpeaker "user" None None None None None (Some "nicola") None)
    = Ok tt ∧
  any_true [None; None; None; None] = false.
Proof.
  split; [reflexivity|].
  refine (proj1 (proj2 (provenance_identity_separation
    (mkSpeaker "user" None None None None None (Some "nicola") None) _)) _); [reflexivity|].
  apply elem_of_cons. by left.
Defined.
