(* ===== verification/VoiceResult.v ===== *)
(** * Voice results: contract, disclosure and wording

    [voice_job_result.py] (the validated envelope a specialist returns and what
    of it may be spoken), [channel_trust.py] and the channel table of
    [sensitivity.py] (how far a channel is trusted), and [voice_phrases.py] (the
    fixed sentences around an answer).  A dash of the source's sentences is the
    UTF-8 bytes of that character; no modelled code looks inside them. *)

From S2P Require Import Prelude PyDict Json SpeakerProvenance.

(** ** Channel trust and clearance *)

Definition _CHANNEL_TRUST_TOKEN : list (string * string) :=
  [("telegram", "authenticated"); ("voice", "household-shared");
   ("scheduler", "internal"); ("webhook", "authenticated")].

Definition channel_trust (channel : string) : string :=
  default "public" (dget _CHANNEL_TRUST_TOKEN channel).

Definition TIERS : list string := ["public"; "friends"; "family"; "private"].

Definition CLEARANCE_BY_CHANNEL : list (string * string) :=
  [("telegram", "private"); ("voice", "friends"); ("webhook", "private")].
Definition _DEFAULT_CLEARANCE : string := "public".

Definition clearance_for_channel (channel : string) : string :=
  default _DEFAULT_CLEARANCE (dget CLEARANCE_BY_CHANNEL channel).

(** [_rank]: [TIERS.index(tier)], which raises on an unknown tier. *)
Fixpoint index_of (x : string) (l : list string) : option nat :=
  match l with
  | [] => None
  | y :: l' => if bool_decide (x = y) then Some 0 else S <$> index_of x l'
  end.

Definition _rank (tier : string) : outcome nat :=
  match index_of tier TIERS with Some n => Ok n | None => Raise ValueError end.

(** [readable_tiers] *)
Definition readable_tiers (clearance : string) : outcome (list string) :=
  let* ceiling := _rank clearance in
  Ok (filter (λ t, match _rank t with Ok n => (n <=? ceiling)%nat | Raise _ => false end = true)
        TIERS).

(** [apply_ceiling] *)
Definition apply_ceiling (tier ceiling : string) : outcome string :=
  let* t := _rank tier in
  let* c := _rank ceiling in
  Ok (if (t <=? c)%nat then tier else ceiling).

Definition _WEBHOOK_TRIGGER_TIERS : list string := ["public"; "friends"; "family"].

(** [clearance_for_origin] *)
Definition clearance_for_origin (origin_route origin_clearance : option string)
    (channel : string) : string :=
  let stamped (tiers : list string) :=
    match origin_clearance with
    | Some c => if bool_decide (c ∈ tiers) then c else "public"
    | None => "public"
    end in
  if bool_decide (origin_route = Some "invoke") then "private"
  else if bool_decide (origin_route = Some "webhook_trigger") then stamped _WEBHOOK_TRIGGER_TIERS
  else if bool_decide (origin_route = Some "telegram") then stamped TIERS
  else if bool_decide (channel = "webhook") then "public"
  else clearance_for_channel channel.

(** ** The result envelope *)

Record VoiceJobResult := mkResult {
  status : string;
  spoken_summary : string;
  answer : string;
  clarification : string;
  citations : list string;
  assumptions : list string;
  provenance : json;
  sensitivity : string;
  delivery_ttl_s : Z
}.

#[export] Instance result_eta : Eta VoiceJobResult := λ r,
  mkResult (status r) (spoken_summary r) (answer r) (clarification r) (citations r)
    (assumptions r) (provenance r) (sensitivity r) (delivery_ttl_s r).

Definition _FIELDS : list string :=
  ["status"; "spoken_summary"; "answer"; "clarification"; "citations"; "assumptions";
   "provenance"; "sensitivity"; "delivery_ttl_s"].
Definition _STATUSES : list string :=
  ["answered"; "needs_clarification"; "tentative"; "not_found"; "dependency_unavailable";
   "deadline_exceeded"; "cancelled"; "failed"].
Definition _SENSITIVITIES : list string := ["public"; "household"; "private"].

(** [_string_field] *)
Definition _string_field (payload : list (string * json)) (name : string)
    (max_length : option nat) : outcome string :=
  let* value := obj_item payload name in
  match value with
  | JStr s =>
    let* _ := fail_when (match max_length with
                         | Some m => (m <? String.length s)%nat
                         | None => false end) VoiceJobResultError in
    Ok s
  | _ => Raise VoiceJobResultError
  end.

Definition string_items : list json → outcome (list string) :=
  fix go l := match l with
  | [] => Ok []
  | JStr s :: l' => let* r := go l' in Ok (s :: r)
  | _ => Raise VoiceJobResultError
  end.

(** [_string_list_field] *)
Definition _string_list_field (payload : list (string * json)) (name : string)
    : outcome (list string) :=
  let* value := obj_item payload name in
  match value with JList l => string_items l | _ => Raise VoiceJobResultError end.

Definition _MAX_PROVENANCE_DEPTH : nat := 32.

(** [_freeze_json]: the value itself, unless it nests too deep. *)
Fixpoint _freeze_json (depth : nat) (value : json) : outcome json :=
  match value with
  | JObj items =>
    let* _ := fail_when (_MAX_PROVENANCE_DEPTH <=? depth)%nat VoiceJobResultError in
    let* items' := (fix go l := match l with
      | [] => Ok []
      | (k, v) :: l' => let* v' := _freeze_json (S depth) v in
                        let* r := go l' in Ok ((k, v') :: r)
      end) items in
    Ok (JObj items')
  | JList items =>
    let* _ := fail_when (_MAX_PROVENANCE_DEPTH <=? depth)%nat VoiceJobResultError in
    let* items' := (fix go l := match l with
      | [] => Ok []
      | v :: l' => let* v' := _freeze_json (S depth) v in let* r := go l' in Ok (v' :: r)
      end) items in
    Ok (JList items')
  | v => Ok v
  end.

Fixpoint count_char (n : nat) (s : string) : nat :=
  match s with
  | EmptyString => 0
  | String c s' => (if is_char n c then 1 else 0) + count_char n s'
  end.

(** A clarification question: not blank, ends in a question mark, and has one. *)
Definition one_question (clarification : string) : bool :=
  let question := strip clarification in
  str_true question && starts_with (is_char 63) (reverse (chars question))
  && (count_char 63 question =? 1)%nat.

(** [parse_voice_job_result] *)
Definition parse_voice_job_result (structured_output : json) : outcome VoiceJobResult :=
  match structured_output with
  | JObj payload =>
    let present := dkeys payload in
    let* _ := fail_when (negb (forallb (λ k, bool_decide (k ∈ present)) _FIELDS))
                VoiceJobResultError in
    let* _ := fail_when (negb (forallb (λ k, bool_decide (k ∈ _FIELDS)) present))
                VoiceJobResultError in
    let* st := (match obj_get payload "status" with
                | JStr s => if bool_decide (s ∈ _STATUSES) then Ok s else Raise VoiceJobResultError
                | _ => Raise VoiceJobResultError end) in
    let* summary := _string_field payload "spoken_summary" (Some 1200) in
    let* ans := _string_field payload "answer" None in
    let* clar := _string_field payload "clarification" (Some 600) in
    let* cits := _string_list_field payload "citations" in
    let* assm := _string_list_field payload "assumptions" in
    let* prov := (match obj_get payload "provenance" with
                  | JObj p => Ok (JObj p)
                  | _ => Raise VoiceJobResultError end) in
    let* sens := (match obj_get payload "sensitivity" with
                  | JStr s => if bool_decide (s ∈ _SENSITIVITIES) then Ok s
                              else Raise VoiceJobResultError
                  | _ => Raise VoiceJobResultError end) in
    let* ttl := (match obj_get payload "delivery_ttl_s" with
                 | JInt z => if bool_decide (30 ≤ z ∧ z ≤ 3600)%Z then Ok z
                             else Raise VoiceJobResultError
                 | _ => Raise VoiceJobResultError end) in
    let* _ := fail_when (negb (str_true (strip summary))) VoiceJobResultError in
    let* _ := fail_when (bool_decide (st = "needs_clarification") && negb (one_question clar))
                VoiceJobResultError in
    let* frozen := _freeze_json 0 prov in
    Ok (mkResult st summary ans clar cits assm frozen sens ttl)
  | _ => Raise VoiceJobResultError
  end.

(** [VoiceJobResult.awaiting_input] *)
Definition awaiting (r : VoiceJobResult) : bool := bool_decide (status r = "needs_clarification").

(** ** Disclosure *)

Definition _PRIVATE_PROMPTED : string :=
  "Your result is ready; I can't read private details on this voice route.".
Definition _PRIVATE_UNPROMPTED : string := "Your result is ready; ask me for the details.".

(** [spoken_text_for] *)
Definition spoken_text_for (result : VoiceJobResult) (prompted : bool)
    (identity_clearance : string) : string :=
  if bool_decide (sensitivity result = "private")
     && negb (bool_decide (identity_clearance = "private"))
  then if prompted then _PRIVATE_PROMPTED else _PRIVATE_UNPROMPTED
  else if bool_decide (status result = "needs_clarification") then clarification result
  else spoken_summary result.

(** [voice_identity_clearance] *)
Definition voice_identity_clearance (origin : json) : string :=
  match origin with
  | JObj fields =>
    match obj_get fields "channel" with
    | JStr channel =>
      if bool_decide (channel_trust channel = "public") then "household"
      else if bool_decide (obj_get fields "_authenticated_speaker" = JBool true)
              && bool_decide (clearance_for_channel channel = "private")
      then "private" else "household"
    | _ => "household"
    end
  | _ => "household"
  end.

(** ** Wording *)

Definition _FALLBACK_SPECIALIST : string := "the specialist".

Definition _ACK_AUDIO : list (string → string) :=
  [λ s, "I'll ask " +:+ s +:+ " — this can take up to a minute, and I'll answer here.";
   λ s, "Let me put that to " +:+ s +:+
        ". It may take up to a minute; I'll read it out when it lands.";
   λ s, "Asking " +:+ s +:+ " now — give me up to a minute and I'll tell you here.";
   λ s, "I'll check with " +:+ s +:+ ". That can take a minute, then I'll say it here."].

Definition _ACK_TEXT : list (string → string) :=
  [λ s, "I'll ask " +:+ s +:+
        " — this can take up to a minute, and I'll send the answer to your device.";
   λ s, "Let me put that to " +:+ s +:+ ". It may take up to a minute; I'll send it over.";
   λ s, "Asking " +:+ s +:+ " now — I'll send you the answer in up to a minute.";
   λ s, "I'll check with " +:+ s +:+
        " — up to a minute — then send the answer to your device."].

Definition _ANNOUNCE : list (string → string → string) :=
  [λ s a, s +:+ " says: " +:+ a;
   λ s a, "Here's " +:+ s +:+ ": " +:+ a;
   λ s a, s +:+ " came back on that: " +:+ a;
   λ s a, "From " +:+ s +:+ ": " +:+ a].

(** [_pick] of an integer seed: [options[abs(seed) % len(options)]]. *)
Definition _pick {A} (options : list A) (seed : Z) : option A :=
  options !! Z.to_nat (Z.modulo (Z.abs seed) (Z.of_nat (length options))).

(** The value of a hexadecimal digit. *)
Definition hex_value (c : Ascii.ascii) : option Z :=
  let n := Z.of_nat (Ascii.nat_of_ascii c) in
  if is_digit c then Some (n - 48)%Z
  else if in_range 97 102 c then Some (n - 87)%Z
  else if in_range 65 70 c then Some (n - 55)%Z
  else None.

(** [seed_for]: the first eight hexadecimal digits of the id, as a number. *)
Definition seed_for (job_id : string) : Z :=
  foldl (λ acc d, (acc * 16 + d)%Z) 0%Z (take 8 (omap hex_value (chars job_id))).

Definition speaker_name (specialist : option string) : string :=
  match specialist with
  | Some s => if str_true s then s else _FALLBACK_SPECIALIST
  | None => _FALLBACK_SPECIALIST
  end.

(** [acknowledgement] *)
Definition acknowledgement (specialist modality : option string) (seed : Z) : option string :=
  let options := if bool_decide (modality = Some "audio") then _ACK_AUDIO else _ACK_TEXT in
  (λ f, f (speaker_name specialist)) <$> _pick options seed.

(** [announcement] *)
Definition announcement (specialist : option string) (spoken : string) (seed : Z) : option string :=
  (λ f, f (speaker_name specialist) spoken) <$> _pick _ANNOUNCE seed.

(** ** What the contract accepts *)

(** The nesting depth of a value: collections count. *)
Fixpoint depth_of (v : json) : nat :=
  match v with
  | JObj items => S (max_list ((fix go l := match l with
                    | [] => [] | (_, x) :: l' => depth_of x :: go l' end) items))
  | JList items => S (max_list ((fix go l := match l with
                    | [] => [] | x :: l' => depth_of x :: go l' end) items))
  | _ => 0
  end.

(** Freezing keeps the value, and bounds its depth. *)
Lemma freeze_json_spec v : ∀ depth v', _freeze_json depth v = Ok v' →
  v' = v ∧ (depth_of v ≤ _MAX_PROVENANCE_DEPTH - depth)%nat.
Proof.
  revert v. fix IH 1. intros v depth v'. destruct v as [| | | | |items|items]; cbn [_freeze_json].
  1-5: intros [= <-]; split; [done|cbn; lia].
  - intros E. apply outcome_bind_ok in E as ([] & Hd%fail_when_ok & E).
    apply Nat.leb_gt in Hd. apply outcome_bind_ok in E as (items' & E & [= <-]).
    assert (items' = items ∧ ∀ x, x ∈ items → (depth_of x ≤ _MAX_PROVENANCE_DEPTH - S depth)%nat)
      as [-> Hall].
    { revert items' E. induction items as [|x items IHl]; intros items' E.
      - injection E as <-. split; [done|]. by intros x ?%not_elem_of_nil.
      - apply outcome_bind_ok in E as (x' & Hx & E). apply outcome_bind_ok in E as (r & Hr & [= <-]).
        apply IH in Hx as [-> Hx]. apply IHl in Hr as [-> Hr]. split; [done|].
        intros y [->|Hy]%elem_of_cons; auto. }
    split; [done|]. cbn [depth_of].
    assert (max_list ((fix go l := match l with [] => [] | x :: l' => depth_of x :: go l' end) items)
      ≤ _MAX_PROVENANCE_DEPTH - S depth)%nat; [|lia].
    clear E. induction items as [|x items IHl]; cbn; [lia|].
    apply Nat.max_lub; [apply Hall; left|]. apply IHl. intros y Hy. apply Hall. by right.
  - intros E. apply outcome_bind_ok in E as ([] & Hd%fail_when_ok & E).
    apply Nat.leb_gt in Hd. apply outcome_bind_ok in E as (items' & E & [= <-]).
    assert (items' = items ∧ ∀ x, x ∈ items → (depth_of x.2 ≤ _MAX_PROVENANCE_DEPTH - S depth)%nat)
      as [-> Hall].
    { revert items' E. induction items as [|[k x] items IHl]; intros items' E.
      - injection E as <-. split; [done|]. by intros x ?%not_elem_of_nil.
      - apply outcome_bind_ok in E as (x' & Hx & E). apply outcome_bind_ok in E as (r & Hr & [= <-]).
        apply IH in Hx as [-> Hx]. apply IHl in Hr as [-> Hr]. split; [done|].
        intros y [->|Hy]%elem_of_cons; auto. }
    split; [done|]. cbn [depth_of].
    assert (max_list ((fix go l := match l with [] => [] | (_, x) :: l' => depth_of x :: go l' end) items)
      ≤ _MAX_PROVENANCE_DEPTH - S depth)%nat; [|lia].
    clear E. induction items as [|[k x] items IHl]; cbn; [lia|].
    apply Nat.max_lub; [apply (Hall (k, x)); left|]. apply IHl. intros y Hy. apply Hall. by right.
Qed.

(** A result that honours the contract. *)
Definition wf_result (r : VoiceJobResult) : Prop :=
  status r ∈ _STATUSES ∧ sensitivity r ∈ _SENSITIVITIES ∧
  (30 ≤ delivery_ttl_s r ≤ 3600)%Z ∧
  String.length (spoken_summary r) ≤ 1200 ∧ str_true (strip (spoken_summary r)) = true ∧
  String.length (clarification r) ≤ 600 ∧
  (awaiting r = true → one_question (clarification r) = true) ∧
  depth_of (provenance r) ≤ _MAX_PROVENANCE_DEPTH.

Lemma string_field_bound payload name m s :
  _string_field payload name (Some m) = Ok s → String.length s ≤ m.
Proof.
  unfold _string_field. intros E. apply outcome_bind_ok in E as (v & _ & E). destruct v; try done.
  apply outcome_bind_ok in E as ([] & Hb%fail_when_ok & [= <-]). by apply Nat.ltb_ge in Hb.
Qed.

(** C23: an accepted result honours its contract.  Whatever a specialist model
    returns, if [parse_voice_job_result] accepts it then its status and
    sensitivity are known ones, its lifetime is between thirty seconds and an
    hour, there is something to say and it is short enough to say, a request for
    clarification asks exactly one question, and its provenance nests at most
    thirty-two levels; and the payload had exactly the nine fields. *)
Theorem accepted_result_contract payload r :
  parse_voice_job_result payload = Ok r →
  wf_result r ∧
  ∃ fields, payload = JObj fields ∧ ∀ k, k ∈ dkeys fields ↔ k ∈ _FIELDS.
Proof.
  destruct payload as [| | | | | |fields]; try done. unfold parse_voice_job_result. intros E.
  apply outcome_bind_ok in E as ([] & H1%fail_when_ok & E).
  apply outcome_bind_ok in E as ([] & H2%fail_when_ok & E).
  apply outcome_bind_ok in E as (st & Hst & E).
  apply outcome_bind_ok in E as (sm & Hsm%string_field_bound & E).
  apply outcome_bind_ok in E as (an & _ & E).
  apply outcome_bind_ok in E as (cl & Hcl%string_field_bound & E).
  apply outcome_bind_ok in E as (ci & _ & E). apply outcome_bind_ok in E as (asm & _ & E).
  apply outcome_bind_ok in E as (pr & _ & E). apply outcome_bind_ok in E as (se & Hse & E).
  apply outcome_bind_ok in E as (tt' & Htt & E).
  apply outcome_bind_ok in E as ([] & Hblank%fail_when_ok & E).
  apply outcome_bind_ok in E as ([] & Hq%fail_when_ok & E).
  apply outcome_bind_ok in E as (fr & Hfr & [= <-]).
  apply freeze_json_spec in Hfr as [-> Hdepth]. split.
  - assert (st ∈ _STATUSES) as Hs
      by (revert Hst; destruct (obj_get fields "status") as [| | | |s| |]; try done;
          destruct (bool_decide (s ∈ _STATUSES)) eqn:Hb; [intros [= <-]; by apply bool_decide_eq_true in Hb|done]).
    assert (se ∈ _SENSITIVITIES) as Hv
      by (revert Hse; destruct (obj_get fields "sensitivity") as [| | | |s| |]; try done;
          destruct (bool_decide (s ∈ _SENSITIVITIES)) eqn:Hb; [intros [= <-]; by apply bool_decide_eq_true in Hb|done]).
    assert (30 ≤ tt' ≤ 3600)%Z as Hlife
      by (revert Htt; destruct (obj_get fields "delivery_ttl_s") as [| |z| | | |]; try done;
          destruct (bool_decide (30 ≤ z ∧ z ≤ 3600)%Z) eqn:Hb; [intros [= <-]; by apply bool_decide_eq_true in Hb|done]).
    unfold wf_result, awaiting. cbn [status sensitivity delivery_ttl_s spoken_summary clarification
      provenance]. split_and!; try done; try lia; [by apply negb_false_iff|].
    intros Haw. rewrite Haw in Hq. by apply negb_false_iff.
  - exists fields. split; [done|]. apply negb_false_iff in H1, H2.
    rewrite forallb_forall in H1, H2. intros k. rewrite !list_elem_of_In in *. split.
    + intros Hk. specialize (H2 k Hk). apply bool_decide_eq_true in H2. by apply list_elem_of_In.
    + intros Hk. specialize (H1 k Hk). apply bool_decide_eq_true in H1. by apply list_elem_of_In.
Qed.

(** C22: private answers do not leak.  The voice channel is never cleared for
    private results, whatever else its origin claims; and what is spoken of a
    private result under any lesser clearance does not depend on the result at
    all. *)
Theorem private_results_stay_private origin r r' prompted :
  obj_get origin "channel" = JStr "voice" →
  sensitivity r = "private" → sensitivity r' = "private" →
  voice_identity_clearance (JObj origin) = "household" ∧
  spoken_text_for r prompted (voice_identity_clearance (JObj origin)) =
  spoken_text_for r' prompted (voice_identity_clearance (JObj origin)).
Proof.
  intros Hch Hr Hr'. assert (voice_identity_clearance (JObj origin) = "household") as ->.
  { unfold voice_identity_clearance. rewrite Hch. cbn. by rewrite andb_false_r. }
  split; [done|]. unfold spoken_text_for. by rewrite Hr, Hr'.
Qed.

(** Membership in a literal list, by evaluation. *)
Ltac listed := apply (bool_decide_unpack _); vm_compute; exact I.

Lemma trigger_tiers c : c ∈ _WEBHOOK_TRIGGER_TIERS → c ∈ TIERS ∧ c ≠ "private".
Proof.
  unfold _WEBHOOK_TRIGGER_TIERS. rewrite !elem_of_cons.
  intros [->|[->|[->|?%not_elem_of_nil]]]; (split; [by listed|done]) || done.
Qed.

Lemma channel_tier channel : clearance_for_channel channel ∈ TIERS.
Proof.
  unfold clearance_for_channel, CLEARANCE_BY_CHANNEL. cbn [dget].
  repeat case_decide; cbn [default from_option id]; by listed.
Qed.

(** Third-party content never reads private memories.  A turn that came in
    through a webhook trigger, or on the webhook channel without the marker the
    server stamps on a signed invocation, is never cleared for the private tier,
    whatever clearance it claims; and every clearance is a known tier. *)
Theorem webhook_never_private origin_route origin_clearance channel :
  clearance_for_origin origin_route origin_clearance channel ∈ TIERS ∧
  (origin_route = Some "webhook_trigger" ∨
     channel = "webhook" ∧ origin_route ≠ Some "invoke" ∧ origin_route ≠ Some "telegram" →
   clearance_for_origin origin_route origin_clearance channel ≠ "private").
Proof.
  split.
  - unfold clearance_for_origin. case_bool_decide; [by listed|].
    case_bool_decide; [destruct origin_clearance; [|by listed]; case_bool_decide; [|by listed];
                       by apply trigger_tiers|].
    case_bool_decide; [destruct origin_clearance; [|by listed]; case_bool_decide; [done|by listed]|].
    case_bool_decide; [by listed|apply channel_tier].
  - intros [->|(-> & Hi & Ht)]; unfold clearance_for_origin.
    + rewrite (bool_decide_eq_false_2 (Some "webhook_trigger" = Some "invoke")) by done.
      rewrite (bool_decide_eq_true_2 (Some "webhook_trigger" = Some "webhook_trigger")) by done.
      destruct origin_clearance as [c|]; [|done]. case_bool_decide as Hc; [|done].
      by apply trigger_tiers.
    + rewrite (bool_decide_eq_false_2 (origin_route = Some "invoke")) by done.
      rewrite (bool_decide_eq_false_2 (origin_route = Some "telegram")) by done.
      case_bool_decide; [|done]. destruct origin_clearance as [c|]; [|done].
      case_bool_decide as Hc; [|done]. by apply trigger_tiers.
Qed.

(** A seed always picks a phrase. *)
Lemma pick_some {A} (l : list A) seed : l ≠ [] → ∃ x, _pick l seed = Some x ∧ x ∈ l.
Proof.
  intros Hl. unfold _pick.
  destruct (l !! Z.to_nat (Z.modulo (Z.abs seed) (Z.of_nat (length l)))) as [x|] eqn:E.
  - exists x. split; [done|]. by eapply list_elem_of_lookup_2.
  - apply lookup_ge_None in E. destruct l; [done|]. cbn [length] in E.
    pose proof (Z.mod_pos_bound (Z.abs seed) (Z.of_nat (S (length l)))). lia.
Qed.

Lemma announcement_some specialist spoken seed : is_Some (announcement specialist spoken seed).
Proof.
  unfold announcement. destruct (pick_some _ANNOUNCE seed) as (f & -> & _); [done|]. by eexists.
Qed.

(** An answer is always announced, and what is promised fits the device.
    [announcement] always yields a sentence; and [acknowledgement] promises speech
    only when the endpoint that was selected speaks. *)
Theorem announcement_total specialist spoken modality seed :
  is_Some (announcement specialist spoken seed) ∧
  ∃ f, acknowledgement specialist modality seed = Some (f (speaker_name specialist)) ∧
    if bool_decide (modality = Some "audio") then f ∈ _ACK_AUDIO else f ∈ _ACK_TEXT.
Proof.
  split; [apply announcement_some|]. unfold acknowledgement. case_bool_decide.
  - destruct (pick_some _ACK_AUDIO seed) as (f & -> & ?); [done|]. by exists f.
  - destruct (pick_some _ACK_TEXT seed) as (f & -> & ?); [done|]. by exists f.
Qed.

(** ** Evaluation *)

Definition sample_payload : json :=
  JObj [("status", JStr "answered"); ("spoken_summary", JStr "Forty euro."); ("answer", JStr "40");
        ("clarification", JStr ""); ("citations", JList []); ("assumptions", JList []);
        ("provenance", JObj [("source", JList [JStr "ledger"])]);
        ("sensitivity", JStr "private"); ("delivery_ttl_s", JInt 600)].
Definition sample_result : VoiceJobResult :=
  mkResult "answered" "Forty euro." "40" "" [] [] (JObj [("source", JList [JStr "ledger"])])
    "private" 600.

Lemma accepted_result_contract_witness :
  parse_voice_job_result sample_payload = Ok sample_result ∧ wf_result sample_result.
Proof.
  assert (parse_voice_job_result sample_payload = Ok sample_result) as E by (vm_compute; reflexivity).
  split; [exact E|]. exact (proj1 (accepted_result_contract _ _ E)).
Defined.

Lemma private_results_stay_private_witness :
  voice_identity_clearance (JObj [("channel", JStr "voice"); ("_authenticated_speaker", JBool true)])
    = "household".
Proof.
  refine (proj1 (private_results_stay_private
    [("channel", JStr "voice"); ("_authenticated_speaker", JBool true)] sample_result sample_result
    false _ _ _)); reflexivity.
Defined.

Lemma webhook_never_private_witness :
  clearance_for_origin (Some "webhook_trigger") (Some "private") "webhook" ≠ "private".
Proof.
  apply (proj2 (webhook_never_private (Some "webhook_trigger") (Some "private") "webhook")).
  left. reflexivity.
Defined.
