(* ===== verification/Routes.v ===== *)
(** * Voice routes

    [channels/voice/routes.py]: which websocket connection currently speaks for
    which Home Assistant route.  Objects are compared by identity in the source,
    so connections and bound routes carry the number of their object; the fields
    the registry writes on a connection object live in [connections]. *)

From S2P Require Import Prelude PyDict Json.

Definition _ROUTE_PROTOCOL : Z := 3.
Definition _CAPABILITIES : list string := ["background_jobs"; "endpoint_delivery"; "voice_handoff"].

(** [_identifier]: a non-blank string of at most 512 characters, stripped. *)
Definition _identifier (value : json) : option string :=
  match value with
  | JStr s =>
    let normalized := strip s in
    if negb (str_true normalized) || (512 <? String.length normalized)%nat then None
    else Some normalized
  | _ => None
  end.

(** [type(value) is int and value == n] *)
Definition is_protocol (n : Z) (value : json) : bool := bool_decide (value = JInt n).

(** [channel_authz.py]: [CHANNEL_CAPABILITY] and [agent_allowed_on]. *)
Definition CHANNEL_CAPABILITY : list (string * string) :=
  [("voice", "ha_voice"); ("webhook", "webhook")].

Definition agent_allowed_on (ingress : string) (channels : list string) : bool :=
  match dget CHANNEL_CAPABILITY ingress with
  | None => false
  | Some cap => bool_decide (cap ∈ channels)
  end.

(** [VoiceWsConnection]: the fields the registry owns. *)
Record Connection := mkConnection {
  voice_route_id : option string;
  voice_route_role : option string;
  voice_route_capabilities : list string;
  voice_job_control_id : option string
}.

Definition cleared : Connection := mkConnection None None [] None.

Record BoundVoiceRoute := mkBound {
  bound_ref : nat;                (** the identity of the object *)
  route_id : string;
  role : string;
  capabilities : list string;
  bound_control_id : string;
  connection : nat;
  connected_at : Z
}.

#[export] Instance bound_eq_dec : EqDecision BoundVoiceRoute.
Proof. solve_decision. Defined.

Record _RouteMetadata := mkMetadata {
  meta_role : string;
  meta_capabilities : list string;
  last_seen : Z
}.

#[export] Instance metadata_eta : Eta _RouteMetadata := λ m,
  mkMetadata (meta_role m) (meta_capabilities m) (last_seen m).

Record VoiceRouteRegistry := mkRoutes {
  _secret_present : bool;
  _freshness_s : Z;
  _agent_configs : list (string * list string);   (** role to its channels *)
  _connected : list (string * BoundVoiceRoute);
  _metadata : list (string * _RouteMetadata);
  connections : list (nat * Connection);
  next_bound : nat                            (** a fresh object identity *)
}.

#[export] Instance routes_eta : Eta VoiceRouteRegistry := λ r,
  mkRoutes (_secret_present r) (_freshness_s r) (_agent_configs r) (_connected r) (_metadata r)
    (connections r) (next_bound r).

(** The registry's fields of a connection: a connection never seen has none. *)
Definition fields_of (s : VoiceRouteRegistry) (c : nat) : Connection :=
  default cleared (dget (connections s) c).

Definition get_connected (s : VoiceRouteRegistry) (r : string) : option BoundVoiceRoute :=
  dget (_connected s) r.

(** [_clear_connection_fields] *)
Definition _clear_connection_fields (c : nat) (s : VoiceRouteRegistry) : VoiceRouteRegistry :=
  s <| connections ::= λ d, dset d c cleared |>.

(** The freshness stamp of a route, when it has metadata. *)
Definition stamp (clock : Z) (r : string) (s : VoiceRouteRegistry) : VoiceRouteRegistry :=
  match dget (_metadata s) r with
  | Some m => s <| _metadata ::= λ d, dset d r (m <| last_seen := clock |>) |>
  | None => s
  end.

(** [connected is not None and connected.connection is connection] *)
Definition speaks_for (s : VoiceRouteRegistry) (r : string) (c : nat) : bool :=
  match get_connected s r with Some b => (connection b =? c)%nat | None => false end.

(** [_clear_connection_binding] *)
Definition _clear_connection_binding (clock : Z) (c : nat) (s : VoiceRouteRegistry)
    : VoiceRouteRegistry :=
  let s' :=
    match voice_route_id (fields_of s c) with
    | Some r =>
      if speaks_for s r c then stamp clock r (s <| _connected ::= λ d, ddel d r |>) else s
    | None => s
    end in
  _clear_connection_fields c s'.

(** [_prune_expired_metadata] *)
Definition _prune_expired_metadata (clock : Z) (s : VoiceRouteRegistry) : VoiceRouteRegistry :=
  s <| _metadata ::= filter (λ p,
    (dhas (_connected s) p.1 || bool_decide (clock - last_seen p.2 ≤ _freshness_s s)%Z) = true) |>.

(** The strings of a list value, when every element is one. *)
Fixpoint string_elements (l : list json) : option (list string) :=
  match l with
  | [] => Some []
  | JStr x :: l' => (cons x) <$> string_elements l'
  | _ => None
  end.

(** [requested_set == _BACKGROUND_CAPABILITIES], by two inclusions. *)
Definition valid_requested (requested : json) : bool :=
  match requested with
  | JList l =>
    match string_elements l with
    | Some caps => forallb (λ c, bool_decide (c ∈ _CAPABILITIES)) caps
                   && forallb (λ c, bool_decide (c ∈ caps)) _CAPABILITIES
    | None => false
    end
  | _ => false
  end.

(** The registration a frame asks for, when it is acceptable. *)
Definition acceptable (s : VoiceRouteRegistry) (frame : list (string * json))
    : option (string * string) :=
  match _identifier (obj_get frame "route_id"), _identifier (obj_get frame "agent_role") with
  | Some r, Some a =>
    if is_protocol _ROUTE_PROTOCOL (obj_get frame "protocol") && _secret_present s
       && match dget (_agent_configs s) a with
          | Some channels => agent_allowed_on "voice" channels
          | None => false
          end
       && valid_requested (obj_get frame "capabilities")
    then Some (r, a) else None
  | _, _ => None
  end.

(** The connection that spoke for the route before loses its fields. *)
Definition displace (c : nat) (r : string) (s : VoiceRouteRegistry) : VoiceRouteRegistry :=
  match get_connected s r with
  | Some old => if (connection old =? c)%nat then s
                else _clear_connection_fields (connection old) s
  | None => s
  end.

(** [register]: what is bound, the acknowledgement's accepted set, and the
    registry; the acknowledgement itself is the caller's last step. *)
Definition register (clock : Z) (c : nat) (frame : list (string * json)) (s : VoiceRouteRegistry)
    : option BoundVoiceRoute * list string * VoiceRouteRegistry :=
  match acceptable s frame with
  | None => (None, [], s)
  | Some (r, a) =>
    let s := _prune_expired_metadata clock (_clear_connection_binding clock c s) in
    let s := displace c r s in
    let bound := mkBound (next_bound s) r a _CAPABILITIES r c clock in
    (Some bound, _CAPABILITIES,
     s <| _connected ::= λ d, dset d r bound |>
       <| _metadata ::= λ d, dset d r (mkMetadata a _CAPABILITIES clock) |>
       <| connections ::= λ d, dset d c (mkConnection (Some r) (Some a) _CAPABILITIES (Some r)) |>
       <| next_bound ::= S |>)
  end.

(** [caps1 <= caps2] *)
Definition included (a b : list string) : bool := forallb (λ c, bool_decide (c ∈ b)) a.

(** [is_recently_capable] *)
Definition is_recently_capable (clock : Z) (r : string) (s : VoiceRouteRegistry)
    : bool * VoiceRouteRegistry :=
  match get_connected s r with
  | Some b => (included _CAPABILITIES (capabilities b), s)
  | None =>
    let s := _prune_expired_metadata clock s in
    (match dget (_metadata s) r with
     | Some m => included _CAPABILITIES (meta_capabilities m)
                 && bool_decide (clock - last_seen m ≤ _freshness_s s)%Z
     | None => false
     end, s)
  end.

(** [touch] *)
Definition touch (clock : Z) (c : nat) (s : VoiceRouteRegistry) : VoiceRouteRegistry :=
  match voice_route_id (fields_of s c) with
  | Some r => if speaks_for s r c then stamp clock r s else s
  | None => s
  end.

(** [disconnect] *)
Definition disconnect (clock : Z) (c : nat) (s : VoiceRouteRegistry)
    : option BoundVoiceRoute * VoiceRouteRegistry :=
  match voice_route_id (fields_of s c) with
  | None => (None, s)
  | Some r =>
    match get_connected s r with
    | Some b =>
      if (connection b =? c)%nat
      then (Some b, _clear_connection_fields c (stamp clock r (s <| _connected ::= λ d, ddel d r |>)))
      else (None, _clear_connection_fields c s)
    | None => (None, _clear_connection_fields c s)
    end
  end.

(** ** One speaker per route *)

(** Both sides of a binding agree: the table says that [c] speaks for [r]
    exactly when the connection's own fields say so. *)
Record routes_wf (s : VoiceRouteRegistry) : Prop := {
  rt_keys : ∀ r b, get_connected s r = Some b →
    route_id b = r ∧ bound_control_id b = r ∧ capabilities b = _CAPABILITIES ∧
    is_Some (dget (_metadata s) r);
  rt_agree : ∀ c r, voice_route_id (fields_of s c) = Some r ↔ speaks_for s r c = true
}.

Inductive route_op :=
  | RRegister (c : nat) (frame : list (string * json))
  | RTouch (c : nat)
  | RDisconnect (c : nat)
  | RCapable (r : string).

Definition route_step (clock : Z) (o : route_op) (s : VoiceRouteRegistry) : VoiceRouteRegistry :=
  match o with
  | RRegister c frame => (register clock c frame s).2
  | RTouch c => touch clock c s
  | RDisconnect c => (disconnect clock c s).2
  | RCapable r => (is_recently_capable clock r s).2
  end.

Lemma fields_of_clear s c c' :
  fields_of (_clear_connection_fields c s) c' = if decide (c' = c) then cleared else fields_of s c'.
Proof.
  unfold fields_of, _clear_connection_fields. change (connections (update _ _ s)) with
    (dset (connections s) c cleared). rewrite dget_dset. by case_decide.
Qed.

(** The parts of a registry an operation may leave alone. *)
Lemma stamp_parts clock r s :
  _connected (stamp clock r s) = _connected s ∧ connections (stamp clock r s) = connections s ∧
  next_bound (stamp clock r s) = next_bound s ∧
  ∀ k, is_Some (dget (_metadata (stamp clock r s)) k) ↔ is_Some (dget (_metadata s) k).
Proof.
  unfold stamp. destruct (dget (_metadata s) r) as [m|] eqn:E; [|done]. split_and!; try done.
  intros k. change (_metadata (update _ _ s)) with (dset (_metadata s) r (m <| last_seen := clock |>)).
  rewrite dget_dset. case_decide; [subst; rewrite E; split; eauto|done].
Qed.

Lemma speaks_unique s r c c' : speaks_for s r c = true → speaks_for s r c' = true → c = c'.
Proof.
  unfold speaks_for. destruct (get_connected s r); [|done].
  intros ?%Nat.eqb_eq ?%Nat.eqb_eq. congruence.
Qed.

Lemma prune_parts clock s :
  _connected (_prune_expired_metadata clock s) = _connected s ∧
  connections (_prune_expired_metadata clock s) = connections s.
Proof. done. Qed.

Lemma dget_filter_key {V} (P : string * V → bool) (d : list (string * V)) k v :
  dget d k = Some v → (∀ v', P (k, v') = true) → is_Some (dget (filter (λ p, P p = true) d) k).
Proof.
  intros Hk HP. induction d as [|[k0 v0] d IH]; cbn [dget] in Hk; [done|].
  rewrite filter_cons. case_decide as E.
  - subst. rewrite decide_True by apply HP. cbn. rewrite decide_True by done. eauto.
  - case_decide; [cbn [dget]; rewrite decide_False by done|]; by apply IH.
Qed.

Lemma prune_wf clock s : routes_wf s → routes_wf (_prune_expired_metadata clock s).
Proof.
  intros [Hk Ha]. split; [|done]. intros r b Hb. destruct (Hk r b Hb) as (? & ? & ? & m & Hm).
  split_and!; try done. eapply (dget_filter_key (λ p, dhas (_connected s) p.1
    || bool_decide (clock - last_seen p.2 ≤ _freshness_s s)%Z)); [exact Hm|].
  intros m'. apply orb_true_iff. left. apply dhas_true. by exists b.
Qed.

Lemma stamp_wf clock r s : routes_wf s → routes_wf (stamp clock r s).
Proof.
  intros [Hk Ha]. destruct (stamp_parts clock r s) as (E1 & E2 & _ & E4).
  assert (∀ r', get_connected (stamp clock r s) r' = get_connected s r') as Eg
    by (intros; unfold get_connected; by rewrite E1).
  split.
  - intros r' b. rewrite Eg. intros Hb. destruct (Hk r' b Hb) as (? & ? & ? & ?).
    split_and!; try done. by apply E4.
  - intros c' r'. unfold speaks_for, fields_of. rewrite Eg, E2. apply Ha.
Qed.

(** Dropping the route a connection speaks for, together with its fields. *)
Lemma unbind_wf s c r :
  routes_wf s → speaks_for s r c = true →
  routes_wf (_clear_connection_fields c (s <| _connected ::= λ d, ddel d r |>)).
Proof.
  intros [Hk Ha] Hs. split.
  - intros r' b. unfold get_connected.
    change (_connected (_clear_connection_fields c _)) with (ddel (_connected s) r).
    rewrite dget_ddel. case_decide; [done|]. apply Hk.
  - intros c' r'. rewrite fields_of_clear. unfold speaks_for, get_connected.
    change (_connected (_clear_connection_fields c _)) with (ddel (_connected s) r).
    rewrite dget_ddel. change (fields_of (update _ _ s) c') with (fields_of s c').
    case_decide as Hc; [subst c'|]; case_decide as Hr; [subst r'|..|subst r'|]; cbn; try done.
    + split; [done|]. intros Hs'. exfalso. apply Hr.
      apply Ha in Hs. apply (proj2 (Ha c r')) in Hs'. congruence.
    + split; [|done]. intros Hf%Ha. exfalso. by apply Hc, (speaks_unique s r).
Qed.

Lemma clear_stale_wf s c r :
  routes_wf s → voice_route_id (fields_of s c) = Some r → speaks_for s r c = false →
  routes_wf (_clear_connection_fields c s).
Proof. intros [Hk Ha] Hf Hs. apply Ha in Hf. congruence. Qed.

Lemma clear_unbound_wf s c :
  routes_wf s → voice_route_id (fields_of s c) = None → routes_wf (_clear_connection_fields c s).
Proof.
  intros [Hk Ha] Hf. split; [exact Hk|]. intros c' r'. rewrite fields_of_clear.
  change (speaks_for (_clear_connection_fields c s) r' c') with (speaks_for s r' c').
  rewrite <-Ha. case_decide; [subst; rewrite Hf; done|done].
Qed.

Lemma stamp_clear clock r c s :
  routes_wf (_clear_connection_fields c s) → routes_wf (_clear_connection_fields c (stamp clock r s)).
Proof.
  intros H. replace (_clear_connection_fields c (stamp clock r s))
    with (stamp clock r (_clear_connection_fields c s)); [by apply stamp_wf|].
  unfold stamp. change (_metadata (_clear_connection_fields c s)) with (_metadata s).
  by destruct (dget (_metadata s) r).
Qed.

Lemma clear_binding_wf clock c s :
  routes_wf s →
  routes_wf (_clear_connection_binding clock c s) ∧
  voice_route_id (fields_of (_clear_connection_binding clock c s) c) = None.
Proof.
  intros Hwf. split.
  - unfold _clear_connection_binding. destruct (voice_route_id (fields_of s c)) as [r|] eqn:E.
    + pose proof (proj1 (rt_agree _ Hwf c r) E) as Hs. rewrite Hs.
      apply stamp_clear. by apply unbind_wf.
    + by apply clear_unbound_wf.
  - unfold _clear_connection_binding. rewrite fields_of_clear. by rewrite decide_True.
Qed.

Lemma displace_parts c r s :
  _connected (displace c r s) = _connected s ∧ _metadata (displace c r s) = _metadata s ∧
  ∀ c', c' ≠ c →
    fields_of (displace c r s) c' = if speaks_for s r c' then cleared else fields_of s c'.
Proof.
  unfold displace, speaks_for. destruct (get_connected s r) as [old|] eqn:Eo; [|done].
  destruct (Nat.eqb_spec (connection old) c) as [->|Hne].
  - split_and!; try done. intros c' Hc'. apply not_eq_sym, Nat.eqb_neq in Hc'. by rewrite Hc'.
  - split_and!; try done. intros c' Hc'. rewrite fields_of_clear. case_decide as Hd; [subst|].
    + by rewrite Nat.eqb_refl.
    + apply not_eq_sym, Nat.eqb_neq in Hd. by rewrite Hd.
Qed.

(** Installing a binding over a registry in which the connection is unbound. *)
Lemma install_wf clock c r a s :
  routes_wf s → voice_route_id (fields_of s c) = None →
  routes_wf (
    (displace c r s)
    <| _connected ::= λ d, dset d r (mkBound (next_bound (displace c r s)) r a _CAPABILITIES r c clock) |>
    <| _metadata ::= λ d, dset d r (mkMetadata a _CAPABILITIES clock) |>
    <| connections ::= λ d, dset d c (mkConnection (Some r) (Some a) _CAPABILITIES (Some r)) |>
    <| next_bound ::= S |>).
Proof.
  intros [Hk Ha] Hc. destruct (displace_parts c r s) as (E1 & E2 & E3).
  set (s3 := displace c r s) in *.
  split.
  - intros r' b. unfold get_connected. change (_connected (update next_bound _ _)) with
      (dset (_connected s3) r (mkBound (next_bound s3) r a _CAPABILITIES r c clock)).
    change (_metadata (update next_bound _ _)) with
      (dset (_metadata s3) r (mkMetadata a _CAPABILITIES clock)).
    rewrite !dget_dset, E1, E2. case_decide; [intros [= <-]; subst; eauto|apply Hk].
  - intros c' r'. unfold speaks_for, get_connected, fields_of at 1.
    change (_connected (update next_bound _ _)) with
      (dset (_connected s3) r (mkBound (next_bound s3) r a _CAPABILITIES r c clock)).
    change (connections (update next_bound _ _)) with
      (dset (connections s3) c (mkConnection (Some r) (Some a) _CAPABILITIES (Some r))).
    rewrite !dget_dset, E1. change (default cleared (if decide (c' = c) then Some _ else _)) with
      (default cleared (if decide (c' = c)
         then Some (mkConnection (Some r) (Some a) _CAPABILITIES (Some r))
         else dget (connections s3) c')).
    case_decide as Hcc; [subst c'|]; (case_decide as Hrr; [subst r'|]); cbn.
    + by rewrite Nat.eqb_refl.
    + change (Some r = Some r' ↔ speaks_for s r' c = true). rewrite <-Ha, Hc. naive_solver.
    + apply not_eq_sym, Nat.eqb_neq in Hcc as Hb. rewrite Hb.
      change (default cleared (dget (connections s3) c')) with (fields_of s3 c').
      rewrite E3 by done. destruct (speaks_for s r c') eqn:Es; [done|].
      split; [|done]. intros Hf%Ha. congruence.
    + change (default cleared (dget (connections s3) c')) with (fields_of s3 c').
      rewrite E3 by done. change (match dget (_connected s) r' with Some b => connection b =? c' | None => false end)
        with (speaks_for s r' c'). rewrite <-Ha. destruct (speaks_for s r c') eqn:Es; [|done].
      apply Ha in Es. rewrite Es. naive_solver.
Qed.

(** C24: one speaker per route.  Every operation of the route registry keeps both
    sides of every binding in agreement: a connection's own fields name a route
    exactly when the table says that it speaks for it, so a route has one
    speaker, a connection speaks for one route, and a bound route has freshness
    metadata. *)
Theorem route_step_agrees clock o s : routes_wf s → routes_wf (route_step clock o s).
Proof.
  intros Hwf. destruct o as [c frame|c|c|r]; cbn [route_step].
  - unfold register. destruct (acceptable s frame) as [[r a]|]; [|done]. cbn [snd].
    destruct (clear_binding_wf clock c s Hwf) as [Hc Hf].
    apply (install_wf clock c r a (_prune_expired_metadata clock _)).
    + by apply prune_wf.
    + exact Hf.
  - unfold touch. destruct (voice_route_id (fields_of s c)); [|done].
    case_match; [by apply stamp_wf|done].
  - unfold disconnect. destruct (voice_route_id (fields_of s c)) as [r|] eqn:E; [|done].
    pose proof (proj1 (rt_agree _ Hwf c r) E) as Hs. unfold speaks_for in Hs.
    destruct (get_connected s r) as [b|] eqn:Eb; [|done]. rewrite Hs. cbn [snd].
    apply stamp_clear. apply unbind_wf; [done|]. unfold speaks_for. by rewrite Eb.
  - unfold is_recently_capable. destruct (get_connected s r); [done|]. by apply prune_wf.
Qed.

(** Registration takes a route over, or takes nothing.  A frame that is not
    acceptable is answered with an empty set and changes nothing: a bound
    connection stays bound.  An accepted one gives the route to the connection,
    silences whoever spoke for it before, and disturbs no other connection. *)
Theorem register_takes_over clock c frame s :
  routes_wf s →
  match acceptable s frame with
  | None => register clock c frame s = (None, [], s)
  | Some (r, a) => ∃ b s', register clock c frame s = (Some b, _CAPABILITIES, s') ∧
      get_connected s' r = Some b ∧ connection b = c ∧ route_id b = r ∧
      voice_route_id (fields_of s' c) = Some r ∧
      (∀ c', c' ≠ c → speaks_for s r c' = true → voice_route_id (fields_of s' c') = None) ∧
      (∀ c', c' ≠ c → speaks_for s r c' = false →
             voice_route_id (fields_of s' c') = voice_route_id (fields_of s c'))
  end.
Proof.
  intros Hwf. unfold register. destruct (acceptable s frame) as [[r a]|] eqn:Ea; [|done].
  pose proof (route_step_agrees clock (RRegister c frame) s Hwf) as Hwf'.
  cbn [route_step] in Hwf'. unfold register in Hwf'. rewrite Ea in Hwf'. cbn [snd] in Hwf'.
  set (s1 := _clear_connection_binding clock c s) in *.
  set (s2 := _prune_expired_metadata clock s1) in *.
  destruct (displace_parts c r s2) as (_ & _ & H3). set (s3 := displace c r s2) in *.
  eexists _, _. split; [reflexivity|].
  destruct (clear_binding_wf clock c s Hwf) as [Hwf1 Hf1]. fold s1 in Hwf1, Hf1.
  assert (∀ c', c' ≠ c → fields_of s1 c' = fields_of s c') as Hs1.
  { intros c' Hc'. subst s1. unfold _clear_connection_binding. rewrite fields_of_clear.
    rewrite decide_False by done. repeat case_match; try done. unfold fields_of.
    by rewrite (proj1 (proj2 (stamp_parts _ _ _))). }
  assert (∀ c', c' ≠ c → speaks_for s2 r c' = speaks_for s r c') as Hsp.
  { intros c' Hc'. apply eq_true_iff_eq. rewrite <-(rt_agree _ Hwf).
    change (speaks_for s2 r c') with (speaks_for s1 r c'). rewrite <-(rt_agree _ Hwf1).
    by rewrite Hs1. }
  split_and!; try done.
  - apply (dget_dset_eq (_connected s3)).
  - unfold fields_of. change (connections (update next_bound _ _)) with
      (dset (connections s3) c (mkConnection (Some r) (Some a) _CAPABILITIES (Some r))).
    by rewrite dget_dset_eq.
  - intros c' Hc' Hs. unfold fields_of. change (connections (update next_bound _ _)) with
      (dset (connections s3) c (mkConnection (Some r) (Some a) _CAPABILITIES (Some r))).
    rewrite dget_dset_ne by done. change (default cleared _) with (fields_of s3 c').
    by rewrite H3, Hsp, Hs.
  - intros c' Hc' Hs. unfold fields_of at 1. change (connections (update next_bound _ _)) with
      (dset (connections s3) c (mkConnection (Some r) (Some a) _CAPABILITIES (Some r))).
    rewrite dget_dset_ne by done. change (default cleared _) with (fields_of s3 c').
    rewrite H3, Hsp, Hs by done. change (fields_of s2 c') with (fields_of s1 c').
    by rewrite Hs1.
Qed.

(** ** Evaluation *)

Definition sample_routes : VoiceRouteRegistry :=
  mkRoutes true (seconds 60) [("assistant", ["ha_voice"])] [] [] [] 0.
Definition sample_registration : list (string * json) :=
  [("protocol", JInt 3); ("route_id", JStr " r "); ("agent_role", JStr "assistant");
   ("capabilities", JList [JStr "voice_handoff"; JStr "background_jobs"; JStr "endpoint_delivery"])].

Lemma sample_routes_wf : routes_wf sample_routes.
Proof. split; [done|]. intros c r. split; done. Qed.

Lemma route_step_agrees_witness :
  routes_wf (route_step 5 (RRegister 1 sample_registration) sample_routes).
Proof. exact (route_step_agrees 5 (RRegister 1 sample_registration) sample_routes sample_routes_wf). Defined.

Lemma register_takes_over_witness :
  ∃ b s', register 5 1 sample_registration sample_routes = (Some b, _CAPABILITIES, s') ∧
    get_connected s' "r" = Some b.
Proof.
  destruct (register_takes_over 5 1 sample_registration sample_routes sample_routes_wf)
    as (b & s' & E & Hb & _).
  exists b, s'. split; [exact E|exact Hb].
Defined.
