(* ===== verification/JobTypes.v ===== *)
(** * The durable voice job

    The data of [job_registry.py]: the three state enumerations, the failure
    envelope and the [VoiceJob] row.  Times are microseconds; the row's [id] and
    [context] fields carry a trailing underscore because Rocq uses those names. *)

From S2P Require Import Prelude PyDict Json SpeakerProvenance.

Module Exec.
Inductive ExecutionState :=
  | ACCEPTED | RUNNING | SUCCEEDED | FAILED | CANCELLED | ORPHANED.

#[export] Instance execution_eq_dec : EqDecision ExecutionState.
Proof. solve_decision. Defined.

(** [state.value] *)
Definition value (s : ExecutionState) : string :=
  match s with
  | ACCEPTED => "ACCEPTED" | RUNNING => "RUNNING" | SUCCEEDED => "SUCCEEDED"
  | FAILED => "FAILED" | CANCELLED => "CANCELLED" | ORPHANED => "ORPHANED"
  end.

(** [ExecutionState(v)] *)
Definition of_json (v : json) : outcome ExecutionState :=
  match v with
  | JStr s =>
    if bool_decide (s = "ACCEPTED") then Ok ACCEPTED
    else if bool_decide (s = "RUNNING") then Ok RUNNING
    else if bool_decide (s = "SUCCEEDED") then Ok SUCCEEDED
    else if bool_decide (s = "FAILED") then Ok FAILED
    else if bool_decide (s = "CANCELLED") then Ok CANCELLED
    else if bool_decide (s = "ORPHANED") then Ok ORPHANED
    else Raise ValueError
  | _ => Raise ValueError
  end.

Lemma execution_of_value s : of_json (JStr (value s)) = Ok s.
Proof. by destruct s. Qed.
End Exec.

Module Dlv.
Inductive DeliveryState :=
  | NONE | READY | CLAIMED | AUTHORIZED | PLAYING | DELIVERED | CANCELLED | EXPIRED.

#[export] Instance delivery_eq_dec : EqDecision DeliveryState.
Proof. solve_decision. Defined.

Definition value (s : DeliveryState) : string :=
  match s with
  | NONE => "NONE" | READY => "READY" | CLAIMED => "CLAIMED"
  | AUTHORIZED => "AUTHORIZED" | PLAYING => "PLAYING" | DELIVERED => "DELIVERED"
  | CANCELLED => "CANCELLED" | EXPIRED => "EXPIRED"
  end.

(** [DeliveryState(v)] *)
Definition of_json (v : json) : outcome DeliveryState :=
  match v with
  | JStr s =>
    if bool_decide (s = "NONE") then Ok NONE
    else if bool_decide (s = "READY") then Ok READY
    else if bool_decide (s = "CLAIMED") then Ok CLAIMED
    else if bool_decide (s = "AUTHORIZED") then Ok AUTHORIZED
    else if bool_decide (s = "PLAYING") then Ok PLAYING
    else if bool_decide (s = "DELIVERED") then Ok DELIVERED
    else if bool_decide (s = "CANCELLED") then Ok CANCELLED
    else if bool_decide (s = "EXPIRED") then Ok EXPIRED
    else Raise ValueError
  | _ => Raise ValueError
  end.

Lemma delivery_of_value s : of_json (JStr (value s)) = Ok s.
Proof. by destruct s. Qed.
End Dlv.

Module Hand.
Inductive HandoffState := NONE | PENDING | RECEIVED.

#[export] Instance handoff_eq_dec : EqDecision HandoffState.
Proof. solve_decision. Defined.

Definition value (s : HandoffState) : string :=
  match s with NONE => "NONE" | PENDING => "PENDING" | RECEIVED => "RECEIVED" end.

(** [HandoffState(v)] *)
Definition of_json (v : json) : outcome HandoffState :=
  match v with
  | JStr s =>
    if bool_decide (s = "NONE") then Ok NONE
    else if bool_decide (s = "PENDING") then Ok PENDING
    else if bool_decide (s = "RECEIVED") then Ok RECEIVED
    else Raise ValueError
  | _ => Raise ValueError
  end.

Lemma handoff_of_value s : of_json (JStr (value s)) = Ok s.
Proof. by destruct s. Qed.
End Hand.

Export (hints) Exec Dlv Hand.
Abbreviation ExecutionState := Exec.ExecutionState.
Abbreviation DeliveryState := Dlv.DeliveryState.
Abbreviation HandoffState := Hand.HandoffState.

Record JobFailure := mkFailure { kind : string; message : string }.

#[export] Instance failure_eq_dec : EqDecision JobFailure.
Proof. solve_decision. Defined.

Record VoiceJob := mkJob {
  id_ : string;
  parent_job_id : option string;
  creating_speaker : SpeakerProvenance;
  executing_speaker : SpeakerProvenance;
  creating_role : string;
  specialist_role : string;
  specialist_display_name : string;
  creator_peer : string;
  creator_user_id : option string;
  scope_id : string;
  origin_route_id : option string;
  origin_device_id : option string;
  task : string;
  context_ : string;
  created_at : Z;
  started_at : option Z;
  terminal_at : option Z;
  expires_at : option Z;
  execution_state : ExecutionState;
  delivery_state : DeliveryState;
  result : option string;
  failure : option JobFailure;
  awaiting_input : bool;
  continuable_until : option Z;
  delivery_sequence : Z;
  delivery_attempt_id : option string;
  lease_until : option Z;
  cancel_pending : bool;
  orphan_notification_pending : bool;
  prompted_delivery : bool;
  job_control_id : option string;
  handoff_id : option string;
  handoff_state : HandoffState;
  delivery_modality : json        (** ["audio"], ["text"], null, or whatever the row held *)
}.

#[export] Instance voice_job_eq_dec : EqDecision VoiceJob.
Proof. solve_decision. Defined.

#[export] Instance voice_job_eta : Eta VoiceJob := λ j,
  mkJob (id_ j) (parent_job_id j) (creating_speaker j) (executing_speaker j)
    (creating_role j) (specialist_role j) (specialist_display_name j) (creator_peer j)
    (creator_user_id j) (scope_id j) (origin_route_id j) (origin_device_id j) (task j)
    (context_ j) (created_at j) (started_at j) (terminal_at j) (expires_at j)
    (execution_state j) (delivery_state j) (result j) (failure j) (awaiting_input j)
    (continuable_until j) (delivery_sequence j) (delivery_attempt_id j) (lease_until j)
    (cancel_pending j) (orphan_notification_pending j) (prompted_delivery j)
    (job_control_id j) (handoff_id j) (handoff_state j) (delivery_modality j).

(** Evaluate updates and projections of rows, innermost first. *)
Ltac reduce_job :=
  cbv beta iota zeta delta [ update
      id_ parent_job_id creating_speaker executing_speaker creating_role
      specialist_role specialist_display_name creator_peer creator_user_id scope_id
      origin_route_id origin_device_id task context_ created_at
      started_at terminal_at expires_at execution_state delivery_state
      result failure awaiting_input continuable_until delivery_sequence
      delivery_attempt_id lease_until cancel_pending orphan_notification_pending prompted_delivery
      job_control_id handoff_id handoff_state delivery_modality ] in *.

(** [_TERMINAL_EXECUTION] *)
Definition _TERMINAL_EXECUTION (s : ExecutionState) : bool :=
  match s with
  | Exec.SUCCEEDED | Exec.FAILED | Exec.CANCELLED | Exec.ORPHANED => true
  | _ => false
  end.

(** The tests [state in {ACCEPTED, RUNNING}] of the source. *)
Definition live_execution (s : ExecutionState) : bool :=
  match s with Exec.ACCEPTED | Exec.RUNNING => true | _ => false end.

(** [_LEASED_DELIVERY] *)
Definition _LEASED_DELIVERY (s : DeliveryState) : bool :=
  match s with Dlv.CLAIMED | Dlv.AUTHORIZED | Dlv.PLAYING => true | _ => false end.

(** [_inherit_delivery_modality]: only onto a child with no modality of its own
    that goes to the parent's device. *)
Definition _inherit_delivery_modality (parent child : VoiceJob) : VoiceJob :=
  if negb (bool_decide (delivery_modality child = JNull)) then child
  else if negb (bool_decide (origin_device_id child = origin_device_id parent)) then child
  else child <| delivery_modality := delivery_modality parent |>.

(** ** Orders and counts over rows *)

(** The sort key [(delivery_sequence, created_at, id)], compared as Python
    compares tuples. *)
Definition job_le (a b : VoiceJob) : Prop :=
  (delivery_sequence a < delivery_sequence b)%Z ∨
  delivery_sequence a = delivery_sequence b ∧
    ((created_at a < created_at b)%Z ∨
     created_at a = created_at b ∧ String.le (id_ a) (id_ b)).

#[export] Instance job_le_dec : RelDecision job_le.
Proof. intros a b. unfold job_le. apply _. Defined.

#[export] Instance job_le_total : Total job_le.
Proof.
  intros a b. unfold job_le.
  destruct (Z.lt_trichotomy (delivery_sequence a) (delivery_sequence b)) as [?|[?|?]]; [tauto| |tauto].
  destruct (Z.lt_trichotomy (created_at a) (created_at b)) as [?|[?|?]]; [naive_solver| |naive_solver].
  destruct (total String.le (id_ a) (id_ b)); naive_solver.
Qed.

#[export] Instance job_le_trans : Transitive job_le.
Proof.
  intros a b c Hab Hbc. unfold job_le in *.
  destruct (decide (delivery_sequence a < delivery_sequence c)%Z); [by left|right].
  destruct Hab as [?|[? Hab]], Hbc as [?|[? Hbc]]; try lia. split; [lia|].
  destruct (decide (created_at a < created_at c)%Z); [by left|right].
  destruct Hab as [?|[? Hab]], Hbc as [?|[? Hbc]]; try lia. split; [lia|].
  by transitivity (id_ b).
Qed.
