(* ===== verification/JobRegistry.v ===== *)
(** * The job registry: state and operations

    [job_registry.py], [class JobRegistry]: one definition per method, in the
    monad of [Prelude].  A method that takes [self._lock] is one atomic step;
    its environment [Env] says what the outside does during that step: what the
    clock reads, whether the blocking snapshot writer succeeds, and whether the
    awaiting caller is cancelled while the writer runs.

    The asyncio objects the registry owns (tasks, events, permits, timers,
    futures) are identified by numbers; what the registry does to them is kept
    in the [loop] fields, so that "signalled", "released" and "resolved" are
    facts of the state. *)

From S2P Require Import Prelude PyDict Json SpeakerProvenance JobTypes.

(** The snapshot file. *)
Inductive file :=
  | Absent
  | Unparsable
  | Holds (v : json).

Record Env := mkEnv {
  now : Z;               (** [self._clock()] *)
  write_ok : bool;       (** [atomic_write_json] returns rather than raises *)
  cancelled : bool       (** the caller is cancelled during the commit *)
}.

Record Loop := mkLoop {
  done_tasks : list nat;              (** tasks for which [task.done()] *)
  cancel_requested : list nat;        (** tasks on which [cancel()] was called *)
  events_set : list nat;
  permits_released : list nat;        (** one entry per [permit.release()] call *)
  resolved : list (nat * VoiceJob);   (** terminal waiters and what they got *)
  released_waiters : list nat;        (** runtime-release waiters resolved *)
  next_task : nat                     (** a fresh task identity *)
}.

#[export] Instance loop_eta : Eta Loop := λ l,
  mkLoop (done_tasks l) (cancel_requested l) (events_set l) (permits_released l)
    (resolved l) (released_waiters l) (next_task l).

Record JobRegistry := mkRegistry {
  _jobs : list (string * VoiceJob);
  _delivery_sequence : Z;
  _loaded : bool;
  LEASE_SECONDS : Z;
  _voice_result_ttl_seconds : Z;
  _tasks : list (string * nat);
  _cancel_events : list (string * nat);
  _permits : list (string * nat);
  _cancel_timers : list (string * nat);
  _terminal_waiters : list (string * list nat);
  _runtime_release_waiters : list (string * list nat);
  loop : Loop;
  disk : file
}.

#[export] Instance registry_eta : Eta JobRegistry := λ r,
  mkRegistry (_jobs r) (_delivery_sequence r) (_loaded r) (LEASE_SECONDS r)
    (_voice_result_ttl_seconds r) (_tasks r) (_cancel_events r) (_permits r)
    (_cancel_timers r) (_terminal_waiters r) (_runtime_release_waiters r) (loop r) (disk r).

(** Evaluate updates and projections of registries, innermost first. *)
Ltac reduce_registry :=
  cbv beta iota zeta delta [ update
      _jobs _delivery_sequence _loaded LEASE_SECONDS _voice_result_ttl_seconds
      _tasks _cancel_events _permits _cancel_timers _terminal_waiters
      _runtime_release_waiters loop disk ] in *.

Definition RESULT_TTL_SECONDS : Z := seconds (24 * 60 * 60).

(** [JobRegistry(path, result_ttl_seconds=ttl)] over a given snapshot file. *)
Definition new_registry (ttl : Z) (f : file) : outcome JobRegistry :=
  let* _ := fail_when (bool_decide (ttl ≤ 0)%Z) ValueError in
  Ok (mkRegistry [] 0 false (seconds 15) ttl [] [] [] [] [] []
        (mkLoop [] [] [] [] [] [] 0) f).

Definition M := PyM JobRegistry.

(** ** Snapshot encoding *)

(** [_encode_job] *)
Definition _encode_job (job : VoiceJob) : outcome json :=
  let* creating := provenance_mapping (creating_speaker job) in
  let* executing := provenance_mapping (executing_speaker job) in
  Ok (JObj
    [("id", JStr (id_ job));
     ("parent_job_id", json_of_opt_str (parent_job_id job));
     ("creating_speaker", creating);
     ("executing_speaker", executing);
     ("creating_role", JStr (creating_role job));
     ("specialist_role", JStr (specialist_role job));
     ("specialist_display_name", JStr (specialist_display_name job));
     ("creator_peer", JStr (creator_peer job));
     ("creator_user_id", json_of_opt_str (creator_user_id job));
     ("scope_id", JStr (scope_id job));
     ("origin_route_id", json_of_opt_str (origin_route_id job));
     ("origin_device_id", json_of_opt_str (origin_device_id job));
     ("task", JStr (task job));
     ("context", JStr (context_ job));
     ("created_at", JFloat (created_at job));
     ("started_at", json_of_opt_float (started_at job));
     ("terminal_at", json_of_opt_float (terminal_at job));
     ("expires_at", json_of_opt_float (expires_at job));
     ("execution_state", JStr (Exec.value (execution_state job)));
     ("delivery_state", JStr (Dlv.value (delivery_state job)));
     ("result", json_of_opt_str (result job));
     ("failure", match failure job with
                 | None => JNull
                 | Some f => JObj [("kind", JStr (kind f)); ("message", JStr (message f))]
                 end);
     ("awaiting_input", JBool (awaiting_input job));
     ("continuable_until", json_of_opt_float (continuable_until job));
     ("delivery_sequence", JInt (delivery_sequence job));
     ("delivery_attempt_id", json_of_opt_str (delivery_attempt_id job));
     ("lease_until", json_of_opt_float (lease_until job));
     ("cancel_pending", JBool (cancel_pending job));
     ("orphan_notification_pending", JBool (orphan_notification_pending job));
     ("prompted_delivery", JBool (prompted_delivery job));
     ("job_control_id", json_of_opt_str (job_control_id job));
     ("handoff_id", json_of_opt_str (handoff_id job));
     ("handoff_state", JStr (Hand.value (handoff_state job)));
     ("delivery_modality", delivery_modality job)]).

(** [sorted(jobs.values(), key=...)] *)
Definition sorted_jobs (jobs : list (string * VoiceJob)) : list VoiceJob :=
  merge_sort job_le (dvals jobs).

(** The list [_write_snapshot_locked] hands to the writer. *)
Definition snapshot_of (jobs : list (string * VoiceJob)) : outcome json :=
  let* rows := map_outcome _encode_job (sorted_jobs jobs) in Ok (JList rows).

(** [max((job.delivery_sequence for job in jobs.values()), default=0)] *)
Definition max_sequence (jobs : list (string * VoiceJob)) : Z :=
  match delivery_sequence <$> dvals jobs with
  | [] => 0
  | q :: qs => foldr Z.max q qs
  end.

(** ** Snapshot decoding *)

Section decode.
Context `{PyText}.

Definition _optional_str (v : json) : option string :=
  match v with JNull => None | _ => Some (to_str v) end.

Definition _optional_float (v : json) : outcome (option Z) :=
  match v with JNull => Ok None | _ => let* z := to_float v in Ok (Some z) end.

(** [_decode_speaker] *)
Definition _decode_speaker (row : list (string * json)) (key : string)
    : outcome SpeakerProvenance :=
  match obj_get row key with
  | JNull => Ok system_speaker
  | v => provenance_from_mapping v
  end.

(** The failure envelope, read before the [try] of [_decode_job]. *)
Definition decode_failure (row : list (string * json)) : outcome (option JobFailure) :=
  match obj_get row "failure" with
  | JNull => Ok None
  | JObj f =>
    let* k := obj_item f "kind" in
    let* m := obj_item f "message" in
    Ok (Some (mkFailure (to_str k) (to_str m)))
  | _ => Raise JobRegistryError
  end.

(** The body of the [try]: the fields in the order they are read. *)
Definition decode_fields (row : list (string * json)) (fl : option JobFailure)
    : outcome VoiceJob :=
  let item k := obj_item row k in
  let text k := (let* v := item k in Ok (to_str v)) in
  let* jid := text "id" in
  let* creating := _decode_speaker row "creating_speaker" in
  let* executing := _decode_speaker row "executing_speaker" in
  let* crole := text "creating_role" in
  let* srole := text "specialist_role" in
  let* sname := text "specialist_display_name" in
  let* peer := text "creator_peer" in
  let* scope := text "scope_id" in
  let* tsk := text "task" in
  let* ctx := text "context" in
  let* created := (let* v := item "created_at" in to_float v) in
  let* started := _optional_float (obj_get row "started_at") in
  let* terminal := _optional_float (obj_get row "terminal_at") in
  let* expires := _optional_float (obj_get row "expires_at") in
  let* exec := (let* v := item "execution_state" in Exec.of_json v) in
  let* dlv := (let* v := item "delivery_state" in Dlv.of_json v) in
  let* awaiting := (let* v := item "awaiting_input" in Ok (truthy v)) in
  let* continuable := _optional_float (obj_get row "continuable_until") in
  let* seq := (let* v := item "delivery_sequence" in to_int v) in
  let* lease := _optional_float (obj_get row "lease_until") in
  let* pending := (let* v := item "cancel_pending" in Ok (truthy v)) in
  let* hand := Hand.of_json (default (JStr "NONE") (dget row "handoff_state")) in
  Ok (mkJob jid (_optional_str (obj_get row "parent_job_id")) creating executing
        crole srole sname peer (_optional_str (obj_get row "creator_user_id")) scope
        (_optional_str (obj_get row "origin_route_id"))
        (_optional_str (obj_get row "origin_device_id")) tsk ctx created started terminal
        expires exec dlv (_optional_str (obj_get row "result")) fl awaiting continuable seq
        (_optional_str (obj_get row "delivery_attempt_id")) lease pending
        (truthy (default (JBool false) (dget row "orphan_notification_pending")))
        (truthy (default (JBool false) (dget row "prompted_delivery")))
        (_optional_str (obj_get row "job_control_id"))
        (_optional_str (obj_get row "handoff_id")) hand
        (obj_get row "delivery_modality")).

(** [_decode_job]: [KeyError], [TypeError] and [ValueError] of the field reads
    become [JobRegistryError]. *)
Definition _decode_job (row : json) : outcome VoiceJob :=
  match row with
  | JObj row =>
    let* fl := decode_failure row in
    match decode_fields row fl with
    | Raise KeyError | Raise TypeError | Raise ValueError => Raise JobRegistryError
    | o => o
    end
  | _ => Raise JobRegistryError
  end.

(** The loop of [_decode_snapshot]. *)
Fixpoint decode_rows (rows : list json) (jobs : list (string * VoiceJob))
    : outcome (list (string * VoiceJob)) :=
  match rows with
  | [] => Ok jobs
  | row :: rows' =>
    let* job := _decode_job row in
    let* _ := fail_when (dhas jobs (id_ job)) JobRegistryError in
    decode_rows rows' (dset jobs (id_ job) job)
  end.

(** [_decode_snapshot] *)
Definition _decode_snapshot (raw : json) : outcome (list (string * VoiceJob)) :=
  match raw with
  | JList rows => decode_rows rows []
  | _ => Raise JobRegistryError
  end.

(** [load]: [publish_load] after reading an existing snapshot, or after
    creating an empty one. *)
Definition load (env : Env) : M unit :=
  let* s := get in
  if _loaded s then mret tt else
  let publish_load jobs (s : JobRegistry) :=
    s <| _jobs := jobs |> <| _delivery_sequence := max_sequence jobs |> <| _loaded := true |> in
  match disk s with
  | Unparsable => raise ValueError
  | Holds raw =>
    let* jobs := lift (_decode_snapshot raw) in
    modify (publish_load jobs)
  | Absent =>
    raise_when (negb (write_ok env)) OSError ;;;
    modify (λ s, publish_load [] (s <| disk := Holds (JList []) |>)) ;;;
    raise_when (cancelled env) CancelledError
  end.
End decode.

(** ** Commit: disk first, then memory *)

(** [waiters.discard(future)] and [set_result] of [_signal_terminal_waiters]:
    every waiter of a job that is now terminal gets the row, and its entry goes. *)
Definition _signal_terminal_waiters (s : JobRegistry) : JobRegistry :=
  let terminal (p : string * list nat) :=
    match dget (_jobs s) p.1 with
    | Some job => _TERMINAL_EXECUTION (execution_state job)
    | None => false
    end in
  let answer (p : string * list nat) :=
    match dget (_jobs s) p.1 with
    | Some job => (λ w, (w, job)) <$> p.2
    | None => []
    end in
  let fired := filter (λ p, terminal p = true) (_terminal_waiters s) in
  s <| _terminal_waiters := filter (λ p, terminal p = false) (_terminal_waiters s) |>
    <| loop ::= λ l, l <| resolved ::= λ r, r ++ mjoin (answer <$> fired) |> |>.

(** The publication half of [commit()]. *)
Definition publish (jobs : list (string * VoiceJob)) (after_publish : JobRegistry → JobRegistry)
    (s : JobRegistry) : JobRegistry :=
  _signal_terminal_waiters
    (after_publish (s <| _jobs := jobs |> <| _delivery_sequence := max_sequence jobs |>)).

Definition no_after (s : JobRegistry) : JobRegistry := s.

Section ops.
Context (env : Env).

(** [_commit_snapshot_locked] through [_finish_atomic_commit]: encode, write,
    publish; a persistence error wins over a cancellation, and a cancellation is
    raised only after the commit is complete. *)
Definition _commit_snapshot_locked (jobs : list (string * VoiceJob))
    (after_publish : JobRegistry → JobRegistry) : M unit :=
  let* snapshot := lift (snapshot_of jobs) in
  raise_when (negb (write_ok env)) OSError ;;;
  modify (λ s, s <| disk := Holds snapshot |>) ;;;
  modify (publish jobs after_publish) ;;;
  raise_when (cancelled env) CancelledError.

(** [_with_job] *)
Definition _with_job (s : JobRegistry) (updated : VoiceJob) : list (string * VoiceJob) :=
  dset (_jobs s) (id_ updated) updated.

(** [_persist_job_locked] *)
Definition _persist_job_locked (updated : VoiceJob) (after_publish : JobRegistry → JobRegistry)
    : M VoiceJob :=
  let* candidate := gets (λ s, _with_job s updated) in
  _commit_snapshot_locked candidate after_publish ;;;
  mret updated.

(** ** Guards *)

Definition _require_loaded : M unit :=
  let* s := get in raise_when (negb (_loaded s)) JobRegistryError.

Definition _require_job (job_id : string) : M VoiceJob :=
  _require_loaded ;;;
  let* s := get in
  match dget (_jobs s) job_id with
  | Some job => mret job
  | None => raise JobTransitionError
  end.

Definition _require_live_execution (job : VoiceJob) : M unit :=
  raise_when (negb (live_execution (execution_state job))) JobTransitionError.

(** [_require_delivery_cas]: the expected durable state, and the recorded
    attempt ([None] for "no attempt recorded"). *)
Definition _require_delivery_cas (job_id : string) (state : DeliveryState)
    (attempt_id : option string) : M VoiceJob :=
  let* current := _require_job job_id in
  raise_when (negb (bool_decide (delivery_state current = state))) JobTransitionError ;;;
  match attempt_id with
  | None =>
    raise_when (bool_decide (is_Some (delivery_attempt_id current))) JobTransitionError
  | Some a =>
    raise_when (negb (bool_decide (delivery_attempt_id current = Some a))) JobTransitionError
  end ;;;
  mret current.

(** The rows that count against a route's capacity. *)
Definition active_or_ready (route_id : string) (current : VoiceJob) : bool :=
  bool_decide (origin_route_id current = Some route_id)
  && (live_execution (execution_state current)
      || match delivery_state current with
         | Dlv.READY | Dlv.CLAIMED | Dlv.AUTHORIZED | Dlv.PLAYING => true
         | _ => false
         end).

(** [_require_route_capacity] *)
Definition _require_route_capacity (job : VoiceJob) (max_active_ready_per_route : option Z)
    : M unit :=
  match max_active_ready_per_route with
  | None => mret tt
  | Some mx =>
    raise_when (bool_decide (mx ≤ 0)%Z) ValueError ;;;
    match origin_route_id job with
    | None => mret tt
    | Some route_id =>
      let* s := get in
      raise_when (bool_decide (mx ≤ dcount (active_or_ready route_id) (_jobs s))%Z)
        JobRouteCapacityError
    end
  end.

(** ** The acting party *)

(** [_actor_value]: the primary key, else the fallback, else null. *)
Definition _actor_value (actor : list (string * json)) (primary fallback : string) : json :=
  match dget actor primary with
  | Some v => v
  | None => obj_get actor fallback
  end.

(** The test of [_authorize_actor]. *)
Definition actor_owns (job : VoiceJob) (actor : list (string * json)) : bool :=
  let peer := _actor_value actor "creator_peer" "peer" in
  let scope := _actor_value actor "scope_id" "scope" in
  let user := _actor_value actor "creator_user_id" "user_id" in
  let control := _actor_value actor "job_control_id" "control_id" in
  bool_decide (peer = JStr (creator_peer job))
  && bool_decide (user = json_of_opt_str (creator_user_id job))
  && match job_control_id job with
     | Some c => bool_decide (control = JStr c)
     | None => bool_decide (scope = JStr (scope_id job))
     end.

Definition _authorize_actor (job : VoiceJob) (actor : list (string * json)) : M unit :=
  raise_when (negb (actor_owns job actor)) JobAuthorizationError.

(** ** Delivery obligations and retention *)

(** [_has_trusted_voice_delivery_provenance] *)
Definition _has_trusted_voice_delivery_provenance (job : VoiceJob) : bool :=
  let named o := match o with Some s => str_true (strip s) | None => false end in
  bool_decide (creator_peer job = "voice") && named (origin_route_id job)
  && named (origin_device_id job).

Definition _terminal_result_ttl_seconds (s : JobRegistry) (job : VoiceJob) : Z :=
  if _has_trusted_voice_delivery_provenance job
  then _voice_result_ttl_seconds s else RESULT_TTL_SECONDS.

(** [job.origin_route_id and job.origin_device_id] *)
Definition routed (job : VoiceJob) : bool :=
  opt_str_true (origin_route_id job) && opt_str_true (origin_device_id job).

(** [_terminal_delivery] *)
Definition _terminal_delivery (s : JobRegistry) (job : VoiceJob) : DeliveryState * Z :=
  if routed job then (Dlv.READY, _delivery_sequence s + 1)%Z
  else (Dlv.NONE, delivery_sequence job).

(** The delivery state of a row that ends cancelled. *)
Definition cancelled_delivery (job : VoiceJob) : DeliveryState :=
  if bool_decide (delivery_state job = Dlv.NONE) then Dlv.NONE else Dlv.CANCELLED.

(** The fields every delivery-ending transition clears. *)
Definition clear_attempt (job : VoiceJob) : VoiceJob :=
  job <| delivery_attempt_id := None |> <| lease_until := None |> <| cancel_pending := false |>.

(** ** Creation *)

Definition create (job : VoiceJob) (max_active_ready_per_route : option Z) : M VoiceJob :=
  _require_loaded ;;;
  raise_when (negb (str_true (id_ job))) ValueError ;;;
  let* s := get in
  raise_when (dhas (_jobs s) (id_ job)) JobTransitionError ;;;
  _require_route_capacity job max_active_ready_per_route ;;;
  _commit_snapshot_locked (dset (_jobs s) (id_ job) job) no_after ;;;
  mret job.

(** A parent whose stored result is still available. *)
Definition available (job : VoiceJob) : bool :=
  bool_decide (execution_state job = Exec.SUCCEEDED)
  && bool_decide (is_Some (result job))
  && match expires_at job with Some t => bool_decide (now env < t)%Z | None => true end
  && negb (bool_decide (delivery_state job = Dlv.CANCELLED)
           || bool_decide (delivery_state job = Dlv.EXPIRED))
  && negb (cancel_pending job).

(** The deadline half of a clarification: [continuable_until > now]. *)
Definition continuable_now (job : VoiceJob) : bool :=
  match continuable_until job with Some t => bool_decide (now env < t)%Z | None => false end.

Definition create_continuation (parent_id : string) (child : VoiceJob)
    (actor : list (string * json)) (max_active_ready_per_route : option Z) : M VoiceJob :=
  _require_loaded ;;;
  let* parent := _require_job parent_id in
  _authorize_actor parent actor ;;;
  _authorize_actor child actor ;;;
  raise_when (negb (str_true (id_ child))) ValueError ;;;
  let* s := get in
  raise_when (dhas (_jobs s) (id_ child)) JobTransitionError ;;;
  raise_when (negb (bool_decide (parent_job_id child = Some parent_id))) ValueError ;;;
  raise_when (negb (bool_decide (specialist_role child = specialist_role parent))) ValueError ;;;
  _require_route_capacity child max_active_ready_per_route ;;;
  raise_when (negb (bool_decide (execution_state child = Exec.ACCEPTED)
                    && bool_decide (delivery_state child = Dlv.NONE)
                    && bool_decide (result child = None)
                    && bool_decide (failure child = None)
                    && negb (awaiting_input child)
                    && bool_decide (continuable_until child = None))) ValueError ;;;
  raise_when (negb (available parent && awaiting_input parent && continuable_now parent))
    JobTransitionError ;;;
  let candidate := dset (_jobs s) parent_id (parent <| awaiting_input := false |>) in
  _commit_snapshot_locked (dset candidate (id_ child) child) no_after ;;;
  mret child.

Definition compensate_unbound_continuation (parent_id child_id : string)
    (actor : list (string * json)) : M bool :=
  _require_loaded ;;;
  let* parent := _require_job parent_id in
  _authorize_actor parent actor ;;;
  let* s := get in
  match dget (_jobs s) child_id with
  | None => mret false
  | Some child =>
    _authorize_actor child actor ;;;
    raise_when (negb (bool_decide (parent_job_id child = Some parent_id))) JobTransitionError ;;;
    if negb (bool_decide (execution_state child = Exec.ACCEPTED)) || dhas (_tasks s) child_id
    then mret false
    else
      let restore_parent :=
        available parent && negb (awaiting_input parent) && continuable_now parent in
      let candidate := ddel (_jobs s) child_id in
      let candidate := if restore_parent
        then dset candidate parent_id (parent <| awaiting_input := true |>) else candidate in
      _commit_snapshot_locked candidate no_after ;;;
      mret restore_parent
  end.

Definition create_prompted_delivery (parent_id : string) (child : VoiceJob)
    (actor : list (string * json)) (max_active_ready_per_route : option Z) : M VoiceJob :=
  _require_loaded ;;;
  let* parent := _require_job parent_id in
  _authorize_actor parent actor ;;;
  _authorize_actor child actor ;;;
  let* s := get in
  raise_when (dhas (_jobs s) (id_ child)) JobTransitionError ;;;
  raise_when (negb (bool_decide (parent_job_id child = Some (id_ parent))
                    && bool_decide (specialist_role child = specialist_role parent)))
    ValueError ;;;
  raise_when (negb (available parent)) JobTransitionError ;;;
  _require_route_capacity child max_active_ready_per_route ;;;
  let prompted := (_inherit_delivery_modality parent child)
    <| started_at := Some (now env) |> <| terminal_at := Some (now env) |>
    <| expires_at := expires_at parent |> <| execution_state := Exec.SUCCEEDED |>
    <| delivery_state := Dlv.READY |> <| result := result parent |>
    <| delivery_sequence := (_delivery_sequence s + 1)%Z |>
    <| prompted_delivery := true |> in
  _commit_snapshot_locked (dset (_jobs s) (id_ prompted) prompted) no_after ;;;
  mret prompted.

(** ** Runtime ownership *)

(** [owns_task] *)
Definition owns_task (s : JobRegistry) (job_id : string) (t : nat) : bool :=
  bool_decide (dget (_tasks s) job_id = Some t).

(** [bind_task]: the fresh event of [cancel_event or asyncio.Event()] is the
    caller's [event]; the done callback is the later step [_task_done]. *)
Definition bind_task (job_id : string) (t : nat) (permit : option nat) (event : nat) : M nat :=
  _require_loaded ;;;
  let* current := _require_job job_id in
  raise_when (negb (bool_decide (execution_state current = Exec.ACCEPTED))) JobTransitionError ;;;
  let* s := get in
  raise_when (dhas (_tasks s) job_id) JobTransitionError ;;;
  let updated := current <| execution_state := Exec.RUNNING |>
    <| started_at := match started_at current with
                     | Some t0 => Some t0
                     | None => Some (now env)
                     end |> in
  let publish_runtime_ownership (s : JobRegistry) :=
    s <| _tasks ::= λ d, dset d job_id t |>
      <| _cancel_events ::= λ d, dset d job_id event |>
      <| _permits ::= λ d, match permit with Some p => dset d job_id p | None => d end |> in
  _commit_snapshot_locked (_with_job s updated) publish_runtime_ownership ;;;
  mret event.

(** [_task_done], the done callback of a bound task: the sole release of the
    permit, and only while the ownership it was installed for is still current. *)
Definition _task_done (job_id : string) (t : nat) : M unit :=
  modify (λ s,
    if negb (owns_task s job_id t) then s
    else
      let permit := dget (_permits s) job_id in
      let timer := dget (_cancel_timers s) job_id in
      let waiters := default [] (dget (_runtime_release_waiters s) job_id) in
      s <| _tasks ::= λ d, ddel d job_id |>
        <| _cancel_events ::= λ d, ddel d job_id |>
        <| _cancel_timers ::= λ d, ddel d job_id |>
        <| _permits ::= λ d, ddel d job_id |>
        <| _runtime_release_waiters ::= λ d, ddel d job_id |>
        <| loop ::= λ l,
             l <| cancel_requested ::= λ c, c ++ match timer with Some x => [x] | None => [] end |>
               <| permits_released ::= λ p, p ++ match permit with Some x => [x] | None => [] end |>
               <| released_waiters ::= λ w, w ++ waiters |> |>).

(** [wait_for_terminal] up to its await: an answer now, or a registered future. *)
Definition wait_for_terminal (job_id : string) (future : nat) : M (option VoiceJob) :=
  let* current := _require_job job_id in
  if _TERMINAL_EXECUTION (execution_state current) then mret (Some current)
  else
    modify (λ s, s <| _terminal_waiters ::= λ d,
      dset d job_id (default [] (dget d job_id) ++ [future]) |>) ;;;
    mret None.

(** [_arm_force_cancel]: one live timer per job; the timer's body is
    [cancel_after_grace]. *)
Definition _arm_force_cancel (job_id : string) (s : JobRegistry) : JobRegistry :=
  match dget (_cancel_timers s) job_id with
  | Some existing =>
    if bool_decide (existing ∈ done_tasks (loop s)) then
      s <| _cancel_timers ::= λ d, dset d job_id (next_task (loop s)) |>
        <| loop ::= λ l, l <| next_task ::= S |> |>
    else s
  | None =>
    s <| _cancel_timers ::= λ d, dset d job_id (next_task (loop s)) |>
      <| loop ::= λ l, l <| next_task ::= S |> |>
  end.

(** [_cancel_after_grace], once [CANCEL_GRACE_SECONDS] have passed. *)
Definition cancel_after_grace (timer t : nat) : M unit :=
  modify (λ s, s <| loop ::= λ l,
    l <| done_tasks ::= λ d, timer :: d |>
      <| cancel_requested ::= λ c,
           if bool_decide (t ∈ done_tasks l) then c else c ++ [t] |> |>).

(** ** The handoff latch *)

Definition handoff_id_ok (h : string) : bool := str_true (strip h).

Definition mark_handoff_pending (job_id h : string) : M VoiceJob :=
  raise_when (negb (handoff_id_ok h)) ValueError ;;;
  let* current := _require_job job_id in
  raise_when (negb (opt_str_true (origin_route_id current))) JobTransitionError ;;;
  raise_when (match handoff_id current with
              | Some h' => negb (bool_decide (h' = h))
              | None => false
              end) JobTransitionError ;;;
  match handoff_state current with
  | Hand.RECEIVED => raise JobTransitionError
  | Hand.PENDING => mret current
  | Hand.NONE =>
    _persist_job_locked
      (current <| handoff_id := Some h |> <| handoff_state := Hand.PENDING |>) no_after
  end.

Definition acknowledge_handoff (job_id h : string) : M VoiceJob :=
  raise_when (negb (handoff_id_ok h)) ValueError ;;;
  let* current := _require_job job_id in
  raise_when (negb (bool_decide (handoff_id current = Some h))) JobTransitionError ;;;
  match handoff_state current with
  | Hand.RECEIVED => mret current
  | Hand.NONE => raise JobTransitionError
  | Hand.PENDING =>
    _persist_job_locked (current <| handoff_state := Hand.RECEIVED |>) no_after
  end.

(** The replay test of [pending_handoffs_for_route]. *)
Definition pending_handoff (route_id : string) (job : VoiceJob) : bool :=
  bool_decide (origin_route_id job = Some route_id)
  && bool_decide (handoff_state job = Hand.PENDING)
  && bool_decide (is_Some (handoff_id job))
  && negb (cancel_pending job)
  && negb (bool_decide (execution_state job = Exec.CANCELLED))
  && match delivery_state job with
     | Dlv.CANCELLED | Dlv.EXPIRED | Dlv.DELIVERED => false
     | _ => true
     end.

Definition pending_handoffs_for_route (s : JobRegistry) (route_id : string) : list VoiceJob :=
  if negb (str_true (strip route_id)) then []
  else filter (λ j, pending_handoff route_id j = true) (sorted_jobs (_jobs s)).

(** ** Execution ends *)

(** The row of an execution cancelled by its creator or by legacy code. *)
Definition cancelled_row (s : JobRegistry) (current : VoiceJob) (why : string) : VoiceJob :=
  clear_attempt (current
    <| execution_state := Exec.CANCELLED |> <| terminal_at := Some (now env) |>
    <| expires_at := Some (now env + _terminal_result_ttl_seconds s current)%Z |>
    <| failure := Some (mkFailure "cancelled" why) |>
    <| delivery_state := cancelled_delivery current |>).

(** The row of a successful execution, retained until [expiry]. *)
Definition succeeded_row (s : JobRegistry) (current : VoiceJob) (r : string) (expiry : Z)
    : VoiceJob :=
  let '(delivery, sequence) := _terminal_delivery s current in
  clear_attempt (current
    <| execution_state := Exec.SUCCEEDED |> <| terminal_at := Some (now env) |>
    <| expires_at := Some expiry |> <| result := Some r |> <| failure := None |>
    <| delivery_state := delivery |> <| delivery_sequence := sequence |>).

(** [_finish_current_locked] *)
Definition _finish_current_locked (current : VoiceJob) (r : string) : M VoiceJob :=
  let* s := get in
  let updated :=
    if cancel_pending current then cancelled_row s current "Cancelled by creator"
    else succeeded_row s current r (now env + _terminal_result_ttl_seconds s current)%Z in
  _persist_job_locked updated no_after.

(** [_finish_voice_result_current_locked] *)
Definition _finish_voice_result_current_locked (current : VoiceJob) (r : string)
    (awaiting : bool) (delivery_ttl_s : Z) : M VoiceJob :=
  let* s := get in
  let updated :=
    if cancel_pending current then
      (cancelled_row s current "Cancelled by creator")
        <| awaiting_input := false |> <| continuable_until := None |>
    else
      let expiry :=
        (now env + Z.min (seconds delivery_ttl_s) (_terminal_result_ttl_seconds s current))%Z in
      (succeeded_row s current r expiry)
        <| awaiting_input := awaiting |>
        <| continuable_until := if awaiting then Some expiry else None |> in
  _persist_job_locked updated no_after.

(** What [fail] is given: an envelope, a [CancelledError], or another exception
    with its type name and its text. *)
Inductive failure_arg :=
  | Envelope (f : JobFailure)
  | TaskCancelled
  | OtherException (type_name text : string).

Definition _failure_envelope (f : failure_arg) : JobFailure :=
  match f with
  | Envelope f => f
  | TaskCancelled => mkFailure "cancelled" "Delegation cancelled"
  | OtherException n t => mkFailure n t
  end.

(** [_fail_current_locked] *)
Definition _fail_current_locked (current : VoiceJob) (f : failure_arg) : M VoiceJob :=
  let* s := get in
  let envelope := _failure_envelope f in
  let was_cancelled :=
    match f with TaskCancelled => true | _ => bool_decide (kind envelope = "cancelled") end in
  let '(state, delivery, sequence) :=
    if was_cancelled || cancel_pending current
    then (Exec.CANCELLED, cancelled_delivery current, delivery_sequence current)
    else let '(d, q) := _terminal_delivery s current in (Exec.FAILED, d, q) in
  _persist_job_locked (clear_attempt (current
    <| execution_state := state |> <| terminal_at := Some (now env) |>
    <| expires_at := Some (now env + _terminal_result_ttl_seconds s current)%Z |>
    <| failure := Some envelope |> <| delivery_state := delivery |>
    <| delivery_sequence := sequence |>)) no_after.

Definition finish (job_id r : string) : M VoiceJob :=
  let* current := _require_job job_id in
  _require_live_execution current ;;;
  _finish_current_locked current r.

Definition finish_voice_result (job_id r : string) (awaiting : bool) (delivery_ttl_s : Z)
    : M VoiceJob :=
  raise_when (negb (bool_decide (30 ≤ delivery_ttl_s ∧ delivery_ttl_s ≤ 3600)%Z)) ValueError ;;;
  let* current := _require_job job_id in
  _require_live_execution current ;;;
  _finish_voice_result_current_locked current r awaiting delivery_ttl_s.

Definition fail (job_id : string) (f : failure_arg) : M VoiceJob :=
  let* current := _require_job job_id in
  _require_live_execution current ;;;
  _fail_current_locked current f.

(** The idempotent legacy forms: [None] for an unknown job, the row itself for
    a terminal one. *)
Definition finish_compat (job_id r : string) : M (option VoiceJob) :=
  _require_loaded ;;;
  let* s := get in
  match dget (_jobs s) job_id with
  | None => mret None
  | Some current =>
    if negb (live_execution (execution_state current)) then mret (Some current)
    else let* j := _finish_current_locked current r in mret (Some j)
  end.

Definition fail_compat (job_id : string) (f : failure_arg) : M (option VoiceJob) :=
  _require_loaded ;;;
  let* s := get in
  match dget (_jobs s) job_id with
  | None => mret None
  | Some current =>
    if negb (live_execution (execution_state current)) then mret (Some current)
    else let* j := _fail_current_locked current f in mret (Some j)
  end.

(** ** Cancellation *)

Inductive cancel_status := too_late | was_cancelled | stopping.

Definition request_cancel (job_id : string) (actor : list (string * json)) : M cancel_status :=
  let* current := _require_job job_id in
  _authorize_actor current actor ;;;
  let* s := get in
  let event := dget (_cancel_events s) job_id in
  let t := dget (_tasks s) job_id in
  let publish_cancel_signal (s : JobRegistry) :=
    let s := match event with
             | Some e => s <| loop ::= λ l, l <| events_set ::= λ es, es ++ [e] |> |>
             | None => s
             end in
    match t with
    | Some x => if bool_decide (x ∈ done_tasks (loop s)) then s else _arm_force_cancel job_id s
    | None => s
    end in
  let commit updated status :=
    _persist_job_locked updated publish_cancel_signal ;;; mret status in
  match delivery_state current with
  | Dlv.PLAYING | Dlv.DELIVERED => mret too_late
  | Dlv.CANCELLED | Dlv.EXPIRED => mret was_cancelled
  | Dlv.NONE | Dlv.READY | Dlv.CLAIMED | Dlv.AUTHORIZED =>
    if bool_decide (execution_state current = Exec.CANCELLED) then mret was_cancelled
    else match delivery_state current with
    | Dlv.AUTHORIZED => commit (current <| cancel_pending := true |>) stopping
    | Dlv.READY | Dlv.CLAIMED =>
      commit (clear_attempt (current <| delivery_state := Dlv.CANCELLED |>)) was_cancelled
    | _ =>
      if live_execution (execution_state current)
      then commit (current <| cancel_pending := true |>) stopping
      else mret too_late
    end
  end.

(** [cancel], the legacy terminal transition; it does not require [load]. *)
Definition cancel (job_id : string) : M (option VoiceJob) :=
  let* s := get in
  match dget (_jobs s) job_id with
  | None => mret None
  | Some current =>
    if _TERMINAL_EXECUTION (execution_state current) then mret (Some current)
    else
      let* j := _persist_job_locked (cancelled_row s current "Delegation cancelled") no_after in
      mret (Some j)
  end.

(** ** Delivery, by compare-and-set *)

Definition claim (job_id attempt : string) : M VoiceJob :=
  raise_when (negb (str_true attempt)) ValueError ;;;
  let* current := _require_delivery_cas job_id Dlv.READY None in
  let* s := get in
  _persist_job_locked (current <| delivery_state := Dlv.CLAIMED |>
    <| delivery_attempt_id := Some attempt |>
    <| lease_until := Some (now env + LEASE_SECONDS s)%Z |>) no_after.

(** [current.delivery_attempt_id == delivery_attempt_id] and a state of [ok]. *)
Definition attempt_in (ok : DeliveryState → bool) (current : VoiceJob) (attempt : string) : bool :=
  ok (delivery_state current) && bool_decide (delivery_attempt_id current = Some attempt).

Definition renew (job_id attempt : string) : M VoiceJob :=
  let* current := _require_job job_id in
  raise_when (negb (attempt_in _LEASED_DELIVERY current attempt)) JobTransitionError ;;;
  let* s := get in
  _persist_job_locked (current <| lease_until := Some (now env + LEASE_SECONDS s)%Z |>) no_after.

Definition authorize (job_id attempt : string) : M VoiceJob :=
  let* current := _require_delivery_cas job_id Dlv.CLAIMED (Some attempt) in
  _persist_job_locked (current <| delivery_state := Dlv.AUTHORIZED |>) no_after.

Definition mark_playing (job_id attempt : string) : M VoiceJob :=
  let* current := _require_delivery_cas job_id Dlv.AUTHORIZED (Some attempt) in
  raise_when (cancel_pending current) JobTransitionError ;;;
  _persist_job_locked (current <| delivery_state := Dlv.PLAYING |>) no_after.

Definition claimed_or_playing (s : DeliveryState) : bool :=
  match s with Dlv.CLAIMED | Dlv.PLAYING => true | _ => false end.

Definition mark_delivered (job_id attempt : string) : M VoiceJob :=
  let* current := _require_job job_id in
  raise_when (negb (attempt_in claimed_or_playing current attempt)) JobTransitionError ;;;
  _persist_job_locked (clear_attempt (current <| delivery_state := Dlv.DELIVERED |>)) no_after.

Definition claimed_or_authorized (s : DeliveryState) : bool :=
  match s with Dlv.CLAIMED | Dlv.AUTHORIZED => true | _ => false end.

(** An authorized attempt whose creator asked for cancellation. *)
Definition authorized_and_pending (current : VoiceJob) : bool :=
  bool_decide (delivery_state current = Dlv.AUTHORIZED) && cancel_pending current.

Definition nack (job_id attempt reason : string) : M VoiceJob :=
  let* current := _require_job job_id in
  raise_when (negb (attempt_in claimed_or_authorized current attempt)) JobTransitionError ;;;
  let stop := authorized_and_pending current
              && bool_decide (reason = "preempted_before_playback") in
  _persist_job_locked (clear_attempt (current
    <| delivery_state := if stop then Dlv.CANCELLED else Dlv.READY |>)) no_after.

(** ** Sweeps *)

(** A sweep rewrites the rows [due] selects and commits once, if any changed. *)
Definition sweep (due : VoiceJob → bool) (upd : VoiceJob → VoiceJob) : M (list VoiceJob) :=
  let* s := get in
  let changed := upd <$> filter (λ j, due j = true) (dvals (_jobs s)) in
  if bool_decide (changed = []) then mret []
  else
    _commit_snapshot_locked (dmap (λ j, if due j then upd j else j) (_jobs s)) no_after ;;;
    mret changed.

(** The rows [expire_due] expires. *)
Definition ttl_lapsed (j : VoiceJob) : bool :=
  match expires_at j with
  | Some t => bool_decide (t ≤ now env)%Z
  | None => false
  end
  && match delivery_state j with
     | Dlv.DELIVERED | Dlv.CANCELLED | Dlv.EXPIRED => false
     | _ => true
     end.

Definition expire_due : M (list VoiceJob) :=
  sweep ttl_lapsed (λ j, clear_attempt (j <| delivery_state := Dlv.EXPIRED |>)).

(** The rows [expire_leases] recovers. *)
Definition lease_lapsed (j : VoiceJob) : bool :=
  _LEASED_DELIVERY (delivery_state j)
  && match lease_until j with Some t => bool_decide (t ≤ now env)%Z | None => false end.

Definition expire_leases : M (list VoiceJob) :=
  sweep lease_lapsed (λ j, clear_attempt (j <| delivery_state :=
    if authorized_and_pending j then Dlv.CANCELLED else Dlv.READY |>)).

(** ** Restart *)

(** The orphaned form of a row that was live when the process died. *)
Definition orphaned_row (s : JobRegistry) (j : VoiceJob) (delivery : DeliveryState) (sequence : Z)
    : VoiceJob :=
  (clear_attempt (j <| execution_state := Exec.ORPHANED |> <| terminal_at := Some (now env) |>
    <| expires_at := Some (now env + _terminal_result_ttl_seconds s j)%Z |>
    <| failure := Some (mkFailure "restart_orphan" "Lost on restart") |>
    <| delivery_state := delivery |> <| delivery_sequence := sequence |>))
    <| orphan_notification_pending := bool_decide (creator_peer j = "telegram") |>.

(** One iteration of the loop of [recover_after_restart]: the updated row, the
    sequence counter, and whether the row was live. *)
Definition recover_row (s : JobRegistry) (next_sequence : Z) (j : VoiceJob)
    : VoiceJob * Z * bool :=
  if live_execution (execution_state j) then
    if routed j
    then (orphaned_row s j Dlv.READY (next_sequence + 1)%Z, (next_sequence + 1)%Z, true)
    else (orphaned_row s j Dlv.NONE (delivery_sequence j), next_sequence, true)
  else if _LEASED_DELIVERY (delivery_state j)
  then (j <| lease_until := Some (now env + LEASE_SECONDS s)%Z |>, next_sequence, false)
  else (j, next_sequence, false).

(** The loop, in dict order: the candidate and the ids of the orphaned rows. *)
Fixpoint recover_rows (s : JobRegistry) (next_sequence : Z) (items : list (string * VoiceJob))
    : list (string * VoiceJob) * list string :=
  match items with
  | [] => ([], [])
  | (k, j) :: items' =>
    let '(updated, next', orphan) := recover_row s next_sequence j in
    let '(jobs', ids) := recover_rows s next' items' in
    ((k, updated) :: jobs', if orphan then k :: ids else ids)
  end.

(** The first occurrences of a list, in order. *)
Fixpoint first_occurrences (seen : list string) (l : list string) : list string :=
  match l with
  | [] => []
  | x :: l' =>
    if bool_decide (x ∈ seen) then first_occurrences seen l'
    else x :: first_occurrences (x :: seen) l'
  end.

Definition recover_after_restart : M (list VoiceJob) :=
  _require_loaded ;;;
  let* s := get in
  let notify := id_ <$> filter (λ j, orphan_notification_pending j = true)
                          (sorted_jobs (_jobs s)) in
  let '(candidate, orphans) := recover_rows s (_delivery_sequence s) (_jobs s) in
  (if bool_decide (candidate = _jobs s) then mret tt
   else _commit_snapshot_locked candidate no_after) ;;;
  let* s' := get in
  mret (omap (dget (_jobs s')) (first_occurrences [] (notify ++ orphans))).

Definition ack_orphan_notification (job_id : string) : M VoiceJob :=
  let* current := _require_job job_id in
  if negb (orphan_notification_pending current) then mret current
  else _persist_job_locked (current <| orphan_notification_pending := false |>) no_after.
End ops.

(** ** Terminal reconciliation *)

(** The loop of [_reconcile_terminal], over the environments of its successive
    attempts: it stops at a terminal or unknown row, retries after an exception
    or a row still live, and propagates a cancellation. *)
Fixpoint _reconcile_terminal (op : Env → M (option VoiceJob)) (envs : list Env) : M bool :=
  match envs with
  | [] => mret false
  | env :: envs' => λ s,
    match op env s with
    | (Raise CancelledError, s') => (Raise CancelledError, s')
    | (Raise _, s') => _reconcile_terminal op envs' s'
    | (Ok None, s') => (Ok true, s')
    | (Ok (Some j), s') =>
      if _TERMINAL_EXECUTION (execution_state j) then (Ok true, s')
      else _reconcile_terminal op envs' s'
    end
  end.

(** The three reconciliations the registry schedules. *)
Definition failure_reconciliation (job_id : string) (env : Env) : M (option VoiceJob) :=
  fail_compat env job_id
    (Envelope (mkFailure "persistence_failed" "Specialist result could not be saved.")).
Definition completion_reconciliation (job_id : string) (env : Env) : M (option VoiceJob) :=
  finish_compat env job_id "".
Definition cancel_reconciliation (job_id : string) (env : Env) : M (option VoiceJob) :=
  cancel env job_id.

(** ** Evaluation *)

Definition sample_env : Env := mkEnv (seconds 100) true false.
Definition sample_job : VoiceJob :=
  mkJob "a" None system_speaker system_speaker "assistant" "finance" "Finance" "voice" None
    "s" (Some "r") (Some "kitchen") "t" "" (seconds 90) None None None Exec.ACCEPTED Dlv.NONE
    None None false None 0 None None false false false None None Hand.NONE (JStr "audio").
Definition sample_registry : JobRegistry :=
  mkRegistry [] 0 true (seconds 15) (seconds 900) [] [] [] [] [] []
    (mkLoop [] [] [] [] [] [] 0) (Holds (JList [])).
