(* ===== verification/Delivery.v ===== *)
(** * Voice delivery

    [channels/voice/delivery.py], [class VoiceDeliveryCoordinator]: the sweeper
    that offers ready results to connected routes and turns the frames of the
    integration into compare-and-set operations of the job store.

    The coordinator is written against the interface [JobStore]; [JobStoreLaws]
    states what it relies on, and [DeliveryProperties] shows that the job registry
    provides it.  One method call is one atomic step (the source holds
    [self._lock] throughout), in an environment [DEnv] that gives the clock, the
    environment of each store operation, whether each write to a socket
    succeeds, and the generated attempt ids.  A caller cancelled inside a socket
    write is not modelled. *)

From S2P Require Import Prelude PyDict Json SpeakerProvenance VoiceResult Routes JobTypes JobRegistry.

(** ** What the coordinator calls *)

Class JobStore (S : Type) := {
  st_set_lease : Z → S → S;            (** [jobs.LEASE_SECONDS = ...] *)
  st_get : S → string → option VoiceJob;
  st_all : S → list VoiceJob;
  st_expire_due : Env → PyM S (list VoiceJob);
  st_expire_leases : Env → PyM S (list VoiceJob);
  st_claim : Env → string → string → PyM S VoiceJob;
  st_renew : Env → string → string → PyM S VoiceJob;
  st_authorize : Env → string → string → PyM S VoiceJob;
  st_mark_playing : Env → string → string → PyM S VoiceJob;
  st_mark_delivered : Env → string → string → PyM S VoiceJob;
  st_nack : Env → string → string → string → PyM S VoiceJob
}.

(** ** Frames and attempts *)

Definition _PROTOCOL : Z := 2.

Inductive Frame :=
  | JobReady (job attempt route device : string) (modality : json) (spoken_text : string)
      (ready_at expires_at : option Z) (sequence : Z)
  | JobDeliveryAuthorized (job attempt : string)
  | JobRevoke (job attempt : option string) (reason : string).

(** Who a method is called for: a raw connection, or a bound route. *)
Inductive endpoint := Conn (c : nat) | Bound (b : BoundVoiceRoute).

Record _Attempt := mkAttempt {
  at_job_id : string;
  at_route_id : string;
  at_device_id : string;
  at_attempt_id : string;
  at_endpoint : option BoundVoiceRoute;
  offered : bool;
  revoke_sent : bool;
  revoke_deadline : option Z
}.

#[export] Instance attempt_eta : Eta _Attempt := λ a,
  mkAttempt (at_job_id a) (at_route_id a) (at_device_id a) (at_attempt_id a) (at_endpoint a)
    (offered a) (revoke_sent a) (revoke_deadline a).

(** [attempt.endpoint is bound] *)
Definition is_endpoint (a : _Attempt) (b : BoundVoiceRoute) : bool :=
  match at_endpoint a with Some b' => (bound_ref b' =? bound_ref b)%nat | None => false end.

Record DEnv := mkDEnv {
  d_clock : Z;                         (** [self._clock()] *)
  d_jobs : nat → Env;                  (** the environment of the n-th store call *)
  d_sends : nat → Frame → bool;        (** does this write to this connection succeed? *)
  d_uuid : nat → string                (** the n-th generated attempt id *)
}.

Record Coordinator (S : Type) := mkCoordinator {
  _jobs_store : S;
  _routes : VoiceRouteRegistry;
  _lease_s : Z;
  _park_s : Z;
  _attempts : list (string * _Attempt);
  _parked_until : list (string * Z);
  _unoffered_logged : list string;
  wire : list (nat * Frame);           (** every frame written, oldest first *)
  store_calls : nat;
  uuids : nat
}.
Arguments mkCoordinator {S}.
Arguments _jobs_store {S}.
Arguments _routes {S}.
Arguments _lease_s {S}.
Arguments _park_s {S}.
Arguments _attempts {S}.
Arguments _parked_until {S}.
Arguments _unoffered_logged {S}.
Arguments wire {S}.
Arguments store_calls {S}.
Arguments uuids {S}.

#[export] Instance coordinator_eta S : Eta (Coordinator S) := λ s,
  mkCoordinator (_jobs_store s) (_routes s) (_lease_s s) (_park_s s) (_attempts s)
    (_parked_until s) (_unoffered_logged s) (wire s) (store_calls s) (uuids s).

(** [VoiceDeliveryCoordinator(...)]: the windows it accepts; the store takes the
    lease of the coordinator. *)
Definition new_coordinator {S} `{JobStore S} (store : S) (routes : VoiceRouteRegistry) (lease_s renew_s park_s : Z)
    : outcome (Coordinator S) :=
  let* _ := fail_when (bool_decide (lease_s ≤ 0)%Z || bool_decide (renew_s ≤ 0)%Z
              || bool_decide (lease_s ≤ renew_s)%Z || bool_decide (park_s ≤ 0)%Z) ValueError in
  Ok (mkCoordinator (st_set_lease lease_s store) routes lease_s park_s [] [] [] [] 0 0).

(** ** Tests on rows *)

(** [_LIVE_STATES] *)
Definition _LIVE_STATES (d : DeliveryState) : bool :=
  match d with Dlv.READY | Dlv.CLAIMED | Dlv.AUTHORIZED | Dlv.PLAYING => true | _ => false end.

Definition _BACKGROUND_CAPABILITIES : list string := ["background_jobs"; "endpoint_delivery"].
Definition _INBOUND_TYPES : list string :=
  ["job_claimed"; "job_claim_renew"; "job_delivery_start"; "job_playback_started";
   "job_delivered"; "job_nack"; "job_revoked"].
Definition _PARK_REASONS : list string :=
  ["satellite_not_found"; "satellite_ambiguous"; "no_text_endpoint"].

(** [modality in _DELIVERABLE_MODALITIES], where a list or an object does not hash. *)
Definition deliverable (modality : json) : outcome bool :=
  match modality with
  | JList _ | JObj _ => Raise TypeError
  | v => Ok (bool_decide (v = JStr "audio") || bool_decide (v = JStr "text"))
  end.

(** A live row that has somewhere to go: it holds its device's queue. *)
Definition queued (job : VoiceJob) : bool := _LIVE_STATES (delivery_state job) && routed job.

(** A leased row that an attempt can be restored from. *)
Definition restorable (job : VoiceJob) : bool :=
  _LEASED_DELIVERY (delivery_state job) && routed job
  && opt_str_true (delivery_attempt_id job) && bool_decide (is_Some (lease_until job)).

(** The attempt still stands for its row: an offer of a ready one, or the
    recorded attempt of a leased one. *)
Definition attempt_current (a : _Attempt) (job : VoiceJob) : bool :=
  (offered a && bool_decide (delivery_state job = Dlv.READY))
  || (negb (offered a) && _LEASED_DELIVERY (delivery_state job)
      && bool_decide (delivery_attempt_id job = Some (at_attempt_id a))).

(** [_current_bound] *)
Definition _current_bound (routes : VoiceRouteRegistry) (e : endpoint) : option BoundVoiceRoute :=
  let rid := match e with
             | Bound b => _identifier (JStr (route_id b))
             | Conn c => match voice_route_id (fields_of routes c) with
                         | Some r => _identifier (JStr r)
                         | None => None
                         end
             end in
  match rid with
  | None => None
  | Some r =>
    match get_connected routes r with
    | None => None
    | Some current =>
      let same := match e with
                  | Bound b => (bound_ref current =? bound_ref b)%nat
                  | Conn c => (connection current =? c)%nat
                  end in
      if same && included _BACKGROUND_CAPABILITIES (capabilities current)
      then Some current else None
    end
  end.

Definition endpoint_connection (e : endpoint) : nat :=
  match e with Conn c => c | Bound b => connection b end.

(** [_matches_job] *)
Definition _matches_job (attempts : list (string * _Attempt)) (bound : BoundVoiceRoute)
    (job : option VoiceJob) (attempt_id : string) : bool :=
  match job with
  | None => false
  | Some job =>
    let attempt := dget attempts (id_ job) in
    bool_decide (origin_route_id job = Some (route_id bound))
    && opt_str_true (origin_device_id job)
    && match attempt with
       | None => false
       | Some a =>
         bool_decide (origin_route_id job = Some (at_route_id a))
         && bool_decide (origin_device_id job = Some (at_device_id a))
         && is_endpoint a bound && bool_decide (at_attempt_id a = attempt_id)
         && if bool_decide (delivery_state job = Dlv.READY) then offered a
            else negb (offered a) && _LIVE_STATES (delivery_state job)
                 && bool_decide (delivery_attempt_id job = Some attempt_id)
       end
  end.

(** [_spoken_text], given [json.loads]: [None] when the text does not decode. *)
Definition _spoken_text (loads : string → option json) (job : VoiceJob) : string :=
  let speaker := if str_true (specialist_display_name job)
                 then specialist_display_name job else "The specialist" in
  let apology := "I couldn't get an answer from " +:+ speaker +:+ " — you can ask me again." in
  match result job with
  | None => apology
  | Some text =>
    match loads text with
    | None => apology
    | Some payload =>
      match parse_voice_job_result payload with
      | Raise _ => apology
      | Ok r =>
        let spoken := spoken_text_for r (prompted_delivery job)
          (voice_identity_clearance (JObj [("channel", JStr "voice")])) in
        if str_true spoken && bool_decide (spoken = spoken_summary r)
        then default "" (announcement (Some speaker) spoken (seed_for (id_ job)))
        else spoken
      end
    end
  end.

Section coordinator.
Context {S : Type} `{JobStore S} (loads : string → option json) (D : DEnv).

Definition DM (A : Type) := PyM (Coordinator S) A.

(** A call into the store, in its own environment. *)
Definition store_call {A} (f : Env → PyM S A) : DM A := λ s,
  let '(o, j) := f (d_jobs D (store_calls s)) (_jobs_store s) in
  (o, s <| _jobs_store := j |> <| store_calls ::= Datatypes.S |>).

(** [_safe_send]: a failed write is logged and answered with [False]. *)
Definition _safe_send (c : nat) (f : Frame) : DM bool :=
  if d_sends D c f
  then modify (λ s, s <| wire ::= λ w, w ++ [(c, f)] |>) ;;; mret true
  else mret false.

(** [endpoint.send_json]: a failed write raises. *)
Definition send_json (c : nat) (f : Frame) : DM unit :=
  let* sent := _safe_send c f in raise_when (negb sent) OSError.

(** [_send_revoke]: only to the route's present object. *)
Definition _send_revoke (a : _Attempt) (reason : string) : DM bool :=
  let* s := get in
  match get_connected (_routes s) (at_route_id a) with
  | None => mret false
  | Some current =>
    if is_endpoint a current
    then _safe_send (connection current)
           (JobRevoke (Some (at_job_id a)) (Some (at_attempt_id a)) reason)
    else mret false
  end.

(** [_deny] *)
Definition _deny (e : endpoint) (job_id attempt_id : option string) (reason : string) : DM unit :=
  _safe_send (endpoint_connection e) (JobRevoke job_id attempt_id reason) ;;; mret tt.

Definition set_attempt (job_id : string) (a : _Attempt) (s : Coordinator S) : Coordinator S :=
  s <| _attempts ::= λ d, dset d job_id a |>.
Definition pop_attempt (job_id : string) (s : Coordinator S) : Coordinator S :=
  s <| _attempts ::= λ d, ddel d job_id |>.

(** ** The parts of a sweep *)

(** [_release_due_parks_locked] *)
Definition _release_due_parks_locked : DM unit :=
  modify (λ s, s <| _parked_until ::= filter (λ p,
    (match st_get (_jobs_store s) p.1 with
     | Some job => bool_decide (delivery_state job = Dlv.READY)
     | None => false
     end && negb (bool_decide (p.2 ≤ d_clock D)%Z)) = true) |>).

(** The attempt a leased row is restored to. *)
Definition restored (s : Coordinator S) (job : VoiceJob) : _Attempt :=
  let r := default "" (origin_route_id job) in
  mkAttempt (id_ job) r (default "" (origin_device_id job)) (default "" (delivery_attempt_id job))
    (match get_connected (_routes s) r with
     | Some route => if bool_decide (is_Some (_current_bound (_routes s) (Bound route)))
                     then Some route else None
     | None => None
     end) false false None.

(** Is the row's attempt in the table already? *)
Definition restored_already (s : Coordinator S) (job : VoiceJob) : bool :=
  match dget (_attempts s) (id_ job) with
  | Some a =>
    negb (offered a)
    && bool_decide (Some (at_attempt_id a) = delivery_attempt_id job)
    && bool_decide (Some (at_route_id a) = origin_route_id job)
    && bool_decide (Some (at_device_id a) = origin_device_id job)
  | None => false
  end.

(** [_restore_durable_attempts_locked] *)
Definition _restore_durable_attempts_locked : DM unit :=
  let* s := get in
  for_each (st_all (_jobs_store s)) (λ job,
    modify (λ s, if restorable job && negb (restored_already s job)
                 then set_attempt (id_ job) (restored s job) s else s)).

(** The body of the loop of [_reconcile_attempts_locked]. *)
Definition reconcile_attempt (job_id : string) (a : _Attempt) : DM unit :=
  let* s := get in
  match st_get (_jobs_store s) job_id with
  | Some job =>
    if attempt_current a job then
      if cancel_pending job && negb (revoke_sent a) then
        let* sent := _send_revoke a "cancelled" in
        modify (set_attempt job_id (a <| revoke_sent := sent |>))
      else mret tt
    else
      let a := match revoke_deadline a with
               | Some _ => a
               | None => a <| revoke_deadline := Some (d_clock D + _lease_s s)%Z |>
               end in
      let* sent := if revoke_sent a then mret true else _send_revoke a "no_longer_deliverable" in
      modify (set_attempt job_id (a <| revoke_sent := sent |>))
  | None =>
    let a := match revoke_deadline a with
             | Some _ => a
             | None => a <| revoke_deadline := Some (d_clock D + _lease_s s)%Z |>
             end in
    let* sent := if revoke_sent a then mret true else _send_revoke a "no_longer_deliverable" in
    modify (set_attempt job_id (a <| revoke_sent := sent |>))
  end.

(** [_reconcile_attempts_locked] *)
Definition _reconcile_attempts_locked : DM unit :=
  let* s := get in
  for_each (_attempts s) (λ p, reconcile_attempt p.1 p.2).

(** [_expire_dead_attempts_locked] *)
Definition _expire_dead_attempts_locked : DM unit :=
  modify (λ s, s <| _attempts ::= filter (λ p,
    match revoke_deadline p.2 with
    | Some t => negb (bool_decide (t ≤ d_clock D)%Z)
    | None => true
    end = true) |>).

(** [_recover_due_locked] *)
Definition _recover_due_locked : DM unit :=
  store_call st_expire_due ;;;
  store_call st_expire_leases ;;;
  _release_due_parks_locked ;;;
  _restore_durable_attempts_locked ;;;
  _reconcile_attempts_locked ;;;
  _expire_dead_attempts_locked.

(** ** Offers *)

(** The frame that offers a row under an attempt id. *)
Definition ready_frame (job : VoiceJob) (attempt_id : string) : Frame :=
  JobReady (id_ job) attempt_id (default "" (origin_route_id job))
    (default "" (origin_device_id job)) (delivery_modality job) (_spoken_text loads job)
    (terminal_at job) (expires_at job) (delivery_sequence job).

(** Offer the head of a device's queue: the loop body below the occupancy test. *)
Definition offer_head (job : VoiceJob) : DM unit :=
  let* s := get in
  if negb (bool_decide (delivery_state job = Dlv.READY)) then mret tt
  else if dhas (_parked_until s) (id_ job) then mret tt
  else
    let* good := lift (deliverable (delivery_modality job)) in
    let note (s : Coordinator S) :=
      if bool_decide (id_ job ∈ _unoffered_logged s) then s
      else s <| _unoffered_logged ::= cons (id_ job) |> in
    if negb good then modify note
    else if match dget (_attempts s) (id_ job) with Some a => offered a | None => false end
    then mret tt
    else
      match get_connected (_routes s) (default "" (origin_route_id job)) with
      | Some route =>
        if bool_decide (is_Some (_current_bound (_routes s) (Bound route))) then
          let attempt_id := d_uuid D (uuids s) in
          let a := mkAttempt (id_ job) (default "" (origin_route_id job))
                     (default "" (origin_device_id job)) attempt_id (Some route) true false None in
          modify (λ s, set_attempt (id_ job) a (s <| uuids ::= Datatypes.S |>
            <| _unoffered_logged ::= filter (λ x, x ≠ id_ job) |>)) ;;;
          let* sent := _safe_send (connection route) (ready_frame job attempt_id) in
          if negb sent then modify (pop_attempt (id_ job)) else mret tt
        else modify note
      | None => modify note
      end.

(** The loop of [_offer_heads_locked], with the devices already occupied. *)
Fixpoint offer_loop (occupied : list string) (jobs : list VoiceJob) : DM unit :=
  match jobs with
  | [] => mret tt
  | job :: jobs' =>
    let key := default "" (origin_device_id job) in
    if negb (queued job) then offer_loop occupied jobs'
    else if bool_decide (key ∈ occupied) then offer_loop occupied jobs'
    else offer_head job ;;; offer_loop (key :: occupied) jobs'
  end.

Definition _offer_heads_locked : DM unit :=
  let* s := get in offer_loop [] (st_all (_jobs_store s)).

(** ** The public methods *)

Definition sweep_once : DM unit := _recover_due_locked ;;; _offer_heads_locked.

Definition route_connected (e : endpoint) : DM unit :=
  let* s := get in
  match _current_bound (_routes s) e with
  | None => mret tt
  | Some bound =>
    modify (λ s, s <| _parked_until ::= filter (λ p,
      negb match st_get (_jobs_store s) p.1 with
           | Some job => bool_decide (origin_route_id job = Some (route_id bound))
           | None => false
           end = true) |>) ;;;
    modify (λ s, s <| _attempts := omap (λ p : string * _Attempt,
      if negb (bool_decide (at_route_id p.2 = route_id bound)) then Some p
      else if offered p.2 then None
      else Some (p.1, p.2 <| at_endpoint := Some bound |> <| revoke_sent := false |>
                          <| revoke_deadline := None |>)) (_attempts s) |>) ;;;
    _recover_due_locked ;;;
    _offer_heads_locked
  end.

Definition route_disconnected (b : BoundVoiceRoute) : DM unit :=
  match _identifier (JStr (route_id b)) with
  | None => mret tt
  | Some r =>
    modify (λ s, s <| _attempts ::= filter (λ p,
      negb (bool_decide (at_route_id p.2 = r) && offered p.2 && is_endpoint p.2 b) = true) |>)
  end.

(** [_handle_revoked_ack_locked] *)
Definition _handle_revoked_ack_locked (bound : BoundVoiceRoute) (job_id attempt_id : string)
    : DM unit :=
  let* s := get in
  match dget (_attempts s) job_id with
  | None => mret tt
  | Some a =>
    if negb (bool_decide (at_attempt_id a = attempt_id) && bool_decide (at_route_id a = route_id bound)
             && is_endpoint a bound && revoke_sent a)
    then mret tt
    else
      let stopping :=
        match st_get (_jobs_store s) job_id with
        | Some job => bool_decide (delivery_state job = Dlv.AUTHORIZED) && cancel_pending job
                      && bool_decide (delivery_attempt_id job = Some attempt_id)
        | None => false
        end in
      let* gone :=
        (if stopping then
          try_except
            (store_call (λ env, st_nack env job_id attempt_id "preempted_before_playback") ;;;
             mret false)
            (λ e, match e with JobTransitionError => Some (mret true) | _ => None end)
         else mret false : DM bool) in
      if negb gone then modify (pop_attempt job_id) ;;; _offer_heads_locked
      else mret tt
  end.

(** The [try] block of [handle], per frame type. *)
Definition dispatch (frame_type : string) (frame : list (string * json)) (e : endpoint)
    (bound : BoundVoiceRoute) (job : VoiceJob) (job_id attempt_id : string) : DM unit :=
  let* s := get in
  let attempt := dget (_attempts s) job_id in
  if bool_decide (frame_type = "job_claimed") then
    match attempt with
    | Some a =>
      if offered a && bool_decide (at_attempt_id a = attempt_id) && is_endpoint a bound then
        store_call (λ env, st_claim env job_id attempt_id) ;;;
        modify (set_attempt job_id (a <| offered := false |>))
      else _deny e (Some job_id) (Some attempt_id) "stale_attempt"
    | None => _deny e (Some job_id) (Some attempt_id) "stale_attempt"
    end
  else if bool_decide (frame_type = "job_claim_renew") then
    match attempt with
    | Some a =>
      if bool_decide (delivery_state job = Dlv.AUTHORIZED) && cancel_pending job
      then _send_revoke a "cancelled" ;;; mret tt
      else store_call (λ env, st_renew env job_id attempt_id) ;;; mret tt
    | None => store_call (λ env, st_renew env job_id attempt_id) ;;; mret tt
    end
  else if bool_decide (frame_type = "job_delivery_start") then
    let authorized :=
      send_json (connection bound) (JobDeliveryAuthorized job_id attempt_id) in
    if bool_decide (delivery_state job = Dlv.AUTHORIZED) then
      if cancel_pending job then
        match attempt with
        | Some a => _send_revoke a "cancelled" ;;; mret tt
        | None => mret tt
        end
      else authorized
    else store_call (λ env, st_authorize env job_id attempt_id) ;;; authorized
  else if bool_decide (frame_type = "job_playback_started") then
    store_call (λ env, st_mark_playing env job_id attempt_id) ;;; mret tt
  else if bool_decide (frame_type = "job_delivered") then
    store_call (λ env, st_mark_delivered env job_id attempt_id) ;;;
    modify (pop_attempt job_id) ;;;
    _offer_heads_locked
  else if bool_decide (frame_type = "job_nack") then
    let reason := match obj_get frame "reason" with JStr r => r | _ => "integration_nack" end in
    store_call (λ env, st_nack env job_id attempt_id reason) ;;;
    modify (pop_attempt job_id) ;;;
    (if bool_decide (reason ∈ _PARK_REASONS)
     then modify (λ s, s <| _parked_until ::= λ d, dset d job_id (d_clock D + _park_s s)%Z |>)
     else mret tt) ;;;
    _offer_heads_locked
  else mret tt.

(** [handle] *)
Definition handle (e : endpoint) (frame : list (string * json)) : DM unit :=
  match obj_get frame "type" with
  | JStr frame_type =>
    if negb (bool_decide (frame_type ∈ _INBOUND_TYPES)
             && is_protocol _PROTOCOL (obj_get frame "protocol"))
    then mret tt
    else
      _recover_due_locked ;;;
      _offer_heads_locked ;;;
      let* s := get in
      let job_id := _identifier (obj_get frame "job_id") in
      let attempt_id := _identifier (obj_get frame "delivery_attempt_id") in
      match _current_bound (_routes s) e, job_id, attempt_id with
      | Some bound, Some job_id, Some attempt_id =>
        if bool_decide (frame_type = "job_revoked")
        then _handle_revoked_ack_locked bound job_id attempt_id
        else
          match st_get (_jobs_store s) job_id with
          | Some job =>
            if _matches_job (_attempts s) bound (Some job) attempt_id then
              try_except (dispatch frame_type frame e bound job job_id attempt_id)
                (λ x, match x with
                      | JobTransitionError =>
                        Some (_deny e (Some job_id) (Some attempt_id) "stale_attempt")
                      | _ => None
                      end)
            else _deny e (Some job_id) (Some attempt_id) "stale_attempt"
          | None => _deny e (Some job_id) (Some attempt_id) "stale_attempt"
          end
      | _, _, _ => _deny e job_id attempt_id "invalid_frame"
      end
  | JList _ | JObj _ => raise TypeError       (** not hashable *)
  | _ => mret tt
  end.
End coordinator.
