(* ===== verification/JobLifecycle.v ===== *)
(** * The job lifecycle: an abstract specification and its refinement

    [JobRegistry] transcribes the registry; this file says what the registry
    promises.  A row is a pair of state machines (execution and delivery) whose
    allowed edges are the inductive relations [exec_edge] and [dlv_edge]; it is
    [wf_job] when the fields that belong to a state are present exactly in that
    state.  [evolves] is the one-step contract every transition of a row keeps,
    and the lemmas [*_evolves] show it for each row the operations write. *)

From S2P Require Import Prelude PyDict Json SpeakerProvenance JobTypes JobRegistry.

(** ** The two state machines *)

Inductive exec_edge : ExecutionState → ExecutionState → Prop :=
  | edge_start : exec_edge Exec.ACCEPTED Exec.RUNNING
  | edge_end a b : live_execution a = true → _TERMINAL_EXECUTION b = true → exec_edge a b.

(** The states from which no edge leaves. *)
Definition delivery_final (d : DeliveryState) : bool :=
  match d with Dlv.DELIVERED | Dlv.CANCELLED | Dlv.EXPIRED => true | _ => false end.

(** The states a creator can still cancel. *)
Definition cancellable (d : DeliveryState) : bool :=
  match d with Dlv.READY | Dlv.CLAIMED | Dlv.AUTHORIZED => true | _ => false end.

Inductive dlv_edge : DeliveryState → DeliveryState → Prop :=
  | edge_ready : dlv_edge Dlv.NONE Dlv.READY
  | edge_claim : dlv_edge Dlv.READY Dlv.CLAIMED
  | edge_authorize : dlv_edge Dlv.CLAIMED Dlv.AUTHORIZED
  | edge_play : dlv_edge Dlv.AUTHORIZED Dlv.PLAYING
  | edge_delivered a : claimed_or_playing a = true → dlv_edge a Dlv.DELIVERED
  | edge_requeue a : _LEASED_DELIVERY a = true → dlv_edge a Dlv.READY
  | edge_cancel a : cancellable a = true → dlv_edge a Dlv.CANCELLED
  | edge_expire a : delivery_final a = false → dlv_edge a Dlv.EXPIRED.

(** A row with a delivery obligation: these are the rows a device's queue holds. *)
Definition obligated (d : DeliveryState) : bool :=
  match d with
  | Dlv.READY | Dlv.CLAIMED | Dlv.AUTHORIZED | Dlv.PLAYING => true
  | _ => false
  end.

(** ** Well-formed rows *)

Definition wf_job (j : VoiceJob) : Prop :=
  (live_execution (execution_state j) = true →
     delivery_state j = Dlv.NONE ∧ expires_at j = None ∧ terminal_at j = None ∧
     result j = None ∧ awaiting_input j = false) ∧
  (_TERMINAL_EXECUTION (execution_state j) = true →
     is_Some (terminal_at j) ∧ is_Some (expires_at j)) ∧
  (_LEASED_DELIVERY (delivery_state j) = true →
     is_Some (delivery_attempt_id j) ∧ is_Some (lease_until j)) ∧
  (_LEASED_DELIVERY (delivery_state j) = false →
     delivery_attempt_id j = None ∧ lease_until j = None) ∧
  (cancel_pending j = true →
     live_execution (execution_state j) = true ∨ delivery_state j = Dlv.AUTHORIZED) ∧
  (execution_state j = Exec.SUCCEEDED → is_Some (result j)) ∧
  (awaiting_input j = true →
     execution_state j = Exec.SUCCEEDED ∧ is_Some (continuable_until j)).

(** What a job is for, fixed at creation. *)
Definition identity (j : VoiceJob) :=
  (id_ j, parent_job_id j, creating_speaker j, executing_speaker j, specialist_role j,
   creator_peer j, creator_user_id j, scope_id j, origin_route_id j, origin_device_id j,
   task j, job_control_id j, delivery_modality j).

(** Does the row count against the capacity of its route? *)
Definition counts (j : VoiceJob) : bool :=
  live_execution (execution_state j) || obligated (delivery_state j).

(** One step of a row, when [mx] bounds every sequence number issued so far. *)
Record evolves (mx : Z) (j j' : VoiceJob) : Prop := {
  ev_identity : identity j' = identity j;
  ev_exec : execution_state j' = execution_state j ∨
            exec_edge (execution_state j) (execution_state j');
  ev_dlv : delivery_state j' = delivery_state j ∨
           dlv_edge (delivery_state j) (delivery_state j');
  ev_wf : wf_job j';
  ev_counts : counts j' = true → counts j = true;
  ev_sequence : delivery_sequence j' = delivery_sequence j ∨
                obligated (delivery_state j) = false ∧ (mx < delivery_sequence j')%Z;
  ev_obligated : obligated (delivery_state j') = true →
                 obligated (delivery_state j) = true ∨ (mx < delivery_sequence j')%Z
}.

(** Show that a concrete update evolves: expose the fields, split the cases of
    the states, and let the constructors close the edges. *)
Ltac expose_row j :=
  destruct j; unfold wf_job, counts, identity, clear_attempt, cancelled_delivery in *;
  reduce_job.
#[export] Hint Constructors exec_edge dlv_edge : core.
Ltac use_row_facts :=
  repeat match goal with
  | H : _ ∧ _ |- _ => destruct H
  | H : ?x = ?x → _ |- _ => specialize (H eq_refl)
  | H : true = false → _ |- _ => clear H
  | H : false = true → _ |- _ => clear H
  | H : is_Some _ |- _ => destruct H
  end; subst.
Ltac evolve j :=
  expose_row j;
  use_row_facts;
  repeat (match goal with
          | x : ExecutionState |- _ => destruct x
          | x : DeliveryState |- _ => destruct x
          end; cbn in *; try discriminate; use_row_facts; try discriminate);
  constructor; cbn; try (split_and!; intros); auto; try discriminate; eauto;
  intuition (eauto; discriminate).

(** The clauses of [wf_job] when the states are not split. *)
Ltac row_facts :=
  split_and!; intros; try congruence; eauto 3; try (by exfalso; congruence); intuition congruence.

Lemma terminal_not_live e : _TERMINAL_EXECUTION e = negb (live_execution e).
Proof. by destruct e. Qed.

Section evolves.
Context (env : Env) (s : JobRegistry) (mx : Z).

Lemma evolves_refl j : wf_job j → evolves mx j j.
Proof. intros H. constructor; auto. Qed.

Lemma claim_evolves j a t :
  wf_job j → delivery_state j = Dlv.READY →
  evolves mx j (j <| delivery_state := Dlv.CLAIMED |> <| delivery_attempt_id := Some a |>
                  <| lease_until := Some t |>).
Proof. intros Hwf Hd. evolve j. Qed.

Lemma renew_evolves j t :
  wf_job j → _LEASED_DELIVERY (delivery_state j) = true →
  evolves mx j (j <| lease_until := Some t |>).
Proof. intros Hwf Hd. evolve j. Qed.

Lemma authorize_evolves j :
  wf_job j → delivery_state j = Dlv.CLAIMED →
  evolves mx j (j <| delivery_state := Dlv.AUTHORIZED |>).
Proof. intros Hwf Hd. evolve j. Qed.

Lemma playing_evolves j :
  wf_job j → delivery_state j = Dlv.AUTHORIZED → cancel_pending j = false →
  evolves mx j (j <| delivery_state := Dlv.PLAYING |>).
Proof. intros Hwf Hd Hc. evolve j. Qed.

(** An ended delivery: the attempt is cleared and the state moves along an edge. *)
Lemma cleared_evolves j d :
  wf_job j → live_execution (execution_state j) = false →
  dlv_edge (delivery_state j) d → _LEASED_DELIVERY d = false →
  (obligated d = true → obligated (delivery_state j) = true) →
  evolves mx j (clear_attempt (j <| delivery_state := d |>)).
Proof.
  intros Hwf Hl He Hd Ho. expose_row j. destruct_and?.
  constructor; unfold wf_job, counts; cbn; rewrite ?Hl; auto; row_facts.
Qed.

Lemma flag_evolves j :
  wf_job j → live_execution (execution_state j) = true ∨ delivery_state j = Dlv.AUTHORIZED →
  evolves mx j (j <| cancel_pending := true |>).
Proof. intros Hwf Hl. evolve j. Qed.

Lemma bind_evolves j t :
  wf_job j → execution_state j = Exec.ACCEPTED →
  evolves mx j (j <| execution_state := Exec.RUNNING |> <| started_at := t |>).
Proof. intros Hwf He. evolve j. Qed.

Lemma handoff_evolves j h st :
  wf_job j → evolves mx j (j <| handoff_id := h |> <| handoff_state := st |>).
Proof. intros Hwf. evolve j. Qed.

Lemma handoff_received_evolves j st :
  wf_job j → evolves mx j (j <| handoff_state := st |>).
Proof. intros Hwf. evolve j. Qed.

Lemma notified_evolves j b :
  wf_job j → evolves mx j (j <| orphan_notification_pending := b |>).
Proof. intros Hwf. evolve j. Qed.

Lemma awaiting_evolves j b :
  wf_job j → execution_state j = Exec.SUCCEEDED → is_Some (continuable_until j) →
  evolves mx j (j <| awaiting_input := b |>).
Proof. intros Hwf He Hc. evolve j. Qed.

(** The end of a live execution: any terminal state, with or without a fresh
    delivery obligation. *)
Definition ended (j : VoiceJob) (e : ExecutionState) (now0 expiry : Z) (r : option string)
    (f : option JobFailure) (d : DeliveryState) (q : Z) (aw : bool) (cu : option Z)
    (note : bool) : VoiceJob :=
  clear_attempt (j <| execution_state := e |> <| terminal_at := Some now0 |>
    <| expires_at := Some expiry |> <| result := r |> <| failure := f |>
    <| delivery_state := d |> <| delivery_sequence := q |> <| awaiting_input := aw |>
    <| continuable_until := cu |> <| orphan_notification_pending := note |>).

Lemma ended_evolves j e now0 expiry r f d q aw cu note :
  wf_job j → live_execution (execution_state j) = true → _TERMINAL_EXECUTION e = true →
  (e = Exec.SUCCEEDED → is_Some r) →
  (aw = true → e = Exec.SUCCEEDED ∧ is_Some cu) →
  d = Dlv.READY ∧ (mx < q)%Z ∨ d = Dlv.NONE ∧ q = delivery_sequence j →
  evolves mx j (ended j e now0 expiry r f d q aw cu note).
Proof.
  intros Hwf Hl He Hr Haw Hd. pose proof He as He'. rewrite terminal_not_live in He'.
  apply negb_true_iff in He'. unfold ended. expose_row j. destruct_and?.
  match goal with H : live_execution _ = true → _ ∧ _ |- _ => destruct (H Hl) as (-> & _) end.
  destruct Hd as [[-> Hq]|[-> ->]]; constructor; unfold wf_job, counts; cbn;
    rewrite ?Hl; auto; row_facts.
Qed.
End evolves.

(** ** The rows the terminal operations write *)

Section ends.
Context (env : Env) (s : JobRegistry) (j : VoiceJob).
Context (Hwf : wf_job j) (Hl : live_execution (execution_state j) = true).
Abbreviation mx := (_delivery_sequence s).

Lemma live_delivery : delivery_state j = Dlv.NONE.
Proof using Hwf Hl. by destruct Hwf as [H _], (H Hl). Qed.

Lemma live_awaiting : awaiting_input j = false.
Proof using Hwf Hl. by destruct Hwf as [H _], (H Hl) as (_ & _ & _ & _ & ?). Qed.

Lemma terminal_delivery_spec :
  let '(d, q) := _terminal_delivery s j in
  d = Dlv.READY ∧ (mx < q)%Z ∨ d = Dlv.NONE ∧ q = delivery_sequence j.
Proof. unfold _terminal_delivery. destruct (routed j); [left; split; [done|lia]|by right]. Qed.

Lemma ended_awaiting e now0 expiry r f d q aw cu note aw' cu' :
  (ended j e now0 expiry r f d q aw cu note) <| awaiting_input := aw' |> <| continuable_until := cu' |>
  = ended j e now0 expiry r f d q aw' cu' note.
Proof. reflexivity. Qed.

Lemma cancelled_row_ended why :
  cancelled_row env s j why =
  ended j Exec.CANCELLED (now env) (now env + _terminal_result_ttl_seconds s j)%Z (result j)
    (Some (mkFailure "cancelled" why)) Dlv.NONE (delivery_sequence j) (awaiting_input j)
    (continuable_until j) (orphan_notification_pending j).
Proof using Hwf Hl.
  unfold cancelled_row, cancelled_delivery. rewrite live_delivery. by destruct j.
Qed.

Lemma succeeded_row_ended r expiry :
  succeeded_row env s j r expiry =
  ended j Exec.SUCCEEDED (now env) expiry (Some r) None
    (_terminal_delivery s j).1 (_terminal_delivery s j).2 (awaiting_input j)
    (continuable_until j) (orphan_notification_pending j).
Proof. unfold succeeded_row. destruct (_terminal_delivery s j). by destruct j. Qed.

Lemma cancelled_row_evolves why : evolves mx j (cancelled_row env s j why).
Proof using Hwf Hl.
  rewrite cancelled_row_ended. apply ended_evolves; try done; [|by right].
  by rewrite live_awaiting.
Qed.

Lemma cancelled_voice_evolves why :
  evolves mx j ((cancelled_row env s j why) <| awaiting_input := false |>
                  <| continuable_until := None |>).
Proof using Hwf Hl.
  rewrite cancelled_row_ended, ended_awaiting. apply ended_evolves; try done. by right.
Qed.

Lemma succeeded_row_evolves r expiry : evolves mx j (succeeded_row env s j r expiry).
Proof using Hwf Hl.
  rewrite succeeded_row_ended. pose proof terminal_delivery_spec as H.
  destruct (_terminal_delivery s j). apply ended_evolves; try done.
  by rewrite live_awaiting.
Qed.

Lemma succeeded_voice_evolves r expiry (aw : bool) :
  evolves mx j ((succeeded_row env s j r expiry) <| awaiting_input := aw |>
                  <| continuable_until := if aw then Some expiry else None |>).
Proof using Hwf Hl.
  rewrite succeeded_row_ended, ended_awaiting. pose proof terminal_delivery_spec as H.
  destruct (_terminal_delivery s j). apply ended_evolves; try done. by intros ->.
Qed.

(** A failed or cancelled row, with the delivery its kind earns. *)
Lemma failed_row_evolves e expiry f d q :
  e = Exec.CANCELLED ∨ e = Exec.FAILED →
  d = Dlv.READY ∧ (mx < q)%Z ∨ d = Dlv.NONE ∧ q = delivery_sequence j →
  evolves mx j (clear_attempt (j <| execution_state := e |> <| terminal_at := Some (now env) |>
    <| expires_at := Some expiry |> <| failure := f |> <| delivery_state := d |>
    <| delivery_sequence := q |>)).
Proof using Hwf Hl.
  intros He Hd.
  assert (clear_attempt (j <| execution_state := e |> <| terminal_at := Some (now env) |>
    <| expires_at := Some expiry |> <| failure := f |> <| delivery_state := d |>
    <| delivery_sequence := q |>) =
    ended j e (now env) expiry (result j) f d q (awaiting_input j) (continuable_until j)
      (orphan_notification_pending j)) as -> by (by destruct j).
  apply ended_evolves; try done; [by destruct He as [-> | ->]..|by rewrite live_awaiting].
Qed.

Lemma orphaned_row_evolves (mx' : Z) d q :
  d = Dlv.READY ∧ (mx' < q)%Z ∨ d = Dlv.NONE ∧ q = delivery_sequence j →
  evolves mx' j (orphaned_row env s j d q).
Proof using Hwf Hl.
  intros Hd.
  assert (orphaned_row env s j d q =
    ended j Exec.ORPHANED (now env) (now env + _terminal_result_ttl_seconds s j)%Z (result j)
      (Some (mkFailure "restart_orphan" "Lost on restart")) d q (awaiting_input j)
      (continuable_until j) (bool_decide (creator_peer j = "telegram"))) as ->
    by (by destruct j).
  apply ended_evolves; try done. by rewrite live_awaiting.
Qed.
End ends.
