(* ===== verification/JobInvariants.v ===== *)
(** * Invariants of the job registry

    Every operation of [JobRegistry] as one label of a transition system; the
    effect each label may have on the durable state; and what follows for every
    reachable registry: rows stay well formed, the snapshot on disk is the state
    in memory, a failed write publishes nothing, and each row moves only along
    the edges of [JobLifecycle]. *)

From S2P Require Import Prelude PyDict Json SpeakerProvenance JobTypes JobRegistry JobLifecycle.

(** ** Labels *)

Inductive op :=
  | OCreate (job : VoiceJob) (mx : option Z)
  | OContinuation (parent : string) (child : VoiceJob) (actor : list (string * json)) (mx : option Z)
  | OCompensate (parent child : string) (actor : list (string * json))
  | OPrompted (parent : string) (child : VoiceJob) (actor : list (string * json)) (mx : option Z)
  | OBind (job : string) (t : nat) (permit : option nat) (event : nat)
  | OTaskDone (job : string) (t : nat)
  | OForceCancel (timer t : nat)
  | OWaitTerminal (job : string) (future : nat)
  | OHandoffPending (job h : string)
  | OHandoffAck (job h : string)
  | OFinish (job r : string)
  | OFinishVoice (job r : string) (awaiting : bool) (ttl : Z)
  | OFail (job : string) (f : failure_arg)
  | OFinishCompat (job r : string)
  | OFailCompat (job : string) (f : failure_arg)
  | ORequestCancel (job : string) (actor : list (string * json))
  | OCancel (job : string)
  | OClaim (job attempt : string)
  | ORenew (job attempt : string)
  | OAuthorize (job attempt : string)
  | OPlaying (job attempt : string)
  | ODelivered (job attempt : string)
  | ONack (job attempt reason : string)
  | OExpireDue
  | OExpireLeases
  | ORecover
  | OAckOrphan (job : string).

Definition void {A} (m : M A) : M unit := m ;;; mret tt.

Definition run (env : Env) (o : op) : M unit :=
  match o with
  | OCreate j mx => void (create env j mx)
  | OContinuation p c a mx => void (create_continuation env p c a mx)
  | OCompensate p c a => void (compensate_unbound_continuation env p c a)
  | OPrompted p c a mx => void (create_prompted_delivery env p c a mx)
  | OBind j t p e => void (bind_task env j t p e)
  | OTaskDone j t => _task_done j t
  | OForceCancel x t => cancel_after_grace x t
  | OWaitTerminal j f => void (wait_for_terminal j f)
  | OHandoffPending j h => void (mark_handoff_pending env j h)
  | OHandoffAck j h => void (acknowledge_handoff env j h)
  | OFinish j r => void (finish env j r)
  | OFinishVoice j r aw ttl => void (finish_voice_result env j r aw ttl)
  | OFail j f => void (fail env j f)
  | OFinishCompat j r => void (finish_compat env j r)
  | OFailCompat j f => void (fail_compat env j f)
  | ORequestCancel j a => void (request_cancel env j a)
  | OCancel j => void (cancel env j)
  | OClaim j a => void (claim env j a)
  | ORenew j a => void (renew env j a)
  | OAuthorize j a => void (authorize env j a)
  | OPlaying j a => void (mark_playing env j a)
  | ODelivered j a => void (mark_delivered env j a)
  | ONack j a r => void (nack env j a r)
  | OExpireDue => void (expire_due env)
  | OExpireLeases => void (expire_leases env)
  | ORecover => void (recover_after_restart env)
  | OAckOrphan j => void (ack_orphan_notification env j)
  end.

(** The rows the callers create: [register_delegation] and [_new_voice_job]
    build a live row with no delivery, no deadline and no attempt. *)
Definition new_row (j : VoiceJob) : Prop :=
  wf_job j ∧ live_execution (execution_state j) = true ∧ cancel_pending j = false.

Definition op_ok (o : op) : Prop :=
  match o with
  | OCreate j _ | OContinuation _ j _ _ | OPrompted _ j _ _ => new_row j
  | _ => True
  end.

(** ** Sequence numbers *)

Lemma foldr_max_ge (q : Z) qs x : x ∈ q :: qs → (x ≤ foldr Z.max q qs)%Z.
Proof.
  revert x. induction qs as [|y qs IH]; intros x Hx; simpl.
  - apply list_elem_of_singleton in Hx as ->. lia.
  - apply elem_of_cons in Hx as [->|[->|Hx]%elem_of_cons].
    + specialize (IH q ltac:(left)). lia.
    + lia.
    + specialize (IH x ltac:(by right)). lia.
Qed.

Lemma max_sequence_ge jobs k j :
  dget jobs k = Some j → (delivery_sequence j ≤ max_sequence jobs)%Z.
Proof.
  intros Hk%dget_elem. unfold max_sequence.
  assert (delivery_sequence j ∈ delivery_sequence <$> dvals jobs) as Hin.
  { apply list_elem_of_fmap. exists j. split; [done|]. unfold dvals.
    apply list_elem_of_fmap. by exists (k, j). }
  destruct (delivery_sequence <$> dvals jobs) eqn:E; [by apply not_elem_of_nil in Hin|].
  by apply foldr_max_ge.
Qed.

(** ** The durable effect of a step *)

(** The part of the registry that survives, or that survival depends on. *)
Definition core (s : JobRegistry) :=
  (_jobs s, _delivery_sequence s, _loaded s, LEASE_SECONDS s, _voice_result_ttl_seconds s, disk s).

(** May the label [o] give the row [k] the delivery state [d]?  The states of a
    delivery attempt are each entered by one operation, with the right attempt. *)
Definition may_enter (o : op) (k : string) (j : VoiceJob) (d : DeliveryState) : Prop :=
  match d with
  | Dlv.CLAIMED => ∃ a, o = OClaim k a ∧ delivery_attempt_id j = None
  | Dlv.AUTHORIZED => ∃ a, o = OAuthorize k a ∧ delivery_attempt_id j = Some a
  | Dlv.PLAYING =>
    ∃ a, o = OPlaying k a ∧ delivery_attempt_id j = Some a ∧ cancel_pending j = false
  | Dlv.DELIVERED => ∃ a, o = ODelivered k a ∧ delivery_attempt_id j = Some a
  | _ => True
  end.

(** Room on the route of a new row, when the caller names a limit. *)
Definition room (s : JobRegistry) (mx : option Z) (j : VoiceJob) : Prop :=
  match mx, origin_route_id j with
  | Some m, Some r => (dcount (active_or_ready r) (_jobs s) < m)%Z
  | _, _ => True
  end.

(** May the label [o] add the row [j'] under the key [k]? *)
Definition may_add (s : JobRegistry) (o : op) (k : string) (j' : VoiceJob) : Prop :=
  match o with
  | OCreate j mx | OContinuation _ j _ mx | OPrompted _ j _ mx =>
    k = id_ j ∧ origin_route_id j' = origin_route_id j ∧ room s mx j
  | _ => False
  end.

Definition row_change (s : JobRegistry) (o : op) (k : string) (r r' : option VoiceJob) : Prop :=
  match r, r' with
  | Some j, Some j' =>
    evolves (_delivery_sequence s) j j' ∧
    (delivery_state j' = delivery_state j ∨ may_enter o k j (delivery_state j'))
  | None, Some j' =>
    may_add s o k j' ∧ wf_job j' ∧
    (live_execution (execution_state j') = true ∨ (_delivery_sequence s < delivery_sequence j')%Z)
  | Some j, None => execution_state j = Exec.ACCEPTED ∧ ∃ p a, o = OCompensate p k a
  | None, None => True
  end.

Record registry_wf (s : JobRegistry) : Prop := {
  rw_dict : wf_dict (_jobs s);
  rw_rows : ∀ k j, dget (_jobs s) k = Some j → id_ j = k ∧ wf_job j;
  rw_sequence : _delivery_sequence s = max_sequence (_jobs s);
  rw_disk : ∃ v, snapshot_of (_jobs s) = Ok v ∧ disk s = Holds v
}.

(** Sequence numbers issued by this step are issued once. *)
Definition fresh_distinct (mx : Z) (jobs : list (string * VoiceJob)) : Prop :=
  ∀ k k' j j', dget jobs k = Some j → dget jobs k' = Some j' →
    obligated (delivery_state j) = true → obligated (delivery_state j') = true →
    (mx < delivery_sequence j)%Z → delivery_sequence j = delivery_sequence j' → k = k'.

(** A commit of the label [o]: a new table of rows, each reached by one legal
    step, and on disk. *)
Record committed (o : op) (s s' : JobRegistry) : Prop := {
  co_wf : registry_wf s';
  co_rows : ∀ k, row_change s o k (dget (_jobs s) k) (dget (_jobs s') k);
  co_fresh : fresh_distinct (_delivery_sequence s) (_jobs s');
  co_rest : (_loaded s', LEASE_SECONDS s', _voice_result_ttl_seconds s')
            = (_loaded s, LEASE_SECONDS s, _voice_result_ttl_seconds s)
}.

Definition effect (o : op) (s s' : JobRegistry) : Prop := core s' = core s ∨ committed o s s'.

(** A call that raises has done nothing, unless it was cancelled while its
    commit ran: then the commit is complete. *)
Definition refused (o : op) (s : JobRegistry) (e : exn) (s' : JobRegistry) : Prop :=
  s' = s ∨ e = CancelledError ∧ committed o s s'.

Definition runtime_only (f : JobRegistry → JobRegistry) : Prop := ∀ s, core (f s) = core s.

Lemma no_after_runtime : runtime_only no_after.
Proof. done. Qed.
#[export] Hint Resolve no_after_runtime : core.

Lemma signal_core s : core (_signal_terminal_waiters s) = core s.
Proof. destruct s. reflexivity. Qed.

Lemma publish_core jobs ap s :
  runtime_only ap →
  core (publish jobs ap s) =
  (jobs, max_sequence jobs, _loaded s, LEASE_SECONDS s, _voice_result_ttl_seconds s, disk s).
Proof. intros Hap. unfold publish. rewrite signal_core, Hap. by destruct s. Qed.

Lemma core_eq s jobs mx l lease ttl d :
  core s = (jobs, mx, l, lease, ttl, d) →
  _jobs s = jobs ∧ _delivery_sequence s = mx ∧ _loaded s = l ∧ LEASE_SECONDS s = lease ∧
  _voice_result_ttl_seconds s = ttl ∧ disk s = d.
Proof. unfold core. naive_solver. Qed.

Lemma effect_refl o s : effect o s s.
Proof. by left. Qed.
#[export] Hint Resolve effect_refl : core.

(** The rule for a commit. *)
Lemma wp_commit env jobs ap (Q : unit → JobRegistry → Prop) R s :
  (∀ e, R e s) →
  (∀ v, snapshot_of jobs = Ok v → write_ok env = true →
     let s' := publish jobs ap (s <| disk := Holds v |>) in
     Q tt s' ∧ R CancelledError s') →
  wp (_commit_snapshot_locked env jobs ap) Q R s.
Proof.
  intros HR HQ. unfold _commit_snapshot_locked. wp_step. apply wp_lift; [|done].
  intros v Hv. wp_go; try done.
  - destruct (HQ v Hv) as [_ HR1]; [by apply negb_false_iff|]. done.
  - destruct (HQ v Hv) as [HQ1 _]; [by apply negb_false_iff|]. done.
Qed.

Lemma evolves_id mx j j' : evolves mx j j' → id_ j' = id_ j.
Proof. intros H. pose proof (ev_identity _ _ _ H) as Hid. unfold identity in Hid. congruence. Qed.

Lemma row_unchanged s o k :
  registry_wf s → row_change s o k (dget (_jobs s) k) (dget (_jobs s) k).
Proof.
  intros Hwf. destruct (dget (_jobs s) k) eqn:E; [|done].
  split; [|by left]. apply evolves_refl. by eapply rw_rows.
Qed.

Lemma sequence_bound s k j :
  registry_wf s → dget (_jobs s) k = Some j → (delivery_sequence j ≤ _delivery_sequence s)%Z.
Proof. intros Hwf. rewrite (rw_sequence _ Hwf). apply max_sequence_ge. Qed.

(** A table a step may commit, and how the operations build one. *)
Record candidate_ok (o : op) (s : JobRegistry) (jobs : list (string * VoiceJob)) : Prop := {
  ca_dict : wf_dict jobs;
  ca_rows : ∀ k j, dget jobs k = Some j → id_ j = k ∧ wf_job j;
  ca_change : ∀ k, row_change s o k (dget (_jobs s) k) (dget jobs k);
  ca_fresh : fresh_distinct (_delivery_sequence s) jobs
}.

Lemma candidate_refl o s : registry_wf s → candidate_ok o s (_jobs s).
Proof.
  intros Hwf. split; [apply Hwf..|intros k; by apply row_unchanged|].
  intros k k' j j' Hj _ _ _ Hq. pose proof (sequence_bound _ _ _ Hwf Hj). lia.
Qed.

(** Writing one row: it takes a fresh number only over the unchanged table. *)
Lemma candidate_dset o s jobs k j :
  registry_wf s → candidate_ok o s jobs → id_ j = k → wf_job j →
  row_change s o k (dget (_jobs s) k) (Some j) →
  jobs = _jobs s ∨ obligated (delivery_state j) = false ∨
    (delivery_sequence j ≤ _delivery_sequence s)%Z →
  candidate_ok o s (dset jobs k j).
Proof.
  intros Hwf [Hd Hr Hc Hf] Hid Hj Hk Hseq. split; [by apply wf_dset|..].
  - intros k' j'. rewrite dget_dset. case_decide; [|by apply Hr]. intros [= <-]. by subst.
  - intros k'. rewrite dget_dset. case_decide; [by subst|done].
  - intros k1 k2 j1 j2. rewrite !dget_dset.
    assert (∀ k' j', dget jobs k' = Some j' → obligated (delivery_state j) = true →
      (_delivery_sequence s < delivery_sequence j)%Z → delivery_sequence j ≠ delivery_sequence j')
      as Hother.
    { intros k' j' Hj' Ho Hq. destruct Hseq as [->|[?|?]]; [|congruence|lia].
      pose proof (sequence_bound _ _ _ Hwf Hj'). lia. }
    do 2 case_decide; subst; try done; intros ? ?; simplify_eq; intros.
    + exfalso. by eapply Hother.
    + exfalso. eapply (Hother k1); try done; congruence.
    + by eapply Hf.
Qed.

Lemma candidate_ddel o s jobs k :
  candidate_ok o s jobs → row_change s o k (dget (_jobs s) k) None →
  candidate_ok o s (ddel jobs k).
Proof.
  intros [Hd Hr Hc Hf] Hk. split; [by apply wf_ddel|intros k' j'|intros k'|].
  1,2: rewrite dget_ddel; case_decide; subst; auto; done.
  intros k1 k2 j1 j2. rewrite !dget_ddel. do 2 case_decide; try done. apply Hf.
Qed.

Lemma candidate_dmap o s f :
  registry_wf s →
  (∀ k j, dget (_jobs s) k = Some j →
     row_change s o k (Some j) (Some (f j)) ∧ delivery_sequence (f j) = delivery_sequence j) →
  candidate_ok o s (dmap f (_jobs s)).
Proof.
  intros Hwf Hf. split; [apply wf_dmap, Hwf|..].
  - intros k j. rewrite dget_dmap. intros [j0 [Hj ->]]%fmap_Some.
    destruct (Hf _ _ Hj) as [[Hev _] _]. rewrite (evolves_id _ _ _ Hev).
    split; [by eapply rw_rows|by eapply ev_wf].
  - intros k. rewrite dget_dmap. destruct (dget (_jobs s) k) eqn:Hj; [|done]. by apply Hf.
  - intros k k' j j'. rewrite !dget_dmap. intros [j0 [Hj ->]]%fmap_Some _ _ _.
    destruct (Hf _ _ Hj) as [_ ->]. pose proof (sequence_bound _ _ _ Hwf Hj). lia.
Qed.

Lemma candidate_committed o s jobs ap v :
  candidate_ok o s jobs → runtime_only ap → snapshot_of jobs = Ok v →
  committed o s (publish jobs ap (s <| disk := Holds v |>)).
Proof.
  intros [Hd Hrows Hch Hf] Hap Hv.
  pose proof (publish_core jobs ap (s <| disk := Holds v |>) Hap) as Hc.
  apply core_eq in Hc as (E1 & E2 & E3 & E4 & E5 & E6). destruct s. split.
  - split; rewrite ?E1, ?E2; try done. exists v. by rewrite E6.
  - by rewrite E1.
  - by rewrite E1.
  - by rewrite E3, E4, E5.
Qed.

Lemma wp_commit_candidate env o s jobs ap :
  candidate_ok o s jobs → runtime_only ap →
  wp (_commit_snapshot_locked env jobs ap) (λ _, effect o s) (refused o s) s.
Proof.
  intros. apply wp_commit; [by left|]. intros v Hv _ s'.
  assert (committed o s s') by (by apply candidate_committed).
  split; [by right|by right].
Qed.

(** Rewriting one present row. *)
Lemma wp_commit_row env o s k j j' ap :
  registry_wf s → runtime_only ap →
  dget (_jobs s) k = Some j → evolves (_delivery_sequence s) j j' →
  delivery_state j' = delivery_state j ∨ may_enter o k j (delivery_state j') →
  wp (_commit_snapshot_locked env (_with_job s j') ap) (λ _, effect o s) (refused o s) s.
Proof.
  intros Hwf Hap Hj Hev Hen. destruct (rw_rows _ Hwf _ _ Hj) as [<- Hw].
  unfold _with_job. rewrite (evolves_id _ _ _ Hev).
  apply wp_commit_candidate; [|done]. apply candidate_dset; auto.
  - by apply candidate_refl.
  - by eapply evolves_id.
  - by eapply ev_wf.
  - by rewrite Hj.
Qed.

Lemma wp_persist env o s k j j' ap :
  registry_wf s → runtime_only ap →
  dget (_jobs s) k = Some j → evolves (_delivery_sequence s) j j' →
  delivery_state j' = delivery_state j ∨ may_enter o k j (delivery_state j') →
  wp (_persist_job_locked env j' ap) (λ _, effect o s) (refused o s) s.
Proof.
  intros. unfold _persist_job_locked. wp_go.
  eapply wp_mono; [by eapply wp_commit_row|done|done].
Qed.

(** ** The effect of each operation *)

Lemma refused_refl o s e : refused o s e s.
Proof. by left. Qed.
#[export] Hint Resolve refused_refl : core.

Lemma wp_require_job job_id (Q : VoiceJob → JobRegistry → Prop) R s :
  (∀ e, R e s) →
  (∀ j, _loaded s = true → dget (_jobs s) job_id = Some j → Q j s) →
  wp (_require_job job_id) Q R s.
Proof.
  intros HR HQ. unfold _require_job, _require_loaded. wp_go; auto.
  apply HQ; [by apply negb_false_iff|done].
Qed.

Lemma wp_require_cas job_id d a (Q : VoiceJob → JobRegistry → Prop) R s :
  (∀ e, R e s) →
  (∀ j, dget (_jobs s) job_id = Some j → delivery_state j = d → delivery_attempt_id j = a → Q j s) →
  wp (_require_delivery_cas job_id d a) Q R s.
Proof.
  intros HR HQ. unfold _require_delivery_cas. apply wp_bind, wp_require_job; [done|].
  intros j _ Hj. wp_go; auto; apply HQ; try done.
  all: repeat match goal with
       | H : negb _ = false |- _ => apply negb_false_iff, bool_decide_eq_true in H
       | H : bool_decide _ = false |- _ => apply bool_decide_eq_false, eq_None_not_Some in H
       end; done.
Qed.

(** Run an operation to its commits; the guards become hypotheses. *)
Ltac clean_guards :=
  repeat match goal with
  | H : negb _ = false |- _ => apply negb_false_iff in H
  | H : negb _ = true |- _ => apply negb_true_iff in H
  | H : _ && _ = true |- _ => apply andb_true_iff in H as [? ?]
  | H : _ || _ = false |- _ => apply orb_false_iff in H as [? ?]
  | H : dhas _ _ = true |- _ => apply dhas_true in H
  | H : dhas _ _ = false |- _ => apply dhas_false in H
  | H : bool_decide _ = true |- _ => apply bool_decide_eq_true in H
  | H : bool_decide _ = false |- _ => apply bool_decide_eq_false in H
  end.
Ltac op_go :=
  repeat match goal with
  | |- wp (mbind _ _) _ _ _ => apply wp_bind
  | |- wp (_require_job _) _ _ _ => apply wp_require_job; [by intros; first [done|left]|intros ? ? ?]
  | |- wp (_require_delivery_cas _ _ _) _ _ _ =>
    apply wp_require_cas; [by intros; first [done|left]|intros ? ? ? ?]
  | |- wp _require_loaded _ _ _ => unfold _require_loaded
  | |- wp (_persist_job_locked _ _ _) _ _ _ => fail 1
  | |- wp (_commit_snapshot_locked _ _ _) _ _ _ => fail 1
  | |- wp (_require_route_capacity _ _) _ _ _ => fail 1
  | |- _ => wp_step
  end; clean_guards; try (by left); try done.
(** Leave the bookkeeping around a commit, and commit a table. *)
Ltac wp_safe :=
  match goal with
  | |- wp _ _ (refused ?o ?s) ?s =>
    apply (wp_mono _ (λ _, effect o s) _ (refused o s)); [|done|done]
  end.
Ltac commit_table := wp_safe; apply wp_commit_candidate; [|done].
