(* ===== verification/JobRecovery.v ===== *)
(** * Recovery after a restart

    The loop of [recover_after_restart]: it visits the rows in dict order with a
    running sequence counter, turns every row that was live into an orphan,
    re-queues the orphans that have a route to be announced on, and gives leased
    deliveries a fresh lease. *)

From S2P Require Import Prelude PyDict Json SpeakerProvenance JobTypes JobRegistry JobLifecycle.
From S2P Require Import JobInvariants.

Section recovery.
Context (env : Env) (s : JobRegistry) (Hwf : registry_wf s).


Lemma recover_rows_step n k j items :
  recover_rows env s n ((k, j) :: items) =
  ((k, (recover_row env s n j).1.1) :: (recover_rows env s (recover_row env s n j).1.2 items).1,
   if (recover_row env s n j).2
   then k :: (recover_rows env s (recover_row env s n j).1.2 items).2
   else (recover_rows env s (recover_row env s n j).1.2 items).2).
Proof. simpl. destruct (recover_row env s n j) as [[u n'] o]. simpl. by destruct (recover_rows env s n' items). Qed.

Lemma recover_row_sequence n j :
  (n ≤ (recover_row env s n j).1.2)%Z.
Proof. unfold recover_row. repeat case_match; simpl; lia. Qed.

Lemma recover_rows_keys n items : dkeys (recover_rows env s n items).1 = dkeys items.
Proof.
  revert n. induction items as [|[k j] items IH]; intros n; [done|].
  rewrite recover_rows_step. unfold dkeys in *. csimpl. by rewrite IH.
Qed.

(** Each row is recovered with a counter no smaller than the initial one. *)
Lemma recover_rows_lookup n items k :
  match dget items k with
  | Some j => ∃ n', (n ≤ n')%Z ∧
      dget (recover_rows env s n items).1 k = Some (recover_row env s n' j).1.1
  | None => dget (recover_rows env s n items).1 k = None
  end.
Proof.
  revert n. induction items as [|[k0 j0] items IH]; intros n; [done|].
  rewrite recover_rows_step. simpl. case_decide as Hk; [by exists n|].
  specialize (IH (recover_row env s n j0).1.2). pose proof (recover_row_sequence n j0).
  destruct (dget items k); [|done]. destruct IH as (n' & Hn & E). exists n'. split; [lia|done].
Qed.

Lemma recover_row_evolves mx n j :
  wf_job j → (mx ≤ n)%Z → evolves mx j (recover_row env s n j).1.1.
Proof.
  intros Hj Hn. unfold recover_row. case_match; [case_match|case_match]; simpl.
  - apply orphaned_row_evolves; [done..|]. left. split; [done|lia].
  - apply orphaned_row_evolves; [done..|]. by right.
  - by apply renew_evolves.
  - by apply evolves_refl.
Qed.

(** Numbers above [m] after the loop were issued by it. *)
Lemma recover_row_number m n j :
  (delivery_sequence j ≤ m)%Z →
  (delivery_sequence (recover_row env s n j).1.1 ≤ m)%Z ∨
  delivery_sequence (recover_row env s n j).1.1 = (n + 1)%Z ∧
  (recover_row env s n j).1.2 = (n + 1)%Z.
Proof. intros Hm. unfold recover_row. repeat case_match; cbn; auto. Qed.

Lemma recover_rows_number m n items k j' :
  (∀ k j, dget items k = Some j → delivery_sequence j ≤ m)%Z →
  dget (recover_rows env s n items).1 k = Some j' →
  (delivery_sequence j' ≤ m ∨ n < delivery_sequence j')%Z.
Proof.
  intros Hm Hj'. pose proof (recover_rows_lookup n items k) as Hk.
  destruct (dget items k) as [j|] eqn:Hj; [|congruence].
  destruct Hk as (n' & Hn & E). simplify_eq.
  destruct (recover_row_number m n' j (Hm _ _ Hj)) as [?|[-> _]]; lia.
Qed.

(** The loop never issues a number twice. *)
Lemma recover_rows_distinct m n items k k' j j' :
  wf_dict items → (∀ k j, dget items k = Some j → delivery_sequence j ≤ m)%Z → (m ≤ n)%Z →
  dget (recover_rows env s n items).1 k = Some j →
  dget (recover_rows env s n items).1 k' = Some j' →
  (m < delivery_sequence j)%Z → delivery_sequence j = delivery_sequence j' → k = k'.
Proof.
  revert n. induction items as [|[k0 j0] items IH]; intros n Hd Hm Hn; [done|].
  rewrite recover_rows_step. cbn.
  assert (∀ k j, dget items k = Some j → delivery_sequence j ≤ m)%Z as Hm'.
  { intros k1 j1 Hj1. apply (Hm k1). cbn. case_decide; [subst|done].
    apply NoDup_cons in Hd as [Hk0 _]. exfalso. apply Hk0, elem_of_dkeys. eauto. }
  assert (delivery_sequence j0 ≤ m)%Z as Hm0 by (apply (Hm k0); cbn; by rewrite decide_True).
  pose proof (recover_row_sequence n j0) as Hn'.
  pose proof (recover_row_number m n j0 Hm0) as H0.
  assert (∀ k1 j1, dget (recover_rows env s (recover_row env s n j0).1.2 items).1 k1 = Some j1 →
    (m < delivery_sequence j1)%Z →
    delivery_sequence j1 ≠ delivery_sequence (recover_row env s n j0).1.1) as Hne.
  { intros k1 j1 Hj1 Hq. pose proof (recover_rows_number m _ _ _ _ Hm' Hj1). lia. }
  do 2 case_decide; subst; try done; intros Hj Hj' Hq E; simplify_eq.
  - exfalso. eapply Hne; [exact Hj'|lia|done].
  - exfalso. by eapply Hne.
  - eapply (IH (recover_row env s n j0).1.2); try done; [|lia].
    by apply NoDup_cons in Hd as [_ ?].
Qed.

Lemma recover_row_state o n k j :
  delivery_state (recover_row env s n j).1.1 = delivery_state j ∨
  may_enter o k j (delivery_state (recover_row env s n j).1.1).
Proof. unfold recover_row. repeat case_match; first [by left|by right]. Qed.

Lemma recovered_candidate o :
  candidate_ok o s (recover_rows env s (_delivery_sequence s) (_jobs s)).1.
Proof using Hwf.
  set (rows := (recover_rows env s (_delivery_sequence s) (_jobs s)).1).
  assert (∀ k, match dget (_jobs s) k with
    | Some j => ∃ j', dget rows k = Some j' ∧ row_change s o k (Some j) (Some j')
    | None => dget rows k = None
    end) as Hrow.
  { intros k. pose proof (recover_rows_lookup (_delivery_sequence s) (_jobs s) k) as Hk.
    destruct (dget (_jobs s) k) as [j|] eqn:Hj; [|done]. destruct Hk as (n & Hn & E).
    eexists. split; [exact E|]. split; [|apply recover_row_state].
    apply recover_row_evolves; [by eapply rw_rows|done]. }
  split.
  - unfold wf_dict, rows. rewrite recover_rows_keys. apply Hwf.
  - intros k j' Hj'. specialize (Hrow k). destruct (dget (_jobs s) k) as [j|] eqn:Hj; [|congruence].
    destruct Hrow as (j1 & E & Hev & _). simplify_eq.
    rewrite (evolves_id _ _ _ Hev). split; [by eapply rw_rows|by eapply ev_wf].
  - intros k. specialize (Hrow k).
    destruct (dget (_jobs s) k) as [j|]; [by destruct Hrow as (j1 & -> & ?)|by rewrite Hrow].
  - intros k k' j j' Hj Hj' _ _. eapply recover_rows_distinct; try done; [apply Hwf|].
    intros k1 j1. by apply sequence_bound.
Qed.

Lemma recover_effect o :
  wp (recover_after_restart env) (λ _, effect o s) (refused o s) s.
Proof using Hwf.
  unfold recover_after_restart. op_go.
  all: wp_safe; try by eapply wp_ret.
  apply wp_commit_candidate; [|done]. pose proof (recovered_candidate o) as Hc.
  match goal with E : recover_rows _ _ _ _ = _ |- _ => by rewrite E in Hc end.
Qed.
End recovery.
