(* ===== verification/JobEffects.v ===== *)
(** * The effect of each registry operation

    One lemma per operation of [JobRegistry]: run on a well-formed registry it
    either raises and changes nothing (or completes its commit under a
    cancellation), or commits one legal step.  [run_effect] puts them together:
    it is the refinement of the registry by the step relation of
    [JobInvariants]. *)

From S2P Require Import Prelude PyDict Json SpeakerProvenance JobTypes JobRegistry JobLifecycle.
From S2P Require Import JobInvariants JobRecovery.

Section effects.
Context (env : Env) (s : JobRegistry) (Hwf : registry_wf s).

Lemma row_wf k j : dget (_jobs s) k = Some j → id_ j = k ∧ wf_job j.
Proof. by apply Hwf. Qed.

Lemma row_lookup k j : dget (_jobs s) k = Some j → dget (_jobs s) (id_ j) = Some j.
Proof. intros H. by destruct (row_wf _ _ H) as [-> _]. Qed.

(** The delivery states no operation owns. *)
Definition unowned (d : DeliveryState) : bool :=
  match d with Dlv.NONE | Dlv.READY | Dlv.CANCELLED | Dlv.EXPIRED => true | _ => false end.

Lemma unowned_enter o k j d : unowned d = true → may_enter o k j d.
Proof. by destruct d. Qed.

Lemma cancelled_unowned j : unowned (cancelled_delivery j) = true.
Proof. unfold cancelled_delivery. by case_match. Qed.

Lemma terminal_unowned j : unowned (_terminal_delivery s j).1 = true.
Proof. unfold _terminal_delivery. by destruct (routed j). Qed.

Lemma succeeded_unowned j r x : unowned (delivery_state (succeeded_row env s j r x)) = true.
Proof.
  pose proof (terminal_unowned j) as H. unfold succeeded_row.
  by destruct (_terminal_delivery s j).
Qed.

(** The side condition on the delivery state of a written row. *)
Ltac entered :=
  first [ by left
        | right; apply unowned_enter; done
        | right; apply unowned_enter; by repeat case_match
        | right; eexists; split_and!; done ].

(** A commit that rewrites the row [j]: what is left is that the row evolves. *)
Ltac persist_row :=
  wp_safe; eapply wp_persist; [done|try done|done| |entered].

Abbreviation safe o m := (wp m (λ _, effect o s) (refused o s) s).
Hint Extern 1 (wf_job _) => eapply row_wf : core.

Lemma claim_effect job_id a : safe (OClaim job_id a) (claim env job_id a).
Proof. unfold claim. op_go. persist_row. by apply claim_evolves; eauto. Qed.

Lemma renew_effect o job_id a : safe o (renew env job_id a).
Proof.
  unfold renew, attempt_in. op_go. persist_row. by apply renew_evolves; eauto.
Qed.

Lemma authorize_effect job_id a : safe (OAuthorize job_id a) (authorize env job_id a).
Proof. unfold authorize. op_go. persist_row. by apply authorize_evolves; eauto. Qed.

Lemma mark_playing_effect job_id a : safe (OPlaying job_id a) (mark_playing env job_id a).
Proof. unfold mark_playing. op_go. persist_row. by apply playing_evolves; eauto. Qed.

Lemma delivery_not_live j k :
  dget (_jobs s) k = Some j → delivery_state j ≠ Dlv.NONE →
  live_execution (execution_state j) = false.
Proof.
  intros Hj Hd. destruct (row_wf _ _ Hj) as [_ [H _]].
  destruct (live_execution _); [|done]. by destruct (H eq_refl).
Qed.

(** An obligated row loses its obligation, or its attempt. *)
Lemma clear_effect k j d :
  dget (_jobs s) k = Some j → obligated (delivery_state j) = true →
  dlv_edge (delivery_state j) d → _LEASED_DELIVERY d = false →
  evolves (_delivery_sequence s) j (clear_attempt (j <| delivery_state := d |>)).
Proof.
  intros Hj Ho He Hd. destruct (row_wf _ _ Hj).
  apply cleared_evolves; try done. eapply delivery_not_live; [done|]. intros E. by rewrite E in Ho.
Qed.

Lemma mark_delivered_effect job_id a : safe (ODelivered job_id a) (mark_delivered env job_id a).
Proof.
  unfold mark_delivered, attempt_in. op_go. persist_row.
  eapply clear_effect; [done| |by constructor|done]. by destruct (delivery_state j).
Qed.

Lemma nack_effect o job_id a r : safe o (nack env job_id a r).
Proof.
  unfold nack, attempt_in. op_go. persist_row.
  destruct (delivery_state j) eqn:E; try done; eapply clear_effect; rewrite ?E; try done;
    destruct (_ && bool_decide (r = _)); by constructor.
Qed.

Lemma bind_task_effect o job_id t p e : safe o (bind_task env job_id t p e).
Proof.
  unfold bind_task. op_go.
  wp_safe; eapply wp_commit_row; [done|done|done| |entered].
  apply bind_evolves; eauto.
Qed.

Lemma _task_done_effect o job_id t : safe o (_task_done job_id t).
Proof. apply wp_modify. left. destruct s. by destruct (owns_task _ _ _). Qed.

Lemma cancel_after_grace_effect o timer t : safe o (cancel_after_grace timer t).
Proof. apply wp_modify. left. by destruct s. Qed.

Lemma wait_for_terminal_effect o job_id f : safe o (wait_for_terminal job_id f).
Proof. unfold wait_for_terminal. op_go. Qed.

Lemma mark_handoff_pending_effect o job_id h : safe o (mark_handoff_pending env job_id h).
Proof.
  unfold mark_handoff_pending. op_go. persist_row. apply handoff_evolves; eauto.
Qed.

Lemma acknowledge_handoff_effect o job_id h : safe o (acknowledge_handoff env job_id h).
Proof.
  unfold acknowledge_handoff. op_go. persist_row. apply handoff_received_evolves; eauto.
Qed.

Lemma ack_orphan_effect o job_id : safe o (ack_orphan_notification env job_id).
Proof. unfold ack_orphan_notification. op_go. persist_row. apply notified_evolves; eauto. Qed.

(** The three ends of a live execution, shared by their strict and idempotent
    forms. *)
Lemma finish_current_effect o k j r :
  dget (_jobs s) k = Some j → live_execution (execution_state j) = true →
  safe o (_finish_current_locked env j r).
Proof.
  intros Hj Hl. unfold _finish_current_locked. op_go.
  wp_safe; eapply wp_persist; [done|done|exact Hj|..]; case_match.
  - apply cancelled_row_evolves; eauto.
  - apply succeeded_row_evolves; eauto.
  - right. apply unowned_enter, cancelled_unowned.
  - right. apply unowned_enter, succeeded_unowned.
Qed.

Lemma finish_voice_current_effect o k j r aw ttl :
  dget (_jobs s) k = Some j → live_execution (execution_state j) = true →
  safe o (_finish_voice_result_current_locked env j r aw ttl).
Proof.
  intros Hj Hl. unfold _finish_voice_result_current_locked. op_go.
  wp_safe; eapply wp_persist; [done|done|exact Hj|..]; case_match.
  - apply cancelled_voice_evolves; eauto.
  - apply succeeded_voice_evolves; eauto.
  - right. apply unowned_enter, cancelled_unowned.
  - right. apply unowned_enter, succeeded_unowned.
Qed.

Lemma fail_current_effect o k j f :
  dget (_jobs s) k = Some j → live_execution (execution_state j) = true →
  safe o (_fail_current_locked env j f).
Proof.
  intros Hj Hl. pose proof (terminal_delivery_spec s j) as Ht.
  pose proof (terminal_unowned j) as Hu.
  assert (cancelled_delivery j = Dlv.NONE) as Hc
    by (unfold cancelled_delivery; rewrite (live_delivery j); eauto).
  unfold _fail_current_locked. rewrite Hc. op_go.
  wp_safe; eapply wp_persist; [done|done|exact Hj|..].
  - apply failed_row_evolves; eauto; repeat case_match; simplify_eq; eauto.
  - right. apply unowned_enter. cbn. repeat case_match; simplify_eq; eauto.
Qed.

Lemma finish_effect o job_id r : safe o (finish env job_id r).
Proof. unfold finish, _require_live_execution. op_go. by eapply finish_current_effect. Qed.

Lemma finish_voice_result_effect o job_id r aw ttl : safe o (finish_voice_result env job_id r aw ttl).
Proof.
  unfold finish_voice_result, _require_live_execution. op_go.
  by eapply finish_voice_current_effect.
Qed.

Lemma fail_effect o job_id f : safe o (fail env job_id f).
Proof. unfold fail, _require_live_execution. op_go. by eapply fail_current_effect. Qed.

Lemma finish_compat_effect o job_id r : safe o (finish_compat env job_id r).
Proof.
  unfold finish_compat. op_go.
  wp_safe. by eapply finish_current_effect.
Qed.

Lemma fail_compat_effect o job_id f : safe o (fail_compat env job_id f).
Proof.
  unfold fail_compat. op_go.
  wp_safe. by eapply fail_current_effect.
Qed.

Lemma cancel_effect o job_id : safe o (cancel env job_id).
Proof.
  unfold cancel. op_go. wp_safe. eapply wp_persist; [done|done|done|..].
  - apply cancelled_row_evolves; eauto.
    match goal with H : _TERMINAL_EXECUTION _ = false |- _ => rewrite terminal_not_live in H end.
    by apply negb_false_iff.
  - right. apply unowned_enter, cancelled_unowned.
Qed.

(** A new row under a key that is not taken. *)
Lemma fresh_change o k j :
  dget (_jobs s) k = None → may_add s o k j → wf_job j →
  live_execution (execution_state j) = true ∨ (_delivery_sequence s < delivery_sequence j)%Z →
  row_change s o k (dget (_jobs s) k) (Some j).
Proof. by intros ->. Qed.

(** The capacity guard gives room on the route. *)
Lemma wp_require_capacity j mx (Q : unit → JobRegistry → Prop) R :
  (∀ e, R e s) → (room s mx j → Q tt s) → wp (_require_route_capacity j mx) Q R s.
Proof.
  intros HR HQ. unfold _require_route_capacity, room in *. op_go; auto.
  apply HQ. by apply Z.nle_gt.
Qed.

Lemma live_unobligated j :
  wf_job j → live_execution (execution_state j) = true → obligated (delivery_state j) = false.
Proof. intros Hj Hl. by rewrite (live_delivery j Hj Hl). Qed.

Lemma create_effect j mx : new_row j → safe (OCreate j mx) (create env j mx).
Proof.
  intros [Hj [Hl _]]. unfold create. op_go.
  apply wp_require_capacity; [by left|]. intros Hroom. op_go. commit_table.
  apply candidate_dset; auto using candidate_refl. by apply fresh_change; auto.
Qed.

Lemma available_parent p :
  available env p = true → is_Some (result p) ∧ execution_state p = Exec.SUCCEEDED.
Proof. unfold available. intros ?. by clean_guards. Qed.

Lemma continuable_some p : continuable_now env p = true → is_Some (continuable_until p).
Proof. unfold continuable_now. destruct (continuable_until p); [eauto|done]. Qed.

(** Arming or disarming the clarification of a parent. *)
Lemma awaiting_candidate o k p b :
  dget (_jobs s) k = Some p → execution_state p = Exec.SUCCEEDED → is_Some (continuable_until p) →
  row_change s o k (Some p) (Some (p <| awaiting_input := b |>)).
Proof. intros Hp He Hc. split; [apply awaiting_evolves; eauto|by left]. Qed.

Lemma create_continuation_effect p c actor mx :
  new_row c → safe (OContinuation p c actor mx) (create_continuation env p c actor mx).
Proof.
  intros [Hc [Hl _]]. unfold create_continuation, _authorize_actor. op_go.
  apply wp_require_capacity; [by left|]. intros Hroom. op_go. commit_table.
  match goal with H : dget _ p = Some _ |- _ => rename H into Hp end.
  assert (row_change s (OContinuation p c actor mx) p (Some j) (Some (j <| awaiting_input := false |>)))
    as Hch by (apply awaiting_candidate; [done|by apply available_parent|by apply continuable_some]).
  destruct (row_wf p j Hp) as [Hid _].
  apply candidate_dset; auto using live_unobligated.
  - apply candidate_dset; auto using candidate_refl; [|by rewrite Hp].
    destruct Hch as [Hev _]. by eapply ev_wf.
  - by apply fresh_change; auto.
Qed.

Lemma compensate_effect p c actor :
  safe (OCompensate p c actor) (compensate_unbound_continuation env p c actor).
Proof.
  unfold compensate_unbound_continuation, _authorize_actor. op_go. commit_table.
  assert (candidate_ok (OCompensate p c actor) s (ddel (_jobs s) c)) as Hdel.
  { apply candidate_ddel; [by apply candidate_refl|].
    match goal with H : dget _ c = Some _ |- _ => rewrite H end. split; eauto. }
  case_match; clean_guards; [|done].
  match goal with H : dget _ p = Some j |- _ => rename H into Hp end.
  assert (row_change s (OCompensate p c actor) p (Some j) (Some (j <| awaiting_input := true |>)))
    as Hch by (apply awaiting_candidate; [done|by apply available_parent|by apply continuable_some]).
  destruct (row_wf p j Hp) as [Hid _].
  apply candidate_dset; auto.
  - destruct Hch as [Hev _]. by eapply ev_wf.
  - by rewrite Hp.
  - do 2 right. exact (sequence_bound _ _ _ Hwf Hp).
Qed.

(** The row a re-listening request creates, when its parent is available. *)
Lemma prompted_wf p c q :
  wf_job p → available env p = true → new_row c →
  wf_job ((_inherit_delivery_modality p c)
    <| started_at := Some (now env) |> <| terminal_at := Some (now env) |>
    <| expires_at := expires_at p |> <| execution_state := Exec.SUCCEEDED |>
    <| delivery_state := Dlv.READY |> <| result := result p |>
    <| delivery_sequence := q |> <| prompted_delivery := true |>).
Proof.
  intros Hp [Hr He]%available_parent [Hc [Hl Hcp]].
  assert (is_Some (expires_at p)) as Hx.
  { destruct Hp as (_ & Hp & _). rewrite He in Hp. by apply Hp. }
  assert (∀ m, wf_job (c <| delivery_modality := m |> <| started_at := Some (now env) |>
    <| terminal_at := Some (now env) |>
    <| expires_at := expires_at p |> <| execution_state := Exec.SUCCEEDED |>
    <| delivery_state := Dlv.READY |> <| result := result p |>
    <| delivery_sequence := q |> <| prompted_delivery := true |>)) as H.
  { intros m. clear Hp. expose_row c. destruct_and?.
    match goal with H : live_execution _ = true → _ ∧ _ |- _ => destruct (H Hl) as (-> & _ & _ & _ & ->) end.
    subst. cbn in *. row_facts. }
  unfold _inherit_delivery_modality. repeat case_match.
  all: first [apply H | specialize (H (delivery_modality c)); by destruct c].
Qed.

Lemma inherit_modality_same p c :
  id_ (_inherit_delivery_modality p c) = id_ c ∧
  origin_route_id (_inherit_delivery_modality p c) = origin_route_id c.
Proof. unfold _inherit_delivery_modality. by repeat case_match. Qed.

Lemma create_prompted_effect p c actor mx :
  new_row c → safe (OPrompted p c actor mx) (create_prompted_delivery env p c actor mx).
Proof.
  intros Hc. unfold create_prompted_delivery, _authorize_actor. op_go.
  apply wp_require_capacity; [by left|]. intros Hroom. op_go. commit_table.
  destruct (inherit_modality_same j c) as [Hid Hroute].
  apply candidate_dset; [done|by apply candidate_refl|done|apply prompted_wf; eauto| |by left].
  apply fresh_change; [by rewrite <-Hid in *|done|apply prompted_wf; eauto|].
  right; apply Z.lt_succ_diag_r.
Qed.

Lemma publish_cancel_core event t job_id s' :
  core (let s := match event : option nat with
                 | Some e => s' <| loop ::= λ l, l <| events_set ::= λ es, es ++ [e] |> |>
                 | None => s'
                 end in
        match t : option nat with
        | Some x => if bool_decide (x ∈ done_tasks (loop s)) then s else _arm_force_cancel job_id s
        | None => s
        end) = core s'.
Proof. unfold _arm_force_cancel. destruct event, t; simpl; repeat case_match; done. Qed.

Lemma request_cancel_effect o job_id actor : safe o (request_cancel env job_id actor).
Proof.
  unfold request_cancel, _authorize_actor. op_go.
  all: wp_safe; eapply wp_persist; [done|intros ?; apply publish_cancel_core|done| |entered].
  all: first [apply flag_evolves; eauto | eapply clear_effect; rewrite ?Heqd; try done].
  all: by constructor.
Qed.

Lemma sweep_effect o due upd :
  (∀ k j, dget (_jobs s) k = Some j → due j = true →
     evolves (_delivery_sequence s) j (upd j) ∧ unowned (delivery_state (upd j)) = true ∧
     delivery_sequence (upd j) = delivery_sequence j) →
  safe o (sweep env due upd).
Proof.
  intros Hdue. unfold sweep. op_go.
  commit_table. apply candidate_dmap; [done|]. intros k j Hj. destruct (due j) eqn:E.
  - destruct (Hdue k j Hj E) as (Hev & Hu & Hq). split_and!; [|done].
    split; [done|right]. by apply unowned_enter.
  - split; [|done]. split; [|by left]. apply evolves_refl. eauto.
Qed.

Lemma expire_due_effect o : safe o (expire_due env).
Proof.
  apply sweep_effect. intros k j Hj Hdue. unfold ttl_lapsed in Hdue. clean_guards.
  split_and!; [|done..].
  assert (live_execution (execution_state j) = false) as Hl.
  { destruct (row_wf _ _ Hj) as [_ [Hlive _]]. destruct (live_execution _); [|done].
    destruct (Hlive eq_refl) as (_ & E & _). by rewrite E in *. }
  apply cleared_evolves; try done; [by eauto|]. constructor.
  by destruct (delivery_state j).
Qed.

Lemma expire_leases_effect o : safe o (expire_leases env).
Proof.
  apply sweep_effect. intros k j Hj Hdue. unfold lease_lapsed, authorized_and_pending in *.
  clean_guards. split_and!; [|by destruct (bool_decide _ && cancel_pending j)|done].
  destruct (delivery_state j) eqn:E; try done; eapply clear_effect; rewrite ?E; try done;
    destruct (cancel_pending j); cbn; by constructor.
Qed.
End effects.

(** Every operation, on a well-formed registry: it publishes a legal step that
    is on disk, or changes nothing durable. *)
Lemma run_effect env o s :
  registry_wf s → op_ok o → wp (run env o) (λ _, effect o s) (refused o s) s.
Proof.
  intros Hwf Hok.
  assert (∀ A (m : M A) o, wp m (λ _, effect o s) (refused o s) s →
            wp (void m) (λ _, effect o s) (refused o s) s) as Hvoid.
  { intros A m o' Hm. by apply wp_bind. }
  destruct o; cbn [run op_ok] in *; try apply Hvoid.
  all: eauto using create_effect, create_continuation_effect, compensate_effect,
    create_prompted_effect, bind_task_effect, _task_done_effect, cancel_after_grace_effect,
    wait_for_terminal_effect, mark_handoff_pending_effect, acknowledge_handoff_effect,
    finish_effect, finish_voice_result_effect, fail_effect, finish_compat_effect,
    fail_compat_effect, request_cancel_effect, cancel_effect, claim_effect, renew_effect,
    authorize_effect, mark_playing_effect, mark_delivered_effect, nack_effect,
    expire_due_effect, expire_leases_effect, recover_effect, ack_orphan_effect.
Qed.
