(* ===== verification/JobSnapshot.v ===== *)
(** * The snapshot of the job registry

    What a restart reads back.  The file holds the rows in the order of
    [_write_snapshot_locked]; decoding it gives every row field for field, so a
    loaded registry holds the same jobs under the same keys, and a file that is
    not a snapshot is refused without touching the registry. *)

From S2P Require Import Prelude PyDict Json SpeakerProvenance JobTypes JobRegistry JobLifecycle.
From S2P Require Import JobInvariants.

Section decode.
Context `{PyText}.

Lemma optional_str_json o : _optional_str (json_of_opt_str o) = o.
Proof. by destruct o. Qed.

Lemma optional_float_json o : _optional_float (json_of_opt_float o) = Ok o.
Proof. by destruct o. Qed.

(** One row, field for field. *)
Lemma decode_encoded_job job raw :
  _encode_job job = Ok raw → _decode_job raw = Ok job.
Proof.
  unfold _encode_job. intros E. apply outcome_bind_ok in E as (c & Hc & E).
  apply outcome_bind_ok in E as (x & Hx & [= <-]).
  apply decode_mapping in Hc as [[crow ->] Hc], Hx as [[xrow ->] Hx].
  unfold _decode_job, decode_failure, decode_fields, _decode_speaker. row_lookups.
  rewrite Hc, Hx, !optional_float_json, !optional_str_json.
  cbv beta iota zeta delta [mbind outcome_bind].
  rewrite Exec.execution_of_value, Dlv.delivery_of_value, Hand.handoff_of_value.
  destruct job as [? ? ? ? ? ? ? ? ? ? ? ? ? ? ? ? ? ? ? ? ? [[]|]]; reflexivity.
Qed.

(** A table of rows under their own ids, in a given order. *)
Definition by_id (l : list VoiceJob) : list (string * VoiceJob) := (λ j, (id_ j, j)) <$> l.

Lemma decode_rows_encoded l raws jobs :
  map_outcome _encode_job l = Ok raws → NoDup (dkeys jobs ++ (id_ <$> l)) →
  decode_rows raws jobs = Ok (jobs ++ by_id l).
Proof.
  revert raws jobs. induction l as [|j l IH]; cbn [map_outcome]; intros raws jobs E Hd.
  { injection E as <-. by rewrite app_nil_r. }
  apply outcome_bind_ok in E as (raw & Hraw & E).
  apply outcome_bind_ok in E as (raws' & Hraws & [= <-]). cbn [decode_rows].
  rewrite (decode_encoded_job _ _ Hraw). cbn [mbind outcome_bind].
  csimpl in Hd. rewrite <-Permutation_middle in Hd. apply NoDup_cons in Hd as [Hj Hd].
  assert (dget jobs (id_ j) = None) as Hn.
  { apply dget_None. intros Hin. apply Hj. apply elem_of_app. by left. }
  rewrite (proj2 (dhas_false jobs (id_ j)) Hn), dset_new by done. cbn [mbind outcome_bind fail_when].
  rewrite (IH raws'); [by rewrite <-app_assoc|done|].
  unfold dkeys. rewrite fmap_app, <-app_assoc. csimpl. rewrite <-Permutation_middle.
  by apply NoDup_cons.
Qed.
End decode.

(** ** The table a snapshot holds *)

Definition keyed (jobs : list (string * VoiceJob)) : Prop :=
  wf_dict jobs ∧ ∀ k j, dget jobs k = Some j → id_ j = k.

Lemma sorted_jobs_permutation jobs : sorted_jobs jobs ≡ₚ dvals jobs.
Proof. apply merge_sort_Permutation. Qed.

Lemma by_id_sorted jobs : keyed jobs → by_id (sorted_jobs jobs) ≡ₚ jobs.
Proof.
  intros [Hd Hk]. unfold by_id. rewrite sorted_jobs_permutation. unfold dvals.
  rewrite <-list_fmap_compose.
  assert (∀ p, p ∈ jobs → id_ p.2 = p.1) as Hp by (intros [k j] Hin; by apply Hk, elem_dget).
  clear Hd Hk. induction jobs as [|[k j] jobs IH]; csimpl; [done|].
  assert (id_ j = k) as -> by (apply (Hp (k, j)); left).
  constructor. apply IH. intros p Hin. apply Hp. by right.
Qed.

Lemma keyed_ids jobs : keyed jobs → NoDup (id_ <$> sorted_jobs jobs).
Proof.
  intros Hk. pose proof (by_id_sorted jobs Hk) as Hp. destruct Hk as [Hd _].
  unfold wf_dict, dkeys in Hd. rewrite <-Hp in Hd. unfold by_id in Hd.
  by rewrite <-list_fmap_compose in Hd.
Qed.

(** Rows with distinct ids are sorted one way only. *)
Lemma sorted_jobs_unique jobs jobs' :
  keyed jobs → dvals jobs ≡ₚ dvals jobs' → sorted_jobs jobs = sorted_jobs jobs'.
Proof.
  intros Hk Hp.
  assert (sorted_jobs jobs ≡ₚ sorted_jobs jobs') as Hs by by rewrite !sorted_jobs_permutation.
  apply (Sorted_unique_strong job_le); [|apply Sorted_merge_sort, _..|done].
  intros x y Hx Hy Hxy Hyx. rewrite <-Hs in Hy.
  assert (id_ x = id_ y) as E.
  { unfold job_le in *. destruct Hxy as [?|[? [?|[? Hl]]]], Hyx as [?|[? [?|[? Hr]]]]; try lia.
    by apply (anti_symm String.le). }
  pose proof (keyed_ids jobs Hk) as Hn.
  apply list_elem_of_lookup in Hx as [i Hi], Hy as [i' Hi'].
  assert (i = i') as ->.
  { eapply (NoDup_lookup (id_ <$> sorted_jobs jobs)); [done|..]; rewrite list_lookup_fmap.
    - rewrite Hi. done.
    - rewrite Hi'. simpl. by rewrite E. }
  congruence.
Qed.

(** ** Rows that can be written *)

Definition encodable (j : VoiceJob) : Prop := ∃ v, _encode_job j = Ok v.

Lemma encodable_speakers j j' :
  creating_speaker j' = creating_speaker j → executing_speaker j' = executing_speaker j →
  encodable j → encodable j'.
Proof.
  unfold encodable, _encode_job. intros -> -> [v E].
  apply outcome_bind_ok in E as (c & -> & E). apply outcome_bind_ok in E as (x & -> & _).
  eexists. reflexivity.
Qed.

Lemma map_outcome_ok {A B} (f : A → outcome B) l :
  (∃ ys, map_outcome f l = Ok ys) ↔ ∀ x, x ∈ l → ∃ y, f x = Ok y.
Proof.
  induction l as [|x l IH]; cbn.
  - split; [by intros _ x ?%not_elem_of_nil|by exists []].
  - split.
    + intros [ys E]. apply outcome_bind_ok in E as (y & Hy & E).
      apply outcome_bind_ok in E as (ys' & Hys & _).
      intros x' [->|Hin]%elem_of_cons; [by exists y|]. apply (proj1 IH); [by exists ys'|done].
    + intros Hall. destruct (Hall x ltac:(left)) as [y ->].
      destruct (proj2 IH) as [ys ->]; [|by eexists]. intros x' Hin. apply Hall. by right.
Qed.

Lemma snapshot_ok jobs :
  wf_dict jobs →
  (∃ v, snapshot_of jobs = Ok v) ↔ ∀ k j, dget jobs k = Some j → encodable j.
Proof.
  intros Hd. assert (∀ j, j ∈ sorted_jobs jobs ↔ ∃ k, dget jobs k = Some j) as Hin.
  { intros j. rewrite <-elem_of_dvals by done. unfold sorted_jobs. by rewrite merge_sort_Permutation. }
  pose proof (map_outcome_ok _encode_job (sorted_jobs jobs)) as Hm. split.
  - intros [v E]. apply outcome_bind_ok in E as (rows & Hrows & _). intros k j Hj.
    apply (proj1 Hm); [by exists rows|]. apply Hin. eauto.
  - intros Hall. destruct (proj2 Hm) as [rows E].
    { intros j [k Hj]%Hin. by eapply Hall. }
    unfold snapshot_of. rewrite E. by eexists.
Qed.

Lemma wf_encodable s k j : registry_wf s → dget (_jobs s) k = Some j → encodable j.
Proof.
  intros Hwf. destruct (rw_disk _ Hwf) as (v & Hv & _).
  apply (proj1 (snapshot_ok (_jobs s) (rw_dict _ Hwf))). eauto.
Qed.

(** An environment that lets a commit succeed and its caller see it. *)
Definition calm (env : Env) : Prop := write_ok env = true ∧ cancelled env = false.

Lemma commit_ok env jobs ap s v :
  calm env → snapshot_of jobs = Ok v →
  _commit_snapshot_locked env jobs ap s = (Ok tt, publish jobs ap (s <| disk := Holds v |>)).
Proof.
  intros [Hw Hc] Hv. cbv [_commit_snapshot_locked mbind pym_bind lift]. rewrite Hv.
  unfold raise_when. rewrite Hw, Hc. reflexivity.
Qed.

(** The table of [s'] is that of [s] with the row [j'] under [k]. *)
Definition writes (s : JobRegistry) (k : string) (j' : VoiceJob) (s' : JobRegistry) : Prop :=
  _loaded s' = _loaded s ∧
  ∀ k', dget (_jobs s') k' = if decide (k' = k) then Some j' else dget (_jobs s) k'.

(** Rewriting a present row in calm weather succeeds. *)
Lemma persist_ok env s k j j' ap :
  registry_wf s → calm env → runtime_only ap → dget (_jobs s) k = Some j →
  identity j' = identity j →
  ∃ s', _persist_job_locked env j' ap s = (Ok j', s') ∧ writes s k j' s' ∧
    ∃ v, s' = publish (_with_job s j') ap (s <| disk := Holds v |>).
Proof.
  intros Hwf Hcalm Hap Hj Hid. destruct (rw_rows _ Hwf _ _ Hj) as [<- _].
  assert (id_ j' = id_ j) as E by (unfold identity in Hid; congruence).
  assert (∃ v, snapshot_of (_with_job s j') = Ok v) as [v Hv].
  { apply snapshot_ok; [by apply wf_dset, Hwf|]. intros k0 j0. unfold _with_job.
    rewrite dget_dset. case_decide; [|by eapply wf_encodable]. intros [= <-].
    apply (encodable_speakers j); [unfold identity in Hid; congruence..|by eapply wf_encodable]. }
  exists (publish (_with_job s j') ap (s <| disk := Holds v |>)).
  pose proof (publish_core (_with_job s j') ap (s <| disk := Holds v |>) Hap) as Hc.
  apply core_eq in Hc as (E1 & _ & E3 & _). split_and!.
  - cbv [_persist_job_locked mbind pym_bind gets mret pym_ret].
    by rewrite (commit_ok _ _ _ _ v Hcalm Hv).
  - split; [by rewrite E3; destruct s|].
    intros k'. rewrite E1. unfold _with_job. by rewrite dget_dset, E.
  - by exists v.
Qed.

(** ** The highest sequence number *)

Lemma foldr_max_in (q : Z) qs : foldr Z.max q qs ∈ q :: qs.
Proof.
  induction qs as [|y qs IH]; simpl; [left|].
  destruct (Z.max_spec y (foldr Z.max q qs)) as [[_ ->]|[_ ->]]; set_solver.
Qed.

Lemma max_sequence_permutation jobs jobs' :
  dvals jobs ≡ₚ dvals jobs' → max_sequence jobs = max_sequence jobs'.
Proof.
  unfold max_sequence. intros Hp%(fmap_Permutation delivery_sequence).
  destruct (delivery_sequence <$> dvals jobs) as [|q qs] eqn:E.
  { apply Permutation_nil in Hp. by rewrite Hp. }
  destruct (delivery_sequence <$> dvals jobs') as [|q' qs'].
  { symmetry in Hp. by apply Permutation_nil in Hp. }
  pose proof (foldr_max_in q qs) as Hin. rewrite Hp in Hin.
  pose proof (foldr_max_in q' qs') as Hin'. rewrite <-Hp in Hin'.
  apply foldr_max_ge in Hin, Hin'. lia.
Qed.

(** ** What [load] reads *)

Section load.
Context `{PyText}.

Lemma decode_rows_keyed rows jobs jobs' :
  keyed jobs → decode_rows rows jobs = Ok jobs' → keyed jobs'.
Proof.
  revert jobs. induction rows as [|r rows IH]; cbn; intros jobs [Hd Hk] E; [by simplify_eq|].
  apply outcome_bind_ok in E as (j & _ & E). apply outcome_bind_ok in E as (u & Hu & E).
  eapply IH; [|done]. split; [by apply wf_dset|].
  intros k j0. rewrite dget_dset. case_decide; [|by apply Hk]. by intros [= <-].
Qed.

Lemma snapshot_decoded jobs v :
  keyed jobs → snapshot_of jobs = Ok v → _decode_snapshot v = Ok (by_id (sorted_jobs jobs)).
Proof.
  intros Hk E. apply outcome_bind_ok in E as (rows & Hrows & [= <-]). cbn.
  rewrite (decode_rows_encoded _ _ [] Hrows); [done|]. by apply keyed_ids.
Qed.

Lemma wf_keyed s : registry_wf s → keyed (_jobs s).
Proof. intros Hwf. split; [apply Hwf|]. intros k j Hj. by apply Hwf. Qed.

(** A fresh registry over the file of [s] loads the rows of [s]. *)
Lemma reload_state env s ttl s0 :
  registry_wf s → new_registry ttl (disk s) = Ok s0 →
  load env s0 =
    (Ok tt, s0 <| _jobs := by_id (sorted_jobs (_jobs s)) |>
               <| _delivery_sequence := max_sequence (by_id (sorted_jobs (_jobs s))) |>
               <| _loaded := true |>).
Proof.
  intros Hwf E. destruct (rw_disk _ Hwf) as (v & Hv & Hd). rewrite Hd in E.
  unfold new_registry in E. apply outcome_bind_ok in E as ([] & _ & [= <-]).
  unfold load, lift, mbind, pym_bind, get, modify. cbn [_loaded disk].
  by rewrite (snapshot_decoded _ _ (wf_keyed _ Hwf) Hv).
Qed.

Lemma reload_wf s s' :
  registry_wf s → _jobs s' = by_id (sorted_jobs (_jobs s)) →
  _delivery_sequence s' = max_sequence (_jobs s') → disk s' = disk s → registry_wf s'.
Proof.
  intros Hwf Hj Hq Hd. pose proof (by_id_sorted _ (wf_keyed _ Hwf)) as Hp.
  assert (∀ k, dget (_jobs s') k = dget (_jobs s) k) as Hget.
  { intros k. rewrite Hj. symmetry. apply dget_permutation; [apply Hwf|done]. }
  split.
  - rewrite Hj. unfold wf_dict, dkeys. rewrite Hp. apply Hwf.
  - intros k j. rewrite Hget. apply Hwf.
  - done.
  - destruct (rw_disk _ Hwf) as (v & Hv & E). exists v. split; [|congruence].
    unfold snapshot_of in *. erewrite <-sorted_jobs_unique; [done|by apply wf_keyed|].
    rewrite Hj. unfold dvals. by rewrite Hp.
Qed.

(** C10: nothing is lost by a restart.  When a registry that keeps its invariant
    is replaced by a fresh one over the same file, [load] succeeds, and the fresh
    registry holds the same row under every key, goes on with the same sequence
    counter, and keeps the invariant again. *)
Theorem reload_restores env s ttl s0 :
  registry_wf s → new_registry ttl (disk s) = Ok s0 →
  ∃ s', load env s0 = (Ok tt, s') ∧ _loaded s' = true ∧
    (∀ k, dget (_jobs s') k = dget (_jobs s) k) ∧
    _delivery_sequence s' = _delivery_sequence s ∧ registry_wf s'.
Proof.
  intros Hwf E. eexists. split; [by eapply reload_state|]. cbn.
  pose proof (by_id_sorted _ (wf_keyed _ Hwf)) as Hp. split_and!; [done|..].
  - intros k. symmetry. apply dget_permutation; [apply Hwf|done].
  - rewrite (rw_sequence _ Hwf). apply max_sequence_permutation. unfold dvals. by rewrite Hp.
  - apply (reload_wf s); [done..|]. unfold new_registry in E.
    by apply outcome_bind_ok in E as ([] & _ & [= <-]).
Qed.

Lemma load_safe env s :
  wp (load env)
    (λ _ s', s' = s ∨ keyed (_jobs s') ∧ _loaded s' = true ∧
                      _delivery_sequence s' = max_sequence (_jobs s'))
    (λ e s', s' = s ∨ e = CancelledError ∧ disk s = Absent ∧ disk s' = Holds (JList [])) s.
Proof.
  assert (keyed []) as Hnil by (split; [apply wf_nil|done]).
  unfold load. wp_go; auto; try (right; split_and!; done).
  - apply wp_lift; [|by left]. intros jobs Hjobs. wp_go. right. cbn.
    split_and!; try done. destruct v; try done. by eapply decode_rows_keyed.
Qed.

(** A file that is not a snapshot changes nothing.  Whatever the snapshot
    file holds, a [load] that raises leaves the registry as it was, unless it was
    cancelled after creating a missing file; and one that returns gives a table
    whose keys are distinct and are the ids of their rows. *)
Theorem load_refuses_or_keys env s s' o :
  load env s = (o, s') →
  match o with
  | Raise e => s' = s ∨ e = CancelledError ∧ disk s = Absent ∧ disk s' = Holds (JList [])
  | Ok _ => s' = s ∨ keyed (_jobs s') ∧ _loaded s' = true ∧
                     _delivery_sequence s' = max_sequence (_jobs s')
  end.
Proof.
  intros E. exact (wp_run _ _ _ _ (load_safe env s) _ _ E).
Qed.
End load.

(** ** Evaluation *)

Lemma sample_wf : registry_wf sample_registry.
Proof. split; [apply wf_nil|done|done|by exists (JList [])]. Qed.

Lemma reload_restores_witness :
  ∃ s0 s', @load no_text sample_env s0 = (Ok tt, s') ∧ _loaded s' = true.
Proof.
  eexists _.
  destruct (@reload_restores no_text sample_env sample_registry (seconds 900) _ sample_wf eq_refl)
    as (s' & E & Hl & _). exists s'. split; [exact E|exact Hl].
Defined.

Lemma load_refuses_or_keys_witness :
  ∃ s0, @load no_text sample_env s0 = (Raise JobRegistryError, s0).
Proof.
  pose (s0 := sample_registry <| _loaded := false |> <| disk := Holds (JStr "x") |>).
  exists s0. pose proof (@load_refuses_or_keys no_text sample_env s0 s0 (Raise JobRegistryError)) as H.
  destruct H as [_|[E _]]; [vm_compute; reflexivity|vm_compute; reflexivity|discriminate].
Defined.
