(* ===== verification/JobSafety.v ===== *)
(** * Safety of the job registry

    What holds of every registry the process can be in: [step] is one operation,
    with any environment and any outcome, or a restart from the file; [reachable]
    closes the empty registry under it.  The theorems are read off [run_effect],
    which refines each operation into one legal step of the abstract table. *)

From S2P Require Import Prelude PyDict Json SpeakerProvenance JobTypes JobRegistry JobLifecycle.
From S2P Require Import JobInvariants JobRecovery JobEffects JobSnapshot.

Section safety.
Context `{PyText}.

Inductive step : option op → JobRegistry → JobRegistry → Prop :=
  | step_op env o s r s' : op_ok o → run env o s = (r, s') → step (Some o) s s'
  | step_restart env ttl s s0 s' :
      new_registry ttl (disk s) = Ok s0 → load env s0 = (Ok tt, s') → step None s s'.

Definition initial (s : JobRegistry) : Prop :=
  ∃ env ttl s0, new_registry ttl Absent = Ok s0 ∧ load env s0 = (Ok tt, s).

Inductive reachable : JobRegistry → Prop :=
  | reach_initial s : initial s → reachable s
  | reach_step l s s' : reachable s → step l s s' → reachable s'.

(** ** Steps of the abstract table *)

Definition same_rows (s s' : JobRegistry) : Prop :=
  (∀ k, dget (_jobs s') k = dget (_jobs s) k) ∧ _delivery_sequence s' = _delivery_sequence s ∧
  _jobs s' ≡ₚ _jobs s.

Lemma core_wf s s' : core s' = core s → registry_wf s → registry_wf s'.
Proof.
  destruct s, s'. cbn. intros E Hwf. unfold core in E. cbn in E. simplify_eq.
  destruct Hwf. by split.
Qed.

Lemma core_same s s' : core s' = core s → same_rows s s'.
Proof. destruct s, s'. unfold core, same_rows. cbn. intros E. by simplify_eq. Qed.

Lemma initial_rows s : initial s → registry_wf s ∧ _jobs s = [].
Proof.
  intros (env & ttl & s0 & E & El). unfold new_registry in E.
  apply outcome_bind_ok in E as ([] & _ & [= <-]).
  assert (disk s = Holds (JList []) ∧ _jobs s = [] ∧ _delivery_sequence s = 0%Z) as (Hd & Hj & Hq).
  { revert El. cbv [load mbind pym_bind get raise_when raise mret pym_ret modify _loaded disk].
    destruct (write_ok env); [|done]. cbn. destruct (cancelled env); [done|]. by intros [= <-]. }
  split; [|done]. split; rewrite ?Hj, ?Hq; try done; [apply wf_nil|]. by exists (JList []).
Qed.

Lemma step_spec l s s' :
  registry_wf s → step l s s' →
  registry_wf s' ∧ (same_rows s s' ∨ ∃ o, l = Some o ∧ committed o s s').
Proof.
  intros Hwf Hst. destruct Hst as [env o t r t' Hok E|env ttl t s0 t' E El].
  - pose proof (wp_run _ _ _ _ (run_effect env o t Hwf Hok) _ _ E) as Hrun.
    assert (effect o t t') as [Hc|Hc].
    { destruct r; [done|]. destruct Hrun as [->|[_ Hc]]; [by left|by right]. }
    + split; [by eapply core_wf|]. left. by apply core_same.
    + split; [by apply co_wf in Hc|]. right. by exists o.
  - rewrite (reload_state env _ _ _ Hwf E) in El. injection El as <-. cbn.
    pose proof (by_id_sorted _ (wf_keyed _ Hwf)) as Hp.
    assert (registry_wf (s0 <| _jobs := by_id (sorted_jobs (_jobs t)) |>
      <| _delivery_sequence := max_sequence (by_id (sorted_jobs (_jobs t))) |>
      <| _loaded := true |>)).
    { apply (reload_wf t); [done..|]. unfold new_registry in E.
      by apply outcome_bind_ok in E as ([] & _ & [= <-]). }
    split; [done|]. left. split_and!; [|cbn|done].
    + intros k. symmetry. apply dget_permutation; [apply Hwf|done].
    + rewrite (rw_sequence _ Hwf). apply max_sequence_permutation. unfold dvals. by rewrite Hp.
Qed.

Lemma reachable_registry s : reachable s → registry_wf s.
Proof. induction 1 as [s Hs|l s s' _ IH Hst]; [by apply initial_rows|by eapply step_spec]. Qed.

(** C4: disk leads memory, and a failed write publishes nothing.  After any
    operation on a reachable registry the file holds exactly the snapshot of the
    published rows; and an operation that raises, for whatever reason other than
    the cancellation of its caller, leaves rows, sequence counter, runtime
    bookkeeping and file as they were. *)
Theorem disk_leads_memory env o s r s' :
  reachable s → op_ok o → run env o s = (r, s') →
  (∃ v, snapshot_of (_jobs s') = Ok v ∧ disk s' = Holds v) ∧
  ∀ e, r = Raise e → e ≠ CancelledError → s' = s.
Proof.
  intros Hs Hok E. pose proof (reachable_registry _ Hs) as Hwf. split.
  - apply (step_spec (Some o) s s' Hwf). by econstructor.
  - intros e -> He. pose proof (wp_run _ _ _ _ (run_effect env o s Hwf Hok) _ _ E) as Hrun.
    by destruct Hrun as [?|[? _]].
Qed.

(** The invariant of every reachable registry.  Keys are distinct and are
    the ids of their rows, every row is well formed (a deadline exactly when
    terminal, an attempt and a lease exactly while leased, cancellation pending
    only where it can still act), and the sequence counter is the highest number
    issued. *)
Theorem reachable_wf s :
  reachable s →
  wf_dict (_jobs s) ∧
  (∀ k j, dget (_jobs s) k = Some j → id_ j = k ∧ wf_job j) ∧
  _delivery_sequence s = max_sequence (_jobs s).
Proof. intros [? ? ? ?]%reachable_registry. done. Qed.

(** ** Lives of rows *)

Lemma step_row l s s' k j :
  registry_wf s → step l s s' → dget (_jobs s) k = Some j →
  match dget (_jobs s') k with
  | Some j' => evolves (_delivery_sequence s) j j' ∧
      (delivery_state j' = delivery_state j ∨
       ∃ o, l = Some o ∧ may_enter o k j (delivery_state j'))
  | None => execution_state j = Exec.ACCEPTED ∧ ∃ p a, l = Some (OCompensate p k a)
  end.
Proof.
  intros Hwf Hst Hj. destruct (step_spec _ _ _ Hwf Hst) as [_ [[Hsame _]|(o & -> & Hc)]].
  - rewrite Hsame, Hj. split; [|by left]. apply evolves_refl. by eapply rw_rows.
  - pose proof (co_rows _ _ _ Hc k) as Hk. rewrite Hj in Hk. unfold row_change in Hk.
    destruct (dget (_jobs s') k) as [j'|].
    + destruct Hk as [Hev [E|He]]; split; eauto.
    + destruct Hk as (? & p & a & ->). eauto.
Qed.

(** C12: rows only move forward.  One step of a reachable registry keeps what a
    job is for and moves its execution and its delivery along one edge of their
    machines or not at all; a row disappears only as an accepted continuation
    that is compensated. *)
Theorem rows_follow_edges l s s' k j :
  reachable s → step l s s' → dget (_jobs s) k = Some j →
  match dget (_jobs s') k with
  | Some j' =>
    identity j' = identity j ∧
    (execution_state j' = execution_state j ∨
     exec_edge (execution_state j) (execution_state j')) ∧
    (delivery_state j' = delivery_state j ∨ dlv_edge (delivery_state j) (delivery_state j'))
  | None => execution_state j = Exec.ACCEPTED ∧ ∃ p a, l = Some (OCompensate p k a)
  end.
Proof.
  intros Hs Hst Hj. pose proof (step_row _ _ _ _ _ (reachable_registry _ Hs) Hst Hj) as Hk.
  destruct (dget (_jobs s') k); [|done]. destruct Hk as [[] _]. done.
Qed.

Lemma terminal_no_edge e e' : _TERMINAL_EXECUTION e = true → ¬ exec_edge e e'.
Proof. intros He Hed. destruct Hed as [|a b Ha]; [done|]. by destruct a. Qed.

Lemma final_no_edge d d' : delivery_final d = true → ¬ dlv_edge d d'.
Proof. intros Hd He. destruct He as [| | | |a Ha|a Ha|a Ha|a Ha]; try done; by destruct a. Qed.

Definition some_step (s s' : JobRegistry) : Prop := ∃ l, step l s s'.

(** C18: terminal is for ever.  Whatever operations and restarts follow, a row in
    a terminal execution state is still there in that state, and once its
    delivery is delivered, cancelled or expired it stays so. *)
Theorem terminal_states_absorb s s' k j :
  reachable s → rtc some_step s s' → dget (_jobs s) k = Some j →
  _TERMINAL_EXECUTION (execution_state j) = true →
  ∃ j', dget (_jobs s') k = Some j' ∧ execution_state j' = execution_state j ∧
    (delivery_final (delivery_state j) = true → delivery_state j' = delivery_state j).
Proof.
  intros Hs Hst. revert j. induction Hst as [s|s t s' [l Hl] _ IH]; intros j Hj Ht; [by eauto|].
  pose proof (step_row _ _ _ _ _ (reachable_registry _ Hs) Hl Hj) as Hk.
  assert (reachable t) as Hreach by by econstructor.
  destruct (dget (_jobs t) k) as [j1|] eqn:Hj1; [|destruct Hk as [Hk _]; by rewrite Hk in Ht].
  destruct Hk as [Hev _].
  assert (execution_state j1 = execution_state j) as E1.
  { destruct (ev_exec _ _ _ Hev) as [?|Hed]; [done|]. by apply terminal_no_edge in Hed. }
  destruct (IH Hreach j1) as (j' & Hj' & E2 & Hd); [done|congruence|].
  exists j'. split_and!; [done|congruence|]. intros Hf.
  destruct (ev_dlv _ _ _ Hev) as [E|Hed]; [|by apply final_no_edge in Hed].
  rewrite <-E. apply Hd. congruence.
Qed.

(** C19: a delivery attempt is driven by its own operations.  When a step leaves
    a row claimed, authorized, playing or delivered and it was not so before,
    that step was the operation of that name on that job, with the attempt the
    row recorded; and a row whose creator asked for cancellation never starts to
    play. *)
Theorem delivery_entered_by_its_attempt l s s' k j j' :
  reachable s → step l s s' → dget (_jobs s) k = Some j → dget (_jobs s') k = Some j' →
  delivery_state j' ≠ delivery_state j →
  match delivery_state j' with
  | Dlv.CLAIMED => ∃ a, l = Some (OClaim k a) ∧ delivery_attempt_id j = None
  | Dlv.AUTHORIZED => ∃ a, l = Some (OAuthorize k a) ∧ delivery_attempt_id j = Some a
  | Dlv.PLAYING => ∃ a, l = Some (OPlaying k a) ∧ delivery_attempt_id j = Some a ∧
                        cancel_pending j = false
  | Dlv.DELIVERED => ∃ a, l = Some (ODelivered k a) ∧ delivery_attempt_id j = Some a
  | _ => True
  end.
Proof.
  intros Hs Hst Hj Hj' Hne.
  pose proof (step_row _ _ _ _ _ (reachable_registry _ Hs) Hst Hj) as Hk. rewrite Hj' in Hk.
  destruct Hk as [_ [?|(o & -> & He)]]; [done|].
  destruct (delivery_state j'); try done; cbn in He; naive_solver.
Qed.

(** ** Queues *)

Lemma same_rows_permuted s s' k j' :
  same_rows s s' → dget (_jobs s') k = Some j' → dget (_jobs s) k = Some j'.
Proof. intros [Hs _]. by rewrite Hs. Qed.

Definition distinct_queue (s : JobRegistry) : Prop :=
  ∀ k k' j j', dget (_jobs s) k = Some j → dget (_jobs s) k' = Some j' →
    obligated (delivery_state j) = true → obligated (delivery_state j') = true →
    delivery_sequence j = delivery_sequence j' → k = k'.

(** An obligated row either was obligated with the same number, or has a number
    above every earlier one. *)
Lemma obligated_origin o s s' k j' :
  registry_wf s → committed o s s' → dget (_jobs s') k = Some j' →
  obligated (delivery_state j') = true →
  (_delivery_sequence s < delivery_sequence j')%Z ∨
  ∃ j, dget (_jobs s) k = Some j ∧ obligated (delivery_state j) = true ∧
       delivery_sequence j' = delivery_sequence j.
Proof.
  intros Hwf Hc Hj' Ho. pose proof (co_rows _ _ _ Hc k) as Hk. rewrite Hj' in Hk.
  destruct (dget (_jobs s) k) as [j|] eqn:Hj; cbn in Hk.
  - destruct Hk as [Hev _]. destruct (ev_obligated _ _ _ Hev Ho) as [Hob|?]; [|by left].
    right. exists j. split_and!; [done..|].
    destruct (ev_sequence _ _ _ Hev) as [?|[? _]]; [done|congruence].
  - destruct Hk as (_ & Hw & [Hl|?]); [|by left].
    by rewrite (live_unobligated j' Hw Hl) in Ho.
Qed.

Lemma step_distinct l s s' :
  registry_wf s → step l s s' → distinct_queue s → distinct_queue s'.
Proof.
  intros Hwf Hst Hd k k' j j' Hj Hj' Ho Ho' Hq.
  destruct (step_spec _ _ _ Hwf Hst) as [_ [Hs|(o & -> & Hc)]].
  { eapply Hd; by eauto using same_rows_permuted. }
  destruct (obligated_origin _ _ _ _ _ Hwf Hc Hj Ho) as [?|(j0 & H0 & Ho0 & E0)].
  { by eapply (co_fresh _ _ _ Hc). }
  destruct (obligated_origin _ _ _ _ _ Hwf Hc Hj' Ho') as [?|(j1 & H1 & Ho1 & E1)].
  { symmetry. by eapply (co_fresh _ _ _ Hc). }
  eapply Hd; [exact H0|exact H1|done..|congruence].
Qed.

(** A queue never holds two rows with one number.  In every reachable
    registry the rows with a delivery obligation have pairwise distinct sequence
    numbers, so a device's queue has one order. *)
Theorem queue_numbers_distinct s k k' j j' :
  reachable s → dget (_jobs s) k = Some j → dget (_jobs s) k' = Some j' →
  obligated (delivery_state j) = true → obligated (delivery_state j') = true →
  delivery_sequence j = delivery_sequence j' → k = k'.
Proof.
  intros Hs. revert k k' j j'. change (distinct_queue s). induction Hs as [s Hi|l s s' Hs IH Hst].
  - intros k k' j j'. by rewrite (proj2 (initial_rows _ Hi)).
  - eapply step_distinct; [by apply reachable_registry|done..].
Qed.

(** ** Route capacity *)

(** Every row the label adds on the route [r] is added under a limit of at most
    [m]. *)
Definition limited (m : Z) (r : string) (l : option op) : Prop :=
  match l with
  | Some (OCreate j mx) | Some (OContinuation _ j _ mx) | Some (OPrompted _ j _ mx) =>
    origin_route_id j = Some r → ∃ m', mx = Some m' ∧ (m' ≤ m)%Z
  | _ => True
  end.

Lemma active_evolves mx r j j' :
  evolves mx j j' → active_or_ready r j' = true → active_or_ready r j = true.
Proof.
  intros Hev. pose proof (ev_counts _ _ _ Hev) as Hc.
  assert (origin_route_id j' = origin_route_id j) as Hr.
  { pose proof (ev_identity _ _ _ Hev) as Hid. unfold identity in Hid. congruence. }
  unfold active_or_ready, counts, obligated in *. rewrite Hr, !andb_true_iff. intuition.
Qed.

(** A commit adds at most one row to a route, and only where there is room. *)
Lemma committed_count o s s' r :
  registry_wf s → committed o s s' →
  (dcount (active_or_ready r) (_jobs s') ≤ dcount (active_or_ready r) (_jobs s))%Z ∨
  ∃ k j', may_add s o k j' ∧ origin_route_id j' = Some r ∧
    (dcount (active_or_ready r) (_jobs s') ≤ dcount (active_or_ready r) (_jobs s) + 1)%Z.
Proof.
  intros Hwf Hc.
  set (k0 := match o with
             | OCreate j _ | OContinuation _ j _ _ | OPrompted _ j _ _ => id_ j
             | _ => ""
             end).
  assert (∀ k j', dget (_jobs s') k = Some j' → active_or_ready r j' = true →
    may_add s o k j' ∧ k = k0 ∧ dget (_jobs s) k = None ∨
    ∃ j, dget (_jobs s) k = Some j ∧ active_or_ready r j = true) as Hrow.
  { intros k j' Hj' Ha. pose proof (co_rows _ _ _ Hc k) as Hk. rewrite Hj' in Hk.
    destruct (dget (_jobs s) k) as [j|] eqn:Hj; cbn in Hk.
    - right. exists j. split; [done|]. by eapply active_evolves; [apply Hk|].
    - left. destruct Hk as [Hadd _]. split_and!; try done. destruct o; try done; apply Hadd. }
  pose proof (rw_dict _ Hwf) as Hd. pose proof (rw_dict _ (co_wf _ _ _ Hc)) as Hd'.
  assert (dcount (active_or_ready r) (_jobs s') ≤ dcount (active_or_ready r) (_jobs s) + 1)%Z as Hle.
  { apply (dcount_keys_le _ _ _ [k0]); [done..|]. intros k v Hv Ha.
    destruct (Hrow k v Hv Ha) as [(_ & -> & _)|?]; [left; left|by right]. }
  destruct (dget (_jobs s') k0) as [j'|] eqn:Hj'; [destruct (active_or_ready r j') eqn:Ha|].
  1: destruct (Hrow k0 j' Hj' Ha) as [(Hadd & _ & _)|Hold].
  1: { right. exists k0, j'. split_and!; [done| |done].
       unfold active_or_ready in Ha. apply andb_true_iff in Ha as [Hr _].
       by apply bool_decide_eq_true in Hr. }
  all: left; rewrite <-(Z.add_0_r (dcount _ (_jobs s))); apply (dcount_keys_le _ _ _ []); [done..|].
  all: intros k v Hv Hav; right; destruct (Hrow k v Hv Hav) as [(_ & -> & _)|?]; [|done].
  all: congruence || done.
Qed.

Lemma step_capacity m r l s s' :
  registry_wf s → step l s s' → limited m r l →
  (dcount (active_or_ready r) (_jobs s) ≤ m → dcount (active_or_ready r) (_jobs s') ≤ m)%Z.
Proof.
  intros Hwf Hst Hl Hm. destruct (step_spec _ _ _ Hwf Hst) as [Hwf' [Hs|(o & -> & Hc)]].
  { transitivity (dcount (active_or_ready r) (_jobs s)); [|done].
    rewrite <-(Z.add_0_r (dcount _ (_jobs s))).
    apply (dcount_keys_le _ _ _ []); [apply Hwf|apply Hwf'|].
    intros k v Hv Ha. right. exists v. split; [|done]. by eapply same_rows_permuted. }
  destruct (committed_count o s s' r Hwf Hc) as [?|(k & j' & Hadd & Hr & Hle)]; [lia|].
  assert (∃ j mx, origin_route_id j = Some r ∧ room s mx j ∧ ∃ m', mx = Some m' ∧ (m' ≤ m)%Z)
    as (j & mx & Hj & Hroom & m' & -> & Hm').
  { destruct o; cbn in *; try done; destruct Hadd as (_ & Hjr & Hroom); rewrite Hjr in Hr;
      eexists _, _; split_and!; try done; auto. }
  unfold room in Hroom. rewrite Hj in Hroom. lia.
Qed.

(** C20: a route never holds more work than its limit.  While every job added on
    the route [r] is added under a limit of at most [m], the number of its active
    or undelivered jobs never rises above [m]: no other operation, no expiry, no
    retry and no restart adds to it. *)
Theorem route_capacity_bounded m r s s' :
  reachable s → rtc (λ a b, ∃ l, limited m r l ∧ step l a b) s s' →
  (dcount (active_or_ready r) (_jobs s) ≤ m)%Z →
  (dcount (active_or_ready r) (_jobs s') ≤ m)%Z.
Proof.
  intros Hs Hst. induction Hst as [s|s t s' (l & Hl & Hstep) _ IH]; intros Hm; [done|].
  apply IH; [by econstructor|]. eapply step_capacity; [by apply reachable_registry|done..].
Qed.
End safety.

(** ** Evaluation *)

Definition after (o : op) (s : JobRegistry) : JobRegistry := (run sample_env o s).2.

Lemma after_step `{PyText} o s : op_ok o → step (Some o) s (after o s).
Proof. intros Hok. apply (step_op sample_env o s (run sample_env o s).1); [done|apply surjective_pairing]. Qed.

Lemma after_reachable `{PyText} o s : reachable s → op_ok o → reachable (after o s).
Proof. intros Hs Hok. eapply reach_step; [done|by apply after_step]. Qed.

Lemma sample_initial : @initial no_text sample_registry.
Proof. exists sample_env, (seconds 900). eexists. split; reflexivity. Qed.

Lemma sample_new : new_row sample_job.
Proof. split; [|done]. unfold wf_job. cbn. split_and!; try done; by intros. Qed.

Definition created : JobRegistry := after (OCreate sample_job (Some 5%Z)) sample_registry.
Definition finished : JobRegistry := after (OFinish "a" "ok") created.
Definition claimed : JobRegistry := after (OClaim "a" "x") finished.

Lemma created_reachable : @reachable no_text created.
Proof. apply after_reachable; [apply reach_initial, sample_initial|exact sample_new]. Qed.
Lemma finished_reachable : @reachable no_text finished.
Proof. by apply after_reachable; [apply created_reachable|]. Qed.

Lemma disk_leads_memory_witness :
  (∃ v, snapshot_of (_jobs created) = Ok v ∧ disk created = Holds v) ∧
  (run (mkEnv 0 false false) (OFinish "a" "ok") created).2 = created.
Proof.
  split.
  - refine (proj1 (@disk_leads_memory no_text sample_env (OCreate sample_job (Some 5%Z))
      sample_registry (Ok tt) created _ _ _)).
    + apply reach_initial, sample_initial.
    + exact sample_new.
    + vm_compute. reflexivity.
  - refine (proj2 (@disk_leads_memory no_text (mkEnv 0 false false) (OFinish "a" "ok") created
      (Raise OSError) _ created_reachable I _) OSError eq_refl _); [|done].
    vm_compute. reflexivity.
Defined.

Lemma reachable_wf_witness : _delivery_sequence finished = max_sequence (_jobs finished).
Proof. exact (proj2 (proj2 (@reachable_wf no_text finished finished_reachable))). Defined.

Lemma rows_follow_edges_witness :
  ∃ j j', dget (_jobs finished) "a" = Some j ∧ dget (_jobs claimed) "a" = Some j' ∧
    identity j' = identity j.
Proof.
  destruct (dget (_jobs finished) "a") as [j|] eqn:Hj; [|vm_compute in Hj; discriminate Hj].
  pose proof (@rows_follow_edges no_text _ finished claimed "a" j finished_reachable
    (after_step (OClaim "a" "x") finished I) Hj) as H.
  destruct (dget (_jobs claimed) "a") as [j'|] eqn:Hj'; [|vm_compute in Hj'; discriminate Hj'].
  exists j, j'. split_and!; [done..|apply H].
Defined.

Lemma terminal_states_absorb_witness :
  ∃ j', dget (_jobs claimed) "a" = Some j' ∧ execution_state j' = Exec.SUCCEEDED.
Proof.
  destruct (dget (_jobs finished) "a") as [j|] eqn:Hj; [|vm_compute in Hj; discriminate Hj].
  assert (execution_state j = Exec.SUCCEEDED) as He
    by (vm_compute in Hj; injection Hj as <-; reflexivity).
  destruct (@terminal_states_absorb no_text finished claimed "a" j finished_reachable) as (j' & ? & E & _).
  - apply rtc_once. exists (Some (OClaim "a" "x")). by apply after_step.
  - done.
  - by rewrite He.
  - exists j'. split; [done|congruence].
Defined.

Lemma delivery_entered_by_its_attempt_witness :
  ∃ a, Some (OClaim "a" "x") = Some (OClaim "a" a).
Proof.
  destruct (dget (_jobs finished) "a") as [j|] eqn:Hj; [|vm_compute in Hj; discriminate Hj].
  destruct (dget (_jobs claimed) "a") as [j'|] eqn:Hj'; [|vm_compute in Hj'; discriminate Hj'].
  pose proof (@delivery_entered_by_its_attempt no_text (Some (OClaim "a" "x")) finished claimed "a" j j'
    finished_reachable (after_step (OClaim "a" "x") finished I) Hj Hj') as H.
  vm_compute in Hj, Hj'. injection Hj as <-. injection Hj' as <-.
  destruct H as (a & E & _); [discriminate|]. by exists a.
Defined.

Lemma queue_numbers_distinct_witness : ∃ j, dget (_jobs finished) "a" = Some j ∧ "a" = "a".
Proof.
  destruct (dget (_jobs finished) "a") as [j|] eqn:Hj; [|vm_compute in Hj; discriminate Hj].
  exists j. split; [done|].
  assert (obligated (delivery_state j) = true) as Ho
    by (vm_compute in Hj; injection Hj as <-; reflexivity).
  exact (@queue_numbers_distinct no_text finished "a" "a" j j finished_reachable Hj Hj Ho Ho eq_refl).
Defined.

Lemma route_capacity_bounded_witness :
  (dcount (active_or_ready "r") (_jobs created) ≤ 5)%Z.
Proof.
  apply (@route_capacity_bounded no_text 5 "r" sample_registry created).
  - apply reach_initial, sample_initial.
  - apply rtc_once. exists (Some (OCreate sample_job (Some 5%Z))). split.
    + intros _. by exists 5%Z.
    + apply (after_step (OCreate sample_job (Some 5%Z))). exact sample_new.
  - vm_compute. discriminate.
Defined.
