(* ===== verification/JobProperties.v ===== *)
(** * What each registry operation does

    Functional properties of [JobRegistry]: the compare-and-set operations of a
    delivery attempt, cancellation, authorization, clarification, restart
    recovery, runtime ownership and the retry loop of terminal reconciliation. *)

From S2P Require Import Prelude PyDict Json SpeakerProvenance JobTypes JobRegistry JobLifecycle.
From S2P Require Import JobInvariants JobRecovery JobEffects JobSnapshot JobSafety.

(** Facts shared by the calls below: the job is there and the registry loaded. *)
Lemma require_job_ok s k j :
  _loaded s = true → dget (_jobs s) k = Some j → _require_job k s = (Ok j, s).
Proof.
  intros Hl Hj. cbv [_require_job _require_loaded mbind pym_bind get raise_when].
  rewrite Hl. cbn. by rewrite Hj.
Qed.

Ltac run_call := cbv [mbind pym_bind get gets raise_when raise mret pym_ret].

(** ** Delivery attempts *)

Inductive attempt_op := AClaim | ARenew | AAuthorize | APlay | ADeliver | ANack (reason : string).

Definition attempt_call (env : Env) (o : attempt_op) (k a : string) : M VoiceJob :=
  match o with
  | AClaim => claim env k a
  | ARenew => renew env k a
  | AAuthorize => authorize env k a
  | APlay => mark_playing env k a
  | ADeliver => mark_delivered env k a
  | ANack r => nack env k a r
  end.

(** The states from which each operation may proceed. *)
Definition attempt_from (o : attempt_op) (d : DeliveryState) : bool :=
  match o with
  | AClaim => bool_decide (d = Dlv.READY)
  | ARenew => _LEASED_DELIVERY d
  | AAuthorize => bool_decide (d = Dlv.CLAIMED)
  | APlay => bool_decide (d = Dlv.AUTHORIZED)
  | ADeliver => claimed_or_playing d
  | ANack _ => claimed_or_authorized d
  end.

Definition attempt_enabled (o : attempt_op) (j : VoiceJob) (a : string) : bool :=
  attempt_from o (delivery_state j)
  && bool_decide (delivery_attempt_id j = match o with AClaim => None | _ => Some a end)
  && match o with APlay => negb (cancel_pending j) | _ => true end.

(** The state each operation leads to. *)
Definition attempt_to (o : attempt_op) (j : VoiceJob) : DeliveryState :=
  match o with
  | AClaim => Dlv.CLAIMED
  | ARenew => delivery_state j
  | AAuthorize => Dlv.AUTHORIZED
  | APlay => Dlv.PLAYING
  | ADeliver => Dlv.DELIVERED
  | ANack r => if authorized_and_pending j && bool_decide (r = "preempted_before_playback")
               then Dlv.CANCELLED else Dlv.READY
  end.

Definition attempt_lease (env : Env) (s : JobRegistry) (o : attempt_op) (j : VoiceJob) : option Z :=
  match o with
  | AClaim | ARenew => Some (now env + LEASE_SECONDS s)%Z
  | AAuthorize | APlay => lease_until j
  | ADeliver | ANack _ => None
  end.

Lemma cas_ok s k j d a :
  _loaded s = true → dget (_jobs s) k = Some j →
  _require_delivery_cas k d a s =
    if bool_decide (delivery_state j = d) && bool_decide (delivery_attempt_id j = a)
    then (Ok j, s) else (Raise JobTransitionError, s).
Proof.
  intros Hl Hj. cbv [_require_delivery_cas mbind pym_bind]. rewrite (require_job_ok _ _ _ Hl Hj).
  destruct (bool_decide (delivery_state j = d)); [|done]. cbn.
  destruct a as [a|], (delivery_attempt_id j) as [a'|]; cbn; try done.
  by destruct (bool_decide (Some a' = Some a)).
Qed.

(** The compare-and-set at the head of each operation. *)
Lemma attempt_refused env s o k a j :
  _loaded s = true → dget (_jobs s) k = Some j → str_true a = true →
  attempt_enabled o j a = false → attempt_call env o k a s = (Raise JobTransitionError, s).
Proof.
  intros Hl Hj Ha He. unfold attempt_enabled in He.
  destruct o; cbn [attempt_call attempt_from] in *;
    cbv [claim renew authorize mark_playing mark_delivered nack attempt_in];
    run_call; rewrite ?Ha; cbn [negb];
    rewrite ?(cas_ok _ _ _ _ _ Hl Hj), ?(require_job_ok _ _ _ Hl Hj);
    rewrite ?andb_true_r in He; rewrite ?He; try done.
  by destruct (bool_decide (delivery_state j = _) && bool_decide _), (cancel_pending j).
Qed.

Lemma attempt_row env s o k a j :
  registry_wf s → _loaded s = true → calm env → dget (_jobs s) k = Some j → str_true a = true →
  attempt_enabled o j a = true →
  ∃ j' s', attempt_call env o k a s = (Ok j', s') ∧ writes s k j' s' ∧
    delivery_state j' = attempt_to o j ∧
    delivery_attempt_id j' = (if _LEASED_DELIVERY (attempt_to o j) then Some a else None) ∧
    lease_until j' = attempt_lease env s o j ∧
    cancel_pending j' = match o with ADeliver | ANack _ => false | _ => cancel_pending j end.
Proof.
  intros Hwf Hl Hcalm Hj Ha He. unfold attempt_enabled in He.
  apply andb_true_iff in He as [[Hd Hat]%andb_true_iff Hp]. apply bool_decide_eq_true in Hat.
  assert (∀ j', identity j' = identity j →
    ∃ s', _persist_job_locked env j' no_after s = (Ok j', s') ∧ writes s k j' s') as Hok.
  { intros j' Hid. destruct (persist_ok env s k j j' no_after Hwf Hcalm) as (s' & E & Hw & _); eauto. }
  destruct o; cbn [attempt_call attempt_from] in *;
    cbv [claim renew authorize mark_playing mark_delivered nack attempt_in];
    run_call; rewrite ?Ha; cbn [negb];
    rewrite ?(cas_ok _ _ _ _ _ Hl Hj), ?(require_job_ok _ _ _ Hl Hj), ?Hd, ?Hat,
      ?bool_decide_eq_true_2 by done; cbn [andb negb];
    try (apply negb_true_iff in Hp; rewrite Hp);
    match goal with |- ∃ j' s', _persist_job_locked _ ?x _ _ = _ ∧ _ =>
      destruct (Hok x eq_refl) as (s' & E & Hw); exists x, s' end.
  all: split_and!; try done; cbn [attempt_to attempt_lease]; rewrite ?Hat; try done.
  - by rewrite Hd.
  - by destruct (authorized_and_pending j && _).
Qed.

(** A delivery operation is a compare-and-set on its attempt.  On a loaded,
    well-formed registry, [claim], [renew], [authorize], [mark_playing],
    [mark_delivered] and [nack] with a job, an attempt and an outcome either find
    the row in their own state with their own attempt (and, for playing, with no
    cancellation pending) and then, unless the write fails or the caller is
    cancelled, change exactly that row: its state, attempt, lease and flag are
    the ones given here; or they raise [JobTransitionError] and change nothing. *)
Theorem delivery_compare_and_set env s o k a j :
  registry_wf s → _loaded s = true → dget (_jobs s) k = Some j → str_true a = true →
  (attempt_enabled o j a = false → attempt_call env o k a s = (Raise JobTransitionError, s)) ∧
  (attempt_enabled o j a = true → calm env →
   ∃ j' s', attempt_call env o k a s = (Ok j', s') ∧ writes s k j' s' ∧
    delivery_state j' = attempt_to o j ∧
    delivery_attempt_id j' = (if _LEASED_DELIVERY (attempt_to o j) then Some a else None) ∧
    lease_until j' = attempt_lease env s o j ∧
    cancel_pending j' = match o with ADeliver | ANack _ => false | _ => cancel_pending j end).
Proof.
  intros Hwf Hl Hj Ha. split.
  - by apply attempt_refused.
  - intros He Hcalm. by apply attempt_row.
Qed.

(** ** Cancellation *)

Lemma publish_cancel_event event t k s e :
  event = Some e →
  e ∈ events_set (loop (let s := match event : option nat with
                 | Some e => s <| loop ::= λ l, l <| events_set ::= λ es, es ++ [e] |> |>
                 | None => s
                 end in
        match t : option nat with
        | Some x => if bool_decide (x ∈ done_tasks (loop s)) then s else _arm_force_cancel k s
        | None => s
        end)).
Proof.
  intros ->. unfold _arm_force_cancel. destruct t; simpl; repeat case_match;
    apply elem_of_app; right; by left.
Qed.

Lemma signal_events s : events_set (loop (_signal_terminal_waiters s)) = events_set (loop s).
Proof. done. Qed.

(** Cancellation has a physical boundary.  On a loaded registry in calm
    weather [request_cancel] refuses anyone but the job's own creator.  For the
    creator, a job that plays or was delivered is too late and nothing changes;
    a job waiting to be spoken is cancelled at once and loses its attempt; a job
    that runs, or whose playback is authorized, is flagged, its cancel event is
    set, and the answer is [stopping]. *)
Theorem request_cancel_boundary env s k j actor :
  registry_wf s → _loaded s = true → calm env → dget (_jobs s) k = Some j →
  (actor_owns j actor = false →
     request_cancel env k actor s = (Raise JobAuthorizationError, s)) ∧
  (actor_owns j actor = true → execution_state j ≠ Exec.CANCELLED →
    ((delivery_state j = Dlv.PLAYING ∨ delivery_state j = Dlv.DELIVERED) →
       request_cancel env k actor s = (Ok too_late, s)) ∧
    ((delivery_state j = Dlv.READY ∨ delivery_state j = Dlv.CLAIMED) →
       ∃ j' s', request_cancel env k actor s = (Ok was_cancelled, s') ∧ writes s k j' s' ∧
         delivery_state j' = Dlv.CANCELLED ∧ delivery_attempt_id j' = None) ∧
    (live_execution (execution_state j) = true ∨ delivery_state j = Dlv.AUTHORIZED →
       ∃ s', request_cancel env k actor s = (Ok stopping, s') ∧
         writes s k (j <| cancel_pending := true |>) s' ∧
         ∀ e, dget (_cancel_events s) k = Some e → e ∈ events_set (loop s'))).
Proof.
  intros Hwf Hl Hcalm Hj.
  assert (∀ j' ap, runtime_only ap → identity j' = identity j → ∃ s',
    _persist_job_locked env j' ap s = (Ok j', s') ∧ writes s k j' s' ∧
    ∃ v, s' = publish (_with_job s j') ap (s <| disk := Holds v |>)) as Hok.
  { intros j' ap Hap Hid. by apply (persist_ok env s k j j' ap). }
  split.
  { intros Ho. cbv [request_cancel _authorize_actor]. run_call.
    rewrite (require_job_ok _ _ _ Hl Hj), Ho. done. }
  intros Ho He. split_and!.
  - intros Hd. cbv [request_cancel _authorize_actor]. run_call.
    rewrite (require_job_ok _ _ _ Hl Hj), Ho. by destruct Hd as [-> | ->].
  - intros Hd. cbv [request_cancel _authorize_actor]. run_call.
    rewrite (require_job_ok _ _ _ Hl Hj), Ho. cbn [negb].
    rewrite bool_decide_eq_false_2 by done.
    destruct Hd as [-> | ->];
    match goal with |- context [_persist_job_locked env ?x ?ap s] =>
      destruct (Hok x ap) as (s' & -> & Hw & _); [intros ?; apply publish_cancel_core|done|];
      exists x, s' end; done.
  - intros Hd. cbv [request_cancel _authorize_actor]. run_call.
    rewrite (require_job_ok _ _ _ Hl Hj), Ho. cbn [negb].
    assert (delivery_state j = Dlv.NONE ∧ live_execution (execution_state j) = true ∨
            delivery_state j = Dlv.AUTHORIZED) as Hcase.
    { destruct Hd as [Hlive|?]; [left|by right]. split; [|done].
      apply live_delivery; [by eapply rw_rows|done]. }
    destruct Hcase as [[-> ->]| ->];
    rewrite bool_decide_eq_false_2 by done;
    match goal with |- context [_persist_job_locked env ?x ?ap s] =>
      destruct (Hok x ap) as (s' & -> & Hw & v & Hs'); [intros ?; apply publish_cancel_core|done|];
      exists s'; split_and!; [done|done|] end;
    intros e Hev; rewrite Hs'; unfold publish; rewrite signal_events;
    by apply publish_cancel_event.
Qed.

(** The three ways a running execution ends. *)
Inductive ending := EFinish (r : string) | EVoice (r : string) (aw : bool) (ttl : Z)
  | EFail (f : failure_arg).

Definition ending_call (env : Env) (k : string) (e : ending) : M VoiceJob :=
  match e with
  | EFinish r => finish env k r
  | EVoice r aw ttl => finish_voice_result env k r aw ttl
  | EFail f => fail env k f
  end.

(** The execution state a job ends in. *)
Definition ending_state (j : VoiceJob) (e : ending) : ExecutionState :=
  if cancel_pending j then Exec.CANCELLED
  else match e with
  | EFinish _ | EVoice _ _ _ => Exec.SUCCEEDED
  | EFail TaskCancelled => Exec.CANCELLED
  | EFail f => if bool_decide (kind (_failure_envelope f) = "cancelled")
               then Exec.CANCELLED else Exec.FAILED
  end.

Definition ending_valid (e : ending) : Prop :=
  match e with EVoice _ _ ttl => (30 ≤ ttl ≤ 3600)%Z | _ => True end.

(** How an execution ends.  In calm weather [finish],
    [finish_voice_result] and [fail] on a live job end it.  If its creator asked
    for cancellation it ends cancelled, whatever the result was, and nothing is
    left to be spoken; otherwise a success or failure becomes ready to be spoken
    exactly when the job has a route and a device, with a number above every
    number issued.  The row always gets a terminal time and a deadline. *)
Theorem execution_ends env s k j e :
  registry_wf s → _loaded s = true → calm env → dget (_jobs s) k = Some j →
  live_execution (execution_state j) = true → ending_valid e →
  ∃ j' s', ending_call env k e s = (Ok j', s') ∧ writes s k j' s' ∧
    execution_state j' = ending_state j e ∧ terminal_at j' = Some (now env) ∧
    is_Some (expires_at j') ∧ cancel_pending j' = false ∧
    (if bool_decide (ending_state j e = Exec.CANCELLED) || negb (routed j)
     then delivery_state j' = Dlv.NONE
     else delivery_state j' = Dlv.READY ∧
          delivery_sequence j' = (_delivery_sequence s + 1)%Z).
Proof.
  intros Hwf Hl Hcalm Hj Hlive Hval.
  assert (cancelled_delivery j = Dlv.NONE) as Hc.
  { unfold cancelled_delivery. by rewrite (live_delivery j (proj2 (rw_rows _ Hwf _ _ Hj)) Hlive). }
  assert (∀ j', identity j' = identity j →
    ∃ s', _persist_job_locked env j' no_after s = (Ok j', s') ∧ writes s k j' s') as Hok.
  { intros j' Hid. destruct (persist_ok env s k j j' no_after Hwf Hcalm) as (s' & E & Hw & _); eauto. }
  unfold ending_state.
  destruct e; cbn [ending_call ending_valid] in *;
    cbv [finish finish_voice_result fail _require_live_execution _finish_current_locked
         _finish_voice_result_current_locked _fail_current_locked cancelled_row succeeded_row
         _terminal_delivery];
    run_call; rewrite ?(bool_decide_eq_true_2 _ Hval); cbn [negb];
    rewrite (require_job_ok _ _ _ Hl Hj), Hlive; cbn [negb]; rewrite ?Hc.
  1-2: destruct (cancel_pending j), (routed j); cbn [negb orb];
    match goal with |- ∃ j' s', _persist_job_locked _ ?x _ _ = _ ∧ _ =>
      destruct (Hok x eq_refl) as (s' & E & Hw); exists x, s' end; split_and!; eauto; done.
  destruct f; cbn [_failure_envelope]; try destruct (bool_decide (kind _ = _));
    destruct (cancel_pending j), (routed j); cbn [negb orb];
    match goal with |- ∃ j' s', _persist_job_locked _ ?x _ _ = _ ∧ _ =>
      destruct (Hok x eq_refl) as (s' & E & Hw); exists x, s' end; split_and!; eauto; done.
Qed.

(** A promised stop is kept by a preemption and lost by any other refusal.
    After [request_cancel] answered [stopping] for an authorized playback, a
    [nack] of that attempt ends the delivery as cancelled only when its reason is
    the one the revocation handshake uses; with any other reason the row goes
    back to the queue, the flag is gone, and it will be offered again. *)
Theorem stopping_survives_only_preemption env s k j a reason :
  registry_wf s → _loaded s = true → calm env → dget (_jobs s) k = Some j →
  delivery_state j = Dlv.AUTHORIZED → delivery_attempt_id j = Some a → cancel_pending j = true →
  ∃ j' s', nack env k a reason s = (Ok j', s') ∧ writes s k j' s' ∧ cancel_pending j' = false ∧
    delivery_state j' = if bool_decide (reason = "preempted_before_playback")
                        then Dlv.CANCELLED else Dlv.READY.
Proof.
  intros Hwf Hl Hcalm Hj Hd Ha Hp.
  cbv [nack attempt_in]; run_call; rewrite (require_job_ok _ _ _ Hl Hj), Hd, Ha.
  rewrite bool_decide_eq_true_2 by done. cbn [claimed_or_authorized andb negb].
  unfold authorized_and_pending. rewrite Hd, Hp. cbn [andb bool_decide].
  match goal with |- ∃ j' s', _persist_job_locked _ ?x _ _ = _ ∧ _ =>
    destruct (persist_ok env _ k j x no_after Hwf Hcalm) as (s' & E & Hw & _);
    [done..|exists x, s'] end.
  split_and!; try done; by case_match.
Qed.

(** ** Authorization and clarification *)

(** Only a job's creator acts on it.  Cancelling, answering a clarification,
    taking a clarification back and asking to hear a result again all raise
    [JobAuthorizationError], and change nothing, for an actor that is not the
    parent's creator: the same peer and user and, depending on the row, the same
    control id or the same scope. *)
Theorem only_the_creator_acts env s k j actor child cid mx :
  _loaded s = true → dget (_jobs s) k = Some j → actor_owns j actor = false →
  request_cancel env k actor s = (Raise JobAuthorizationError, s) ∧
  create_continuation env k child actor mx s = (Raise JobAuthorizationError, s) ∧
  compensate_unbound_continuation env k cid actor s = (Raise JobAuthorizationError, s) ∧
  create_prompted_delivery env k child actor mx s = (Raise JobAuthorizationError, s).
Proof.
  intros Hl Hj Ho.
  assert (_require_loaded s = (Ok tt, s)) as Hload.
  { cbv [_require_loaded mbind pym_bind get raise_when]. by rewrite Hl. }
  cbv [request_cancel create_continuation compensate_unbound_continuation
       create_prompted_delivery _authorize_actor]. run_call.
  rewrite Hload. cbn. by rewrite (require_job_ok _ _ _ Hl Hj), Ho.
Qed.

(** A clarification is answered once.  When [create_continuation] succeeds,
    the parent's clarification is closed and the child is in the table; from then
    on every further [create_continuation] of that parent raises and changes
    nothing, whoever asks and however. *)
Theorem clarification_consumed_once env s p c actor mx c' s' :
  registry_wf s → new_row c → create_continuation env p c actor mx s = (Ok c', s') →
  (∃ parent, dget (_jobs s') p = Some parent ∧ awaiting_input parent = false) ∧
  dget (_jobs s') (id_ c) = Some c ∧
  ∀ env2 c2 actor2 mx2, ∃ e, create_continuation env2 p c2 actor2 mx2 s' = (Raise e, s').
Proof.
  intros Hwf Hc E.
  assert (wp (create_continuation env p c actor mx)
    (λ _ t, (∃ parent, dget (_jobs t) p = Some parent ∧ awaiting_input parent = false) ∧
            dget (_jobs t) (id_ c) = Some c) (λ _ _, True) s) as Hw.
  { unfold create_continuation, _authorize_actor. op_go.
    apply wp_require_capacity; [done..|intros _]. op_go. apply wp_commit; [done|].
    intros v Hv _ t. split; [|done]. apply wp_ret.
    assert (_jobs t = dset (dset (_jobs s) p (j <| awaiting_input := false |>)) (id_ c) c) as ->.
    { subst t. apply (core_eq _ _ _ _ _ _ _ (publish_core _ no_after _ ltac:(done))). }
    rewrite dget_dset_eq. split; [|done]. exists (j <| awaiting_input := false |>).
    split; [|done]. rewrite dget_dset_ne, dget_dset_eq; [done|]. congruence. }
  apply (wp_run _ _ _ _ Hw) in E as [[parent [Hp Ha]] Hchild]. split_and!; eauto.
  intros env2 c2 actor2 mx2.
  assert (wp (create_continuation env2 p c2 actor2 mx2) (λ _ _, False) (λ _ t, t = s') s') as Hw2.
  { unfold create_continuation, _authorize_actor, _require_route_capacity. op_go.
    all: simplify_eq; congruence. }
  destruct (create_continuation env2 p c2 actor2 mx2 s') as [[x|e] t] eqn:E2;
    apply (wp_run _ _ _ _ Hw2) in E2; [done|]. subst. by exists e.
Qed.

(** ** Runtime ownership *)

(** The permit is given back once, by the task that holds it.  The done
    callback of the task that owns a job releases the job's permit, forgets task,
    event, timer and permit, and answers the waiters; run again it does nothing;
    and the callback of any other task does nothing. *)
Theorem permit_released_once s k t p :
  dget (_tasks s) k = Some t → dget (_permits s) k = Some p →
  ∃ s', _task_done k t s = (Ok tt, s') ∧
    permits_released (loop s') = permits_released (loop s) ++ [p] ∧
    dget (_tasks s') k = None ∧ dget (_permits s') k = None ∧
    dget (_cancel_events s') k = None ∧ dget (_cancel_timers s') k = None ∧
    (∀ t', _task_done k t' s' = (Ok tt, s')) ∧
    (∀ t', t' ≠ t → _task_done k t' s = (Ok tt, s)).
Proof.
  intros Ht Hp. cbv [_task_done modify owns_task]. rewrite Ht, Hp.
  rewrite bool_decide_eq_true_2 by done. cbn [negb].
  eexists. split; [reflexivity|]. split_and!; try done; try apply dget_ddel_eq.
  - intros t'. set (s' := update _ _ _).
    assert (dget (_tasks s') k = None) as -> by apply dget_ddel_eq. done.
  - intros t' Hne. by rewrite bool_decide_eq_false_2 by congruence.
Qed.

(** A task is bound at most once.  [bind_task] succeeds only on an accepted
    job that no task owns, and then the job runs, owned by that task; when it
    raises without having been cancelled, nothing was installed, and the permit
    is still the caller's. *)
Theorem bind_task_owns_or_leaves env s k t permit event r s' :
  registry_wf s → bind_task env k t permit event s = (r, s') →
  match r with
  | Ok e =>
    e = event ∧ owns_task s' k t = true ∧ dget (_cancel_events s') k = Some event ∧
    (∀ p, permit = Some p → dget (_permits s') k = Some p) ∧
    dget (_tasks s) k = None ∧
    ∃ j j', dget (_jobs s) k = Some j ∧ execution_state j = Exec.ACCEPTED ∧
      dget (_jobs s') k = Some j' ∧ execution_state j' = Exec.RUNNING
  | Raise e => e ≠ CancelledError → s' = s
  end.
Proof.
  intros Hwf E. destruct r as [e|e].
  2: { intros He. pose proof (wp_run _ _ _ _ (bind_task_effect env s Hwf OExpireDue k t permit event) _ _ E) as H.
       by destruct H as [?|[? _]]. }
  assert (wp (bind_task env k t permit event) (λ e s',
    e = event ∧ owns_task s' k t = true ∧ dget (_cancel_events s') k = Some event ∧
    (∀ p, permit = Some p → dget (_permits s') k = Some p) ∧
    dget (_tasks s) k = None ∧
    ∃ j j', dget (_jobs s) k = Some j ∧ execution_state j = Exec.ACCEPTED ∧
      dget (_jobs s') k = Some j' ∧ execution_state j' = Exec.RUNNING) (λ _ _, True) s) as Hw.
  { unfold bind_task. op_go. apply wp_commit; [done|]. intros v Hv _ u. split; [|done].
    apply wp_ret. destruct (rw_rows _ Hwf k j) as [Hid _]; [done|]. split_and!; try done.
    - apply bool_decide_eq_true_2. apply (dget_dset_eq (_tasks s)).
    - apply (dget_dset_eq (_cancel_events s)).
    - intros p ->. apply (dget_dset_eq (_permits s)).
    - eexists j, _. split_and!; [done..| |].
      + rewrite <-Hid. apply (dget_dset_eq (_jobs s)).
      + done. }
  exact (wp_run _ _ _ _ Hw _ _ E).
Qed.

(** ** Restart *)

Section recovery.
Context (env : Env) (s : JobRegistry) (Hwf : registry_wf s).

Abbreviation recovered := (recover_rows env s (_delivery_sequence s) (_jobs s)).1.

Lemma recover_row_identity n j : identity (recover_row env s n j).1.1 = identity j.
Proof. unfold recover_row. by repeat case_match. Qed.

Lemma recovered_encodable : ∃ v, snapshot_of recovered = Ok v.
Proof using Hwf.
  apply snapshot_ok.
  - unfold wf_dict. rewrite recover_rows_keys. apply Hwf.
  - intros k j' Hj'. pose proof (recover_rows_lookup env s (_delivery_sequence s) (_jobs s) k) as Hk.
    destruct (dget (_jobs s) k) as [j|] eqn:Hj; [|congruence]. destruct Hk as (n & _ & E).
    simplify_eq. pose proof (recover_row_identity n j) as Hid. unfold identity in Hid.
    apply (encodable_speakers j); [congruence..|by eapply wf_encodable].
Qed.

(** Whether or not the loop changed anything, the table afterwards is its result. *)
Lemma recovery_table :
  _loaded s = true → calm env →
  ∃ l s', recover_after_restart env s = (Ok l, s') ∧ _jobs s' = recovered.
Proof using Hwf.
  intros Hl Hcalm. destruct recovered_encodable as [v Hv].
  cbv [recover_after_restart _require_loaded]. run_call. rewrite Hl. cbn [negb].
  revert Hv. destruct (recover_rows env s (_delivery_sequence s) (_jobs s)) as [rows ids] eqn:E.
  cbn [fst]. intros Hv. case_bool_decide as Hsame.
  - eexists _, _. split; [reflexivity|done].
  - rewrite (commit_ok _ _ _ _ v Hcalm Hv). eexists _, _. split; [reflexivity|].
    apply (core_eq _ _ _ _ _ _ _ (publish_core rows no_after _ ltac:(done))).
Qed.
End recovery.

(** C17: nothing survives a restart in flight.  Recovery of a loaded registry
    succeeds in calm weather and leaves no live execution: every row that was
    live is orphaned; with a route and a device it is ready to be announced, under
    a number above all earlier ones, and otherwise it owes nothing.  A leased
    delivery keeps its state and attempt and gets a fresh lease; every other row
    is untouched, and none is added or lost. *)
Theorem recovery_orphans_live_rows env s :
  registry_wf s → _loaded s = true → calm env →
  ∃ l s', recover_after_restart env s = (Ok l, s') ∧ dkeys (_jobs s') = dkeys (_jobs s) ∧
  ∀ k j, dget (_jobs s) k = Some j → ∃ j', dget (_jobs s') k = Some j' ∧
    (if live_execution (execution_state j) then
       execution_state j' = Exec.ORPHANED ∧ is_Some (expires_at j') ∧ cancel_pending j' = false ∧
       orphan_notification_pending j' = bool_decide (creator_peer j = "telegram") ∧
       (if routed j
        then delivery_state j' = Dlv.READY ∧ (_delivery_sequence s < delivery_sequence j')%Z
        else delivery_state j' = Dlv.NONE)
     else if _LEASED_DELIVERY (delivery_state j)
     then j' = j <| lease_until := Some (now env + LEASE_SECONDS s)%Z |>
     else j' = j).
Proof.
  intros Hwf Hl Hcalm. destruct (recovery_table env s Hwf Hl Hcalm) as (l & s' & E & Hjobs).
  exists l, s'. split; [done|]. rewrite Hjobs. split; [apply recover_rows_keys|].
  intros k j Hj. pose proof (recover_rows_lookup env s (_delivery_sequence s) (_jobs s) k) as Hk.
  rewrite Hj in Hk. destruct Hk as (n & Hn & ->). eexists. split; [reflexivity|].
  unfold recover_row. destruct (live_execution _); [|by case_match].
  apply Z.lt_succ_r in Hn.
  destruct (routed j); split_and!; try done; exact Hn.
Qed.

(** ** Terminal reconciliation *)

(** The loop ends at the first attempt that can write. *)
Lemma reconcile_loop (op : Env → M (option VoiceJob)) k s envs :
  (∀ env, env ∈ envs → cancelled env = false) →
  (∀ env, cancelled env = false → write_ok env = false →
     ∃ e, e ≠ CancelledError ∧ op env s = (Raise e, s)) →
  (∀ env, calm env → ∃ j' s', op env s = (Ok (Some j'), s') ∧
     _TERMINAL_EXECUTION (execution_state j') = true ∧ dget (_jobs s') k = Some j') →
  (∃ env, env ∈ envs ∧ write_ok env = true) →
  ∃ j' s', _reconcile_terminal op envs s = (Ok true, s') ∧
    _TERMINAL_EXECUTION (execution_state j') = true ∧ dget (_jobs s') k = Some j'.
Proof.
  intros Hc Hfail Hok (env & Hin & Hw). induction envs as [|env0 envs IH].
  { by apply not_elem_of_nil in Hin. }
  cbn [_reconcile_terminal]. assert (cancelled env0 = false) as Hc0 by (apply Hc; left).
  destruct (write_ok env0) eqn:Hw0.
  - destruct (Hok env0) as (j' & s' & -> & Ht & Hj'); [done|]. rewrite Ht. eauto.
  - destruct (Hfail env0 Hc0 Hw0) as (e & He & ->). apply elem_of_cons in Hin as [->|Hin]; [congruence|].
    destruct IH as (j' & s' & E & ?); [intros; apply Hc; by right|done|].
    exists j', s'. split; [|done]. by destruct e.
Qed.

Lemma commit_fails env jobs ap s :
  write_ok env = false → (∃ v, snapshot_of jobs = Ok v) →
  _commit_snapshot_locked env jobs ap s = (Raise OSError, s).
Proof.
  intros Hw [v Hv]. cbv [_commit_snapshot_locked mbind pym_bind lift]. rewrite Hv, Hw. done.
Qed.

Lemma persist_fails env s k j j' ap :
  registry_wf s → write_ok env = false → dget (_jobs s) k = Some j → identity j' = identity j →
  _persist_job_locked env j' ap s = (Raise OSError, s).
Proof.
  intros Hwf Hw Hj Hid. destruct (rw_rows _ Hwf _ _ Hj) as [<- _].
  cbv [_persist_job_locked mbind pym_bind gets]. rewrite commit_fails; [done..|].
  apply snapshot_ok; [by apply wf_dset, Hwf|]. intros k0 j0. unfold _with_job.
  rewrite dget_dset. case_decide; [|by eapply wf_encodable]. intros [= <-].
  unfold identity in Hid. apply (encodable_speakers j); [congruence..|by eapply wf_encodable].
Qed.

(** The three reconciliations the registry schedules. *)
Inductive reconciliation := RFailure | RCompletion | RCancel.

Definition reconcile_call (r : reconciliation) (k : string) : Env → M (option VoiceJob) :=
  match r with
  | RFailure => failure_reconciliation k
  | RCompletion => completion_reconciliation k
  | RCancel => cancel_reconciliation k
  end.

(** What each writes over a live row: one commit of one terminal row. *)
Lemma reconcile_persists r k env s j :
  _loaded s = true → dget (_jobs s) k = Some j → live_execution (execution_state j) = true →
  ∃ j', identity j' = identity j ∧ _TERMINAL_EXECUTION (execution_state j') = true ∧
    reconcile_call r k env s =
      (let* x := _persist_job_locked env j' no_after in mret (Some x)) s.
Proof.
  intros Hl Hj Hlive. assert (_TERMINAL_EXECUTION (execution_state j) = false) as Ht
    by (rewrite terminal_not_live, Hlive; done).
  destruct r; cbv [reconcile_call failure_reconciliation completion_reconciliation
    cancel_reconciliation fail_compat finish_compat cancel _require_loaded
    _fail_current_locked _finish_current_locked succeeded_row _terminal_delivery]; run_call;
    rewrite ?Hl; cbn [negb]; rewrite Hj, ?Hlive, ?Ht; cbn [negb];
    try destruct (routed j); try destruct (cancel_pending j); cbn [orb _failure_envelope kind];
    eexists; (split; [|split; [|reflexivity]]); done.
Qed.

(** C21: a terminal outcome is never lost to a failing disk.  Each of the three
    reconciliation loops, started on a live job and retried through any sequence
    of failed writes without being cancelled, ends as soon as one write succeeds,
    and then the job is in a terminal state in the table. *)
Theorem reconciliation_terminates r k envs s j :
  registry_wf s → _loaded s = true → dget (_jobs s) k = Some j →
  live_execution (execution_state j) = true →
  (∀ env, env ∈ envs → cancelled env = false) → (∃ env, env ∈ envs ∧ write_ok env = true) →
  ∃ j' s', _reconcile_terminal (reconcile_call r k) envs s = (Ok true, s') ∧
    _TERMINAL_EXECUTION (execution_state j') = true ∧ dget (_jobs s') k = Some j'.
Proof.
  intros Hwf Hl Hj Hlive Hc Hw. apply reconcile_loop; try done.
  - intros env _ Hfail. exists OSError. split; [done|].
    destruct (reconcile_persists r k env s j Hl Hj Hlive) as (j' & Hid & _ & ->).
    run_call. by rewrite (persist_fails _ _ _ _ _ _ Hwf Hfail Hj Hid).
  - intros env Hcalm.
    destruct (reconcile_persists r k env s j Hl Hj Hlive) as (j' & Hid & Ht & ->).
    destruct (persist_ok env s k j j' no_after Hwf Hcalm) as (s' & E & Hws & _); [done..|].
    exists j', s'. run_call. rewrite E. split_and!; [done..|].
    destruct Hws as [_ ->]. by rewrite decide_True.
Qed.

(** ** Evaluation *)

Definition owner : list (string * json) := [("peer", JStr "voice"); ("scope", JStr "s")].
Definition stranger : list (string * json) := [("peer", JStr "telegram"); ("scope", JStr "s")].
Definition authorized : JobRegistry := after (OAuthorize "a" "x") claimed.
Definition flagged : JobRegistry := after (ORequestCancel "a" owner) authorized.
Definition bound : JobRegistry := after (OBind "a" 1 (Some 7) 3) created.

Lemma created_wf : registry_wf created.
Proof. apply (@reachable_registry no_text), created_reachable. Qed.
Lemma finished_wf : registry_wf finished.
Proof. apply (@reachable_registry no_text), finished_reachable. Qed.
Lemma flagged_wf : registry_wf flagged.
Proof.
  apply (@reachable_registry no_text). do 3 (apply after_reachable; [|done]). apply finished_reachable.
Qed.

Lemma delivery_compare_and_set_witness :
  ∃ j' s', attempt_call sample_env AClaim "a" "x" finished = (Ok j', s') ∧
    delivery_state j' = Dlv.CLAIMED.
Proof.
  destruct (dget (_jobs finished) "a") as [j|] eqn:Hj; [|vm_compute in Hj; discriminate Hj].
  assert (attempt_enabled AClaim j "x" = true) as He
    by (vm_compute in Hj; injection Hj as <-; reflexivity).
  destruct (proj2 (delivery_compare_and_set sample_env finished AClaim "a" "x" j finished_wf
    ltac:(vm_compute; reflexivity) Hj eq_refl) He (conj eq_refl eq_refl))
    as (j' & s' & E & _ & Hd & _).
  exists j', s'. split; [exact E|exact Hd].
Defined.

Lemma request_cancel_boundary_witness :
  request_cancel sample_env "a" stranger finished = (Raise JobAuthorizationError, finished) ∧
  ∃ s', request_cancel sample_env "a" owner created = (Ok stopping, s').
Proof.
  destruct (dget (_jobs finished) "a") as [j|] eqn:Hj; [|vm_compute in Hj; discriminate Hj].
  destruct (dget (_jobs created) "a") as [c|] eqn:Hc; [|vm_compute in Hc; discriminate Hc].
  split.
  - apply (proj1 (request_cancel_boundary sample_env finished "a" j stranger finished_wf
      ltac:(vm_compute; reflexivity) (conj eq_refl eq_refl) Hj)).
    vm_compute in Hj. injection Hj as <-. reflexivity.
  - assert (execution_state c = Exec.ACCEPTED ∧ actor_owns c owner = true) as [He Ho]
      by (vm_compute in Hc; injection Hc as <-; split; reflexivity).
    destruct (proj2 (request_cancel_boundary sample_env created "a" c owner created_wf
      ltac:(vm_compute; reflexivity) (conj eq_refl eq_refl) Hc) Ho) as (_ & _ & H).
    { by rewrite He. }
    destruct H as (s' & E & _); [left; by rewrite He|]. by exists s'.
Defined.

Lemma execution_ends_witness :
  ∃ j' s', ending_call sample_env "a" (EFail TaskCancelled) created = (Ok j', s') ∧
    execution_state j' = Exec.CANCELLED.
Proof.
  destruct (dget (_jobs created) "a") as [c|] eqn:Hc; [|vm_compute in Hc; discriminate Hc].
  assert (live_execution (execution_state c) = true ∧ cancel_pending c = false) as [Hl Hp]
    by (vm_compute in Hc; injection Hc as <-; split; reflexivity).
  destruct (execution_ends sample_env created "a" c (EFail TaskCancelled) created_wf
    ltac:(vm_compute; reflexivity) (conj eq_refl eq_refl) Hc Hl I) as (j' & s' & E & _ & He & _).
  exists j', s'. split; [exact E|]. rewrite He. unfold ending_state. by rewrite Hp.
Defined.

Lemma stopping_survives_only_preemption_witness :
  ∃ j' s', nack sample_env "a" "x" "integration_nack" flagged = (Ok j', s') ∧
    delivery_state j' = Dlv.READY.
Proof.
  destruct (dget (_jobs flagged) "a") as [c|] eqn:Hc; [|vm_compute in Hc; discriminate Hc].
  assert (delivery_state c = Dlv.AUTHORIZED ∧ delivery_attempt_id c = Some "x" ∧
          cancel_pending c = true) as (Hd & Ha & Hp)
    by (vm_compute in Hc; injection Hc as <-; split_and!; reflexivity).
  destruct (stopping_survives_only_preemption sample_env flagged "a" c "x" "integration_nack"
    flagged_wf ltac:(vm_compute; reflexivity) (conj eq_refl eq_refl) Hc Hd Ha Hp)
    as (j' & s' & E & _ & _ & Hr).
  exists j', s'. split; [exact E|exact Hr].
Defined.

Lemma only_the_creator_acts_witness :
  request_cancel sample_env "a" stranger created = (Raise JobAuthorizationError, created).
Proof.
  destruct (dget (_jobs created) "a") as [c|] eqn:Hc; [|vm_compute in Hc; discriminate Hc].
  apply (only_the_creator_acts sample_env created "a" c stranger c "b" None
    ltac:(vm_compute; reflexivity) Hc).
  vm_compute in Hc. injection Hc as <-. reflexivity.
Defined.

Definition asking : JobRegistry := after (OFinishVoice "a" "which one?" true 900) created.
Definition follow_up : VoiceJob :=
  sample_job <| id_ := "b" |> <| parent_job_id := Some "a" |>.

Lemma clarification_consumed_once_witness :
  ∃ c' s', create_continuation sample_env "a" follow_up owner None asking = (Ok c', s') ∧
    ∃ e, create_continuation sample_env "a" follow_up owner None s' = (Raise e, s').
Proof.
  assert (registry_wf asking) as Hwf.
  { apply (@reachable_registry no_text). apply after_reachable; [apply created_reachable|done]. }
  assert (new_row follow_up) as Hn.
  { split; [|done]. unfold wf_job. split_and!; try done; by intros. }
  destruct (create_continuation sample_env "a" follow_up owner None asking) as [[c'|e] s'] eqn:E.
  - exists c', s'. split; [done|].
    apply (clarification_consumed_once _ _ _ _ _ _ _ _ Hwf Hn E).
  - exfalso. apply (f_equal fst) in E. vm_compute in E. discriminate E.
Defined.

Lemma permit_released_once_witness :
  ∃ s', _task_done "a" 1 bound = (Ok tt, s') ∧ permits_released (loop s') = [7].
Proof.
  destruct (permit_released_once bound "a" 1 7) as (s' & E & Hp & _);
    [vm_compute; reflexivity|vm_compute; reflexivity|].
  exists s'. split; [exact E|]. rewrite Hp. vm_compute. reflexivity.
Defined.

Lemma bind_task_owns_or_leaves_witness : owns_task bound "a" 1 = true.
Proof.
  destruct (bind_task sample_env "a" 1 (Some 7) 3 created) as [[e|e] s'] eqn:E.
  - assert (s' = bound) as <-.
    { unfold bound, after. cbn [run]. unfold void. cbv [mbind pym_bind mret pym_ret]. by rewrite E. }
    apply (bind_task_owns_or_leaves _ _ _ _ _ _ _ _ created_wf E).
  - exfalso. apply (f_equal fst) in E. vm_compute in E. discriminate E.
Defined.

Lemma recovery_orphans_live_rows_witness :
  ∃ l s', recover_after_restart sample_env created = (Ok l, s') ∧
    dkeys (_jobs s') = dkeys (_jobs created).
Proof.
  destruct (recovery_orphans_live_rows sample_env created created_wf
    ltac:(vm_compute; reflexivity) (conj eq_refl eq_refl)) as (l & s' & E & Hk & _).
  exists l, s'. split; [exact E|exact Hk].
Defined.

Lemma reconciliation_terminates_witness :
  ∃ s', _reconcile_terminal (reconcile_call RFailure "a")
    [mkEnv 1 false false; mkEnv 2 false false; mkEnv 3 true false] created = (Ok true, s').
Proof.
  destruct (dget (_jobs created) "a") as [c|] eqn:Hc; [|vm_compute in Hc; discriminate Hc].
  assert (live_execution (execution_state c) = true) as Hl
    by (vm_compute in Hc; injection Hc as <-; reflexivity).
  destruct (reconciliation_terminates RFailure "a"
    [mkEnv 1 false false; mkEnv 2 false false; mkEnv 3 true false] created c created_wf
    ltac:(vm_compute; reflexivity) Hc Hl) as (j' & s' & E & _).
  - intros env Hin. repeat (apply elem_of_cons in Hin as [->|Hin]; [done|]).
    by apply not_elem_of_nil in Hin.
  - exists (mkEnv 3 true false). split; [|done]. do 2 right. left.
  - by exists s'.
Defined.
