(* ===== verification/DeliveryProperties.v ===== *)
(** * What voice delivery guarantees

    Properties of [Delivery], proved against the interface of the job store:
    each device's queue is offered from its head, attempts do not outlive their
    rows, frames that do not match are inert, playback is authorized only after
    the authorization is durable, and private results are not put on the wire.
    [registry_store] and [registry_laws] show that the job registry provides the
    interface. *)

From S2P Require Import Prelude PyDict Json SpeakerProvenance VoiceResult Routes JobTypes JobRegistry.
From S2P Require Import JobLifecycle JobInvariants JobRecovery JobEffects JobSnapshot JobSafety.
From S2P Require Import JobProperties Delivery.

(** ** The interface *)

(** What delivery relies on: an invariant [st_ok] that every operation keeps,
    even one that raises, and a durable, current answer of [st_authorize]. *)
Class JobStoreLaws (S : Type) `{JobStore S} := {
  st_ok : S → Prop;
  law_expire_due env s : st_ok s → st_ok (st_expire_due env s).2;
  law_expire_leases env s : st_ok s → st_ok (st_expire_leases env s).2;
  law_claim env k a s : st_ok s → st_ok (st_claim env k a s).2;
  law_renew env k a s : st_ok s → st_ok (st_renew env k a s).2;
  law_authorize env k a s : st_ok s → st_ok (st_authorize env k a s).2;
  law_mark_playing env k a s : st_ok s → st_ok (st_mark_playing env k a s).2;
  law_mark_delivered env k a s : st_ok s → st_ok (st_mark_delivered env k a s).2;
  law_nack env k a r s : st_ok s → st_ok (st_nack env k a r s).2;
  law_authorized env k a s j s' :
    st_ok s → st_authorize env k a s = (Ok j, s') →
    st_get s' k = Some j ∧ delivery_state j = Dlv.AUTHORIZED ∧
    delivery_attempt_id j = Some a ∧ cancel_pending j = false
}.

(** ** Heads of queues *)

(** The rows the offer loop considers, in order. *)
Fixpoint heads (occupied : list string) (jobs : list VoiceJob) : list VoiceJob :=
  match jobs with
  | [] => []
  | job :: jobs' =>
    let key := default "" (origin_device_id job) in
    if negb (queued job) then heads occupied jobs'
    else if bool_decide (key ∈ occupied) then heads occupied jobs'
    else job :: heads (key :: occupied) jobs'
  end.

(** A head is queued, and no queued row of its device comes before it. *)
Lemma heads_spec occ jobs job :
  job ∈ heads occ jobs ↔
  ∃ l1 l2, jobs = l1 ++ job :: l2 ∧ queued job = true ∧
    (default "" (origin_device_id job) ∉ occ) ∧
    (∀ j, j ∈ l1 → queued j = true →
      default "" (origin_device_id j) ≠ default "" (origin_device_id job)).
Proof.
  revert occ. induction jobs as [|j jobs IH]; intros occ; cbn [heads].
  { split; [by intros ?%not_elem_of_nil|]. by intros ([|] & ? & ? & _). }
  assert (∀ occ', job ∈ heads occ' jobs → (queued j = true →
      default "" (origin_device_id j) ≠ default "" (origin_device_id job)) →
    ∃ l1 l2, j :: jobs = l1 ++ job :: l2 ∧ queued job = true ∧
      (default "" (origin_device_id job) ∉ occ') ∧
      (∀ j', j' ∈ l1 → queued j' = true →
        default "" (origin_device_id j') ≠ default "" (origin_device_id job))) as Hcons.
  { intros occ' (l1 & l2 & -> & Hq & Ho & Hl)%IH Hj. exists (j :: l1), l2. split_and!; try done.
    intros j' [->|?]%elem_of_cons; auto. }
  assert (∀ occ' l1 l2, j :: jobs = l1 ++ job :: l2 → (j = job → l1 = [] → False) →
    queued job = true → default "" (origin_device_id job) ∉ occ' →
    (∀ j', j' ∈ l1 → queued j' = true →
       default "" (origin_device_id j') ≠ default "" (origin_device_id job)) →
    job ∈ heads occ' jobs) as Hback.
  { intros occ' [|x l1] l2 E Hne Hq Ho Hl; simplify_eq/=; [by exfalso; apply Hne|].
    apply IH. exists l1, l2. split_and!; try done. intros j' ?. apply Hl. by right. }
  destruct (queued j) eqn:Ej; cbn [negb]; [|split].
  - case_bool_decide as Hin; [split|split].
    + intros Hjob. destruct (proj1 (IH occ) Hjob) as (_ & _ & _ & _ & Hocc & _).
      apply Hcons; [done|]. intros _ Heq. apply Hocc. by rewrite <-Heq.
    + intros (l1 & l2 & E & Hq & Ho & Hl). eapply Hback; try done. by intros -> _.
    + intros [->|Hjob]%elem_of_cons.
      * exists [], jobs. split_and!; try done. by intros j' ?%not_elem_of_nil.
      * destruct (proj1 (IH _) Hjob) as (_ & _ & _ & _ & Hocc & _).
        apply not_elem_of_cons in Hocc as [Hne Hocc].
        destruct (Hcons _ Hjob) as (l1 & l2 & ? & ? & _ & ?); [by intros|]. by exists l1, l2.
    + intros (l1 & l2 & E & Hq & Ho & Hl). destruct l1 as [|x l1]; simplify_eq/=; [left|right].
      apply IH. exists l1, l2. split_and!; try done.
      * apply not_elem_of_cons. split; [|done]. apply not_eq_sym, Hl; [left|done].
      * intros j' ?. apply Hl. by right.
  - intros Hjob. by apply Hcons.
  - intros (l1 & l2 & E & Hq & Ho & Hl). eapply Hback; try done. by intros ->; congruence.
Qed.

Lemma heads_devices occ jobs :
  NoDup ((λ j, default "" (origin_device_id j)) <$> heads occ jobs).
Proof.
  revert occ. induction jobs as [|j jobs IH]; intros occ; cbn [heads]; [constructor|].
  case_match; [done|]. case_match; [done|]. csimpl. apply NoDup_cons. split; [|done].
  rewrite list_elem_of_fmap. intros (j' & E & (l1 & l2 & _ & _ & Hocc & _)%heads_spec).
  apply Hocc. rewrite <-E. left.
Qed.

Section coordinator.
Context {S : Type} `{JobStore S} (loads : string → option json) (D : DEnv).
Implicit Types (s : Coordinator S).

(** The loop is the iteration of [offer_head] over the heads. *)
Lemma offer_loop_heads occ jobs s :
  offer_loop loads D occ jobs s = for_each (heads occ jobs) (offer_head loads D) s.
Proof.
  revert occ s. induction jobs as [|j jobs IH]; intros occ s; [done|].
  cbn [offer_loop heads]. destruct (negb (queued j)); [done|]. case_bool_decide; [done|].
  cbn [for_each]. unfold mbind, pym_bind. destruct (offer_head loads D j s) as [[]]; auto.
Qed.

(** ** What a step leaves alone *)

Lemma wp_store_call {A} (f : Env → PyM S A) (Q : A → Coordinator S → Prop) R s :
  (∀ o j, f (d_jobs D (store_calls s)) (_jobs_store s) = (o, j) →
     let s' := s <| _jobs_store := j |> <| store_calls ::= Datatypes.S |> in
     match o with Ok a => Q a s' | Raise e => R e s' end) →
  wp (store_call D f) Q R s.
Proof.
  intros Hf. unfold wp, store_call.
  destruct (f (d_jobs D (store_calls s)) (_jobs_store s)) as [o j] eqn:E.
  specialize (Hf _ _ eq_refl). by destruct o.
Qed.

Definition is_authorization (f : nat * Frame) : bool :=
  match f.2 with JobDeliveryAuthorized _ _ => true | _ => false end.

(** A step that writes no authorization, and touches neither store nor routes. *)
Definition quiet s s' : Prop :=
  _jobs_store s' = _jobs_store s ∧ _routes s' = _routes s ∧
  ∃ w, wire s' = wire s ++ w ∧ Forall (λ f, is_authorization f = false) w.

Lemma quiet_refl s : quiet s s.
Proof. split_and!; [done..|]. exists []. by rewrite app_nil_r. Qed.

Lemma quiet_trans s1 s2 s3 : quiet s1 s2 → quiet s2 s3 → quiet s1 s3.
Proof.
  intros (E1 & E2 & w & Hw & Hf) (E1' & E2' & w' & Hw' & Hf'). split_and!; [congruence..|].
  exists (w ++ w'). split; [by rewrite Hw', Hw, app_assoc|by apply Forall_app].
Qed.

Lemma quiet_same s s' :
  _jobs_store s' = _jobs_store s → _routes s' = _routes s → wire s' = wire s → quiet s s'.
Proof. intros ? ? E. split_and!; [done..|]. exists []. by rewrite app_nil_r. Qed.

(** Sequencing quiet calls. *)
Lemma quiet_bind {A B} (m : DM A) (k : A → DM B) s :
  wp m (λ _, quiet s) (λ _, quiet s) s →
  (∀ a s', quiet s s' → wp (k a) (λ _, quiet s') (λ _, quiet s') s') →
  wp (mbind k m) (λ _, quiet s) (λ _, quiet s) s.
Proof.
  intros Hm Hk. apply wp_bind. eapply wp_mono; [exact Hm| |done]. intros a s' Hq.
  eapply wp_mono; [by apply Hk|..]; intros; by apply (quiet_trans s s').
Qed.

Lemma quiet_ret {A} (a : A) s : wp (mret a : DM A) (λ _, quiet s) (λ _, quiet s) s.
Proof. apply wp_ret, quiet_refl. Qed.

Lemma quiet_modify (f : Coordinator S → Coordinator S) s :
  (∀ s, _jobs_store (f s) = _jobs_store s ∧ _routes (f s) = _routes s ∧ wire (f s) = wire s) →
  wp (modify f) (λ _, quiet s) (λ _, quiet s) s.
Proof. intros Hf. apply wp_modify. destruct (Hf s) as (? & ? & ?). by apply quiet_same. Qed.

Lemma safe_send_quiet c f s :
  is_authorization (c, f) = false →
  wp (_safe_send D c f) (λ _, quiet s) (λ _, quiet s) s.
Proof.
  intros Hf. unfold _safe_send. case_match; [|apply quiet_ret]. apply wp_bind, wp_modify, wp_ret.
  split_and!; [done..|]. exists [(c, f)]. split; [done|by repeat constructor].
Qed.

Lemma send_revoke_quiet a r s : wp (_send_revoke D a r) (λ _, quiet s) (λ _, quiet s) s.
Proof.
  unfold _send_revoke. apply wp_bind, wp_get. repeat case_match; try apply quiet_ret.
  by apply safe_send_quiet.
Qed.

Lemma deny_quiet e j a r s : wp (_deny D e j a r) (λ _, quiet s) (λ _, quiet s) s.
Proof.
  unfold _deny. apply quiet_bind; [by apply safe_send_quiet|]. intros. apply quiet_ret.
Qed.

Lemma for_each_quiet {A} (l : list A) (f : A → DM unit) s :
  (∀ x s', wp (f x) (λ _, quiet s') (λ _, quiet s') s') →
  wp (for_each l f) (λ _, quiet s) (λ _, quiet s) s.
Proof.
  intros Hf. revert s. induction l as [|x l IH]; intros s; [apply quiet_ret|].
  by apply quiet_bind.
Qed.

Lemma reconcile_attempt_quiet k a s :
  wp (reconcile_attempt D k a) (λ _, quiet s) (λ _, quiet s) s.
Proof.
  assert (∀ a r t, wp (let* sent := if revoke_sent a then mret true else _send_revoke D a r in
    modify (set_attempt k (a <| revoke_sent := sent |>))) (λ _, quiet t) (λ _, quiet t) t) as Hdead.
  { intros a' r t. apply quiet_bind.
    - case_match; [apply quiet_ret|apply send_revoke_quiet].
    - intros. by apply quiet_modify. }
  unfold reconcile_attempt. apply wp_bind, wp_get.
  repeat first [apply quiet_ret | apply (Hdead _ "no_longer_deliverable") | case_match].
  apply quiet_bind; [apply send_revoke_quiet|intros; by apply quiet_modify].
Qed.

Lemma offer_head_quiet j s : wp (offer_head loads D j) (λ _, quiet s) (λ _, quiet s) s.
Proof.
  unfold offer_head. apply wp_bind, wp_get. destruct (negb _); [apply quiet_ret|].
  destruct (dhas _ _); [apply quiet_ret|].
  apply quiet_bind; [apply wp_lift; intros; apply quiet_refl|]. intros good s' _.
  assert (∀ t, wp (modify (λ s : Coordinator S, if bool_decide (id_ j ∈ _unoffered_logged s) then s
    else s <| _unoffered_logged ::= cons (id_ j) |>)) (λ _, quiet t) (λ _, quiet t) t) as Hnote
    by (intros; apply quiet_modify; intros; by case_match).
  destruct (negb good); [apply Hnote|].
  destruct (match dget _ _ with Some a => offered a | None => _ end); [apply quiet_ret|].
  destruct (get_connected _ _) as [route|]; [|apply Hnote].
  destruct (bool_decide _); [|apply Hnote].
  apply quiet_bind; [by apply quiet_modify|]. intros _ t _.
  apply quiet_bind; [by apply safe_send_quiet|]. intros sent u _.
  case_match; [by apply quiet_modify|apply quiet_ret].
Qed.

Lemma offer_heads_quiet s : wp (_offer_heads_locked loads D) (λ _, quiet s) (λ _, quiet s) s.
Proof.
  unfold _offer_heads_locked. apply wp_bind, wp_get. unfold wp. rewrite offer_loop_heads.
  apply for_each_quiet. intros. apply offer_head_quiet.
Qed.

(** ** Offers *)

Definition offer_frames (sent : list (VoiceJob * (nat * string))) : list (nat * Frame) :=
  (λ p, (p.2.1, ready_frame loads p.1 p.2.2)) <$> sent.

(** The offers of the jobs [l], made from a state whose parks are those of [s]. *)
Definition offers_of (l : list VoiceJob) s s' : Prop :=
  _parked_until s' = _parked_until s ∧
  ∃ sent, sent.*1 `sublist_of` l ∧ wire s' = wire s ++ offer_frames sent ∧
    ∀ j, j ∈ sent.*1 → delivery_state j = Dlv.READY ∧ dget (_parked_until s) (id_ j) = None.

Lemma offers_nothing l s s' :
  _parked_until s' = _parked_until s → wire s' = wire s → offers_of l s s'.
Proof.
  intros Hp Hw. split; [done|]. exists []. split_and!; [apply sublist_nil_l|by rewrite app_nil_r|].
  by intros j ?%not_elem_of_nil.
Qed.

Lemma offers_cons j l s1 s2 s3 :
  offers_of [j] s1 s2 → offers_of l s2 s3 → offers_of (j :: l) s1 s3.
Proof.
  intros (Hp & sent & Hs & Hw & Hr) (Hp' & sent' & Hs' & Hw' & Hr'). split; [congruence|].
  exists (sent ++ sent'). split_and!.
  - rewrite fmap_app. by apply (sublist_app _ [j]).
  - rewrite Hw', Hw. unfold offer_frames. by rewrite fmap_app, app_assoc.
  - intros x. rewrite fmap_app. intros [?|?]%elem_of_app; [auto|]. rewrite <-Hp. auto.
Qed.

Lemma offers_skip j l s1 s2 : offers_of [j] s1 s2 → offers_of (j :: l) s1 s2.
Proof. intros Hj. eapply offers_cons; [done|]. by apply offers_nothing. Qed.

Lemma offer_head_offers j s :
  wp (offer_head loads D j) (λ _, offers_of [j] s) (λ _, offers_of [j] s) s.
Proof.
  unfold offer_head. apply wp_bind, wp_get.
  destruct (delivery_state j) eqn:Hd; rewrite ?bool_decide_eq_true_2, ?bool_decide_eq_false_2 by done;
    cbn [negb]; try by (apply wp_ret, offers_nothing).
  destruct (dhas _ _) eqn:Hpark; [by apply wp_ret, offers_nothing|]. apply dhas_false in Hpark.
  apply wp_bind, wp_lift; [intros good _|intros; by apply offers_nothing].
  assert (∀ t, wp (modify (λ s : Coordinator S, if bool_decide (id_ j ∈ _unoffered_logged s) then s
    else s <| _unoffered_logged ::= cons (id_ j) |>)) (λ _, offers_of [j] t) (λ _, offers_of [j] t) t)
    as Hnote by (intros; apply wp_modify, offers_nothing; by case_match).
  destruct (negb good); [apply Hnote|].
  destruct (match dget _ _ with Some a => offered a | None => _ end);
    [by apply wp_ret, offers_nothing|].
  destruct (get_connected _ _) as [route|]; [|apply Hnote].
  destruct (bool_decide _); [|apply Hnote].
  apply wp_bind, wp_modify, wp_bind. unfold _safe_send. case_match.
  - apply wp_bind, wp_modify, wp_ret, wp_ret. split; [done|].
    exists [(j, (connection route, d_uuid D (uuids s)))]. split_and!; try done.
    by intros x ->%list_elem_of_singleton.
  - apply wp_ret, wp_modify. by apply offers_nothing.
Qed.

Lemma for_each_offers l s :
  wp (for_each l (offer_head loads D)) (λ _, offers_of l s) (λ _, offers_of l s) s.
Proof.
  revert s. induction l as [|j l IH]; intros s; [by apply wp_ret, offers_nothing|].
  apply wp_bind. eapply wp_mono; [apply offer_head_offers| |intros; by apply offers_skip].
  intros u t Ht. eapply wp_mono; [apply IH|..]; intros; by apply (offers_cons j l s t).
Qed.

(** Each device hears its own queue, in order.  Whatever an offer pass does,
    the frames it writes are offers of ready jobs that are not parked; each is for
    the first queued job of its device in the order of the store, so a job that is
    claimed, playing or parked holds back everything behind it; and no device is
    offered two jobs. *)
Theorem offers_follow_queues s o s' :
  _offer_heads_locked loads D s = (o, s') →
  ∃ sent, wire s' = wire s ++ offer_frames sent ∧
    NoDup ((λ j, default "" (origin_device_id j)) <$> sent.*1) ∧
    ∀ job, job ∈ sent.*1 →
      delivery_state job = Dlv.READY ∧ dget (_parked_until s) (id_ job) = None ∧
      ∃ before after, st_all (_jobs_store s) = before ++ job :: after ∧
        ∀ j, j ∈ before → queued j = true →
          default "" (origin_device_id j) ≠ default "" (origin_device_id job).
Proof.
  intros E. cbv [_offer_heads_locked mbind pym_bind get] in E. rewrite offer_loop_heads in E.
  pose proof (wp_run _ _ _ _ (for_each_offers (heads [] (st_all (_jobs_store s))) s) _ _ E) as Hrun.
  assert (offers_of (heads [] (st_all (_jobs_store s))) s s') as (_ & sent & Hs & Hw & Hr)
    by by destruct o.
  exists sent. split_and!; [done|..].
  - eapply sublist_NoDup; [apply (heads_devices [] (st_all (_jobs_store s)))|].
    by apply fmap_sublist.
  - intros job Hjob. destruct (Hr job Hjob) as [Hready Hpark]. split_and!; [done..|].
    assert (job ∈ heads [] (st_all (_jobs_store s))) as Hin by (by eapply elem_of_sublist).
    apply heads_spec in Hin as (l1 & l2 & ? & _ & _ & ?). by exists l1, l2.
Qed.

(** ** Attempts and their rows *)

(** An attempt that stands for its row, or is on its way out. *)
Definition settled (store : S) (k : string) (a : _Attempt) : Prop :=
  (∃ job, st_get store k = Some job ∧ attempt_current a job = true) ∨ is_Some (revoke_deadline a).

(** A step on the attempt of one key. *)
Definition touches (k : string) s s' : Prop :=
  _jobs_store s' = _jobs_store s ∧ dkeys (_attempts s') = dkeys (_attempts s) ∧
  ∀ k', k' ≠ k → dget (_attempts s') k' = dget (_attempts s) k'.

Lemma touches_set k a s s' :
  k ∈ dkeys (_attempts s) → _jobs_store s' = _jobs_store s → _attempts s' = _attempts s →
  touches k s (set_attempt k a s').
Proof.
  intros Hk Hj Ha. split_and!; [done|..].
  - change (_attempts (set_attempt k a s')) with (dset (_attempts s') k a).
    rewrite Ha. by apply dkeys_dset_present.
  - intros k' Hne. change (_attempts (set_attempt k a s')) with (dset (_attempts s') k a).
    by rewrite Ha, dget_dset_ne.
Qed.

(** Sending changes nothing but the wire. *)
Lemma send_revoke_wire a r s (Q : bool → Coordinator S → Prop) R :
  (∀ b s', _jobs_store s' = _jobs_store s → _attempts s' = _attempts s → Q b s') →
  wp (_send_revoke D a r) Q R s.
Proof.
  intros HQ. unfold _send_revoke, _safe_send. wp_go; by apply HQ.
Qed.

Lemma reconcile_attempt_settles k a s :
  dget (_attempts s) k = Some a →
  wp (reconcile_attempt D k a)
    (λ _ s', touches k s s' ∧ ∀ a', dget (_attempts s') k = Some a' → settled (_jobs_store s) k a')
    (λ _ _, False) s.
Proof.
  intros Ha. assert (k ∈ dkeys (_attempts s)) as Hk by (apply elem_of_dkeys; eauto).
  assert (∀ a0 r, is_Some (revoke_deadline a0) →
    wp (let* sent := if revoke_sent a0 then mret true else _send_revoke D a0 r in
        modify (set_attempt k (a0 <| revoke_sent := sent |>)))
    (λ _ s', touches k s s' ∧ ∀ a', dget (_attempts s') k = Some a' → settled (_jobs_store s) k a')
    (λ _ _, False) s) as Hdead.
  { intros a0 r Hd. apply wp_bind.
    assert (∀ b s', _jobs_store s' = _jobs_store s → _attempts s' = _attempts s →
      wp (modify (set_attempt k (a0 <| revoke_sent := b |>)))
        (λ _ s', touches k s s' ∧ ∀ a', dget (_attempts s') k = Some a' → settled (_jobs_store s) k a')
        (λ _ _, False) s') as Hset.
    { intros b s' Hj E. apply wp_modify. split; [by apply touches_set|].
      intros a'. change (_attempts (set_attempt k _ s')) with
        (dset (_attempts s') k (a0 <| revoke_sent := b |>)).
      rewrite dget_dset_eq. intros [= <-]. by right. }
    case_match; [apply wp_ret; by apply Hset|]. by apply send_revoke_wire. }
  unfold reconcile_attempt. apply wp_bind, wp_get.
  assert (is_Some (revoke_deadline match revoke_deadline a with
    | Some _ => a
    | None => a <| revoke_deadline := Some (d_clock D + _lease_s s)%Z |>
    end)) as Hdl by (destruct (revoke_deadline a) eqn:E; [by rewrite E|by eexists]).
  destruct (st_get (_jobs_store s) k) as [job|] eqn:Hg; [|by apply Hdead].
  destruct (attempt_current a job) eqn:Hc; [|by apply Hdead].
  destruct (cancel_pending job && negb (revoke_sent a)).
  - apply wp_bind, send_revoke_wire. intros b s' Hj E. apply wp_modify.
    split; [by apply touches_set|]. intros a'.
    change (_attempts (set_attempt k _ s')) with (dset (_attempts s') k (a <| revoke_sent := b |>)).
    rewrite dget_dset_eq. intros [= <-]. left. by exists job.
  - apply wp_ret. split; [done|]. rewrite Ha. intros a' [= <-]. left. by exists job.
Qed.

Lemma reconcile_loop_settles l s :
  NoDup (dkeys l) → (∀ k a, (k, a) ∈ l → dget (_attempts s) k = Some a) →
  wp (for_each l (λ p, reconcile_attempt D p.1 p.2))
    (λ _ s', _jobs_store s' = _jobs_store s ∧ dkeys (_attempts s') = dkeys (_attempts s) ∧
       ∀ k a', dget (_attempts s') k = Some a' →
         if decide (k ∈ dkeys l) then settled (_jobs_store s) k a'
         else dget (_attempts s) k = Some a')
    (λ _ _, False) s.
Proof.
  revert s. induction l as [|[k a] l IH]; intros s Hd Hl.
  { apply wp_ret. split_and!; try done. }
  unfold dkeys in Hd. csimpl in Hd. apply NoDup_cons in Hd as [Hk Hd]. apply wp_bind.
  eapply wp_mono; [apply reconcile_attempt_settles, Hl; left| |done].
  intros u s1 [(Hj & Hkeys & Hrest) Hset]. eapply wp_mono; [apply (IH s1 Hd)| |done].
  - intros k' a' Hin. rewrite Hrest; [apply Hl; by right|]. intros ->. apply Hk.
    apply list_elem_of_fmap. by exists (k, a').
  - intros _ s2 (Hj2 & Hkeys2 & H2). split_and!; [congruence..|].
    intros k' a' Ha'. specialize (H2 k' a' Ha'). rewrite Hj in H2.
    change (dkeys ((k, a) :: l)) with (k :: dkeys l).
    destruct (decide (k' ∈ dkeys l)) as [Hin|Hin].
    + rewrite decide_True by by right. done.
    + destruct (decide (k' = k)) as [->|Hne].
      * rewrite decide_True by left. by apply Hset.
      * rewrite decide_False by (rewrite elem_of_cons; tauto). by rewrite <-Hrest.
Qed.

Lemma restore_keeps s :
  wf_dict (_attempts s) →
  wp (_restore_durable_attempts_locked)
    (λ _ s', _jobs_store s' = _jobs_store s ∧ wf_dict (_attempts s')) (λ _ _, False) s.
Proof.
  intros Hd. unfold _restore_durable_attempts_locked. apply wp_bind, wp_get.
  apply wp_for_each; [|done]. intros job s' _ [Hj Hd']. apply wp_modify. case_match; [|done].
  split; [done|by apply wf_dset].
Qed.

(** An attempt does not outlive its row.  After the recovery pass that
    precedes every sweep and every frame, each attempt in the table either still
    stands for its row (an offer of a ready row, or the recorded attempt of a
    leased one) or has a deadline that has not passed, at which it is dropped
    whether or not the client ever answered the revocation. *)
Theorem attempts_do_not_outlive_rows s s' :
  wf_dict (_attempts s) → _recover_due_locked D s = (Ok tt, s') →
  wf_dict (_attempts s') ∧
  ∀ k a, dget (_attempts s') k = Some a →
    (∃ job, st_get (_jobs_store s') k = Some job ∧ attempt_current a job = true) ∨
    (∃ t, revoke_deadline a = Some t ∧ (d_clock D < t)%Z).
Proof.
  intros Hd E. assert (wp (_recover_due_locked D) (λ _ s', wf_dict (_attempts s') ∧
    ∀ k a, dget (_attempts s') k = Some a →
      (∃ job, st_get (_jobs_store s') k = Some job ∧ attempt_current a job = true) ∨
      (∃ t, revoke_deadline a = Some t ∧ (d_clock D < t)%Z)) (λ _ _, True) s) as Hw;
    [|exact (wp_run _ _ _ _ Hw _ _ E)]. clear E.
  unfold _recover_due_locked. do 2 (apply wp_bind, wp_store_call; intros [?|?] ? _; [|done]; cbn).
  apply wp_bind, wp_modify, wp_bind.
  eapply wp_mono; [by apply restore_keeps| |done]. intros _ s1 [_ Hd1].
  apply wp_bind. unfold _reconcile_attempts_locked at 1. apply wp_bind, wp_get.
  eapply wp_mono; [apply reconcile_loop_settles; [done|]| |done].
  { by intros; apply elem_dget. }
  intros _ s2 (Hj & Hk & H2). apply wp_modify.
  assert (wf_dict (_attempts s2)) as Hd2 by (unfold wf_dict; by rewrite Hk).
  split; [by apply wf_filter|]. intros k att [Ha Hf]%dget_filter; [|done]. cbn in Hf.
  specialize (H2 k att Ha). rewrite decide_True in H2.
  2: { rewrite <-Hk. apply elem_of_dkeys. eauto. }
  change (_jobs_store (update _attempts _ s2)) with (_jobs_store s2). rewrite Hj.
  destruct H2 as [?|[t Ht]]; [by left|right]. exists t. split; [done|].
  rewrite Ht in Hf. apply negb_true_iff, bool_decide_eq_false in Hf. lia.
Qed.

(** ** Frames *)

Context `{!JobStoreLaws S}.

Definition keeps_store s s' : Prop := st_ok (_jobs_store s) → st_ok (_jobs_store s').

(** A step that writes no authorization and keeps the store's invariant. *)
Definition mute s s' : Prop :=
  keeps_store s s' ∧ ∃ w, wire s' = wire s ++ w ∧ Forall (λ f, is_authorization f = false) w.

(** The row whose playback an authorization frame announces. *)
Definition authorized_row (store : S) (k a : string) : Prop :=
  ∃ job, st_get store k = Some job ∧ delivery_state job = Dlv.AUTHORIZED ∧
    delivery_attempt_id job = Some a ∧ cancel_pending job = false.

(** Every authorization a step writes is backed by the store it leaves. *)
Definition backed s s' : Prop :=
  keeps_store s s' ∧ ∃ w, wire s' = wire s ++ w ∧
    ∀ c k a, (c, JobDeliveryAuthorized k a) ∈ w → authorized_row (_jobs_store s') k a.

Lemma quiet_mute s s' : quiet s s' → mute s s'.
Proof. intros (E & _ & Hw). split; [|done]. unfold keeps_store. by rewrite E. Qed.

Lemma mute_trans s1 s2 s3 : mute s1 s2 → mute s2 s3 → mute s1 s3.
Proof.
  intros (K1 & w & Hw & Hf) (K2 & w' & Hw' & Hf'). split; [unfold keeps_store in *; auto|].
  exists (w ++ w'). split; [by rewrite Hw', Hw, app_assoc|by apply Forall_app].
Qed.

Lemma mute_backed s1 s2 s3 : mute s1 s2 → backed s2 s3 → backed s1 s3.
Proof.
  intros (K1 & w & Hw & Hf) (K2 & w' & Hw' & Hb). split; [unfold keeps_store in *; auto|].
  exists (w ++ w'). split; [by rewrite Hw', Hw, app_assoc|].
  intros c k a [Hin|Hin]%elem_of_app; [|by eapply Hb].
  rewrite Forall_forall in Hf. by specialize (Hf _ Hin).
Qed.

Lemma backed_refl s : backed s s.
Proof.
  split; [by unfold keeps_store|]. exists []. rewrite app_nil_r. split; [done|].
  by intros c k a ?%not_elem_of_nil.
Qed.

Lemma mute_is_backed s s' : mute s s' → backed s s'.
Proof. intros Hm. eapply mute_backed; [exact Hm|apply backed_refl]. Qed.

Lemma backed_quiet s1 s2 s3 : backed s1 s2 → quiet s2 s3 → backed s1 s3.
Proof.
  intros (K & w & Hw & Hb) (E & _ & w' & Hw' & Hf). split; [unfold keeps_store in *; by rewrite E|].
  exists (w ++ w'). split; [by rewrite Hw', Hw, app_assoc|]. rewrite E.
  intros c k a [Hin|Hin]%elem_of_app; [by eapply Hb|].
  rewrite Forall_forall in Hf. by specialize (Hf _ Hin).
Qed.

Lemma quiet_backed s s' : quiet s s' → backed s s'.
Proof. intros Hq. by apply mute_is_backed, quiet_mute. Qed.

(** A store operation leaves the wire alone, and the store well. *)
Lemma wp_call {A} (f : Env → PyM S A) (Q : A → Coordinator S → Prop) R s :
  (∀ env j, st_ok j → st_ok (f env j).2) →
  (∀ s', mute s s' → (∀ e, R e s') ∧
    ∀ a, f (d_jobs D (store_calls s)) (_jobs_store s) = (Ok a, _jobs_store s') → Q a s') →
  wp (store_call D f) Q R s.
Proof.
  intros Hf HQ. apply wp_store_call. intros o j E s'.
  assert (mute s s') as Hm.
  { split; [|exists []; by rewrite app_nil_r]. intros Hok.
    pose proof (Hf (d_jobs D (store_calls s)) _ Hok) as Hj. by rewrite E in Hj. }
  destruct (HQ s' Hm) as [HR Ha]. destruct o; [by apply Ha|by apply HR].
Qed.

(** A store call followed by quiet work. *)
Lemma call_then_backed {A B} (f : Env → PyM S A) (k : A → DM B) s :
  (∀ env j, st_ok j → st_ok (f env j).2) →
  (∀ a s', wp (k a) (λ _, quiet s') (λ _, quiet s') s') →
  wp (mbind k (store_call D f)) (λ _, backed s) (λ _, backed s) s.
Proof.
  intros Hf Hk. apply wp_bind, wp_call; [done|]. intros s' Hm.
  split; [intros; by apply mute_is_backed|]. intros a _.
  eapply wp_mono; [apply Hk|..]; intros; by eapply mute_backed, quiet_backed.
Qed.

Lemma matches_attempt attempts b job a :
  _matches_job attempts b (Some job) a = true → delivery_state job ≠ Dlv.READY →
  delivery_attempt_id job = Some a.
Proof.
  unfold _matches_job. intros Hm Hr. apply andb_true_iff in Hm as [_ Hm].
  destruct (dget attempts (id_ job)); [|done]. apply andb_true_iff in Hm as [_ Hm].
  rewrite bool_decide_eq_false_2 in Hm by done. apply andb_true_iff in Hm as [_ Hm].
  by apply bool_decide_eq_true in Hm.
Qed.

Lemma pop_offer_quiet k s :
  wp (modify (pop_attempt k) ;;; _offer_heads_locked loads D) (λ _, quiet s) (λ _, quiet s) s.
Proof. apply quiet_bind; [by apply quiet_modify|]. intros. apply offer_heads_quiet. Qed.

(** Announcing an authorization the store already holds. *)
Lemma announce_backed s0 c k a s :
  mute s0 s → authorized_row (_jobs_store s) k a →
  wp (send_json D c (JobDeliveryAuthorized k a)) (λ _, backed s0) (λ _, backed s0) s.
Proof.
  intros Hm Ha. unfold send_json, _safe_send. apply wp_bind. case_match.
  - apply wp_bind, wp_modify, wp_ret. wp_go; [done|]. eapply mute_backed; [exact Hm|].
    split; [by unfold keeps_store|]. exists [(c, JobDeliveryAuthorized k a)]. split; [done|].
    intros c' k' a' Hin%list_elem_of_singleton. by simplify_eq.
  - apply wp_ret. wp_go; [|done]. by apply mute_is_backed.
Qed.

(** Quiet work, from a state that follows [s] silently. *)
Lemma quiet_after {A} (m : DM A) s s' :
  mute s s' → wp m (λ _, quiet s') (λ _, quiet s') s' → wp m (λ _, backed s) (λ _, backed s) s'.
Proof. intros Hm Hq. eapply wp_mono; [exact Hq|..]; intros; by eapply mute_backed, quiet_backed. Qed.

Lemma mute_refl s : mute s s.
Proof. apply quiet_mute, quiet_refl. Qed.

Lemma start_backed k a c s :
  st_ok (_jobs_store s) →
  wp (store_call D (λ env, st_authorize env k a) ;;; send_json D c (JobDeliveryAuthorized k a))
    (λ _, backed s) (λ _, backed s) s.
Proof.
  intros Hok. apply wp_bind, wp_call; [intros; by apply law_authorize|]. intros s' Hm.
  split; [intros; by apply mute_is_backed|]. intros j Hcall. apply announce_backed; [done|].
  destruct (law_authorized _ _ _ _ _ _ Hok Hcall) as (? & ? & ? & ?). by exists j.
Qed.

Lemma dispatch_backed ft frame e b job k a s :
  st_ok (_jobs_store s) → st_get (_jobs_store s) k = Some job →
  _matches_job (_attempts s) b (Some job) a = true →
  wp (dispatch loads D ft frame e b job k a) (λ _, backed s) (λ _, backed s) s.
Proof.
  intros Hok Hg Hm. pose proof (mute_refl s) as Hs. unfold dispatch. apply wp_bind, wp_get.
  assert (∀ a0 r, wp (_send_revoke D a0 r ;;; mret tt) (λ _, backed s) (λ _, backed s) s) as Hrev.
  { intros. apply quiet_after; [done|]. apply quiet_bind; [apply send_revoke_quiet|].
    intros. apply quiet_ret. }
  assert (wp (_deny D e (Some k) (Some a) "stale_attempt") (λ _, backed s) (λ _, backed s) s)
    as Hdeny by (apply quiet_after; [done|apply deny_quiet]).
  case_bool_decide.
  { destruct (dget (_attempts s) k) as [at0|]; [|done]. case_match; [|done].
    apply call_then_backed; [intros; by apply law_claim|]. intros. by apply quiet_modify. }
  case_bool_decide.
  { destruct (dget (_attempts s) k) as [at0|]; [case_match; [done|]|].
    all: apply call_then_backed; [intros; by apply law_renew|intros; apply quiet_ret]. }
  case_bool_decide.
  { case_bool_decide as Hst; [|by apply start_backed].
    destruct (cancel_pending job) eqn:Hc.
    - destruct (dget (_attempts s) k); [done|]. by apply quiet_after, quiet_ret.
    - apply announce_backed; [done|]. exists job. split_and!; try done.
      eapply matches_attempt; [exact Hm|]. by rewrite Hst. }
  case_bool_decide.
  { apply call_then_backed; [intros; by apply law_mark_playing|intros; apply quiet_ret]. }
  case_bool_decide.
  { apply call_then_backed; [intros; by apply law_mark_delivered|intros; apply pop_offer_quiet]. }
  case_bool_decide; [|by apply quiet_after, quiet_ret].
  apply call_then_backed; [intros; by apply law_nack|].
  intros. apply quiet_bind; [by apply quiet_modify|]. intros.
  apply quiet_bind; [|intros; apply offer_heads_quiet].
  case_match; [by apply quiet_modify|apply quiet_ret].
Qed.

Lemma revoked_ack_backed b k a s :
  wp (_handle_revoked_ack_locked loads D b k a) (λ _, backed s) (λ _, backed s) s.
Proof.
  assert (∀ (g : bool) s', mute s s' →
    wp (if negb g then modify (pop_attempt k) ;;; _offer_heads_locked loads D else mret tt)
      (λ _, backed s) (λ _, backed s) s') as Hend.
  { intros g s' Hm. apply quiet_after; [done|].
    destruct g; cbn [negb]; [apply quiet_ret|apply pop_offer_quiet]. }
  pose proof (mute_refl s) as Hs. unfold _handle_revoked_ack_locked. apply wp_bind, wp_get.
  destruct (dget (_attempts s) k) as [at0|]; [|by apply wp_ret, backed_refl].
  destruct (negb _); [by apply wp_ret, backed_refl|]. apply wp_bind.
  destruct (match st_get _ _ with Some _ => _ | None => _ end);
    [|by apply wp_ret, (Hend false)].
  apply wp_try_except, wp_bind, wp_call; [intros; by apply law_nack|]. intros s' Hm.
  split; [|intros; by apply wp_ret, (Hend false)].
  intros x. destruct x; by apply mute_is_backed.
Qed.

(** ** Frames, whole *)

Lemma recover_mute s : wp (_recover_due_locked D) (λ _, mute s) (λ _, mute s) s.
Proof.
  unfold _recover_due_locked.
  apply wp_bind, wp_call; [intros; by apply law_expire_due|]. intros s1 H1. split; [done|]. intros _ _.
  apply wp_bind, wp_call; [intros; by apply law_expire_leases|]. intros s2 H2.
  assert (mute s s2) as H02 by by eapply mute_trans. split; [done|]. intros _ _.
  eapply wp_mono; [|intros ? ? Hq; eapply mute_trans, quiet_mute; [exact H02|exact Hq]..].
  apply quiet_bind; [by apply quiet_modify|]. intros _ s3 _.
  apply quiet_bind; [|intros _ s4 _; apply quiet_bind; [|intros _ s5 _; by apply quiet_modify]].
  - unfold _restore_durable_attempts_locked. apply wp_bind, wp_get. apply for_each_quiet.
    intros. apply quiet_modify. intros. by case_match.
  - unfold _reconcile_attempts_locked. apply wp_bind, wp_get. apply for_each_quiet.
    intros. apply reconcile_attempt_quiet.
Qed.

Lemma sweep_mute s : wp (sweep_once loads D) (λ _, mute s) (λ _, mute s) s.
Proof.
  unfold sweep_once. apply wp_bind. eapply wp_mono; [apply recover_mute| |done].
  intros u s1 H1. eapply wp_mono; [apply offer_heads_quiet|..]; intros ? ? Hq;
    eapply mute_trans, quiet_mute; [exact H1|exact Hq|exact H1|exact Hq].
Qed.

Lemma sweep_keeps s :
  st_ok (_jobs_store s) → st_ok (_jobs_store (sweep_once loads D s).2).
Proof.
  intros Hok. destruct (sweep_once loads D s) as [o s'] eqn:E.
  pose proof (wp_run _ _ _ _ (sweep_mute s) _ _ E) as Hr. by destruct o; apply (proj1 Hr).
Qed.

(** [handle] is a sweep, then the frame. *)
Definition after_sweep (e : endpoint) (ft : string) (frame : list (string * json)) : DM unit :=
  let* s := get in
  let job_id := _identifier (obj_get frame "job_id") in
  let attempt_id := _identifier (obj_get frame "delivery_attempt_id") in
  match _current_bound (_routes s) e, job_id, attempt_id with
  | Some bound, Some job_id, Some attempt_id =>
    if bool_decide (ft = "job_revoked")
    then _handle_revoked_ack_locked loads D bound job_id attempt_id
    else
      match st_get (_jobs_store s) job_id with
      | Some job =>
        if _matches_job (_attempts s) bound (Some job) attempt_id then
          try_except (dispatch loads D ft frame e bound job job_id attempt_id)
            (λ x, match x with
                  | JobTransitionError =>
                    Some (_deny D e (Some job_id) (Some attempt_id) "stale_attempt")
                  | _ => None
                  end)
        else _deny D e (Some job_id) (Some attempt_id) "stale_attempt"
      | None => _deny D e (Some job_id) (Some attempt_id) "stale_attempt"
      end
  | _, _, _ => _deny D e job_id attempt_id "invalid_frame"
  end.

Definition supported (ft : string) (frame : list (string * json)) : bool :=
  bool_decide (ft ∈ _INBOUND_TYPES) && is_protocol _PROTOCOL (obj_get frame "protocol").

Lemma handle_is_sweep e frame ft s :
  obj_get frame "type" = JStr ft →
  handle loads D e frame s =
  (if supported ft frame then sweep_once loads D ;;; after_sweep e ft frame else mret tt) s.
Proof.
  intros Ht. unfold handle. rewrite Ht. fold (supported ft frame).
  destruct (supported ft frame); [|done].
  cbn [negb]. unfold sweep_once, after_sweep, mbind, pym_bind.
  by destruct (_recover_due_locked D s) as [[]].
Qed.

Lemma after_sweep_backed e ft frame s :
  st_ok (_jobs_store s) →
  wp (after_sweep e ft frame) (λ _, backed s) (λ _, backed s) s.
Proof.
  intros Hok. pose proof (mute_refl s) as Hs.
  assert (∀ k a r, wp (_deny D e k a r) (λ _, backed s) (λ _, backed s) s) as Hdeny
    by (intros; apply quiet_after; [done|apply deny_quiet]).
  unfold after_sweep. apply wp_bind, wp_get.
  destruct (_current_bound _ e) as [b|]; [|done].
  destruct (_identifier (obj_get frame "job_id")) as [k|]; [|done].
  destruct (_identifier (obj_get frame "delivery_attempt_id")) as [a|]; [|done].
  case_bool_decide; [apply revoked_ack_backed|].
  destruct (st_get _ k) as [job|] eqn:Hj; [|done].
  destruct (_matches_job _ b (Some job) a) eqn:Hm; [|done].
  apply wp_try_except. eapply wp_mono; [by apply dispatch_backed|done|].
  intros x s' Hb. destruct x; try exact Hb.
  eapply wp_mono; [apply deny_quiet|..]; intros ? s'' Hq; cbn in Hq; by eapply backed_quiet.
Qed.


(** Is the frame about an attempt of the sender that the table still holds? *)
Definition answers (e : endpoint) (ft : string) (frame : list (string * json)) s : bool :=
  match _current_bound (_routes s) e, _identifier (obj_get frame "job_id"),
        _identifier (obj_get frame "delivery_attempt_id") with
  | Some bound, Some k, Some a =>
    if bool_decide (ft = "job_revoked") then
      match dget (_attempts s) k with
      | Some at0 => bool_decide (at_attempt_id at0 = a) && bool_decide (at_route_id at0 = route_id bound)
                    && is_endpoint at0 bound && revoke_sent at0
      | None => false
      end
    else _matches_job (_attempts s) bound (st_get (_jobs_store s) k) a
  | _, _, _ => false
  end.

Definition with_frames (w : list (nat * Frame)) s : Coordinator S :=
  s <| wire ::= λ w0, w0 ++ w |>.

Lemma with_no_frames s : with_frames [] s = s.
Proof. destruct s. cbv -[app]. by rewrite app_nil_r. Qed.

Lemma deny_frames e k a r s :
  ∃ w, _deny D e k a r s = (Ok tt, with_frames w s) ∧
    (w = [] ∨ w = [(endpoint_connection e, JobRevoke k a r)]).
Proof.
  unfold _deny, _safe_send. destruct (d_sends D _ _).
  - eexists. split; [reflexivity|by right].
  - exists []. split; [by rewrite with_no_frames|by left].
Qed.

(** A frame that does not match is inert.  Outside the protocol, [handle]
    does nothing at all.  Within it, a frame from a connection that is not the
    route's present one, or about an unknown job, or an attempt that is not the
    current one, has no effect beyond the sweep that every frame triggers, and is
    answered with at most one revocation, to its own sender. *)
Theorem unmatched_frames_are_inert e frame ft s s1 :
  obj_get frame "type" = JStr ft →
  (supported ft frame = false → handle loads D e frame s = (Ok tt, s)) ∧
  (supported ft frame = true → sweep_once loads D s = (Ok tt, s1) → answers e ft frame s1 = false →
   ∃ w, handle loads D e frame s = (Ok tt, with_frames w s1) ∧
     (w = [] ∨ ∃ k a r, w = [(endpoint_connection e, JobRevoke k a r)])).
Proof.
  intros Ht. rewrite (handle_is_sweep _ _ _ _ Ht). split; [by intros ->|]. intros -> Hs Ha.
  cbv [mbind pym_bind]. rewrite Hs. unfold after_sweep, answers in *. cbv [mbind pym_bind get].
  assert (∀ k a r, ∃ w, _deny D e k a r s1 = (Ok tt, with_frames w s1) ∧
    (w = [] ∨ ∃ k a r, w = [(endpoint_connection e, JobRevoke k a r)])) as Hdeny.
  { intros k a r. destruct (deny_frames e k a r s1) as (w & Hw & Hf). exists w. split; [done|].
    destruct Hf as [->| ->]; [by left|right; eauto]. }
  destruct (_current_bound _ e) as [b|]; [|by apply Hdeny].
  destruct (_identifier (obj_get frame "job_id")) as [k|]; [|by apply Hdeny].
  destruct (_identifier (obj_get frame "delivery_attempt_id")) as [a|]; [|by apply Hdeny].
  case_bool_decide.
  - exists []. split; [|by left]. rewrite with_no_frames. unfold _handle_revoked_ack_locked.
    cbv [mbind pym_bind get]. destruct (dget (_attempts s1) k) as [at0|]; [|done]. by rewrite Ha.
  - destruct (st_get _ k) as [job|]; [rewrite Ha|]; by apply Hdeny.
Qed.
End coordinator.

(** ** Private results on the wire *)

(** A private result is not put on the wire.  Whatever a private result says,
    the text that offers it over voice is the fixed sentence for private results,
    or that sentence announced in the name of the specialist. *)
Theorem private_results_unspoken loads job text payload r :
  result job = Some text → loads text = Some payload → parse_voice_job_result payload = Ok r →
  sensitivity r = "private" →
  let fixed := if prompted_delivery job then _PRIVATE_PROMPTED else _PRIVATE_UNPROMPTED in
  let speaker := if str_true (specialist_display_name job)
                 then specialist_display_name job else "The specialist" in
  _spoken_text loads job = fixed ∨
  Some (_spoken_text loads job) = announcement (Some speaker) fixed (seed_for (id_ job)).
Proof.
  intros Hr Hl Hp Hs. cbv zeta. unfold _spoken_text. rewrite Hr, Hl, Hp.
  assert (spoken_text_for r (prompted_delivery job)
    (voice_identity_clearance (JObj [("channel", JStr "voice")])) =
    if prompted_delivery job then _PRIVATE_PROMPTED else _PRIVATE_UNPROMPTED) as ->
    by (unfold spoken_text_for; by rewrite Hs).
  case_match; [right|by left].
  edestruct (announcement_some (Some (if str_true (specialist_display_name job)
    then specialist_display_name job else "The specialist"))) as [x Hx].
  by rewrite Hx.
Qed.

(** ** The job registry as the store *)

#[export] Instance registry_store : JobStore JobRegistry := {
  st_set_lease l s := s <| LEASE_SECONDS := l |>;
  st_get s k := dget (_jobs s) k;
  st_all s := sorted_jobs (_jobs s);
  st_expire_due := expire_due;
  st_expire_leases := expire_leases;
  st_claim := claim;
  st_renew := renew;
  st_authorize := authorize;
  st_mark_playing := mark_playing;
  st_mark_delivered := mark_delivered;
  st_nack := nack
}.

(** An operation with a durable effect keeps the registry well formed. *)
Lemma effect_keeps {A} o (m : M A) s :
  registry_wf s → wp m (λ _, effect o s) (refused o s) s → registry_wf (m s).2.
Proof.
  intros Hwf Hm. destruct (m s) as [r s'] eqn:E. pose proof (wp_run _ _ _ _ Hm _ _ E) as Hr.
  cbn [snd]. destruct r as [a|e].
  - destruct Hr as [Hc|Hc]; [by eapply core_wf|by eapply co_wf].
  - destruct Hr as [->|[_ Hc]]; [done|by eapply co_wf].
Qed.

(** An authorization that returns is the registry's row. *)
Lemma authorize_row env k a s :
  registry_wf s →
  wp (authorize env k a)
    (λ j s', dget (_jobs s') k = Some j ∧ delivery_state j = Dlv.AUTHORIZED ∧
             delivery_attempt_id j = Some a ∧ cancel_pending j = false) (λ _ _, True) s.
Proof.
  intros Hwf. unfold authorize, _persist_job_locked. op_go.
  match goal with Hj : dget (_jobs s) k = Some ?j |- _ => rename j into job; rename Hj into Hrow end.
  destruct (rw_rows _ Hwf _ _ Hrow) as [Hid Hj]. apply wp_commit; [done|]. intros v _ _ s'.
  split; [|done]. apply wp_ret.
  pose proof (publish_core (_with_job s (job <| delivery_state := Dlv.AUTHORIZED |>)) no_after
    (s <| disk := Holds v |>) no_after_runtime) as Hc. apply core_eq in Hc as (E1 & _).
  subst s'. rewrite E1. unfold _with_job. split_and!; try done.
  - rewrite <-Hid. apply dget_dset_eq.
  - change (cancel_pending (update delivery_state _ job)) with (cancel_pending job).
    destruct Hj as (Hlive & _ & _ & _ & Hc & _). destruct (cancel_pending job); [|done].
    destruct (Hc eq_refl) as [Hl|Hl]; [|congruence].
    by destruct (Hlive Hl) as (? & _); congruence.
Qed.

#[export] Program Instance registry_laws : JobStoreLaws JobRegistry := {
  st_ok := registry_wf
}.
Next Obligation. intros env s Hwf. by eapply effect_keeps, (expire_due_effect env s Hwf OExpireDue). Qed.
Next Obligation. intros env s Hwf. by eapply effect_keeps, (expire_leases_effect env s Hwf OExpireDue). Qed.
Next Obligation. intros. by eapply effect_keeps, claim_effect. Qed.
Next Obligation. intros env *. intros Hwf. by eapply effect_keeps, (renew_effect env _ Hwf OExpireDue). Qed.
Next Obligation. intros. by eapply effect_keeps, authorize_effect. Qed.
Next Obligation. intros. by eapply effect_keeps, mark_playing_effect. Qed.
Next Obligation. intros. by eapply effect_keeps, mark_delivered_effect. Qed.
Next Obligation. intros env *. intros Hwf. by eapply effect_keeps, (nack_effect env _ Hwf OExpireDue). Qed.
Next Obligation.
  intros env k a s j s' Hwf E. exact (wp_run _ _ _ _ (authorize_row env k a s Hwf) _ _ E).
Qed.

(** ** Evaluation *)

Definition sample_delivery : DEnv :=
  mkDEnv (seconds 100) (λ _, sample_env) (λ _ _, true) (λ _, "x").
Definition sample_loads : string → option json := λ _, Some sample_payload.
Definition bound_routes : VoiceRouteRegistry := (register 5 1 sample_registration sample_routes).2.
Definition waiting : Coordinator JobRegistry :=
  mkCoordinator finished bound_routes (seconds 15) (seconds 30) [] [] [] [] 0 0.

Definition sample_frame (type : string) : list (string * json) :=
  [("type", JStr type); ("protocol", JInt 2); ("job_id", JStr "a");
   ("delivery_attempt_id", JStr "x")].
(** The attempt "x" is offered, claimed and authorized. *)
Definition offered_c : Coordinator JobRegistry := (sweep_once sample_loads sample_delivery waiting).2.
Definition claimed_c : Coordinator JobRegistry := 
  (handle sample_loads sample_delivery (Conn 1) (sample_frame "job_claimed") offered_c).2.
Definition started_c : Coordinator JobRegistry := 
  (handle sample_loads sample_delivery (Conn 1) (sample_frame "job_delivery_start") claimed_c).2.

Example scenario_frames :
  (λ p : nat * Frame, (p.1, match p.2 with JobReady j a _ _ _ _ _ _ _ => ("ready", j, a)
     | JobDeliveryAuthorized j a => ("authorized", j, a) | JobRevoke _ _ r => ("revoke", r, "") end))
    <$> wire started_c = [(1, ("ready", "a", "x")); (1, ("authorized", "a", "x"))].
Proof. vm_compute. reflexivity. Qed.

Lemma offers_follow_queues_witness :
  ∃ sent, wire (_offer_heads_locked sample_loads sample_delivery waiting).2
          = offer_frames sample_loads sent ∧ length sent = 1.
Proof.
  destruct (offers_follow_queues sample_loads sample_delivery waiting _ _
    (surjective_pairing _)) as (sent & Hw & _).
  exists sent. split; [exact Hw|].
  assert (length (offer_frames sample_loads sent) = 1) as Hl
    by (change (offer_frames sample_loads sent) with (wire waiting ++ offer_frames sample_loads sent);
        rewrite <-Hw; vm_compute; reflexivity).
  unfold offer_frames in Hl. rewrite length_fmap in Hl. exact Hl.
Defined.

Lemma attempts_do_not_outlive_rows_witness :
  wf_dict (_attempts (_recover_due_locked sample_delivery claimed_c).2).
Proof.
  refine (proj1 (attempts_do_not_outlive_rows sample_loads sample_delivery claimed_c _ _ _)).
  - vm_compute. repeat constructor. by intros ?%not_elem_of_nil.
  - destruct (_recover_due_locked sample_delivery claimed_c) as [o s'] eqn:E.
    cut (o = Ok tt); [by intros ->|]. change o with (o, s').1. rewrite <-E.
    vm_compute. reflexivity.
Defined.


Lemma unmatched_frames_are_inert_witness :
  ∃ w, handle sample_loads sample_delivery (Conn 2) (sample_frame "job_claimed") waiting
         = (Ok tt, with_frames w offered_c).
Proof.
  destruct (proj2 (unmatched_frames_are_inert sample_loads sample_delivery (Conn 2)
    (sample_frame "job_claimed") "job_claimed" waiting offered_c eq_refl)) as (w & Hw & _).
  - vm_compute. reflexivity.
  - unfold offered_c. destruct (sweep_once sample_loads sample_delivery waiting) as [o s] eqn:E.
    cut (o = Ok tt); [by intros ->|]. change o with (o, s).1. rewrite <-E. vm_compute. reflexivity.
  - vm_compute. reflexivity.
  - exists w. exact Hw.
Defined.

Lemma private_results_unspoken_witness :
  _spoken_text sample_loads (sample_job <| result := Some "r" |>) = _PRIVATE_UNPROMPTED ∨
  Some (_spoken_text sample_loads (sample_job <| result := Some "r" |>))
    = announcement (Some "Finance") _PRIVATE_UNPROMPTED (seed_for "a").
Proof.
  pose proof (private_results_unspoken sample_loads (sample_job <| result := Some "r" |>) "r"
    sample_payload sample_result) as H. vm_compute in H |- *. apply H; reflexivity.
Defined.
