(* ===== verification/VerdictBroker.v ===== *)
(** * The verdict broker

    [verdict_broker.py]: the registry of questions put to the operator.  A
    request is finished exactly once, by a committed tap, its timeout, a
    cancellation or a delivery failure, and leaves a tombstone for retries.

    Requests are shared, mutable objects: the live table, claims, setup tasks
    and callers hold references, so they live in a store [requests] and a
    reference is an index into it.  The event loop is the lists of pending
    callbacks: [timers] (armed timeouts), [pops] (tombstone removals) and
    [setups] (keyboard posts under way); [hook_runs] lists the finish hooks
    started.  Operations are functions of the present time [now]. *)

From S2P Require Import Prelude PyDict Json.

(** ** Data *)

Definition Key : Type := string * string * string.

(** How a request ended: the values of the ["outcome"] dictionary. *)
Inductive verdict :=
  | answered (option_index : Z) (actor_id : json) (option_indices : option (list Z))
  | no_answer
  | cancelled_by (reason : string)
  | delivery_failed.

(** The keys of [meta] that the broker reads or writes, and the rest. *)
Record Meta := mkMeta {
  operator_id : json;                  (** [meta.get("operator_id")] *)
  selected : option (list Z);
  message_id : option Z;
  other_meta : list (string * json)
}.
#[export] Instance meta_eta : Eta Meta := λ m,
  mkMeta (operator_id m) (selected m) (message_id m) (other_meta m).

Record PendingRequest := mkRequest {
  namespace : string;
  scope : string;
  request_id : string;
  timeout_s : Z;
  detached : bool;
  meta : Meta;
  _future : option verdict;            (** the result of the shared future *)
  _timer : option nat;                 (** the handle of the armed timeout *)
  _id : nat;
  _deadline : Z;
  _claimed : option nat;               (** the token of the reserved tap *)
  _hook : option nat;
  _hook_fired : bool;
  _setup_task : option nat
}.
#[export] Instance request_eta : Eta PendingRequest := λ q,
  mkRequest (namespace q) (scope q) (request_id q) (timeout_s q) (detached q) (meta q) (_future q)
    (_timer q) (_id q) (_deadline q) (_claimed q) (_hook q) (_hook_fired q) (_setup_task q).

Definition req_key (q : PendingRequest) : Key := (namespace q, scope q, request_id q).

Record _RetiredEntry := mkRetired {
  ret_outcome : verdict;
  ret_meta : Meta;
  entry_id : nat;
  ret_ref : nat                        (** the identity of the entry object *)
}.

Record _Claim := mkClaim {
  cl_req : nat;
  cl_token : nat;
  cl_option_index : Z;
  cl_actor_id : json;
  cl_option_indices : option (list Z)
}.

Inductive claim_reply := Claimed (c : _Claim) | Forbidden | Duplicate | Stale.

Record VerdictBroker := mkBroker {
  requests : list PendingRequest;      (** every request object, by reference *)
  _live : list (Key * nat);
  _retired : list (Key * _RetiredEntry);
  _id_counter : nat;
  fresh : nat;                         (** identities of handles, tokens, entries, tasks *)
  timers : list (nat * (Z * Key));     (** armed timeouts: [_on_timeout(key)] at a time *)
  pops : list (nat * (Z * Key));       (** pending [_pop_tombstone] of an entry *)
  setups : list (nat * (nat * (Z → nat)));  (** posts under way: request, hook factory *)
  hook_runs : list (nat * (nat * verdict))  (** hooks started: request, hook, outcome *)
}.
#[export] Instance broker_eta : Eta VerdictBroker := λ s,
  mkBroker (requests s) (_live s) (_retired s) (_id_counter s) (fresh s) (timers s) (pops s)
    (setups s) (hook_runs s).

Definition new_broker : VerdictBroker := mkBroker [] [] [] 0 0 [] [] [] [].

Definition _VALID_NAMESPACES : list string := ["permission"; "engagement_ask"; "resident_ask"].
Definition _RETIRE_S : Z := seconds 60.

Definition set_req (r : nat) (f : PendingRequest → PendingRequest) (s : VerdictBroker)
    : VerdictBroker := s <| requests ::= alter f r |>.

(** ** Finishing *)

(** [_cancel_timer] *)
Definition _cancel_timer (r : nat) (s : VerdictBroker) : VerdictBroker :=
  match requests s !! r ≫= _timer with
  | Some h => set_req r (λ q, q <| _timer := None |>) (s <| timers ::= λ d, ddel d h |>)
  | None => s
  end.

(** [_fire_hook]: start the hook's task, once. *)
Definition _fire_hook (r : nat) (outcome : verdict) (s : VerdictBroker) : VerdictBroker :=
  match requests s !! r with
  | Some q =>
    if _hook_fired q then s
    else match _hook q with
         | None => s
         | Some h => set_req r (λ q, q <| _hook_fired := true |>)
                       (s <| hook_runs ::= λ l, l ++ [(r, (h, outcome))] |>)
         end
  | None => s
  end.

(** [if not req._future.done(): req._future.set_result(outcome)] *)
Definition resolve (outcome : verdict) (q : PendingRequest) : PendingRequest :=
  match _future q with None => q <| _future := Some outcome |> | Some _ => q end.

(** The tombstone of a finished request. *)
Definition retire (now : Z) (key : Key) (r : nat) (outcome : verdict) (s : VerdictBroker)
    : VerdictBroker :=
  match requests s !! r with
  | Some q =>
    s <| _retired ::= λ d, dset d key (mkRetired outcome (meta q) (_id q) (fresh s)) |>
      <| pops ::= λ d, dset d (fresh s) ((now + _RETIRE_S)%Z, key) |>
      <| fresh ::= S |>
  | None => s
  end.

(** [_finish] *)
Definition _finish (now : Z) (key : Key) (outcome : verdict) (s : VerdictBroker) : VerdictBroker :=
  match dget (_live s) key with
  | None => s
  | Some r =>
    _fire_hook r outcome (retire now key r outcome (set_req r (resolve outcome)
      (_cancel_timer r (s <| _live ::= λ d, ddel d key |>))))
  end.

(** Finish the keys [ks] one after the other. *)
Definition finish_all (now : Z) (ks : list Key) (outcome : verdict) (s : VerdictBroker)
    : VerdictBroker := foldl (λ s k, _finish now k outcome s) s ks.

(** [[k for k in self._live if k[0] == namespace and k[1] == scope]] *)
Definition scope_keys (s : VerdictBroker) (ns sc : string) : list Key :=
  filter (λ k : Key, k.1.1 = ns ∧ k.1.2 = sc) (dkeys (_live s)).

(** ** Registration *)

(** A request object: allocated at the next reference. *)
Definition alloc (q : PendingRequest) (s : VerdictBroker) : nat * VerdictBroker :=
  (length (requests s), s <| requests ::= λ l, l ++ [q] |> <| _id_counter ::= S |>).

(** A retry inside the retirement window: an object that is already resolved. *)
Definition tombstone (ns sc rid : string) (timeout : Z) (det : bool) (e : _RetiredEntry)
    (s : VerdictBroker) : PendingRequest :=
  mkRequest ns sc rid timeout det (ret_meta e) (Some (ret_outcome e)) None (_id_counter s) 0 None
    None true None.

(** A new request, with its timeout armed. *)
Definition open_request (now : Z) (ns sc rid : string) (timeout : Z) (det : bool) (m : Meta)
    (s : VerdictBroker) : nat * VerdictBroker :=
  let key := (ns, sc, rid) in
  let deadline := (now + timeout)%Z in
  let '(r, s) := alloc (mkRequest ns sc rid timeout det m None (Some (fresh s)) (_id_counter s)
                          deadline None None false None) s in
  (r, s <| timers ::= λ d, dset d (fresh s) (deadline, key) |> <| fresh ::= S |>
        <| _live ::= λ d, dset d key r |>).

(** [register]: the request, and whether it is a new one. *)
Definition register (now : Z) (ns sc rid : string) (timeout : Z) (det : bool) (m : Meta)
    (supersede : bool) : PyM VerdictBroker (nat * bool) := λ s,
  let key := (ns, sc, rid) in
  if negb (bool_decide (ns ∈ _VALID_NAMESPACES)) then (Raise ValueError, s)
  else match dget (_live s) key with
  | Some r => (Ok (r, false), s)
  | None =>
    match dget (_retired s) key with
    | Some e => let '(r, s) := alloc (tombstone ns sc rid timeout det e s) s in (Ok (r, false), s)
    | None =>
      let s := if supersede
               then finish_all now (scope_keys s ns sc) (cancelled_by "superseded") s else s in
      let '(r, s) := open_request now ns sc rid timeout det m s in (Ok (r, true), s)
    end
  end.

(** ** Claim and commit *)

(** [_actor_is_bound] *)
Definition _actor_is_bound (q : PendingRequest) (actor_id : json) : bool :=
  match operator_id (meta q) with
  | JInt expected => bool_decide (0 < expected)%Z && bool_decide (actor_id = JInt expected)
  | _ => false
  end.

Definition is_answered (v : verdict) : bool :=
  match v with answered _ _ _ => true | _ => false end.

(** [claim] *)
Definition claim (key : Key) (option_index : Z) (actor_id : json) (option_indices : option (list Z))
    (s : VerdictBroker) : claim_reply * VerdictBroker :=
  match dget (_live s) key ≫= λ r, (r,.) <$> requests s !! r with
  | Some (r, q) =>
    if negb (_actor_is_bound q actor_id) then (Forbidden, s)
    else match _claimed q with
    | Some _ => (Duplicate, s)
    | None =>
      let token := fresh s in
      let s := set_req r (λ q, q <| _claimed := Some token |>) (s <| fresh ::= S |>) in
      (Claimed (mkClaim r token option_index actor_id option_indices), _cancel_timer r s)
    end
  | None =>
    match dget (_retired s) key with
    | Some e => (if is_answered (ret_outcome e) then Duplicate else Stale, s)
    | None => (Stale, s)
    end
  end.

(** [req._claimed is not claim.token or req._future.done()] *)
Definition lost (q : PendingRequest) (c : _Claim) : bool :=
  negb (bool_decide (_claimed q = Some (cl_token c))) || bool_decide (is_Some (_future q)).

(** [commit] *)
Definition commit (now : Z) (c : _Claim) (s : VerdictBroker) : bool * VerdictBroker :=
  match requests s !! cl_req c with
  | Some q =>
    if lost q c then (false, s)
    else (true, _finish now (req_key q)
                  (answered (cl_option_index c) (cl_actor_id c) (cl_option_indices c)) s)
  | None => (false, s)
  end.

(** [abort_claim] *)
Definition abort_claim (now : Z) (c : _Claim) (s : VerdictBroker) : VerdictBroker :=
  match requests s !! cl_req c with
  | Some q =>
    if lost q c then s
    else
      let s := set_req (cl_req c) (λ q, q <| _claimed := None |>) s in
      let remaining := (_deadline q - now)%Z in
      if bool_decide (remaining ≤ 0)%Z then _finish now (req_key q) no_answer s
      else set_req (cl_req c) (λ q, q <| _timer := Some (fresh s) |>)
             (s <| timers ::= λ d, dset d (fresh s) ((now + remaining)%Z, req_key q) |>
                <| fresh ::= S |>)
  | None => s
  end.

(** ** Selection *)

(** [list.remove] *)
Fixpoint remove_first (x : Z) (l : list Z) : list Z :=
  match l with
  | [] => []
  | y :: l' => if bool_decide (y = x) then l' else y :: remove_first x l'
  end.

(** [toggle_selection] *)
Definition toggle_selection (key : Key) (idx : Z) (s : VerdictBroker)
    : option (list Z) * VerdictBroker :=
  match dget (_live s) key ≫= λ r, (r,.) <$> requests s !! r with
  | Some (r, q) =>
    match _claimed q with
    | Some _ => (None, s)
    | None =>
      let l := default [] (selected (meta q)) in
      let l := merge_sort Z.le (if bool_decide (idx ∈ l) then remove_first idx l else l ++ [idx]) in
      (Some l, set_req r (λ q, q <| meta ::= λ m, m <| selected := Some l |> |>) s)
    end
  | None => (None, s)
  end.

(** [is_live_unclaimed] *)
Definition is_live_unclaimed (key : Key) (s : VerdictBroker) : bool :=
  match dget (_live s) key ≫= λ r, requests s !! r with
  | Some q => negb (bool_decide (is_Some (_claimed q)))
  | None => false
  end.

(** [get_meta] *)
Definition get_meta (key : Key) (s : VerdictBroker) : option Meta :=
  match dget (_live s) key ≫= λ r, requests s !! r with
  | Some q => Some (meta q)
  | None => ret_meta <$> dget (_retired s) key
  end.

(** [pending] *)
Definition pending (ns sc : string) (s : VerdictBroker) : list string := snd <$> scope_keys s ns sc.

(** ** Cancelling *)

(** [unregister]: no tombstone, so that a retry can register afresh. *)
Definition unregister (key : Key) (s : VerdictBroker) : VerdictBroker :=
  match dget (_live s) key with
  | None => s
  | Some r => set_req r (resolve delivery_failed)
                (_cancel_timer r (s <| _live ::= λ d, ddel d key |>))
  end.

(** [cancel] *)
Definition cancel (now : Z) (key : Key) (reason : string) (s : VerdictBroker)
    : bool * VerdictBroker :=
  if dhas (_live s) key then (true, _finish now key (cancelled_by reason) s) else (false, s).

(** [cancel_scope] *)
Definition cancel_scope (now : Z) (ns sc reason : string) (s : VerdictBroker) : nat * VerdictBroker :=
  let keys := scope_keys s ns sc in
  (length keys, finish_all now keys (cancelled_by reason) s).

(** [cancel_all] *)
Definition cancel_all (now : Z) (reason : string) (s : VerdictBroker) : nat * VerdictBroker :=
  let keys := dkeys (_live s) in
  (length keys, finish_all now keys (cancelled_by reason) s).

(** ** Hooks and posts *)

(** [set_finish_hook] *)
Definition set_finish_hook (r h : nat) (s : VerdictBroker) : VerdictBroker :=
  let s := set_req r (λ q, q <| _hook := Some h |>) s in
  match requests s !! r ≫= _future with
  | Some outcome => _fire_hook r outcome s
  | None => s
  end.

(** [ensure_posted]: at most one setup task per request. *)
Definition ensure_posted (r : nat) (finish_factory : Z → nat) (s : VerdictBroker) : VerdictBroker :=
  match requests s !! r with
  | Some q =>
    match _setup_task q with
    | Some _ => s
    | None =>
      if bool_decide (is_Some (_future q)) then s
      else set_req r (λ q, q <| _setup_task := Some (fresh s) |>)
             (s <| setups ::= λ d, dset d (fresh s) (r, finish_factory) |> <| fresh ::= S |>)
    end
  | None => s
  end.

(** The end of [_run_setup]: the post raised or answered no message id ([None]),
    or the message [mid] is up. *)
Definition setup_returns (task : nat) (mid : option Z) (s : VerdictBroker) : VerdictBroker :=
  match dget (setups s) task with
  | None => s
  | Some (r, finish_factory) =>
    let s := s <| setups ::= λ d, ddel d task |> in
    match requests s !! r with
    | None => s
    | Some q =>
      match mid with
      | None => unregister (req_key q) s
      | Some m =>
        set_finish_hook r (finish_factory m)
          (set_req r (λ q, q <| meta ::= λ x, x <| message_id := Some m |> |>) s)
      end
    end
  end.

(** ** The event loop *)

(** A timeout handle that is due runs [_on_timeout]. *)
Definition timer_fires (now : Z) (h : nat) (s : VerdictBroker) : VerdictBroker :=
  match dget (timers s) h with
  | Some (t, key) =>
    if bool_decide (t ≤ now)%Z
    then _finish now key no_answer (s <| timers ::= λ d, ddel d h |>) else s
  | None => s
  end.

(** [_pop_tombstone], by the identity of the entry. *)
Definition pop_fires (now : Z) (e : nat) (s : VerdictBroker) : VerdictBroker :=
  match dget (pops s) e with
  | Some (t, key) =>
    if bool_decide (t ≤ now)%Z then
      let s := s <| pops ::= λ d, ddel d e |> in
      match dget (_retired s) key with
      | Some entry => if (ret_ref entry =? e)%nat then s <| _retired ::= λ d, ddel d key |> else s
      | None => s
      end
    else s
  | None => s
  end.
