(* ===== verification/BrokerProperties.v ===== *)
(** * What the verdict broker guarantees

    Properties of [VerdictBroker] over every interleaving of its operations and
    of the callbacks of the event loop: a request is resolved once and for ever,
    an unresolved one can always still be reached, an answer names the operator
    the request was bound to, and a finish hook runs once. *)

From S2P Require Import Prelude PyDict Json VerdictBroker.

(** ** Steps *)

Inductive bop :=
  | BRegister (ns sc rid : string) (timeout : Z) (det : bool) (m : Meta) (supersede : bool)
  | BToggle (key : Key) (idx : Z)
  | BUnregister (key : Key)
  | BCancel (key : Key) (reason : string)
  | BCancelScope (ns sc reason : string)
  | BCancelAll (reason : string)
  | BHook (r h : nat)
  | BPost (r : nat) (finish_factory : Z → nat)
  | BSetup (task : nat) (mid : option Z)
  | BTimer (h : nat)
  | BPop (e : nat).

Definition run_bop (now : Z) (o : bop) (s : VerdictBroker) : VerdictBroker :=
  match o with
  | BRegister ns sc rid t det m sup => (register now ns sc rid t det m sup s).2
  | BToggle k i => (toggle_selection k i s).2
  | BUnregister k => unregister k s
  | BCancel k why => (cancel now k why s).2
  | BCancelScope ns sc why => (cancel_scope now ns sc why s).2
  | BCancelAll why => (cancel_all now why s).2
  | BHook r h => set_finish_hook r h s
  | BPost r f => ensure_posted r f s
  | BSetup t mid => setup_returns t mid s
  | BTimer h => timer_fires now h s
  | BPop e => pop_fires now e s
  end.

(** The broker, and the claims it has handed out: a tap can only commit or abort
    a claim that [claim] returned. *)
Inductive bstep : VerdictBroker * list _Claim → VerdictBroker * list _Claim → Prop :=
  | bs_op now o s cs : bstep (s, cs) (run_bop now o s, cs)
  | bs_claim key i a is_ s cs c s' :
      claim key i a is_ s = (Claimed c, s') → bstep (s, cs) (s', c :: cs)
  | bs_commit now c s cs : c ∈ cs → bstep (s, cs) ((commit now c s).2, cs)
  | bs_abort now c s cs : c ∈ cs → bstep (s, cs) (abort_claim now c s, cs).

Definition breachable (x : VerdictBroker * list _Claim) : Prop :=
  rtc bstep (new_broker, []) x.

(** ** What a step keeps of a request *)

Record req_evolves (q q' : PendingRequest) : Prop := {
  re_fixed : (req_key q', operator_id (meta q'), _id q', _deadline q') =
             (req_key q, operator_id (meta q), _id q, _deadline q);
  re_future : ∀ v, _future q = Some v → _future q' = Some v;
  re_fired : _hook_fired q = true → _hook_fired q' = true
}.

Definition heap_le (s s' : VerdictBroker) : Prop :=
  ∀ r q, requests s !! r = Some q → ∃ q', requests s' !! r = Some q' ∧ req_evolves q q'.

#[export] Instance req_evolves_preorder : PreOrder req_evolves.
Proof.
  split.
  - intros q. by split.
  - intros q1 q2 q3 [E1 F1 G1] [E2 F2 G2]. split; [congruence|auto..].
Qed.

#[export] Instance heap_le_preorder : PreOrder heap_le.
Proof.
  split.
  - intros s r q Hq. by exists q.
  - intros s1 s2 s3 H1 H2 r q Hq. destruct (H1 r q Hq) as (q1 & Hq1 & E1).
    destruct (H2 r q1 Hq1) as (q2 & Hq2 & E2). exists q2. split; [done|by etrans].
Qed.

Lemma lookup_set_req r f s r' :
  requests (set_req r f s) !! r' =
  if decide (r' = r) then f <$> requests s !! r' else requests s !! r'.
Proof.
  change (requests (set_req r f s)) with (alter f r (requests s)).
  rewrite list_lookup_alter. repeat case_decide; by subst.
Qed.

Lemma heap_le_set r f s s0 :
  requests s0 = requests s → (∀ q, req_evolves q (f q)) → heap_le s (set_req r f s0).
Proof.
  intros E Hf r' q Hq. rewrite lookup_set_req, E, Hq. case_decide; [|by exists q].
  by exists (f q).
Qed.

Lemma heap_le_same s s' : requests s' = requests s → heap_le s s'.
Proof. intros E r q Hq. rewrite E. by exists q. Qed.

Lemma resolve_evolves v q : req_evolves q (resolve v q).
Proof. unfold resolve. destruct (_future q) eqn:E; [done|]. split; [done|congruence|done]. Qed.

Ltac evolve := intros; split; done.

(** ** Well-formed brokers *)

(** The answer of an outcome, if it is one, names the bound operator. *)
Definition authorized_by (m : Meta) (v : verdict) : Prop :=
  match v with
  | answered _ a _ => ∃ n, (0 < n)%Z ∧ operator_id m = JInt n ∧ a = JInt n
  | _ => True
  end.

(** An unresolved request: its timeout is armed unless a tap has reserved it. *)
Definition guarded (s : VerdictBroker) (q : PendingRequest) : Prop :=
  match _claimed q with
  | Some _ => _timer q = None
  | None => ∃ h, _timer q = Some h ∧ dget (timers s) h = Some (_deadline q, req_key q)
  end.

(** [x] is the request, if any, that is neither reserved nor guarded: the one
    [abort_claim] is about to finish. *)
Record broker_wf_but (x : option nat) (s : VerdictBroker) : Prop := {
  bw_dict : wf_dict (_live s);
  bw_live k r : dget (_live s) k = Some r →
    ∃ q, requests s !! r = Some q ∧ req_key q = k ∧ _future q = None;
  bw_open r q : requests s !! r = Some q → _future q = None →
    dget (_live s) (req_key q) = Some r ∧ (guarded s q ∨ x = Some r ∧ _timer q = None);
  bw_timers h t k : dget (timers s) h = Some (t, k) → (h < fresh s) ∧
    ∃ r q, requests s !! r = Some q ∧ _future q = None ∧ req_key q = k ∧ _timer q = Some h;
  bw_closed r q : requests s !! r = Some q → is_Some (_future q) → _timer q = None;
  bw_runs r h v : (r, (h, v)) ∈ hook_runs s →
    ∃ q, requests s !! r = Some q ∧ _hook_fired q = true ∧ _future q = Some v;
  bw_once : NoDup (hook_runs s).*1;
  bw_answers r q v : requests s !! r = Some q → _future q = Some v → authorized_by (meta q) v;
  bw_retired k e : dget (_retired s) k = Some e →
    authorized_by (ret_meta e) (ret_outcome e) ∧ dget (_live s) k = None
}.

Arguments bw_dict {x} s _.
Arguments bw_live {x} s _.
Arguments bw_open {x} s _.
Arguments bw_timers {x} s _.
Arguments bw_closed {x} s _.
Arguments bw_runs {x} s _.
Arguments bw_once {x} s _.
Arguments bw_answers {x} s _.
Arguments bw_retired {x} s _.
Abbreviation broker_wf := (broker_wf_but None).

Lemma open_guarded s r q :
  broker_wf s → requests s !! r = Some q → _future q = None →
  dget (_live s) (req_key q) = Some r ∧ guarded s q.
Proof. intros Hwf Hr Hq. by destruct (bw_open _ Hwf _ _ Hr Hq) as [? [?|[? _]]]. Qed.

Lemma wf_weaken x s : broker_wf s → broker_wf_but x s.
Proof. intros []. split; try done. intros r q Hr Hq. naive_solver. Qed.

Lemma new_broker_wf : broker_wf new_broker.
Proof. split; try done; [apply wf_nil|by intros r h v ?%not_elem_of_nil|constructor]. Qed.

(** Two unresolved requests have different keys. *)
Lemma open_unique x s r r' q q' :
  broker_wf_but x s → requests s !! r = Some q → requests s !! r' = Some q' →
  _future q = None → _future q' = None → req_key q = req_key q' → r = r'.
Proof.
  intros Hwf Hr Hr' Hq Hq' Hk. destruct (bw_open _ Hwf _ _ Hr Hq) as [E _].
  destruct (bw_open _ Hwf _ _ Hr' Hq') as [E' _]. congruence.
Qed.

(** ** Closing a request *)

(** What [_finish] and [unregister] share. *)
Definition close (key : Key) (r : nat) (outcome : verdict) (s : VerdictBroker) : VerdictBroker :=
  set_req r (resolve outcome) (_cancel_timer r (s <| _live ::= λ d, ddel d key |>)).

Definition no_timer (q : PendingRequest) : PendingRequest := q <| _timer := None |>.

Lemma cancel_timer_parts r s :
  requests (_cancel_timer r s) = alter no_timer r (requests s) ∧
  timers (_cancel_timer r s) =
    match requests s !! r ≫= _timer with Some h => ddel (timers s) h | None => timers s end ∧
  (_live (_cancel_timer r s), _retired (_cancel_timer r s), _id_counter (_cancel_timer r s),
   fresh (_cancel_timer r s), pops (_cancel_timer r s), setups (_cancel_timer r s),
   hook_runs (_cancel_timer r s)) =
  (_live s, _retired s, _id_counter s, fresh s, pops s, setups s, hook_runs s).
Proof.
  unfold _cancel_timer. destruct (requests s !! r) as [q|] eqn:E; cbn [mbind option_bind].
  - destruct (_timer q) as [h|] eqn:Et; [done|]. split_and!; [|done..].
    apply list_eq. intros i. rewrite list_lookup_alter. case_decide; [|done]. subst. rewrite E.
    cbn. f_equal. destruct q. cbn in Et. by subst.
  - split_and!; [|done..]. apply list_eq. intros i. rewrite list_lookup_alter.
    case_decide; [|done]. subst. by rewrite E.
Qed.

Section close.
Context (s : VerdictBroker) (k : Key) (r : nat) (v : verdict) (q : PendingRequest) (x : option nat).
Hypotheses (Hx : x = None ∨ x = Some r) (Hwf : broker_wf_but x s) (Hk : dget (_live s) k = Some r) (Hr : requests s !! r = Some q).

Lemma close_open : req_key q = k ∧ _future q = None.
Proof. destruct (bw_live _ Hwf _ _ Hk) as (q0 & E & ? & ?). by simplify_eq. Qed.

Lemma close_lookup r' :
  requests (close k r v s) !! r' =
  if decide (r' = r) then Some (resolve v (no_timer q)) else requests s !! r'.
Proof.
  unfold close. rewrite lookup_set_req.
  destruct (cancel_timer_parts r (s <| _live ::= λ d, ddel d k |>)) as [E _].
  rewrite E, list_lookup_alter. repeat case_decide; subst; try done.
  change (requests (update _live _ s)) with (requests s). by rewrite Hr.
Qed.

Lemma close_timers :
  timers (close k r v s) = match _timer q with Some h => ddel (timers s) h | None => timers s end.
Proof.
  destruct (cancel_timer_parts r (s <| _live ::= λ d, ddel d k |>)) as (_ & E & _).
  change (timers (close k r v s)) with (timers (_cancel_timer r (s <| _live ::= λ d, ddel d k |>))).
  rewrite E. change (requests (update _live _ s)) with (requests s). by rewrite Hr.
Qed.

Lemma close_rest :
  _live (close k r v s) = ddel (_live s) k ∧ _retired (close k r v s) = _retired s ∧
  fresh (close k r v s) = fresh s ∧ hook_runs (close k r v s) = hook_runs s.
Proof.
  destruct (cancel_timer_parts r (s <| _live ::= λ d, ddel d k |>)) as (_ & _ & E).
  unfold close, set_req. by simplify_eq/=.
Qed.

Lemma close_heap : heap_le s (close k r v s).
Proof.
  intros r' q' Hr'. rewrite close_lookup. case_decide; [|by exists q']. simplify_eq.
  eexists. split; [done|]. etrans; [|apply resolve_evolves]. by split.
Qed.

(** The timeout of another request is another handle. *)
Lemma other_timer r' q' h :
  requests s !! r' = Some q' → _future q' = None → r' ≠ r → _timer q' = Some h →
  guarded s q' → _timer q ≠ Some h.
Proof.
  intros Hr' Hf Hne Ht Hg Ht'. destruct close_open as [Hkey Hopen].
  destruct (bw_open _ Hwf _ _ Hr Hopen) as [_ Hgq]. unfold guarded in *.
  destruct (_claimed q'); [congruence|]. destruct Hg as (h1 & E1 & Hd1).
  destruct Hgq as [Hgq|[_ ?]]; [|congruence].
  destruct (_claimed q); [congruence|]. destruct Hgq as (h2 & E2 & Hd2).
  assert (req_key q' = req_key q) as E by congruence.
  apply Hne. by eapply open_unique.
Qed.

Lemma guarded_timers s' q' :
  guarded s q' → (∀ h, _timer q' = Some h → dget (timers s') h = dget (timers s) h) →
  guarded s' q'.
Proof.
  unfold guarded. intros Hg Ht. destruct (_claimed q'); [done|].
  destruct Hg as (h & E & Hd). exists h. split; [done|]. by rewrite Ht.
Qed.

Lemma close_wf : authorized_by (meta q) v → broker_wf (close k r v s).
Proof.
  intros Hv. destruct close_open as [Hkey Hopen]. destruct close_rest as (El & Eret & Efr & Eruns).
  assert (resolve v (no_timer q) = no_timer q <| _future := Some v |>) as Eres
    by (unfold resolve; change (_future (no_timer q)) with (_future q); by rewrite Hopen).
  split; rewrite ?El, ?Eret, ?Efr, ?Eruns.
  - apply wf_ddel, Hwf.
  - intros k' r' Hk'. destruct (decide (k' = k)) as [->|Hne]; [by rewrite dget_ddel_eq in Hk'|].
    rewrite dget_ddel_ne in Hk' by done. destruct (bw_live _ Hwf _ _ Hk') as (q' & Hr' & Hkq & Hf).
    exists q'. rewrite close_lookup. rewrite decide_False by (intros ->; congruence). done.
  - intros r' q'. rewrite close_lookup. case_decide as E; [intros [= <-]; by rewrite Eres|].
    intros Hr' Hf. destruct (bw_open _ Hwf _ _ Hr' Hf) as [Hl [Hg|[-> _]]];
      [|by destruct Hx; simplify_eq]. split; [|left].
    + rewrite dget_ddel_ne; [done|]. intros E'. apply E. rewrite E' in Hl. congruence.
    + apply guarded_timers; [done|]. intros h Ht. rewrite close_timers.
      pose proof (other_timer _ _ _ Hr' Hf E Ht Hg) as Hne.
      destruct (_timer q) as [h0|]; [|done]. apply dget_ddel_ne. congruence.
  - intros h t k' Ht. rewrite close_timers in Ht.
    assert (_timer q ≠ Some h ∧ dget (timers s) h = Some (t, k')) as [Hne Ht0].
    { destruct (_timer q) as [h0|]; [|done]. destruct (decide (h = h0)) as [->|Hne];
        [by rewrite dget_ddel_eq in Ht|]. rewrite dget_ddel_ne in Ht by done.
      split; [congruence|done]. }
    destruct (bw_timers _ Hwf _ _ _ Ht0) as (Hlt & r' & q' & Hr' & ? & ? & Htq).
    split; [done|]. exists r', q'. rewrite close_lookup.
    rewrite decide_False by (intros ->; congruence). done.
  - intros r' q'. rewrite close_lookup. case_decide; [intros [= <-] _; by rewrite Eres|].
    apply Hwf.
  - intros r' h v' Hin. destruct (bw_runs _ Hwf _ _ _ Hin) as (q' & Hr' & ? & ?).
    exists q'. rewrite close_lookup. rewrite decide_False by (intros ->; congruence). done.
  - apply Hwf.
  - intros r' q' v'. rewrite close_lookup. case_decide; [|apply Hwf].
    intros [= <-]. rewrite Eres. cbn. by intros [= <-].
  - intros k' e He. destruct (bw_retired _ Hwf _ _ He) as [? Hn]. split; [done|].
    destruct (decide (k' = k)) as [->|Hne]; [apply dget_ddel_eq|by rewrite dget_ddel_ne].
Qed.
End close.

(** ** Harmless changes *)

(** A change that moves no request and resolves none. *)
Record harmless (q q' : PendingRequest) : Prop := {
  ha_same : (req_key q', _future q', _timer q', _claimed q', _deadline q', _id q', operator_id (meta q'))
          = (req_key q, _future q, _timer q, _claimed q, _deadline q, _id q, operator_id (meta q));
  ha_fired : _hook_fired q = true → _hook_fired q' = true
}.

Lemma harmless_refl q : harmless q q.
Proof. by split. Qed.

Lemma harmless_evolves q q' : harmless q q' → req_evolves q q'.
Proof. intros [E F]. split; [congruence|intros; congruence|done]. Qed.

Lemma authorized_same m m' v :
  operator_id m' = operator_id m → authorized_by m v → authorized_by m' v.
Proof. intros E. destruct v; [|done..]. cbn. by rewrite E. Qed.

Lemma set_req_harmless r f s s0 :
  requests s0 = requests s → (∀ q, harmless q (f q)) →
  ∀ r', option_Forall2 harmless (requests s !! r') (requests (set_req r f s0) !! r').
Proof.
  intros E Hf r'. rewrite lookup_set_req, E. destruct (requests s !! r'); case_decide; constructor;
    auto using harmless_refl.
Qed.

Lemma same_harmless s s0 :
  requests s0 = requests s → ∀ r', option_Forall2 harmless (requests s !! r') (requests s0 !! r').
Proof. intros -> r'. destruct (requests s !! r'); constructor. apply harmless_refl. Qed.

Lemma wf_harmless s s' :
  broker_wf s → (∀ r, option_Forall2 harmless (requests s !! r) (requests s' !! r)) →
  _live s' = _live s → timers s' = timers s → fresh s ≤ fresh s' → hook_runs s' = hook_runs s →
  (∀ k e, dget (_retired s') k = Some e →
     authorized_by (ret_meta e) (ret_outcome e) ∧ dget (_live s) k = None) →
  broker_wf s' ∧ heap_le s s'.
Proof.
  intros Hwf Hh El Et Hf Er Hret.
  assert (∀ r q, requests s !! r = Some q → ∃ q', requests s' !! r = Some q' ∧ harmless q q') as Hto.
  { intros r q Hq. specialize (Hh r). rewrite Hq in Hh. inversion Hh; subst. by eexists. }
  assert (∀ r q', requests s' !! r = Some q' → ∃ q, requests s !! r = Some q ∧ harmless q q') as Hback.
  { intros r q Hq. specialize (Hh r). rewrite Hq in Hh. inversion Hh; subst. by eexists. }
  split; [split; rewrite ?El, ?Et, ?Er|].
  - apply Hwf.
  - intros k r Hk. destruct (bw_live _ Hwf _ _ Hk) as (q & Hq & ? & ?).
    destruct (Hto _ _ Hq) as (q' & ? & [E _]). exists q'. split_and!; congruence.
  - intros r q' Hq' Hopen. destruct (Hback _ _ Hq') as (q & Hq & [E _]).
    destruct (open_guarded _ r q Hwf) as [Hl Hg]; [done|congruence|].
    split; [congruence|left]. unfold guarded in *. rewrite Et.
    assert (_claimed q' = _claimed q ∧ _timer q' = _timer q ∧ _deadline q' = _deadline q ∧
            req_key q' = req_key q) as (-> & -> & -> & ->) by (split_and!; congruence). done.
  - intros h t k Ht. destruct (bw_timers _ Hwf _ _ _ Ht) as (Hlt & r & q & Hq & ? & ? & ?).
    destruct (Hto _ _ Hq) as (q' & ? & [E _]). split; [lia|]. exists r, q'. split_and!; congruence.
  - intros r q' Hq' Hc. destruct (Hback _ _ Hq') as (q & Hq & [E _]).
    pose proof (bw_closed _ Hwf r q Hq). assert (_future q' = _future q) as Ef by congruence.
    rewrite Ef in Hc. specialize (H Hc). congruence.
  - intros r h v Hin. destruct (bw_runs _ Hwf _ _ _ Hin) as (q & Hq & ? & ?).
    destruct (Hto _ _ Hq) as (q' & ? & [E F]). exists q'. split_and!; [done|auto|congruence].
  - apply Hwf.
  - intros r q' v Hq' Hv. destruct (Hback _ _ Hq') as (q & Hq & [E _]).
    apply (authorized_same (meta q)); [congruence|]. apply (bw_answers _ Hwf r); [done|congruence].
  - done.
  - intros r q Hq. destruct (Hto _ _ Hq) as (q' & ? & Hha). exists q'. by split; [|apply harmless_evolves].
Qed.

(** ** Finishing *)

Lemma fire_hook_wf r v q s :
  broker_wf s → requests s !! r = Some q → _future q = Some v →
  broker_wf (_fire_hook r v s) ∧ heap_le s (_fire_hook r v s).
Proof.
  intros Hwf Hr Hv. unfold _fire_hook. rewrite Hr.
  destruct (_hook_fired q) eqn:Hfired; [by split|]. destruct (_hook q) as [h|]; [|by split].
  set (f := λ q, q <| _hook_fired := true |>).
  destruct (wf_harmless s (set_req r f s)) as [Hwf' Hle]; try done; [|apply Hwf|].
  { apply set_req_harmless; [done|]. by intros; split. }
  split; [|exact Hle]. destruct Hwf' as [? ? ? ? ? Hruns ? ? ?]. split; try done.
  - intros r' h' v' [Hin|Hin]%elem_of_app; [by eapply Hruns|].
    apply list_elem_of_singleton in Hin. simplify_eq. exists (f q).
    split_and!; try done. change (requests (set_req r f s) !! r = Some (f q)).
    rewrite lookup_set_req, decide_True by done. by rewrite Hr.
  - change (NoDup (hook_runs s ++ [(r, (h, v))]).*1). rewrite fmap_app. apply NoDup_app.
    split_and!; [apply Hwf| |apply NoDup_singleton].
    intros r' (p & -> & Hp)%list_elem_of_fmap Hin%list_elem_of_singleton. destruct p as [r0 [h0 v0]].
    cbn in Hin. subst r0. destruct (bw_runs _ Hwf _ _ _ Hp) as (q0 & ? & ? & _). congruence.
Qed.

Lemma finish_wf x now k v s :
  broker_wf_but x s → x = None ∨ x = dget (_live s) k →
  (∀ r q, dget (_live s) k = Some r → requests s !! r = Some q → authorized_by (meta q) v) →
  broker_wf (_finish now k v s) ∧ heap_le s (_finish now k v s).
Proof.
  intros Hwf Hx Hv. unfold _finish.
  destruct (dget (_live s) k) as [r|] eqn:Hk; [|by destruct Hx; subst; split].
  destruct (bw_live _ Hwf _ _ Hk) as (q & Hr & Hkey & Hopen).
  pose proof (close_wf s k r v q x Hx Hwf Hk Hr (Hv _ _ eq_refl Hr)) as Hwf1.
  assert (heap_le s (close k r v s)) as Hle1 by by eapply close_heap.
  assert (requests (close k r v s) !! r = Some (resolve v (no_timer q))) as Hr1
    by (erewrite close_lookup by done; by rewrite decide_True).
  destruct (close_rest s k r v) as (El & Eret & _).
  fold (close k r v s). set (s1 := close k r v s) in *. set (q1 := resolve v (no_timer q)) in *.
  assert (_future q1 = Some v ∧ meta q1 = meta q) as [Hf1 Hm1].
  { subst q1. unfold resolve. change (_future (no_timer q)) with (_future q). by rewrite Hopen. }
  assert (requests (retire now k r v s1) = requests s1) as Ereq
    by (unfold retire; by rewrite Hr1).
  destruct (wf_harmless s1 (retire now k r v s1)) as [Hwf2 Hle2]; try done.
  - by apply same_harmless.
  - unfold retire. by rewrite Hr1.
  - unfold retire. by rewrite Hr1.
  - unfold retire. rewrite Hr1. change (fresh s1 ≤ S (fresh s1)). lia.
  - unfold retire. by rewrite Hr1.
  - unfold retire. rewrite Hr1. intros k' e.
    change (dget (dset (_retired s1) k (mkRetired v (meta q1) (_id q1) (fresh s1))) k' = Some e → 
      authorized_by (ret_meta e) (ret_outcome e) ∧ dget (_live s1) k' = None).
    rewrite dget_dset. case_decide as E.
    + intros [= <-]. cbn [ret_meta ret_outcome]. rewrite Hm1, El, E, dget_ddel_eq.
      split; [by apply (Hv r)|done].
    + apply (bw_retired _ Hwf1).
  - destruct (fire_hook_wf r v q1 (retire now k r v s1)) as [Hwf3 Hle3]; try done.
    + by rewrite Ereq.
    + split; [done|]. etrans; [exact Hle1|]. etrans; [exact Hle2|exact Hle3].
Qed.

(** The finished request carries the outcome. *)
Lemma finish_resolves now k v r q s :
  dget (_live s) k = Some r → requests s !! r = Some q → _future q = None →
  ∃ q', requests (_finish now k v s) !! r = Some q' ∧ _future q' = Some v ∧ req_key q' = req_key q.
Proof.
  intros Hk Hr Hf. unfold _finish. rewrite Hk. fold (close k r v s).
  assert (requests (close k r v s) !! r = Some (resolve v (no_timer q))) as H1
    by (erewrite (close_lookup s k r v q None (or_introl eq_refl)) by done; by rewrite decide_True).
  assert (requests (retire now k r v (close k r v s)) = requests (close k r v s)) as E
    by (unfold retire; by rewrite H1).
  assert (_future (resolve v (no_timer q)) = Some v ∧ req_key (resolve v (no_timer q)) = req_key q)
    as [Hv Hkey] by (unfold resolve; change (_future (no_timer q)) with (_future q); by rewrite Hf).
  unfold _fire_hook. rewrite E, H1. destruct (_hook_fired _); [rewrite E; eauto|].
  destruct (_hook _); [|rewrite E; eauto]. rewrite lookup_set_req, decide_True by done.
  change (requests (update hook_runs _ _)) with (requests (retire now k r v (close k r v s))).
  rewrite E, H1. eexists. split; [reflexivity|]. split; [exact Hv|exact Hkey].
Qed.

(** ** The operations *)

Definition sound_step (s s' : VerdictBroker) : Prop := broker_wf s' ∧ heap_le s s'.

Lemma sound_trans s1 s2 s3 : sound_step s1 s2 → sound_step s2 s3 → sound_step s1 s3.
Proof. intros [_ H1] [Hwf H2]. split; [done|by etrans]. Qed.

Lemma finish_sound now k v s :
  broker_wf s → is_answered v = false → sound_step s (_finish now k v s).
Proof. intros Hwf Hv. apply (finish_wf None); [done|by left|]. by destruct v. Qed.

Lemma finish_all_sound now ks v s :
  broker_wf s → is_answered v = false → sound_step s (finish_all now ks v s).
Proof.
  intros Hwf Hv. revert s Hwf. unfold finish_all. induction ks as [|k ks IH]; intros s Hwf; cbn.
  { by split. }
  eapply sound_trans; [by apply (finish_sound now k v)|]. apply IH. by apply finish_sound.
Qed.

Lemma harmless_sound r f s s0 :
  broker_wf s → (∀ q, harmless q (f q)) → requests s0 = requests s →
  (_live s0, timers s0, hook_runs s0, _retired s0) = (_live s, timers s, hook_runs s, _retired s) →
  fresh s ≤ fresh s0 → sound_step s (set_req r f s0).
Proof.
  intros Hwf Hf E [= E1 E2 E3 E4] Hfr. apply wf_harmless; try done.
  - by apply set_req_harmless.
  - intros k e. change (_retired (set_req r f s0)) with (_retired s0). rewrite E4. apply Hwf.
Qed.

(** A new object at the end of the store. *)
Lemma lookup_snoc (l : list PendingRequest) q i q' :
  (l ++ [q]) !! i = Some q' ↔ l !! i = Some q' ∨ i = length l ∧ q' = q.
Proof.
  rewrite lookup_app. destruct (l !! i) eqn:E.
  - split; [by left|]. intros [?|[-> _]]; [done|]. apply lookup_lt_Some in E. lia.
  - apply lookup_ge_None in E. split.
    + intros [? ->]%list_lookup_singleton_Some. right. split; [lia|done].
    + intros [?|[-> ->]]; [done|]. by rewrite Nat.sub_diag.
Qed.

Lemma snoc_heap (s s' : VerdictBroker) q : requests s' = requests s ++ [q] → heap_le s s'.
Proof.
  intros E r q' Hr. exists q'. rewrite E, lookup_snoc. by split; [left|].
Qed.

Lemma tombstone_sound ns sc rid t d e s :
  broker_wf s → dget (_retired s) (ns, sc, rid) = Some e →
  sound_step s (alloc (tombstone ns sc rid t d e s) s).2.
Proof.
  intros Hwf He. set (q := tombstone ns sc rid t d e s). set (s' := (alloc q s).2).
  assert (requests s' = requests s ++ [q]) as Er by done. split; [|by eapply snoc_heap].
  assert (∀ r q', requests s !! r = Some q' → requests s' !! r = Some q') as Hto
    by (intros; rewrite Er, lookup_snoc; by left).
  assert (guarded s = guarded s') as Eg by done. split.
  - apply Hwf.
  - intros k r Hk. destruct (bw_live _ Hwf _ _ Hk) as (q' & Hr & ? & ?). exists q'. auto.
  - intros r q' Hr Hf. rewrite Er, lookup_snoc in Hr. destruct Hr as [Hr|[_ ->]]; [|done].
    destruct (open_guarded _ _ _ Hwf Hr Hf). split; [done|by left].
  - intros h t' k Ht. destruct (bw_timers _ Hwf _ _ _ Ht) as (? & r & q' & ? & ? & ? & ?).
    split; [done|]. exists r, q'. auto.
  - intros r q' Hr. rewrite Er, lookup_snoc in Hr. destruct Hr as [Hr|[_ ->]]; [|done].
    by apply (bw_closed _ Hwf r).
  - intros r h v Hin. destruct (bw_runs _ Hwf _ _ _ Hin) as (q' & ? & ? & ?). exists q'. auto.
  - apply Hwf.
  - intros r q' v Hr. rewrite Er, lookup_snoc in Hr. destruct Hr as [Hr|[_ ->]].
    + by apply (bw_answers _ Hwf r).
    + intros [= <-]. by apply (bw_retired _ Hwf _ _ He).
  - apply Hwf.
Qed.

Lemma open_sound now ns sc rid t d m s :
  broker_wf s → dget (_live s) (ns, sc, rid) = None → dget (_retired s) (ns, sc, rid) = None →
  sound_step s (open_request now ns sc rid t d m s).2.
Proof.
  intros Hwf Hl Hret. set (k := (ns, sc, rid)) in *.
  set (q := mkRequest ns sc rid t d m None (Some (fresh s)) (_id_counter s) (now + t) None None
              false None).
  set (s' := (open_request now ns sc rid t d m s).2).
  assert (requests s' = requests s ++ [q]) as Er by done.
  assert (_live s' = dset (_live s) k (length (requests s))) as El by done.
  assert (timers s' = dset (timers s) (fresh s) ((now + t)%Z, k)) as Et by done.
  split; [|by eapply snoc_heap].
  assert (∀ r q', requests s !! r = Some q' → requests s' !! r = Some q' ∧ r ≠ length (requests s)) as Hto.
  { intros r q' Hr. split; [rewrite Er, lookup_snoc; by left|]. apply lookup_lt_Some in Hr. lia. }
  assert (requests s' !! length (requests s) = Some q) as Hq by (rewrite Er, lookup_snoc; by right).
  assert (∀ h t' k', dget (timers s) h = Some (t', k') → h ≠ fresh s) as Hfresh
    by (intros h t' k' Ht; destruct (bw_timers _ Hwf _ _ _ Ht); lia).
  split.
  - rewrite El. apply wf_dset, Hwf.
  - intros k' r. rewrite El, dget_dset. case_decide as Ek; [intros [= <-]; by exists q|].
    intros Hk. destruct (bw_live _ Hwf _ _ Hk) as (q' & Hr & ? & ?). exists q'.
    split; [by apply Hto|done].
  - intros r q' Hr Hf. rewrite Er, lookup_snoc in Hr. rewrite El. destruct Hr as [Hr|[-> ->]].
    + destruct (open_guarded _ _ _ Hwf Hr Hf) as [Hlq Hg]. split.
      * rewrite dget_dset_ne; [done|]. intros E. by rewrite E, Hl in Hlq.
      * left. unfold guarded in *. destruct (_claimed q'); [done|]. destruct Hg as (h & ? & Ht).
        exists h. split; [done|]. rewrite Et, dget_dset_ne; [done|by eapply Hfresh].
    + split; [by rewrite dget_dset_eq|]. left. exists (fresh s). split; [done|].
      by rewrite Et, dget_dset_eq.
  - intros h t' k'. change (fresh s') with (S (fresh s)). rewrite Et, dget_dset.
    case_decide as Eh; [intros [= <- <-]; subst h|intros Ht].
    + split; [lia|]. by exists (length (requests s)), q.
    + destruct (bw_timers _ Hwf _ _ _ Ht) as (? & r & q' & Hr & ? & ? & ?). split; [lia|].
      exists r, q'. split; [by apply Hto|done].
  - intros r q' Hr. rewrite Er, lookup_snoc in Hr. destruct Hr as [Hr|[-> ->]].
    + by apply (bw_closed _ Hwf r).
    + by intros [? ?].
  - intros r h v Hin. destruct (bw_runs _ Hwf _ _ _ Hin) as (q' & Hr & ? & ?). exists q'.
    split; [by apply Hto|done].
  - apply Hwf.
  - intros r q' v Hr. rewrite Er, lookup_snoc in Hr. destruct Hr as [Hr|[-> ->]]; [|done].
    by apply (bw_answers _ Hwf r).
  - intros k' e He. destruct (bw_retired _ Hwf _ _ He) as [? ?]. split; [done|].
    rewrite El, dget_dset_ne; [done|]. intros ->. change (_retired s') with (_retired s) in He. congruence.
Qed.

(** Finishing one key leaves the tables at the others alone. *)
Lemma fire_hook_tables r v s :
  (_live (_fire_hook r v s), _retired (_fire_hook r v s)) = (_live s, _retired s).
Proof. unfold _fire_hook. by repeat case_match. Qed.

Lemma finish_tables now k v s :
  match dget (_live s) k with
  | None => _finish now k v s = s
  | Some r =>
    _live (_finish now k v s) = ddel (_live s) k ∧
    ∀ k', k' ≠ k → dget (_retired (_finish now k v s)) k' = dget (_retired s) k'
  end.
Proof.
  unfold _finish. destruct (dget (_live s) k) as [r|]; [|done].
  fold (close k r v s). destruct (close_rest s k r v) as (El & Er & _).
  pose proof (fire_hook_tables r v (retire now k r v (close k r v s))) as [= -> ->].
  unfold retire. destruct (requests (close k r v s) !! r) as [q|]; [|by rewrite El, Er].
  split; [exact El|]. intros k' Hne.
  rewrite <-Er. apply (dget_dset_ne (_retired (close k r v s)) k _ k' Hne).
Qed.

Lemma finish_all_untouched now ks v k s :
  dget (_live s) k = None → k ∉ ks →
  dget (_live (finish_all now ks v s)) k = None ∧
  dget (_retired (finish_all now ks v s)) k = dget (_retired s) k.
Proof.
  unfold finish_all. revert s. induction ks as [|k0 ks IH]; intros s Hl Hk; [done|].
  apply not_elem_of_cons in Hk as [Hne Hk]. cbn [foldl].
  pose proof (finish_tables now k0 v s) as Ht. destruct (dget (_live s) k0) as [r|].
  - destruct Ht as [El Er]. destruct (IH (_finish now k0 v s)) as [? E]; [|done|].
    + by rewrite El, dget_ddel_ne.
    + split; [done|]. by rewrite E, Er.
  - rewrite Ht. by apply IH.
Qed.

Lemma scope_keys_live k ns sc s : k ∈ scope_keys s ns sc → is_Some (dget (_live s) k).
Proof. unfold scope_keys. intros [_ ?]%list_elem_of_filter. by apply elem_of_dkeys. Qed.

Lemma register_sound now ns sc rid t d m sup s :
  broker_wf s → sound_step s (register now ns sc rid t d m sup s).2.
Proof.
  intros Hwf. unfold register. destruct (negb _); [by split|].
  destruct (dget (_live s) _) eqn:Hl; [by split|].
  destruct (dget (_retired s) _) as [e|] eqn:He.
  { pose proof (tombstone_sound ns sc rid t d e s Hwf He) as H. by destruct (alloc _ s). }
  set (s1 := if sup then _ else s).
  assert (sound_step s s1) as Hs1.
  { subst s1. destruct sup; [by apply finish_all_sound|by split]. }
  assert (dget (_live s1) (ns, sc, rid) = None ∧ dget (_retired s1) (ns, sc, rid) = None) as [Hl1 He1].
  { subst s1. destruct sup; [|done]. rewrite <-He. apply finish_all_untouched; [done|].
    intros Hin%scope_keys_live. rewrite Hl in Hin. by destruct Hin. }
  pose proof (open_sound now ns sc rid t d m s1 (proj1 Hs1) Hl1 He1) as H.
  destruct (open_request _ _ _ _ _ _ _ s1). by eapply sound_trans.
Qed.

Lemma set_hook_sound r h s : broker_wf s → sound_step s (set_finish_hook r h s).
Proof.
  intros Hwf. unfold set_finish_hook. set (f := λ q, q <| _hook := Some h |>).
  assert (sound_step s (set_req r f s)) as Hs by (apply harmless_sound; try done; by split).
  destruct (requests (set_req r f s) !! r) as [q|] eqn:E; cbn [mbind option_bind]; [|done].
  destruct (_future q) as [v|] eqn:Ev; [|done].
  eapply sound_trans; [exact Hs|]. eapply fire_hook_wf; [apply Hs|done..].
Qed.

Lemma unregister_sound k s : broker_wf s → sound_step s (unregister k s).
Proof.
  intros Hwf. unfold unregister. destruct (dget (_live s) k) as [r|] eqn:Hk; [|by split].
  destruct (bw_live _ Hwf _ _ Hk) as (q & Hr & _). fold (close k r delivery_failed s). split.
  - by apply (close_wf s k r delivery_failed q None (or_introl eq_refl) Hwf Hk Hr).
  - by apply (close_heap s k r delivery_failed q None (or_introl eq_refl)).
Qed.

Lemma toggle_sound k i s : broker_wf s → sound_step s (toggle_selection k i s).2.
Proof.
  intros Hwf. unfold toggle_selection. destruct (_ ≫= _) as [[r q]|]; [|by split].
  destruct (_claimed q); [by split|]. by apply harmless_sound.
Qed.

Lemma setup_sound t mid s : broker_wf s → sound_step s (setup_returns t mid s).
Proof.
  intros Hwf. unfold setup_returns. destruct (dget (setups s) t) as [[r f]|]; [|by split].
  set (s1 := s <| setups ::= λ d, ddel d t |>).
  assert (sound_step s s1) as H1 by (apply wf_harmless; try done; [by apply same_harmless|apply Hwf]).
  destruct (requests s1 !! r) as [q|]; [|done]. eapply sound_trans; [exact H1|].
  destruct mid as [m|]; [|apply unregister_sound, H1].
  set (g := λ q, q <| meta ::= λ x, x <| message_id := Some m |> |>).
  assert (sound_step s1 (set_req r g s1)) as H2 by (apply harmless_sound; try done; apply H1).
  eapply sound_trans; [exact H2|]. apply set_hook_sound, H2.
Qed.

(** A due handle finishes the request it was armed for. *)
Lemma timer_finishes now h t k s :
  broker_wf s → dget (timers s) h = Some (t, k) → (t ≤ now)%Z →
  timer_fires now h s = _finish now k no_answer s.
Proof.
  intros Hwf Ht Hdue. unfold timer_fires. rewrite Ht, bool_decide_eq_true_2 by done.
  destruct (bw_timers _ Hwf _ _ _ Ht) as (_ & r & q & Hr & Hf & <- & Hh).
  destruct (bw_open _ Hwf _ _ Hr Hf) as [Hl _]. unfold _finish.
  change (_live (update timers _ s)) with (_live s). rewrite Hl. do 3 f_equal.
  unfold _cancel_timer.
  change (requests (update _live _ (update timers _ s)) !! r) with (requests s !! r).
  change (requests (update _live _ s) !! r) with (requests s !! r).
  rewrite Hr. cbn [mbind option_bind]. rewrite Hh. unfold set_req.
  assert (ddel (ddel (timers s) h) h = ddel (timers s) h) as E.
  { unfold ddel. rewrite list_filter_filter. apply list_filter_iff. tauto. }
  destruct s. cbv -[ddel alter] in *. by rewrite E.
Qed.

Lemma timer_sound now h s : broker_wf s → sound_step s (timer_fires now h s).
Proof.
  intros Hwf. destruct (dget (timers s) h) as [[t k]|] eqn:Ht.
  - destruct (decide (t ≤ now)%Z) as [Hd|Hd].
    + erewrite timer_finishes by done. by apply finish_sound.
    + unfold timer_fires. rewrite Ht, bool_decide_eq_false_2 by done. by split.
  - unfold timer_fires. rewrite Ht. by split.
Qed.

Lemma pop_sound now e s : broker_wf s → sound_step s (pop_fires now e s).
Proof.
  intros Hwf. unfold pop_fires. destruct (dget (pops s) e) as [[t k]|]; [|by split].
  destruct (bool_decide _); [|by split].
  assert (∀ d, (∀ k' e, dget d k' = Some e → dget (_retired s) k' = Some e) →
    sound_step s (s <| pops ::= λ d, ddel d e |> <| _retired := d |>)) as H.
  { intros d Hd. apply wf_harmless; try done; [by apply same_harmless|].
    intros k' e' He. by apply (bw_retired _ Hwf), Hd. }
  destruct (dget _ k) as [entry|]; [destruct (_ =? _)%nat|].
  - apply (H (ddel (_retired s) k)). intros k' e'. rewrite dget_ddel. by case_decide.
  - by apply (H (_retired s)).
  - by apply (H (_retired s)).
Qed.

Lemma post_sound r f s : broker_wf s → sound_step s (ensure_posted r f s).
Proof.
  intros Hwf. unfold ensure_posted. destruct (requests s !! r) as [q|]; [|by split].
  destruct (_setup_task q); [by split|]. destruct (bool_decide _); [by split|].
  apply harmless_sound; try done. change (fresh s ≤ S (fresh s)). lia.
Qed.

Lemma run_bop_sound now o s : broker_wf s → sound_step s (run_bop now o s).
Proof.
  intros Hwf. destruct o; cbn [run_bop].
  - by apply register_sound.
  - by apply toggle_sound.
  - by apply unregister_sound.
  - unfold cancel. destruct (dhas _ _); [by apply finish_sound|by split].
  - by apply finish_all_sound.
  - by apply finish_all_sound.
  - by apply set_hook_sound.
  - by apply post_sound.
  - by apply setup_sound.
  - by apply timer_sound.
  - by apply pop_sound.
Qed.

(** Reserving and releasing a request change its token and its timeout. *)
Lemma requeue s s' x r q q' :
  broker_wf s → requests s !! r = Some q → _future q = None →
  requests s' = <[r:=q']> (requests s) →
  (req_key q', _future q', _deadline q', _id q', meta q', _hook_fired q')
    = (req_key q, _future q, _deadline q, _id q, meta q, _hook_fired q) →
  (_live s', _retired s', hook_runs s') = (_live s, _retired s, hook_runs s) → fresh s ≤ fresh s' →
  (∀ h, _timer q ≠ Some h → h < fresh s → dget (timers s') h = dget (timers s) h) →
  (∀ h t k, dget (timers s') h = Some (t, k) →
     (_timer q ≠ Some h ∧ dget (timers s) h = Some (t, k)) ∨
     (_timer q' = Some h ∧ k = req_key q ∧ h < fresh s')) →
  guarded s' q' ∨ x = Some r ∧ _timer q' = None →
  broker_wf_but x s' ∧ heap_le s s'.
Proof.
  intros Hwf Hr Hf Er Eq [= El Eret Eruns] Hfr Hkeep Hnew Hg.
  assert (req_key q' = req_key q ∧ _future q' = _future q ∧ _deadline q' = _deadline q ∧
    _id q' = _id q ∧ meta q' = meta q ∧ _hook_fired q' = _hook_fired q)
    as (Ek & Ef & Ed & Ei & Em & Eh) by (split_and!; congruence). clear Eq.
  assert (r < length (requests s)) as Hlt by by eapply lookup_lt_Some.
  assert (∀ r', requests s' !! r' = if decide (r' = r) then Some q' else requests s !! r') as Hlook.
  { intros r'. rewrite Er. case_decide; [subst; by apply list_lookup_insert_eq|].
    by apply list_lookup_insert_ne. }
  destruct (open_guarded _ _ _ Hwf Hr Hf) as [Hl _].
  split; [split; rewrite ?El, ?Eret, ?Eruns|].
  - apply Hwf.
  - intros k r' Hk. destruct (bw_live _ Hwf _ _ Hk) as (q0 & Hq0 & ? & ?). rewrite Hlook.
    case_decide; [subst r'|by exists q0]. exists q'. split_and!; congruence.
  - intros r' q0. rewrite Hlook. case_decide as E.
    + intros [= <-] _. subst r'. by rewrite Ek.
    + intros Hq0 Hf0. destruct (open_guarded _ _ _ Hwf Hq0 Hf0) as [Hl0 Hg0]. split; [done|left].
      unfold guarded in *. destruct (_claimed q0); [done|]. destruct Hg0 as (h & Et & Hd).
      exists h. split; [done|]. destruct (bw_timers _ Hwf _ _ _ Hd) as [Hh _].
      rewrite Hkeep; [done| |done]. intros Ht. destruct (bw_timers _ Hwf _ _ _ Hd) as (_ & r1 & q1 & Hr1 & ? & Hk1 & Ht1).
      apply E. rewrite <-(open_unique _ _ r1 r' q1 q0 Hwf Hr1 Hq0) by done.
      destruct (open_guarded _ _ _ Hwf Hr Hf) as [_ Hgq]. unfold guarded in Hgq.
      destruct (_claimed q); [congruence|]. destruct Hgq as (h' & Eh' & Hdq).
      assert (h' = h) as -> by congruence. apply (open_unique _ _ r1 r q1 q Hwf); congruence.
  - intros h t k [[Hne Ht]|(Ht & -> & Hh)]%Hnew.
    + destruct (bw_timers _ Hwf _ _ _ Ht) as (Hh & r1 & q1 & Hr1 & ? & ? & ?). split; [lia|].
      exists r1, q1. rewrite Hlook, decide_False; [done|]. intros ->. congruence.
    + split; [done|]. exists r, q'. rewrite Hlook, decide_True by done. split_and!; congruence.
  - intros r' q0. rewrite Hlook. case_decide; [|apply Hwf]. intros [= <-]. rewrite Ef, Hf. by intros [? ?].
  - intros r' h v Hin. destruct (bw_runs _ Hwf _ _ _ Hin) as (q0 & Hq0 & ? & ?). rewrite Hlook.
    case_decide; [subst r'; congruence|by exists q0].
  - apply Hwf.
  - intros r' q0 v. rewrite Hlook. case_decide; [|apply Hwf]. intros [= <-]. congruence.
  - apply Hwf.
  - intros r' q0 Hq0. rewrite Hlook. case_decide; [|by exists q0]. subst r'. exists q'. split; [done|].
    assert (q0 = q) as -> by congruence. split; [congruence|congruence|by rewrite Eh].
Qed.

Lemma alter_insert (r : nat) (f : PendingRequest → PendingRequest) (l : list PendingRequest) q :
  l !! r = Some q → alter f r l = <[r:=f q]> l.
Proof.
  intros Hr. apply list_eq. intros i. rewrite list_lookup_alter.
  destruct (decide (r = i)) as [->|Hne].
  - rewrite Hr, list_lookup_insert_eq; [done|by eapply lookup_lt_Some].
  - by rewrite list_lookup_insert_ne.
Qed.

Lemma alter_twice (r : nat) (f g : PendingRequest → PendingRequest) (l : list PendingRequest) q :
  l !! r = Some q → alter g r (alter f r l) = <[r:=g (f q)]> l.
Proof.
  intros Hr. rewrite (alter_insert r g _ (f q)).
  - rewrite (alter_insert r f l q) by done. by rewrite list_insert_insert_eq.
  - by rewrite list_lookup_alter_eq, Hr.
Qed.

(** A live entry is an unresolved request. *)
Lemma live_request x s k r q :
  broker_wf_but x s → dget (_live s) k ≫= (λ r, (r,.) <$> requests s !! r) = Some (r, q) →
  dget (_live s) k = Some r ∧ requests s !! r = Some q ∧ req_key q = k ∧ _future q = None.
Proof.
  intros Hwf E. destruct (dget (_live s) k) as [r'|] eqn:Hk; [|done].
  destruct (bw_live _ Hwf _ _ Hk) as (q' & Hr & ? & ?). cbn in E. rewrite Hr in E. by simplify_eq/=.
Qed.

Lemma claim_sound key i a is_ s : broker_wf s → sound_step s (claim key i a is_ s).2.
Proof.
  intros Hwf. unfold claim. destruct (_ ≫= _) as [[r q]|] eqn:E;
    [|destruct (dget (_retired s) key) as [e|]; [destruct (is_answered _)|]; by split].
  apply (live_request _ _ _ _ _ Hwf) in E as (Hk & Hr & Hkey & Hf).
  destruct (negb _); [by split|]. destruct (_claimed q) eqn:Hc; [by split|].
  set (f := λ q, q <| _claimed := Some (fresh s) |>).
  set (s0 := set_req r f (s <| fresh ::= S |>)).
  destruct (cancel_timer_parts r s0) as (Er & Et & E).
  assert (requests s0 !! r = Some (f q)) as Hr0
    by (unfold s0; rewrite lookup_set_req, decide_True by done;
        change (requests (update fresh _ s)) with (requests s); by rewrite Hr).
  assert (timers (_cancel_timer r s0) =
    match _timer q with Some h => ddel (timers s) h | None => timers s end) as Et'
    by (rewrite Et, Hr0; done).
  change (sound_step s (_cancel_timer r s0)).
  apply (requeue s _ None r q (no_timer (f q))); try done.
  - rewrite Er. apply alter_twice, Hr.
  - injection E as E1 E2 _ _ _ _ E7. by rewrite E1, E2, E7.
  - injection E as _ _ _ E4 _ _ _. rewrite E4. change (fresh s ≤ S (fresh s)). lia.
  - intros h Hne _. rewrite Et'. destruct (_timer q); [|done].
    apply dget_ddel_ne. congruence.
  - intros h t k Ht. rewrite Et' in Ht. left. destruct (_timer q) as [h0|]; [|done].
    rewrite dget_ddel in Ht. case_decide; [done|]. split; [congruence|done].
  - by left.
Qed.

Lemma commit_sound now c s :
  broker_wf s →
  (∀ q, requests s !! cl_req c = Some q →
     authorized_by (meta q) (answered (cl_option_index c) (cl_actor_id c) (cl_option_indices c))) →
  sound_step s (commit now c s).2.
Proof.
  intros Hwf Hc. unfold commit. destruct (requests s !! cl_req c) as [q|] eqn:Hr; [|by split].
  destruct (lost q c) eqn:Hl; [by split|]. apply (finish_wf None); [done|by left|].
  intros r q' Hk Hq'. unfold lost in Hl. apply orb_false_iff in Hl as [_ Hf].
  apply bool_decide_eq_false, eq_None_not_Some in Hf.
  destruct (open_guarded _ _ _ Hwf Hr Hf) as [Hk' _]. assert (r = cl_req c) as -> by congruence.
  assert (q' = q) as -> by congruence. by apply Hc.
Qed.

Lemma abort_sound now c s : broker_wf s → sound_step s (abort_claim now c s).
Proof.
  intros Hwf. unfold abort_claim. destruct (requests s !! cl_req c) as [q|] eqn:Hr; [|by split].
  destruct (lost q c) eqn:Hl; [by split|]. unfold lost in Hl. apply orb_false_iff in Hl as [Hc Hf].
  apply negb_false_iff, bool_decide_eq_true in Hc. apply bool_decide_eq_false, eq_None_not_Some in Hf.
  destruct (open_guarded _ _ _ Hwf Hr Hf) as [Hk Hg]. unfold guarded in Hg. rewrite Hc in Hg.
  set (f := λ q, q <| _claimed := None |>). set (s1 := set_req (cl_req c) f s).
  case_bool_decide as Hrem.
  - assert (broker_wf_but (Some (cl_req c)) s1 ∧ heap_le s s1) as [Hwf1 Hle1].
    { apply (requeue s s1 _ (cl_req c) q (f q)); try done.
      - by apply alter_insert.
      - intros h t k Ht. left. by rewrite Hg.
      - by right. }
    destruct (finish_wf (Some (cl_req c)) now (req_key q) no_answer s1) as [Hwf2 Hle2];
      [done|by right|done|]. split; [done|by etrans].
  - apply (requeue s _ None (cl_req c) q ((f q) <| _timer := Some (fresh s) |>)); try done.
    + apply (alter_twice (cl_req c) f (λ q, q <| _timer := Some (fresh s) |>) _ _ Hr).
    + change (fresh s ≤ S (fresh s)). lia.
    + intros h _ Hh. apply (dget_dset_ne (timers s) (fresh s)). lia.
    + intros h t k. change (dget (dset (timers s) (fresh s) ((now + (_deadline q - now))%Z, req_key q)) h
        = Some (t, k) → (_timer q ≠ Some h ∧ dget (timers s) h = Some (t, k)) ∨
          (Some (fresh s) = Some h ∧ k = req_key q ∧ h < S (fresh s))).
      rewrite dget_dset. case_decide; [|rewrite Hg; by left].
      intros [= <- <-]. right. subst h. split_and!; [done..|lia].
    + left. exists (fresh s). split; [done|].
      replace (now + (_deadline q - now))%Z with (_deadline q) by lia. apply (dget_dset_eq (timers s)).
Qed.

(** ** Every interleaving *)

Definition claim_bound (s : VerdictBroker) (c : _Claim) : Prop :=
  ∃ q n, requests s !! cl_req c = Some q ∧ (0 < n)%Z ∧ operator_id (meta q) = JInt n ∧
    cl_actor_id c = JInt n.

Definition system_wf (x : VerdictBroker * list _Claim) : Prop :=
  broker_wf x.1 ∧ ∀ c, c ∈ x.2 → claim_bound x.1 c.

Lemma claim_bound_mono s s' c : heap_le s s' → claim_bound s c → claim_bound s' c.
Proof.
  intros Hle (q & n & Hq & Hn & Ho & Ha). destruct (Hle _ _ Hq) as (q' & Hq' & [E _ _]).
  exists q', n. split_and!; congruence.
Qed.

Lemma claimed_bound key i a is_ s c s' :
  broker_wf s → claim key i a is_ s = (Claimed c, s') → claim_bound s c.
Proof.
  intros Hwf. unfold claim. destruct (_ ≫= _) as [[r q]|] eqn:E;
    [|destruct (dget (_retired s) key) as [e|]; [destruct (is_answered _)|]; done].
  apply (live_request _ _ _ _ _ Hwf) in E as (Hk & Hr & _ & _).
  destruct (_actor_is_bound q a) eqn:Hb; cbn [negb]; [|done]. destruct (_claimed q); [done|].
  intros [= <- <-]. unfold _actor_is_bound in Hb. destruct (operator_id (meta q)) as [| |n| | | |] eqn:Ho; try done.
  apply andb_true_iff in Hb as [Hn Ha]. apply bool_decide_eq_true in Hn, Ha. by exists q, n.
Qed.

Lemma bstep_sound x y : system_wf x → bstep x y → system_wf y ∧ heap_le x.1 y.1.
Proof.
  intros [Hwf Hcs] Hst.
  assert (∀ s', sound_step x.1 s' → system_wf (s', x.2) ∧ heap_le x.1 s') as Hsame.
  { intros s' [Hwf' Hle]. split; [split; [done|]|done]. cbn. eauto using claim_bound_mono. }
  destruct Hst as [now o s cs|key i a is_ s cs c s' E|now c s cs Hc|now c s cs Hc]; cbn in *.
  - by apply Hsame, run_bop_sound.
  - pose proof (claim_sound key i a is_ s Hwf) as Hs. rewrite E in Hs. cbn in Hs.
    destruct (Hsame _ Hs) as [[Hwf' Hcs'] Hle]. split; [split; [done|]|done]. cbn.
    intros c' [->|Hin]%elem_of_cons; [|by apply Hcs'].
    eapply claim_bound_mono; [apply Hle|by eapply claimed_bound].
  - apply Hsame, commit_sound; [done|]. intros q Hq.
    destruct (Hcs _ Hc) as (q' & n & ? & ? & ? & ?). exists n. split_and!; congruence.
  - by apply Hsame, abort_sound.
Qed.

Lemma bsteps_sound x y : system_wf x → rtc bstep x y → system_wf y ∧ heap_le x.1 y.1.
Proof.
  intros Hx Hst. induction Hst as [x|x y z Hxy _ IH]; [done|].
  destruct (bstep_sound _ _ Hx Hxy) as [Hy Hle]. destruct (IH Hy) as [Hz Hle']. split; [done|by etrans].
Qed.

Lemma breachable_wf x : breachable x → system_wf x.
Proof.
  intros Hx. apply (bsteps_sound (new_broker, []) x); [|done].
  split; [apply new_broker_wf|by intros c ?%not_elem_of_nil].
Qed.

(** C6: a request is resolved once.  Whatever taps, timeouts, cancellations,
    retries and posts follow, an outcome is never replaced, so everyone who awaits
    the request sees the same one; and its finish hook is started at most once,
    with that outcome. *)
Theorem request_resolved_once s cs s' cs' r q v :
  breachable (s, cs) → rtc bstep (s, cs) (s', cs') →
  requests s !! r = Some q → _future q = Some v →
  (∃ q', requests s' !! r = Some q' ∧ req_key q' = req_key q ∧ _future q' = Some v) ∧
  NoDup (hook_runs s').*1 ∧ ∀ h w, (r, (h, w)) ∈ hook_runs s' → w = v.
Proof.
  intros Hs Hst Hr Hv. destruct (bsteps_sound _ _ (breachable_wf _ Hs) Hst) as [[Hwf _] Hle].
  cbn in Hwf, Hle. destruct (Hle _ _ Hr) as (q' & Hr' & [E Hf _]). specialize (Hf _ Hv).
  split_and!; [|apply Hwf|].
  - exists q'. split; [done|]. split; [congruence|done].
  - intros h w Hin. destruct (bw_runs _ Hwf _ _ _ Hin) as (q0 & ? & _ & ?). congruence.
Qed.

(** C26: only the operator answers.  If a request, live, finished or handed to a
    retry, carries an answer, then the answer names the operator that the request
    was bound to when it was registered, and that binding is a positive id: a
    request without one is answered by nobody. *)
Theorem answers_come_from_the_operator s cs r q i a is_ :
  breachable (s, cs) → requests s !! r = Some q → _future q = Some (answered i a is_) →
  ∃ n, (0 < n)%Z ∧ operator_id (meta q) = JInt n ∧ a = JInt n.
Proof.
  intros Hs Hr Hv. exact (bw_answers _ (proj1 (breachable_wf _ Hs)) _ _ _ Hr Hv).
Qed.

(** C27: no request is lost.  An unresolved request is the live entry of its own
    key, where every finisher finds it; and unless a tap has reserved it, its
    timeout is armed for its deadline, and when that fires the request is
    resolved as unanswered. *)
Theorem unresolved_requests_are_guarded s cs r q :
  breachable (s, cs) → requests s !! r = Some q → _future q = None →
  dget (_live s) (req_key q) = Some r ∧
  (_claimed q = None →
   ∃ h, dget (timers s) h = Some (_deadline q, req_key q) ∧
    ∀ now, (_deadline q ≤ now)%Z →
      ∃ q', requests (timer_fires now h s) !! r = Some q' ∧ _future q' = Some no_answer).
Proof.
  intros Hs Hr Hf. pose proof (proj1 (breachable_wf _ Hs)) as Hwf. cbn in Hwf.
  destruct (open_guarded _ _ _ Hwf Hr Hf) as [Hl Hg]. split; [done|]. intros Hc.
  unfold guarded in Hg. rewrite Hc in Hg. destruct Hg as (h & _ & Ht). exists h. split; [done|].
  intros now Hdue. rewrite (timer_finishes _ _ _ _ _ Hwf Ht Hdue).
  destruct (finish_resolves now (req_key q) no_answer r q s) as (q' & ? & ? & _); eauto.
Qed.

(** ** Evaluation *)

Definition ask : bop :=
  BRegister "engagement_ask" "topic" "q1" (seconds 30) false (mkMeta (JInt 7) None None []) false.
Definition ask_key : Key := ("engagement_ask", "topic", "q1").
Definition asked : VerdictBroker := run_bop 0 ask new_broker.
Definition tap : _Claim := mkClaim 0 1 2 (JInt 7) None.
Definition tapped : VerdictBroker := (claim ask_key 2 (JInt 7) None asked).2.
Definition committed_b : VerdictBroker := (commit 5 tap tapped).2.

Example stranger_is_refused : (claim ask_key 2 (JInt 8) None asked).1 = Forbidden.
Proof. reflexivity. Qed.
Example second_tap_is_duplicate : (claim ask_key 1 (JInt 7) None tapped).1 = Duplicate.
Proof. reflexivity. Qed.
Example retry_finds_the_answer :
  match register 6 "engagement_ask" "topic" "q1" (seconds 30) false (mkMeta (JInt 7) None None [])
          false committed_b with
  | (Ok (r, fresh), s) => (requests s !! r ≫= _future, fresh)
  | _ => (None, true)
  end = (Some (answered 2 (JInt 7) None), false).
Proof. reflexivity. Qed.

Lemma asked_reachable : breachable (asked, []).
Proof. apply rtc_once. apply (bs_op 0 ask). Qed.

Lemma tapped_step : bstep (asked, []) (tapped, [tap]).
Proof. apply (bs_claim ask_key 2 (JInt 7) None). reflexivity. Qed.

Lemma committed_step : bstep (tapped, [tap]) (committed_b, [tap]).
Proof. apply (bs_commit 5 tap). left. Qed.

Lemma committed_reachable : breachable (committed_b, [tap]).
Proof.
  unfold breachable. etrans; [apply asked_reachable|].
  eapply rtc_l; [apply tapped_step|]. apply rtc_once, committed_step.
Qed.

Lemma request_resolved_once_witness :
  ∃ q', requests (run_bop 50 (BTimer 0) committed_b) !! 0 = Some q' ∧
    _future q' = Some (answered 2 (JInt 7) None).
Proof.
  destruct (requests committed_b !! 0) as [q|] eqn:Hq; [|discriminate Hq].
  destruct (proj1 (request_resolved_once committed_b [tap] (run_bop 50 (BTimer 0) committed_b) [tap]
    0 q (answered 2 (JInt 7) None) committed_reachable (rtc_once _ _ (bs_op 50 (BTimer 0) _ _)) Hq
    ltac:(vm_compute in Hq; injection Hq as <-; reflexivity))) as (q' & ? & _ & ?).
  exists q'. split; assumption.
Defined.

Lemma answers_come_from_the_operator_witness : ∃ n, (0 < n)%Z ∧ JInt 7 = JInt n.
Proof.
  destruct (requests committed_b !! 0) as [q|] eqn:Hq; [|discriminate Hq].
  destruct (answers_come_from_the_operator committed_b [tap] 0 q 2 (JInt 7) None committed_reachable
    Hq ltac:(vm_compute in Hq; injection Hq as <-; reflexivity)) as (n & ? & _ & ?).
  exists n. split; assumption.
Defined.

Lemma unresolved_requests_are_guarded_witness : ∃ r, dget (_live asked) ask_key = Some r.
Proof.
  destruct (requests asked !! 0) as [q|] eqn:Hq; [|discriminate Hq].
  destruct (unresolved_requests_are_guarded asked [] 0 q asked_reachable Hq
    ltac:(vm_compute in Hq; injection Hq as <-; reflexivity)) as [Hl _].
  exists 0. assert (req_key q = ask_key) as <- by (vm_compute in Hq; injection Hq as <-; reflexivity).
  exact Hl.
Defined.
