(* ===== verification/WebhookAuth.v ===== *)
(** * Webhook authentication and secrets

    [webhook_auth.py]: the three verifiers, and the per-trigger secret files with
    their crash-safe rotation.

    The secrets directory is a dictionary of nodes.  Every system call is one
    effect; [plan] says how the next ones end: they succeed, they raise
    [OSError], or the machine stops there, which leaves the directory as it is
    and runs no handler.  Completed effects are durable in the order they were
    made, which is what the [fsync] calls are for. *)

From S2P Require Import Prelude PyDict Json PyStr.

(** ** Verifiers *)

Definition _CASA_TOKEN_LEN : nat := 43.
Definition _PROVIDER_MAX : nat := 4096.
Definition _TMP_SWEEP_SECS : Z := 60.

(** [usable_webhook_secret] *)
Definition usable_webhook_secret (value : string) : string :=
  if String.prefix "op://" value then "" else value.

(** [_header_ascii_bytes] *)
Definition _header_ascii_bytes (headers : list (string * string)) (name : string) : option string :=
  match dget headers name with
  | None => None
  | Some v => Some (if is_ascii v then v else "")
  end.

(** [_TS_RE.match]: the two groups. *)
Definition _TS_RE (s : string) : option (string * string) :=
  match after_prefix "t=" s with
  | None => None
  | Some s =>
    let '(t, s) := span digit s in
    match after_prefix ",v0=" s with
    | None => None
    | Some s =>
      let '(v, s) := span lower_hex s in
      if ((1 <=? String.length t) && (String.length t <=? 19)
          && (1 <=? String.length v) && (String.length v <=? 128))%nat && at_end s
      then Some (t, v) else None
    end
  end.

(** [verify], given HMAC-SHA256 as a hexadecimal digest. *)
Definition verify (hmac : string → string → string) (mode body : string)
    (headers : list (string * string)) (secret header_name : string) (tolerance_secs now : Z) : bool :=
  if negb (str_true secret) then false
  else if bool_decide (mode = "hmac_body") then
    match _header_ascii_bytes headers header_name with
    | None => false
    | Some got => bool_decide (got = hmac secret body)
    end
  else if bool_decide (mode = "static_header") then
    match _header_ascii_bytes headers header_name with
    | None => false
    | Some got => bool_decide (got = secret)
    end
  else if bool_decide (mode = "timestamped_hmac") then
    match dget headers header_name with
    | None => false
    | Some raw =>
      if negb (is_ascii raw) then false
      else match _TS_RE raw with
      | None => false
      | Some (digits, v0) =>
        let t := int_of digits in
        if bool_decide (tolerance_secs < Z.abs (now - t))%Z then false
        else bool_decide (v0 = hmac secret (show t +:+ "." +:+ body))
      end
    end
  else false.

(** ** The secrets directory *)

(** A directory entry: a regular file of bytes with its modification time, a
    file that [json.dumps] wrote, or something that is not a regular file. *)
Inductive node :=
  | File (bytes : string) (mtime : Z)
  | JsonFile (v : json)
  | Special.

Inductive fate := Go | Err | Stop.

Record Disk := mkDisk {
  files : list (string * node);
  present : bool;                      (** the directory exists *)
  draws : nat;                         (** random tokens drawn *)
  plan : list fate
}.
#[export] Instance disk_eta : Eta Disk := λ s, mkDisk (files s) (present s) (draws s) (plan s).

Definition DiskM := PyM Disk.

(** One system call: what it does, when it is allowed to happen. *)
Definition effect (f : Disk → Disk) : DiskM unit := λ s,
  match plan s with
  | [] => (Ok tt, f s)
  | Go :: p => (Ok tt, f (s <| plan := p |>))
  | Err :: p => (Raise OSError, s <| plan := p |>)
  | Stop :: p => (Raise PowerLoss, s <| plan := p |>)
  end.

Definition file_at (s : Disk) (path : string) : option node := dget (files s) path.

(** [except OSError: k]: the class and the subclass told apart. *)
Definition except_oserror {A} (m k : DiskM A) : DiskM A :=
  try_except m (λ e, match e with OSError | FileExistsError => Some k | _ => None end).

Section secrets.
(** [json], [secrets], the process id and [time.time()]. *)
Context (dumps : json → string) (loads : string → option json) (utf8 : string → bool).
Context (token hex : nat → string) (pid : string) (wclock : Z).

(** *** System calls *)

Definition draw : DiskM nat := λ s, (Ok (draws s), s <| draws ::= S |>).

Definition mkdir : DiskM unit := effect (λ s, s <| present := true |>).
Definition fsync : DiskM unit := effect (λ s, s).

(** [os.open(path, O_CREAT | O_EXCL | O_WRONLY)] *)
Definition create_file (path : string) : DiskM unit :=
  let* s := get in
  raise_when (negb (present s)) OSError ;;;
  raise_when (dhas (files s) path) FileExistsError ;;;
  effect (λ s, s <| files ::= λ d, dset d path (File "" wclock) |>).

Definition write_file (path : string) (content : node) : DiskM unit :=
  effect (λ s, s <| files ::= λ d, dset d path content |>).

Definition unlink (path : string) : DiskM unit :=
  let* s := get in
  raise_when (negb (dhas (files s) path)) OSError ;;;
  effect (λ s, s <| files ::= λ d, ddel d path |>).

(** [os.link]: the new name is another name of the same file. *)
Definition link (src dst : string) : DiskM unit :=
  let* s := get in
  match file_at s src with
  | None => raise OSError
  | Some n =>
    raise_when (dhas (files s) dst) FileExistsError ;;;
    effect (λ s, s <| files ::= λ d, dset d dst n |>)
  end.

(** [os.replace] *)
Definition replace (src dst : string) : DiskM unit :=
  let* s := get in
  match file_at s src with
  | None => raise OSError
  | Some n => effect (λ s, s <| files ::= λ d, dset (ddel d src) dst n |>)
  end.

(** [_fsync_dir] *)
Definition _fsync_dir : DiskM unit :=
  let* s := get in raise_when (negb (present s)) OSError ;;; fsync.

(** A private file with its content, fsynced. *)
Definition staged_file (path : string) (content : node) : DiskM unit :=
  create_file path ;;; write_file path content ;;; fsync.

(** *** Reading and publishing *)

Definition printable (c : Ascii.ascii) : bool :=
  let n := Ascii.nat_of_ascii c in ((32 <=? n) && (n <? 127))%nat.

(** [_valid_value] *)
Definition _valid_value (owner raw : string) : bool :=
  if bool_decide (owner = "casa")
  then (String.length raw =? _CASA_TOKEN_LEN)%nat && is_ascii raw
  else negb (negb (str_true raw) || (_PROVIDER_MAX <? String.length raw)%nat)
       && forallb printable (String.list_ascii_of_string raw).

Definition bytes_of (n : node) : option string :=
  match n with File b _ => Some b | JsonFile v => Some (dumps v) | Special => None end.

(** [_read_final] *)
Definition _read_final (name owner : string) (s : Disk) : option string :=
  match file_at s name ≫= bytes_of with
  | None => None
  | Some b =>
    let raw := String.substring 0 (S _PROVIDER_MAX) b in
    if _valid_value owner raw then Some raw else None
  end.

(** [_publish] *)
Definition _publish (name value : string) : DiskM unit :=
  mkdir ;;;
  let* i := draw in
  let staging := ".tmp-" +:+ pid +:+ "-" +:+ hex i in
  staged_file staging (File value wclock) ;;;
  fsync ;;;                                        (** opening the directory *)
  try_finally
    (try_except (link staging name)
       (λ e, match e with FileExistsError => Some (mret tt) | _ => None end) ;;;
     fsync)
    (except_oserror (unlink staging) (mret tt)).

Definition read_secret (name owner : string) (s : Disk) : option string := _read_final name owner s.

(** *** Retirement *)

Definition _next_name (name : string) : string := name +:+ ".next".
Definition _state_path (name : string) : string := name +:+ ".rot.json".
Definition _ident_path (name : string) : string := name +:+ ".ident".

(** [retire_secret] *)
Definition retire_secret (name : string) : DiskM unit :=
  if negb (str_true name) then mret tt
  else
    for_each [name; _next_name name; _state_path name; _ident_path name]
      (λ f, except_oserror (unlink f) (mret tt)) ;;;
    except_oserror _fsync_dir (mret tt).

(** [s] without the suffix [p]. *)
Definition without_suffix (p s : string) : option string :=
  let n := (String.length s - String.length p)%nat in
  if bool_decide (String.length p ≤ String.length s ∧ String.substring n (String.length p) s = p)
  then Some (String.substring 0 n s) else None.

Definition base_name (n : string) : string :=
  match without_suffix ".rot.json" n with
  | Some b => b
  | None => match without_suffix ".next" n with
            | Some b => b
            | None => default n (without_suffix ".ident" n)
            end
  end.

Definition string_le (a b : string) : Prop := String.leb a b = true.
#[local] Instance string_le_dec a b : Decision (string_le a b).
Proof. unfold string_le. apply _. Defined.

(** [retire_secrets_with_prefix] *)
Definition retire_secrets_with_prefix (prefix : string) : DiskM (list string) :=
  if negb (str_true prefix) then mret []
  else
    let* s := get in
    if negb (present s) then mret []
    else
      let bases := merge_sort string_le
        (remove_dups (filter (λ b, String.prefix prefix b = true) (base_name <$> dkeys (files s)))) in
      for_each bases retire_secret ;;; mret bases.

(** [_sweep_orphans] *)
Definition _sweep_orphans : DiskM unit :=
  let* s := get in
  for_each (files s) (λ p,
    match p.2 with
    | File _ mtime =>
      if String.prefix ".tmp-" p.1 && bool_decide (_TMP_SWEEP_SECS < wclock - mtime)%Z
      then except_oserror (unlink p.1) (mret tt) else mret tt
    | _ => mret tt
    end).

(** *** Minting *)

(** [ensure_secret] *)
Definition ensure_secret (name owner : string) : DiskM (option string) :=
  let* s := get in
  (if present s then _sweep_orphans else mret tt) ;;;
  let* s := get in
  match _read_final name owner s with
  | Some existing => mret (Some existing)
  | None =>
    if negb (bool_decide (owner = "casa")) then mret None
    else
      let* i := draw in
      _publish name (token i) ;;;
      gets (_read_final name owner)
  end.

(** [_write_ident]: false on failure. *)
Definition _write_ident (name identity : string) : DiskM bool :=
  except_oserror
    (let* i := draw in
     let tmp := ".ident-" +:+ pid +:+ "-" +:+ hex i in
     create_file tmp ;;;
     (if negb (is_ascii identity) then mret false
      else
        write_file tmp (File identity wclock) ;;;
        fsync ;;;
        replace tmp (_ident_path name) ;;;
        _fsync_dir ;;;
        mret true))
    (mret false).

(** [path.read_text(encoding="ascii").strip()] of the binding, if it can be read. *)
Definition bound_identity (name : string) (s : Disk) : option string :=
  match file_at s (_ident_path name) ≫= bytes_of with
  | Some b => if is_ascii b then Some (strip b) else None
  | None => None
  end.

(** [secret_bound_to_identity] *)
Definition secret_bound_to_identity (name identity : string) (s : Disk) : bool :=
  match _read_final name "casa" s with
  | None => false
  | Some _ => bool_decide (bound_identity name s = Some identity)
  end.

(** The mint, under the identity. *)
Definition mint_for_identity (name identity : string) : DiskM (option string) :=
  let* got := ensure_secret name "casa" in
  match got with
  | None => mret None
  | Some got =>
    let* bound := _write_ident name identity in
    if negb bound then retire_secret name ;;; mret None else mret (Some got)
  end.

(** [ensure_secret_for_identity] *)
Definition ensure_secret_for_identity (name identity : string) : DiskM (option string) :=
  let* s := get in
  match _read_final name "casa" s with
  | Some existing =>
    if bool_decide (bound_identity name s = Some identity) then mret (Some existing)
    else
      retire_secret name ;;;
      let* s := get in
      if bool_decide (is_Some (_read_final name "casa" s)) then mret None
      else mint_for_identity name identity
  | None => mint_for_identity name identity
  end.

(** ** Rotation *)

(** [_write_state] *)
Definition _write_state (name phase : string) (owner : json) : DiskM unit :=
  let* i := draw in
  let tmp := ".rot-" +:+ pid +:+ "-" +:+ hex i in
  staged_file tmp (JsonFile (JObj [("phase", JStr phase); ("secret_owner", owner);
                                   ("started_ts", JInt wclock)])) ;;;
  replace tmp (_state_path name) ;;;
  _fsync_dir.

Definition phase_ok (st : list (string * json)) : bool :=
  bool_decide (obj_get st "phase" = JStr "awaiting_next")
  || bool_decide (obj_get st "phase" = JStr "staged")
  || bool_decide (obj_get st "phase" = JStr "promote").

(** [_read_state]: a state file that is not a rotation state is deleted; one that
    is not text raises [UnicodeDecodeError], a [ValueError]. *)
Definition _read_state (name : string) : DiskM (option (list (string * json))) :=
  let* s := get in
  match file_at s (_state_path name) with
  | None | Some Special => mret None
  | Some n =>
    raise_when (match n with File b _ => negb (utf8 b) | _ => false end) ValueError ;;;
    match match n with JsonFile v => Some v | File b _ => loads b | Special => None end with
    | Some (JObj st) =>
      if phase_ok st then mret (Some st)
      else except_oserror (unlink (_state_path name)) (mret tt) ;;; mret None
    | _ => except_oserror (unlink (_state_path name)) (mret tt) ;;; mret None
    end
  end.

(** [_clear_state] *)
Definition _clear_state (name : string) : DiskM unit :=
  except_oserror (unlink (_state_path name)) (mret tt) ;;; _fsync_dir.

(** [rotation_begin] *)
Definition rotation_begin (name owner : string) : DiskM string :=
  if bool_decide (owner = "casa") then
    let* s := get in
    match _read_final (_next_name name) owner s with
    | None => let* i := draw in _publish (_next_name name) (token i)
    | Some _ => mret tt
    end ;;;
    _write_state name "staged" (JStr owner) ;;;
    mret "staged"
  else _write_state name "awaiting_next" (JStr owner) ;;; mret "awaiting_next".

(** [rotation_import_next] *)
Definition rotation_import_next (name value owner : string) : DiskM string :=
  raise_when (negb (_valid_value owner value)) ValueError ;;;
  let* s := get in
  match _read_final (_next_name name) owner s with
  | Some existing => raise_when (negb (bool_decide (existing = value))) ValueError
  | None => _publish (_next_name name) value
  end ;;;
  _write_state name "staged" (JStr owner) ;;;
  mret "staged".

(** [(st or {}).get("secret_owner", default)] *)
Definition state_owner (st : option (list (string * json))) (d : string) : json :=
  match st with
  | Some st => default (JStr d) (dget st "secret_owner")
  | None => JStr d
  end.

Definition owner_name (owner : json) : string := match owner with JStr s => s | _ => "" end.

(** [rotation_promote] *)
Definition rotation_promote (name : string) : DiskM string :=
  let* st := _read_state name in
  _write_state name "promote" (state_owner st "casa") ;;;
  replace (_next_name name) name ;;;
  _fsync_dir ;;;
  _clear_state name ;;;
  mret "idle".

(** [rotation_recover] *)
Definition rotation_recover (name owner : string) : DiskM string :=
  let* st := _read_state name in
  match st with
  | None => mret "idle"
  | Some fields =>
    if bool_decide (obj_get fields "phase" = JStr "awaiting_next") then mret "awaiting_next"
    else if bool_decide (obj_get fields "phase" = JStr "staged") then
      let* s := get in
      match _read_final (_next_name name) (owner_name (state_owner st owner)) s with
      | Some _ => mret "staged"
      | None => _clear_state name ;;; mret "idle"
      end
    else
      let* s := get in
      (if dhas (files s) (_next_name name) then replace (_next_name name) name ;;; _fsync_dir
       else mret tt) ;;;
      _clear_state name ;;;
      mret "idle"
  end.
End secrets.
