(* ===== verification/WebhookProperties.v ===== *)
(** * What webhook authentication guarantees

    Properties of [WebhookAuth]: the timestamped verifier accepts exactly the
    signed headers inside the window; publishing a secret is all or nothing under
    any fault; an interrupted rotation converges at the next boot without ever
    leaving the endpoint without a secret; and a minted secret is never inherited
    by another consent identity. *)

From S2P Require Import Prelude PyDict Json PyStr WebhookAuth.

(** ** The timestamped header *)

(** What the header must be, read off the regular expression. *)
Definition ts_header (digits v0 raw : string) : Prop :=
  (raw = "t=" +:+ digits +:+ ",v0=" +:+ v0 ∨
   raw = "t=" +:+ digits +:+ ",v0=" +:+ v0 +:+ newline) ∧
  all_chars digit digits = true ∧ 1 ≤ String.length digits ≤ 19 ∧
  all_chars lower_hex v0 = true ∧ 1 ≤ String.length v0 ≤ 128.

Lemma ts_re_spec raw digits v0 : _TS_RE raw = Some (digits, v0) ↔ ts_header digits v0 raw.
Proof.
  unfold _TS_RE, ts_header. split.
  - destruct (after_prefix "t=" raw) as [s1|] eqn:E1; [|done]. apply after_prefix_spec in E1 as ->.
    destruct (span digit s1) as [t s2] eqn:E2. apply span_spec in E2 as (-> & Ht & _).
    destruct (after_prefix ",v0=" s2) as [s3|] eqn:E3; [|done]. apply after_prefix_spec in E3 as ->.
    destruct (span lower_hex s3) as [v s4] eqn:E4. apply span_spec in E4 as (-> & Hv & _).
    destruct (_ && at_end s4) eqn:Hb; [|done]. intros [= <- <-].
    repeat (apply andb_true_iff in Hb as [Hb ?]). rewrite !Nat.leb_le in *.
    split_and!; try done. unfold at_end in *.
    match goal with H : _ || _ = true |- _ => apply orb_true_iff in H as [H|H] end;
      apply bool_decide_eq_true in H; subst s4; [left|right; done]. by rewrite string_app_nil_r.
  - intros (Hraw & Ht & Hlt & Hv & Hlv).
    assert (∃ tail, raw = "t=" +:+ (digits +:+ (",v0=" +:+ (v0 +:+ tail))) ∧ at_end tail = true ∧
      match tail with String c _ => lower_hex c = false | _ => True end) as (tail & -> & Hend & Hc).
    { destruct Hraw as [->| ->]; [exists ""|exists newline]; rewrite ?string_app_nil_r; done. }
    rewrite (proj2 (after_prefix_spec _ _ _) eq_refl).
    rewrite span_app by done. rewrite (proj2 (after_prefix_spec _ _ _) eq_refl).
    rewrite span_app by done. rewrite Hend.
    by rewrite !(proj2 (Nat.leb_le _ _)) by lia.
Qed.

Lemma ts_header_ascii digits v0 raw : ts_header digits v0 raw → is_ascii raw = true.
Proof.
  intros (Hraw & Ht & _ & Hv & _). change (is_ascii raw) with (all_chars (λ c, Ascii.nat_of_ascii c <? 128)%nat raw).
  assert (∀ s, all_chars lower_hex s = true → all_chars (λ c, Ascii.nat_of_ascii c <? 128)%nat s = true)
    as Hhex by (intros s; apply all_chars_mono; intros c Hc; by apply Nat.ltb_lt, hex_ascii).
  assert (all_chars lower_hex digits = true) as Ht'
    by (revert Ht; apply all_chars_mono; unfold lower_hex; by intros c ->).
  destruct Hraw as [->| ->]; rewrite !all_chars_app, (Hhex digits Ht'), (Hhex v0 Hv); done.
Qed.

(** The timestamped verifier accepts the signed headers, and no others.  It
    accepts exactly when there is a secret, the header is a timestamp of at most
    nineteen digits and a lower-case hexadecimal digest (with at most a newline
    after it), the timestamp is within the tolerance of the present, and the
    digest is the keyed hash of the timestamp, in canonical form, and the body;
    so a captured request is dead once its window has passed. *)
Theorem timestamped_accepts_signed hmac body headers secret header tolerance now :
  verify hmac "timestamped_hmac" body headers secret header tolerance now = true ↔
  secret ≠ "" ∧
  ∃ raw digits v0, dget headers header = Some raw ∧ ts_header digits v0 raw ∧
    (Z.abs (now - int_of digits) ≤ tolerance)%Z ∧
    v0 = hmac secret (show (int_of digits) +:+ "." +:+ body).
Proof.
  unfold verify, str_true. case_bool_decide as Hs; cbn [negb].
  { split; [done|]. by intros [? _]. }
  rewrite !(bool_decide_eq_false_2 (_ = _)) by done. rewrite bool_decide_eq_true_2 by done.
  split.
  - intros E. split; [done|]. destruct (dget headers header) as [raw|]; [|done].
    destruct (is_ascii raw); cbn [negb] in E; [|done].
    destruct (_TS_RE raw) as [[digits v0]|] eqn:Ets; [|done]. apply ts_re_spec in Ets.
    case_bool_decide; [done|]. apply bool_decide_eq_true in E.
    exists raw, digits, v0. split_and!; [done|done|lia|done].
  - intros (_ & raw & digits & v0 & -> & Hts & Hw & ->). rewrite (ts_header_ascii _ _ _ Hts).
    apply ts_re_spec in Hts. rewrite Hts. cbn [negb]. rewrite bool_decide_eq_false_2 by lia.
    by apply bool_decide_eq_true_2.
Qed.

(** ** What a system call does to the visible files *)

(** Temporary files have names that start with a dot; no secret does. *)
Definition hidden (p : string) : bool := String.prefix "." p.

Definition view := string → option node.
Definition upd (E : view) (k : string) (v : option node) : view :=
  λ p, if decide (p = k) then v else E p.

Section faults.
Context (dumps : json → string) (loads : string → option json) (utf8 : string → bool).
Context (token hex : nat → string) (pid : string) (wclock : Z).
Context (there : bool).

(** The visible files are those of [E]; and the directory is known to exist. *)
Definition agrees (E : view) (s : Disk) : Prop :=
  (there = true → present s = true) ∧ ∀ p, hidden p = false → file_at s p = E p.

Definition either (E E' : view) (s : Disk) : Prop := agrees E s ∨ agrees E' s.

Lemma wp_effect f (Q : unit → Disk → Prop) R s :
  (∀ p, Q tt (f (s <| plan := p |>)) ∧ ∀ e, e ≠ FileExistsError → R e (s <| plan := p |>)) →
  wp (effect f) Q R s.
Proof.
  intros HQ. unfold wp, effect. destruct (plan s) as [|[] p] eqn:E.
  - destruct (HQ []) as [H _]. destruct s. cbn in E. by subst.
  - apply HQ.
  - by apply HQ.
  - by apply HQ.
Qed.

(** An effect that sees only the directory. *)
Lemma effect_agrees f E E' s :
  (∀ p, agrees E (s <| plan := p |>) → agrees E' (f (s <| plan := p |>))) → agrees E s →
  wp (effect f) (λ _, agrees E') (λ _, agrees E) s.
Proof. intros Hf HE. apply wp_effect. intros p. split; [by apply Hf|done]. Qed.

Lemma fsync_agrees E s : agrees E s → wp fsync (λ _, agrees E) (λ _, agrees E) s.
Proof. by apply effect_agrees. Qed.

Lemma agrees_set E s path v d :
  agrees E s → (there = true → present d = true) →
  (∀ p, file_at d p = if decide (p = path) then v else file_at s p) → agrees (upd E path v) d.
Proof.
  intros [_ HE] Hp Hd. split; [done|]. intros p Hh. rewrite Hd. unfold upd.
  case_decide; [done|]. by apply HE.
Qed.

Lemma agrees_hidden E s path v d :
  hidden path = true → agrees E s → (there = true → present d = true) →
  (∀ p, file_at d p = if decide (p = path) then v else file_at s p) → agrees E d.
Proof.
  intros Hh [_ HE] Hp Hd. split; [done|]. intros p Hv. rewrite Hd.
  rewrite decide_False by (intros ->; congruence). by apply HE.
Qed.

Lemma unlink_agrees E s p :
  agrees E s →
  wp (unlink p) (λ _, agrees (if hidden p then E else upd E p None)) (λ _, agrees E) s.
Proof.
  intros HE. unfold unlink. apply wp_bind, wp_get, wp_bind, wp_raise_when; [done|]. intros _.
  apply effect_agrees; [|done]. intros q [Hq HEq].
  destruct (hidden p) eqn:Hh.
  - eapply (agrees_hidden E _ p None); [done|split; [exact Hq|exact HEq]|done|].
    intros p'. apply (dget_ddel (files s)).
  - eapply (agrees_set E _ p None); [split; [exact Hq|exact HEq]|done|].
    intros p'. apply (dget_ddel (files s)).
Qed.

(** A staged file is there under its hidden name, and nothing else moved. *)
Definition staged (E : view) (tmp : string) (n : node) (s : Disk) : Prop :=
  agrees E s ∧ file_at s tmp = Some n.

Lemma staged_file_agrees E s tmp n :
  hidden tmp = true → agrees E s →
  wp (staged_file wclock tmp n) (λ _, staged E tmp n) (λ _, agrees E) s.
Proof.
  intros Hh HE. unfold staged_file, create_file.
  apply wp_bind, wp_bind, wp_get, wp_bind, wp_raise_when; [done|]. intros _.
  apply wp_bind, wp_raise_when; [done|]. intros _.
  apply wp_effect. intros q1. split; [|done].
  assert (agrees E (s <| plan := q1 |> <| files ::= λ d, dset d tmp (File "" wclock) |>)) as H1.
  { eapply (agrees_hidden E s tmp (Some _)); [done..|apply HE|]. intros p. apply (dget_dset (files s)). }
  apply wp_bind, wp_effect. intros q2. split; [|done].
  set (s2 := s <| plan := q1 |> <| files ::= λ d, dset d tmp (File "" wclock) |> <| plan := q2 |>
    <| files ::= λ d, dset d tmp n |>).
  assert (staged E tmp n s2) as H2.
  { split; [|apply (dget_dset_eq (dset (files s) tmp _))].
    eapply (agrees_hidden E _ tmp (Some n)); [done|exact H1|apply H1|].
    intros p. apply (dget_dset (dset (files s) tmp _)). }
  apply wp_effect. intros q3. split; [exact H2|intros; apply H2].
Qed.

Lemma replace_agrees E s tmp n dst :
  hidden tmp = true → hidden dst = false → staged E tmp n s →
  wp (replace tmp dst) (λ _, agrees (upd E dst (Some n))) (λ _, agrees E) s.
Proof.
  intros Ht Hd [HE Hn]. unfold replace. apply wp_bind, wp_get. rewrite Hn.
  apply wp_effect. intros q. split; [|done].
  assert (agrees E (s <| plan := q |> <| files ::= λ d, ddel d tmp |>)) as H1.
  { eapply (agrees_hidden E s tmp None); [done..|apply HE|]. intros p. apply (dget_ddel (files s)). }
  eapply (agrees_set E _ dst (Some n)); [exact H1|apply H1|].
  intros p. apply (dget_dset (ddel (files s) tmp)).
Qed.

(** Moving a visible file. *)
Lemma move_agrees E s src n dst :
  hidden src = false → hidden dst = false → agrees E s → E src = Some n →
  wp (replace src dst) (λ _, agrees (upd (upd E src None) dst (Some n))) (λ _, agrees E) s.
Proof.
  intros Hs Hd HE Hn. unfold replace. apply wp_bind, wp_get. rewrite (proj2 HE) by done. rewrite Hn.
  apply wp_effect. intros q. split; [|done].
  assert (agrees (upd E src None) (s <| plan := q |> <| files ::= λ d, ddel d src |>)) as H1.
  { eapply (agrees_set E s src None); [done..|apply HE|]. intros p. apply (dget_ddel (files s)). }
  eapply (agrees_set _ _ dst (Some n)); [exact H1|apply H1|].
  intros p. apply (dget_dset (ddel (files s) src)).
Qed.

Lemma fsync_dir_agrees E s : agrees E s → wp _fsync_dir (λ _, agrees E) (λ _, agrees E) s.
Proof.
  intros HE. unfold _fsync_dir. apply wp_bind, wp_get, wp_bind, wp_raise_when; [done|]. intros _.
  by apply fsync_agrees.
Qed.

Lemma draw_agrees E s (Q : nat → Disk → Prop) R :
  (∀ i s', agrees E s' → Q i s') → agrees E s → wp draw Q R s.
Proof. intros HQ HE. unfold wp, draw. by apply HQ. Qed.

Lemma wp_try_finally {A} (m : DiskM A) (f : DiskM unit) Q R s :
  wp m (λ a s', wp f (λ _, Q a) R s')
       (λ e s', if decide (e = PowerLoss) then R e s' else wp f (λ _, R e) R s') s →
  wp (try_finally m f) Q R s.
Proof.
  unfold wp, try_finally. destruct (m s) as [[a|e] s'].
  - by destruct (f s') as [[] s''].
  - case_decide; [by subst|]. destruct e; try done; by destruct (f s') as [[] s''].
Qed.

Lemma wp_except_oserror {A} (m k : DiskM A) Q R s :
  wp m Q (λ e s', match e with OSError | FileExistsError => wp k Q R s' | _ => R e s' end) s →
  wp (except_oserror m k) Q R s.
Proof.
  intros Hm. apply wp_try_except. eapply wp_mono; [exact Hm|done|]. by intros [].
Qed.

(** ** Publishing *)

Lemma tmp_hidden p : hidden (".tmp-" +:+ p) = true.
Proof. done. Qed.
Lemma rot_hidden p : hidden (".rot-" +:+ p) = true.
Proof. done. Qed.
Lemma ident_hidden p : hidden (".ident-" +:+ p) = true.
Proof. done. Qed.

Definition published (E : view) (name : string) (n : node) : view :=
  match E name with None => upd E name (Some n) | Some _ => E end.

Lemma unlink_hidden_agrees E s p :
  hidden p = true → agrees E s →
  wp (except_oserror (unlink p) (mret tt)) (λ _, agrees E) (λ _, agrees E) s.
Proof.
  intros Hh HE. apply wp_except_oserror. pose proof (unlink_agrees E s p HE) as H. rewrite Hh in H.
  eapply wp_mono; [exact H|done|]. by intros [].
Qed.

Lemma link_agrees E s tmp name n :
  hidden name = false → staged E tmp n s →
  wp (try_except (link tmp name)
       (λ e, match e with FileExistsError => Some (mret tt) | _ => None end))
    (λ _, agrees (published E name n)) (λ _, agrees E) s.
Proof.
  intros Hh [HE Hn]. apply wp_try_except. unfold link. apply wp_bind, wp_get. rewrite Hn.
  unfold dhas. change (dget (files s) name) with (file_at s name). rewrite (proj2 HE) by done.
  unfold published. apply wp_bind, wp_raise_when.
  - intros Hb%bool_decide_eq_true. destruct (E name); [done|by destruct Hb].
  - intros Hb%bool_decide_eq_false%eq_None_not_Some. rewrite Hb. apply wp_effect. intros q.
    split; [|by intros []].
    eapply (agrees_set E s name (Some n)); [done|apply HE|]. intros p. apply (dget_dset (files s)).
Qed.

Lemma publish_agrees E s name value :
  hidden name = false → agrees E s →
  wp (_publish hex pid wclock name value)
    (λ _, agrees (published E name (File value wclock)))
    (λ _, either E (published E name (File value wclock))) s.
Proof.
  intros Hh HE. unfold _publish. apply wp_bind.
  eapply wp_mono; [apply (effect_agrees _ E E s); [|done]| |by left].
  { intros p [_ H]. by split. }
  intros ? s1 H1. apply wp_bind. apply (draw_agrees E); [|done]. intros i s2 H2.
  apply wp_bind. eapply wp_mono; [apply staged_file_agrees; [apply tmp_hidden|done]| |by left].
  intros ? s3 [H3 Hn]. apply wp_bind. unfold fsync at 1. apply wp_effect. intros q.
  split; [|by left]. set (s4 := s3 <| plan := q |>).
  apply wp_try_finally, wp_bind. eapply wp_mono.
  - apply (link_agrees E s4); [done|]. by split.
  - intros ? s5 H5. eapply wp_mono; [exact (fsync_agrees _ _ H5)|..].
    + intros ? s6 H6. eapply wp_mono; [by apply unlink_hidden_agrees, H6|done|by right].
    + intros e s6 H6. case_decide; [by right|].
      eapply wp_mono; [exact (unlink_hidden_agrees _ _ _ (tmp_hidden _) H6)|by right|by right].
  - intros e s5 H5. case_decide; [by left|].
    eapply wp_mono; [exact (unlink_hidden_agrees _ _ _ (tmp_hidden _) H5)|by left|by left].
Qed.

Definition state_file (phase : string) (owner : json) : node :=
  JsonFile (JObj [("phase", JStr phase); ("secret_owner", owner); ("started_ts", JInt wclock)]).

Lemma write_state_agrees E s name phase owner :
  hidden (_state_path name) = false → agrees E s →
  let E' := upd E (_state_path name) (Some (state_file phase owner)) in
  wp (_write_state hex pid wclock name phase owner) (λ _, agrees E') (λ _, either E E') s.
Proof.
  intros Hh HE E'. unfold _write_state. apply wp_bind. apply (draw_agrees E); [|done].
  intros i s1 H1. apply wp_bind.
  eapply wp_mono; [exact (staged_file_agrees E s1 _ _ (rot_hidden _) H1)| |by left].
  intros ? s2 H2. apply wp_bind.
  eapply wp_mono; [exact (replace_agrees E s2 _ _ _ (rot_hidden _) Hh H2)| |by left].
  intros ? s3 H3. eapply wp_mono; [exact (fsync_dir_agrees E' s3 H3)|done|by right].
Qed.

Lemma read_state_staged E s name st :
  hidden (_state_path name) = false → agrees E s →
  E (_state_path name) = Some (JsonFile (JObj st)) → phase_ok st = true →
  _read_state loads utf8 name s = (Ok (Some st), s).
Proof.
  intros Hh HE HEs Hst. unfold _read_state. cbv [mbind pym_bind get].
  rewrite (proj2 HE) by done. rewrite HEs. cbv [raise_when mret pym_ret]. by rewrite Hst.
Qed.

Lemma clear_state_agrees E s name :
  hidden (_state_path name) = false → agrees E s →
  let E' := upd E (_state_path name) None in
  wp (_clear_state name) (λ _, either E E') (λ _, either E E') s.
Proof.
  intros Hh HE E'. unfold _clear_state. apply wp_bind, wp_except_oserror.
  assert (∀ E0 s0, agrees E0 s0 → E0 = E ∨ E0 = E' →
    wp _fsync_dir (λ _, either E E') (λ _, either E E') s0) as Hsync.
  { intros E0 s0 H0 Hor. eapply wp_mono; [exact (fsync_dir_agrees E0 s0 H0)|..];
      (destruct Hor; subst E0; [by left|by right]). }
  pose proof (unlink_agrees E s (_state_path name) HE) as Hu. rewrite Hh in Hu.
  eapply wp_mono; [exact Hu|..].
  - intros ? s1 H1. apply (Hsync E'); [done|by right].
  - intros e s1 H1. assert (wp (mret tt) (λ _ : unit, λ s', wp _fsync_dir (λ _, either E E') (λ _, either E E') s')
      (λ _, either E E') s1) as Hk by (apply wp_ret, (Hsync E); [done|by left]).
    destruct e; first [exact Hk|by left].
Qed.

(** The states an interrupted promotion can leave. *)
Definition promoting (E : view) (name : string) (n : node) (owner : json) : list view :=
  let E1 := upd E (_state_path name) (Some (state_file "promote" owner)) in
  let E2 := upd (upd E1 (_next_name name) None) name (Some n) in
  [E; E1; E2; upd E2 (_state_path name) None].

Lemma visible_suffix name sfx : str_true name = true → hidden name = false → hidden (name +:+ sfx) = false.
Proof.
  intros Hn Hh. destruct name as [|c name]; [done|]. revert Hh. unfold hidden.
  change (String c name +:+ sfx) with (String c (name +:+ sfx)).
  cbn [String.prefix].
  match goal with |- context [Ascii.ascii_dec ?a ?b] => destruct (Ascii.ascii_dec a b) end; [|done].
  by destruct name.
Qed.

Lemma promote_agrees E s name st n :
  str_true name = true → hidden name = false → agrees E s →
  E (_state_path name) = Some (JsonFile (JObj st)) → phase_ok st = true →
  E (_next_name name) = Some n →
  wp (rotation_promote loads utf8 hex pid wclock name)
    (λ _ s', ∃ E', E' ∈ drop 2 (promoting E name n (state_owner (Some st) "casa")) ∧ agrees E' s')
    (λ _ s', ∃ E', E' ∈ promoting E name n (state_owner (Some st) "casa") ∧ agrees E' s') s.
Proof.
  intros Hn Hh HE HEs Hst Hnext. unfold rotation_promote, promoting.
  pose proof (visible_suffix name ".rot.json" Hn Hh) as Hhs.
  pose proof (visible_suffix name ".next" Hn Hh) as Hhn. set (owner := state_owner _ _).
  set (E1 := upd E (_state_path name) (Some (state_file "promote" owner))).
  set (E2 := upd (upd E1 (_next_name name) None) name (Some n)).
  unfold wp at 1. cbv [mbind pym_bind]. rewrite (read_state_staged E s name st) by done.
  fold owner. change (wp (_write_state hex pid wclock name "promote" owner ;;;
    replace (_next_name name) name ;;; _fsync_dir ;;; _clear_state name ;;; mret "idle")
    (λ _ s', ∃ E', E' ∈ drop 2 [E; E1; E2; upd E2 (_state_path name) None] ∧ agrees E' s')
    (λ _ s', ∃ E', E' ∈ [E; E1; E2; upd E2 (_state_path name) None] ∧ agrees E' s') s).
  assert (E1 (_next_name name) = Some n) as HE1n.
  { subst E1. unfold upd. rewrite decide_False; [done|]. unfold _next_name, _state_path.
    intros Heq%string_app_inj. done. }
  apply wp_bind. eapply wp_mono; [exact (write_state_agrees E s name "promote" owner Hhs HE)|..].
  2: { intros e s1 [H1|H1]; [exists E|exists E1]; (split; [|done]); [left|right; left]. }
  intros ? s1 H1. fold E1 in H1. apply wp_bind.
  eapply wp_mono; [exact (move_agrees E1 s1 _ n name Hhn Hh H1 HE1n)|..].
  2: { intros e s2 H2. exists E1. split; [right; left|done]. }
  intros ? s2 H2. fold E2 in H2. apply wp_bind.
  eapply wp_mono; [exact (fsync_dir_agrees E2 s2 H2)|..].
  2: { intros e s3 H3. exists E2. split; [right; right; left|done]. }
  intros ? s3 H3. apply wp_bind.
  eapply wp_mono; [exact (clear_state_agrees E2 s3 name Hhs H3)|..].
  - intros ? s4 [H4|H4]; apply wp_ret; [exists E2|exists (upd E2 (_state_path name) None)];
      (split; [|done]); [left|right; left].
  - intros e s4 [H4|H4]; [exists E2|exists (upd E2 (_state_path name) None)];
      (split; [|done]); [right; right; left|right; right; right; left].
Qed.

(** ** Recovery at boot *)

(** A directory on which nothing fails any more. *)
Definition calm (E : view) (s : Disk) : Prop := agrees E s ∧ plan s = [] ∧ present s = true.

Lemma calm_effect f E E' s :
  (agrees E s → agrees E' (f s)) → plan (f s) = plan s → present (f s) = present s → calm E s →
  wp (effect f) (λ _, calm E') (λ _ _, False) s.
Proof.
  intros Hf Hp Hpr (HE & Hplan & Hpres). unfold wp, effect. rewrite Hplan.
  split_and!; [by apply Hf|congruence|congruence].
Qed.

Lemma calm_fsync_dir E s : calm E s → wp _fsync_dir (λ _, calm E) (λ _ _, False) s.
Proof.
  intros HE. unfold _fsync_dir. apply wp_bind, wp_get, wp_bind, wp_raise_when.
  - by rewrite (proj2 (proj2 HE)).
  - intros _. by apply (calm_effect _ E).
Qed.

Lemma calm_replace E s src n dst :
  hidden src = false → hidden dst = false → calm E s → E src = Some n →
  wp (replace src dst) (λ _, calm (upd (upd E src None) dst (Some n))) (λ _ _, False) s.
Proof.
  intros Hs Hd HE Hn. unfold replace. apply wp_bind, wp_get. rewrite (proj2 (proj1 HE)) by done. rewrite Hn.
  apply (calm_effect _ E); [|done..]. intros H0.
  assert (agrees (upd E src None) (s <| files ::= λ d, ddel d src |>)) as H1.
  { eapply (agrees_set E s src None); [done|apply H0|]. intros p. apply (dget_ddel (files s)). }
  eapply (agrees_set _ _ dst (Some n)); [exact H1|apply H1|].
  intros p. apply (dget_dset (ddel (files s) src)).
Qed.

Lemma calm_clear E s name n :
  hidden (_state_path name) = false → calm E s → E (_state_path name) = Some n →
  wp (_clear_state name) (λ _, calm (upd E (_state_path name) None)) (λ _ _, False) s.
Proof.
  intros Hh HE Hn. unfold _clear_state. apply wp_bind, wp_except_oserror. unfold unlink.
  apply wp_bind, wp_get, wp_bind, wp_raise_when.
  - unfold dhas. change (dget (files s) (_state_path name)) with (file_at s (_state_path name)).
    rewrite (proj2 (proj1 HE)) by done. rewrite Hn. by rewrite bool_decide_eq_true_2 by eauto.
  - intros _. eapply wp_mono.
    + apply (calm_effect _ E (upd E (_state_path name) None)); [|done..|exact HE]. intros H0.
      eapply (agrees_set E s _ None); [done|apply H0|]. intros p. apply (dget_ddel (files s)).
    + intros ? s1 H1. exact (calm_fsync_dir _ _ H1).
    + done.
Qed.

(** Recovery from each state of an interrupted promotion. *)
Lemma recover_staged E s name owner st :
  str_true name = true → hidden name = false → calm E s →
  E (_state_path name) = Some (JsonFile (JObj st)) → obj_get st "phase" = JStr "staged" →
  is_Some (_read_final dumps (_next_name name) (owner_name (state_owner (Some st) owner)) s) →
  rotation_recover dumps loads utf8 name owner s = (Ok "staged", s).
Proof.
  intros Hn Hh HE HEs Hst [v Hv]. unfold rotation_recover. cbv [mbind pym_bind].
  rewrite (read_state_staged E s name st); [|by apply visible_suffix|apply HE|done|].
  2: { unfold phase_ok. rewrite Hst. done. }
  rewrite Hst. rewrite bool_decide_eq_false_2, bool_decide_eq_true_2 by done.
  cbv [get]. by rewrite Hv.
Qed.

Lemma recover_promote E s name owner st :
  str_true name = true → hidden name = false → calm E s →
  E (_state_path name) = Some (JsonFile (JObj st)) → obj_get st "phase" = JStr "promote" →
  wp (rotation_recover dumps loads utf8 name owner)
    (λ r, λ s', r = "idle" ∧
      calm (upd (match E (_next_name name) with
                 | Some n => upd (upd E (_next_name name) None) name (Some n)
                 | None => E
                 end) (_state_path name) None) s')
    (λ _ _, False) s.
Proof.
  intros Hn Hh HE HEs Hst. pose proof (visible_suffix name ".rot.json" Hn Hh) as Hhs.
  pose proof (visible_suffix name ".next" Hn Hh) as Hhn.
  assert (phase_ok st = true) as Hok by (unfold phase_ok; by rewrite Hst).
  unfold rotation_recover. unfold wp at 1. cbv [mbind pym_bind].
  rewrite (read_state_staged E s name st) by first [apply HE|done].
  rewrite Hst. rewrite !(bool_decide_eq_false_2 (_ = _)) by done. cbv [get].
  unfold dhas. change (dget (files s) (_next_name name)) with (file_at s (_next_name name)).
  rewrite (proj2 (proj1 HE)) by done.
  assert (∀ E0 s0, calm E0 s0 → is_Some (E0 (_state_path name)) →
    wp (_clear_state name ;;; mret "idle")
      (λ r s', r = "idle" ∧ calm (upd E0 (_state_path name) None) s') (λ _ _, False) s0) as Hend.
  { intros E0 s0 H0 [m Hm]. apply wp_bind.
    eapply wp_mono; [exact (calm_clear E0 s0 name m Hhs H0 Hm)| |done].
    intros ? s1 H1. by apply wp_ret. }
  destruct (E (_next_name name)) as [n|] eqn:En.
  - rewrite bool_decide_eq_true_2 by eauto.
    set (E2 := upd (upd E (_next_name name) None) name (Some n)).
    change (wp ((replace (_next_name name) name ;;; _fsync_dir) ;;; _clear_state name ;;; mret "idle")
      (λ r s', r = "idle" ∧ calm (upd E2 (_state_path name) None) s') (λ _ _, False) s).
    apply wp_bind, wp_bind.
    eapply wp_mono; [exact (calm_replace E s _ n name Hhn Hh HE En)| |done]. intros ? s1 H1.
    eapply wp_mono; [exact (calm_fsync_dir _ _ H1)| |done]. intros ? s2 H2.
    apply (Hend E2); [done|]. subst E2. unfold upd. exists (JsonFile (JObj st)).
    rewrite decide_False by by apply suffix_ne.
    rewrite decide_False; [done|]. by intros ?%string_app_inj.
  - rewrite bool_decide_eq_false_2 by (by intros [? ?]).
    apply (Hend E); [done|by eexists].
Qed.

Lemma agrees_read E s name owner :
  hidden name = false → agrees E s →
  _read_final dumps name owner s =
  match E name ≫= bytes_of dumps with
  | None => None
  | Some b => let raw := String.substring 0 (S _PROVIDER_MAX) b in
              if _valid_value owner raw then Some raw else None
  end.
Proof. intros Hh HE. unfold _read_final. by rewrite (proj2 HE). Qed.

(** ** Minting *)

Lemma for_each_agrees {A} E (l : list A) (f : A → DiskM unit) s :
  (∀ x s', agrees E s' → wp (f x) (λ _, agrees E) (λ _, agrees E) s') → agrees E s →
  wp (for_each l f) (λ _, agrees E) (λ _, agrees E) s.
Proof. intros Hf. apply wp_for_each. auto. Qed.

Lemma sweep_agrees E s : agrees E s → wp (_sweep_orphans wclock) (λ _, agrees E) (λ _, agrees E) s.
Proof.
  intros HE. unfold _sweep_orphans. apply wp_bind, wp_get, for_each_agrees; [|done].
  intros [p n] s' H'. cbn [snd fst]. destruct n; try by apply wp_ret.
  destruct (String.prefix ".tmp-" p && _) eqn:Hb; [|by apply wp_ret].
  apply andb_true_iff in Hb as [Hp _]. apply unlink_hidden_agrees; [|done].
  apply String.prefix_correct in Hp. destruct p as [|c p]; [done|]. unfold hidden. cbn in Hp.
  injection Hp as Hc _. subst c. by destruct p.
Qed.

(** System calls draw no random token. *)
Definition same_draws (s s' : Disk) : Prop := draws s' = draws s.

Lemma unlink_draws p s :
  wp (except_oserror (unlink p) (mret tt)) (λ _, same_draws s) (λ _, same_draws s) s.
Proof.
  apply wp_except_oserror. unfold unlink. apply wp_bind, wp_get, wp_bind, wp_raise_when; [done|].
  intros _. apply wp_effect. intros q. split; [done|]. by intros [].
Qed.

Lemma for_each_draws {A} (l : list A) (f : A → DiskM unit) s :
  (∀ x s', wp (f x) (λ _, same_draws s') (λ _, same_draws s') s') →
  wp (for_each l f) (λ _, same_draws s) (λ _, same_draws s) s.
Proof.
  intros Hf. apply (wp_for_each _ _ (same_draws s)); [|done]. intros x s' _ Hs.
  eapply wp_mono; [apply Hf|..]; unfold same_draws in *; intros; cbn in *; congruence.
Qed.

Lemma retire_draws name s :
  wp (retire_secret name) (λ _, same_draws s) (λ _, same_draws s) s.
Proof.
  unfold retire_secret. destruct (negb _); [by apply wp_ret|]. apply wp_bind.
  eapply wp_mono; [apply for_each_draws; intros; apply unlink_draws|..].
  - intros ? s1 H1. apply wp_except_oserror. unfold _fsync_dir.
    apply wp_bind, wp_get, wp_bind, wp_raise_when; [done|]. intros _. apply wp_effect. intros q.
    split; [done|]. by intros [].
  - done.
Qed.

Lemma sweep_draws s : wp (_sweep_orphans wclock) (λ _, same_draws s) (λ _, same_draws s) s.
Proof.
  unfold _sweep_orphans. apply wp_bind, wp_get, for_each_draws. intros [p n] s'. cbn [snd fst].
  destruct n; try by apply wp_ret. destruct (_ && _); [apply unlink_draws|by apply wp_ret].
Qed.

(** A minted secret is what is on disk, and was drawn by this call. *)
Definition minted (name : string) (s : Disk) (b : string) (s' : Disk) : Prop :=
  _read_final dumps name "casa" s' = Some b ∧
  ∃ i, draws s ≤ i ∧ b = String.substring 0 (S _PROVIDER_MAX) (token i).

Lemma ensure_minted name s :
  hidden name = false → agrees (file_at s) s → _read_final dumps name "casa" s = None →
  wp (ensure_secret dumps token hex pid wclock name "casa")
    (λ r s', ∀ b, r = Some b → minted name s b s') (λ _ _, True) s.
Proof.
  intros Hh HE Hnone. unfold ensure_secret. apply wp_bind, wp_get, wp_bind. set (E := file_at s) in *.
  assert (wp (if present s then _sweep_orphans wclock else mret tt)
    (λ _ s', agrees E s' ∧ same_draws s s') (λ _ _, True) s) as Hsweep.
  { destruct (present s); [|by apply wp_ret]. pose proof (sweep_agrees E s HE) as H1.
    pose proof (sweep_draws s) as H2. unfold wp in *. by destruct (_sweep_orphans wclock s) as [[]]. }
  eapply wp_mono; [exact Hsweep| |done]. intros ? s1 [H1 Hd]. apply wp_bind, wp_get.
  rewrite (agrees_read E s1) by done. rewrite (agrees_read E s) in Hnone by done. rewrite Hnone.
  cbn [negb]. apply wp_bind. unfold draw. cbv [wp].
  change (wp (_publish hex pid wclock name (token (draws s1)) ;;; gets (_read_final dumps name "casa"))
    (λ r s', ∀ b, r = Some b → minted name s b s') (λ _ _, True) (s1 <| draws ::= S |>)).
  apply wp_bind. eapply wp_mono; [apply (publish_agrees E); [done|exact H1]| |done].
  intros ? s2 H2. apply wp_gets. intros b Hb. split; [done|]. exists (draws s1).
  split; [unfold same_draws in Hd; lia|]. rewrite (agrees_read _ s2 _ _ Hh H2) in Hb.
  unfold published in Hb. destruct (E name) as [n|] eqn:En; [rewrite En in Hb; cbv zeta in Hnone; congruence|].
  unfold upd in Hb. rewrite decide_True in Hb by done. cbn in Hb. by destruct (_valid_value _ _); simplify_eq.
Qed.

Lemma write_ident_agrees E s name identity :
  hidden (_ident_path name) = false → agrees E s →
  wp (_write_ident hex pid wclock name identity)
    (λ r s', r = true → agrees (upd E (_ident_path name) (Some (File identity wclock))) s' ∧
       is_ascii identity = true) (λ _ _, True) s.
Proof.
  intros Hh HE. unfold _write_ident. apply wp_except_oserror.
  apply wp_bind. apply (draw_agrees E); [|done]. intros i s1 H1. apply wp_bind.
  unfold create_file. apply wp_bind, wp_get, wp_bind, wp_raise_when; [by intros; apply wp_ret|]. intros _.
  apply wp_bind, wp_raise_when; [by intros; apply wp_ret|]. intros _.
  set (tmp := ".ident-" +:+ pid +:+ "-" +:+ hex i).
  apply wp_effect. intros q. split; [|by intros []; try apply wp_ret].
  set (s2 := s1 <| plan := q |> <| files ::= _ |>).
  assert (agrees E s2) as H2.
  { eapply (agrees_hidden E s1 tmp (Some _)); [done..|apply H1|]. intros p. apply (dget_dset (files s1)). }
  destruct (is_ascii identity) eqn:Ha; cbn [negb]; [|by apply wp_ret].
  apply wp_bind, wp_effect. intros q2. split; [|by intros []; try apply wp_ret].
  set (s3 := s2 <| plan := q2 |> <| files ::= _ |>).
  assert (staged E tmp (File identity wclock) s3) as H3.
  { split; [|apply (dget_dset_eq (files s2))].
    eapply (agrees_hidden E s2 tmp (Some _)); [done..|apply H2|]. intros p. apply (dget_dset (files s2)). }
  apply wp_bind, wp_effect. intros q3. split; [|by intros []; try apply wp_ret].
  apply wp_bind. assert (staged E tmp (File identity wclock) (s3 <| plan := q3 |>)) as H4 by exact H3.
  eapply wp_mono; [exact (replace_agrees E _ _ _ _ (ident_hidden _) Hh H4)|..].
  - intros ? s5 H5. apply wp_bind.
    eapply wp_mono; [exact (fsync_dir_agrees _ _ H5)|by intros; apply wp_ret|].
    by intros [] s6 _; try apply wp_ret.
  - by intros [] s5 _; try apply wp_ret.
Qed.

Lemma recover_idle E s name owner :
  hidden (_state_path name) = false → agrees E s → E (_state_path name) = None →
  rotation_recover dumps loads utf8 name owner s = (Ok "idle", s).
Proof.
  intros Hh HE Hn. unfold rotation_recover, _read_state. cbv [mbind pym_bind get].
  rewrite (proj2 HE) by done. by rewrite Hn.
Qed.

End faults.

Lemma upd_eq E k v : upd E k v k = v.
Proof. unfold upd. by rewrite decide_True. Qed.
Lemma upd_ne E k v k' : k' ≠ k → upd E k v k' = E k'.
Proof. intros. unfold upd. by rewrite decide_False. Qed.

(** The names of a secret's files are different. *)
Lemma names_differ name :
  _state_path name ≠ name ∧ _next_name name ≠ name ∧ _state_path name ≠ _next_name name.
Proof.
  split_and!; [by apply suffix_ne..|]. by intros ?%string_app_inj.
Qed.

(** ** Rotation survives a crash *)

Section promotion.
Context (dumps : json → string) (loads : string → option json) (utf8 : string → bool).
Context (wclock : Z) (name owner : string) (E : view) (st : list (string * json)) (old new : node).
Hypotheses (Hn : str_true name = true) (Hh : hidden name = false).
Hypotheses (Hst : E (_state_path name) = Some (JsonFile (JObj st))).
Hypotheses (Hph : obj_get st "phase" = JStr "staged").
Hypotheses (Hold : E name = Some old) (Hnew : E (_next_name name) = Some new).

Let owner0 := state_owner (Some st) "casa".
Let E1 := upd E (_state_path name) (Some (state_file wclock "promote" owner0)).
Let E2 := upd (upd E1 (_next_name name) None) name (Some new).
Let E3 := upd E2 (_state_path name) None.

(** The three files in each of the states of a promotion. *)
Lemma promotion_files :
  (E1 name, E1 (_next_name name), E1 (_state_path name))
    = (Some old, Some new, Some (state_file wclock "promote" owner0)) ∧
  (E2 name, E2 (_next_name name), E2 (_state_path name))
    = (Some new, None, Some (state_file wclock "promote" owner0)) ∧
  (E3 name, E3 (_next_name name), E3 (_state_path name)) = (Some new, None, None).
Proof.
  destruct (names_differ name) as (Hsn & Hxn & Hsx). unfold E3, E2, E1.
  repeat first [rewrite upd_eq | rewrite upd_ne by done]. by rewrite Hold, Hnew.
Qed.

(** The states recovery ends in. *)
Definition converged (phase : string) (s : Disk) : Prop :=
  phase = "idle" ∧ file_at s name = Some new ∧ file_at s (_next_name name) = None ∧
    file_at s (_state_path name) = None ∨
  phase = "staged" ∧ file_at s name = Some old ∧ file_at s (_next_name name) = Some new ∧
    file_at s (_state_path name) = E (_state_path name).

Lemma agrees_converged E' s :
  agrees true E' s → (E' name, E' (_next_name name), E' (_state_path name)) = (Some new, None, None) →
  converged "idle" s.
Proof.
  intros [_ HE] [= H1 H2 H3]. left. rewrite !HE by first [done|by apply visible_suffix]. done.
Qed.

Lemma recover_after E' s :
  E' ∈ promoting wclock E name new owner0 → calm true E' s →
  (E' (_next_name name) = E (_next_name name) →
   is_Some (_read_final dumps (_next_name name) (owner_name (state_owner (Some st) owner)) s)) →
  ∃ phase s2, rotation_recover dumps loads utf8 name owner s = (Ok phase, s2) ∧ converged phase s2.
Proof.
  destruct promotion_files as (F1 & F2 & F3). intros Hin Hc Hread.
  pose proof (visible_suffix name ".rot.json" Hn Hh) as Hhs.
  pose proof (visible_suffix name ".next" Hn Hh) as Hhn.
  assert (∀ E0, calm true E0 s → E0 (_state_path name) = Some (state_file wclock "promote" owner0) →
    (∀ k, k = name ∨ k = _next_name name ∨ k = _state_path name →
      upd (match E0 (_next_name name) with
           | Some n => upd (upd E0 (_next_name name) None) name (Some n)
           | None => E0 end) (_state_path name) None k = E3 k) →
    ∃ phase s2, rotation_recover dumps loads utf8 name owner s = (Ok phase, s2) ∧ converged phase s2)
    as Hprom.
  { intros E0 H0 H0s Heq. destruct (rotation_recover dumps loads utf8 name owner s) as [o s2] eqn:Er.
    pose proof (wp_run _ _ _ _ (recover_promote dumps loads utf8 true E0 s name owner _ Hn Hh H0 H0s
      eq_refl) _ _ Er) as Hr. destruct o as [phase|]; [|done]. destruct Hr as [-> [Ha _]].
    exists "idle", s2. split; [done|]. apply (agrees_converged _ _ Ha). rewrite <-F3.
    rewrite !Heq by tauto. done. }
  unfold promoting in Hin. fold E1 E2 E3 in Hin.
  rewrite !elem_of_cons in Hin. destruct Hin as [->|[->|[->|[->|?%not_elem_of_nil]]]]; [..|done].
  - exists "staged", s. split; [|right].
    + apply (recover_staged dumps loads utf8 true E s name owner st); try done. by apply Hread.
    + destruct Hc as [[_ HE] _]. by rewrite !HE.
  - injection F1 as F1n F1x F1s. apply (Hprom E1); [done..|]. rewrite F1x. fold E2. done.
  - injection F2 as F2n F2x F2s. apply (Hprom E2); [done..|]. rewrite F2x. done.
  - exists "idle", s. split; [|by apply (agrees_converged E3); [apply Hc|]].
    apply (recover_idle dumps loads utf8 true E3); [done|apply Hc|]. by injection F3.
Qed.
End promotion.

(** C9: an interrupted rotation converges, and the endpoint always has a secret.
    Start from a staged rotation with a live and a next secret file.  Whatever
    system call of [rotation_promote] fails, and wherever the machine stops, the
    live name holds the old file or the new one.  At the next boot, recovery
    returns and leaves either the promotion complete, with the new file live and
    no rotation file left, or the staged rotation exactly as it was; and a
    promotion that reported success has put the new file live. *)
Theorem interrupted_promotion_converges dumps loads utf8 hex pid wclock name owner s st old new o s1 :
  str_true name = true → hidden name = false → present s = true →
  file_at s (_state_path name) = Some (JsonFile (JObj st)) → obj_get st "phase" = JStr "staged" →
  file_at s name = Some old → file_at s (_next_name name) = Some new →
  is_Some (_read_final dumps (_next_name name) (owner_name (state_owner (Some st) owner)) s) →
  rotation_promote loads utf8 hex pid wclock name s = (o, s1) →
  (file_at s1 name = Some old ∨ file_at s1 name = Some new) ∧
  (is_Ok o → file_at s1 name = Some new) ∧
  ∃ phase s2, rotation_recover dumps loads utf8 name owner (s1 <| plan := [] |>) = (Ok phase, s2) ∧
    (phase = "idle" ∧ file_at s2 name = Some new ∧ file_at s2 (_next_name name) = None ∧
       file_at s2 (_state_path name) = None ∨
     phase = "staged" ∧ file_at s2 name = Some old ∧ file_at s2 (_next_name name) = Some new ∧
       file_at s2 (_state_path name) = file_at s (_state_path name)).
Proof.
  intros Hn Hh Hp Hst Hph Hold Hnew Hread Hrun. set (E := file_at s) in *.
  assert (agrees true E s) as HE by done.
  assert (phase_ok st = true) as Hok by (unfold phase_ok; by rewrite Hph).
  pose proof (wp_run _ _ _ _ (promote_agrees loads utf8 hex pid wclock true E s name st new
    Hn Hh HE Hst Hok Hnew) _ _ Hrun) as Hout.
  destruct (promotion_files wclock name E st old new Hold Hnew) as (F1 & F2 & F3).
  injection F1 as F1 _ _. injection F2 as F2 _ _. injection F3 as F3 _ _.
  assert (∃ E', E' ∈ promoting wclock E name new (state_owner (Some st) "casa") ∧ agrees true E' s1 ∧
    (is_Ok o → E' name = Some new) ∧ (E' name = Some old ∨ E' name = Some new))
    as (E' & Hin & HE' & Hdone & Hlive).
  { destruct o as [r|e]; destruct Hout as (E' & Hin & HE'); exists E'.
    - assert (E' name = Some new) as Hnm.
      { cbn [drop promoting] in Hin. rewrite !elem_of_cons in Hin.
        by destruct Hin as [->|[->|?%not_elem_of_nil]]. }
      split_and!; [by right; right|done|done|by right].
    - split_and!; [done|done|done|]. unfold promoting in Hin. rewrite !elem_of_cons in Hin.
      destruct Hin as [->|[->|[->|[->|?%not_elem_of_nil]]]]; [by left|by left|by right|by right|done]. }
  split_and!; [by rewrite (proj2 HE')|intros Ho; rewrite (proj2 HE') by done; by apply Hdone|].
  apply (recover_after dumps loads utf8 wclock name owner E st old new Hn Hh Hst Hph Hold Hnew E').
  - done.
  - split_and!; [done|done|by apply HE'].
  - intros Hx. rewrite (agrees_read dumps true E') by first [done|by apply visible_suffix].
    rewrite Hx. rewrite (agrees_read dumps true E) in Hread by first [done|by apply visible_suffix].
    exact Hread.
Qed.

Lemma interrupted_promotion_converges_witness :
  let dumps := λ _ : json, "" in let loads := λ _ : string, None in
  let st := [("phase", JStr "staged"); ("secret_owner", JStr "provider"); ("started_ts", JInt 5)] in
  let disk := mkDisk [("hook", File "old" 1%Z); ("hook.next", File "new" 2%Z);
                      ("hook.rot.json", JsonFile (JObj st))] true 0 [Go; Go; Go; Go; Go; Stop] in
  ∃ o s1, rotation_promote loads (λ _, true) (λ _, "0") "7" 9%Z "hook" disk = (o, s1) ∧
  (file_at s1 "hook" = Some (File "old" 1%Z) ∨ file_at s1 "hook" = Some (File "new" 2%Z)) ∧
  (is_Ok o → file_at s1 "hook" = Some (File "new" 2%Z)) ∧
  ∃ phase s2, rotation_recover dumps loads (λ _, true) "hook" "casa" (s1 <| plan := [] |>) = (Ok phase, s2) ∧
    (phase = "idle" ∧ file_at s2 "hook" = Some (File "new" 2%Z) ∧ file_at s2 "hook.next" = None ∧
       file_at s2 "hook.rot.json" = None ∨
     phase = "staged" ∧ file_at s2 "hook" = Some (File "old" 1%Z) ∧
       file_at s2 "hook.next" = Some (File "new" 2%Z) ∧
       file_at s2 "hook.rot.json" = Some (JsonFile (JObj st))).
Proof.
  cbv zeta. do 2 eexists. split; [vm_compute; reflexivity|].
  refine (interrupted_promotion_converges _ _ _ (λ _, "0") "7" 9%Z "hook" "casa"
    (mkDisk [("hook", File "old" 1%Z); ("hook.next", File "new" 2%Z);
       ("hook.rot.json", JsonFile (JObj [("phase", JStr "staged"); ("secret_owner", JStr "provider");
          ("started_ts", JInt 5)]))] true 0 [Go; Go; Go; Go; Go; Stop])
    [("phase", JStr "staged"); ("secret_owner", JStr "provider"); ("started_ts", JInt 5)]
    _ _ _ _ eq_refl eq_refl eq_refl eq_refl eq_refl eq_refl eq_refl _ eq_refl).
  by eexists.
Defined.

(** Publication is all or nothing, and never clobbers.  Whatever system call
    of [_publish] fails and wherever the machine stops, every visible file but the
    secret's is as it was; a file the name already had is kept; otherwise the name
    has no file or the complete value, and a call that returned has published. *)
Theorem publish_all_or_nothing hex pid wclock name value s o s' :
  hidden name = false → _publish hex pid wclock name value s = (o, s') →
  (∀ p, hidden p = false → p ≠ name → file_at s' p = file_at s p) ∧
  (∀ n, file_at s name = Some n → file_at s' name = Some n) ∧
  (file_at s name = None → file_at s' name = None ∨ file_at s' name = Some (File value wclock)) ∧
  (is_Ok o → file_at s' name = Some (default (File value wclock) (file_at s name))).
Proof.
  intros Hh Hrun.
  assert (agrees false (file_at s) s) as HE by done.
  pose proof (wp_run _ _ _ _ (publish_agrees hex pid wclock false _ s name value Hh HE) _ _ Hrun) as H.
  assert (published (file_at s) name (File value wclock) name
    = Some (default (File value wclock) (file_at s name))) as Hn.
  { unfold published. destruct (file_at s name) eqn:En; [done|apply upd_eq]. }
  assert (∀ p, p ≠ name → published (file_at s) name (File value wclock) p = file_at s p) as Hp.
  { intros p ?. unfold published. by destruct (file_at s name); [|apply upd_ne]. }
  assert (agrees false (file_at s) s' ∧ ¬ is_Ok o ∨
    agrees false (published (file_at s) name (File value wclock)) s') as [[[_ H'] Ho]|[_ H']].
  { destruct o; [by right|]. destruct H; [left|by right]. split; [done|]. by intros []. }
  - split_and!; [auto|intros; by rewrite H'|left; by rewrite H'|done].
  - split_and!.
    + intros p ??. rewrite H' by done. auto.
    + intros n E. by rewrite H', Hn, E.
    + intros E. right. by rewrite H', Hn, E.
    + by rewrite H', Hn.
Qed.

Lemma publish_all_or_nothing_witness :
  let disk := mkDisk [("other", File "x" 1%Z)] true 0 [Go; Go; Go; Go; Go; Go; Err; Stop] in
  ∃ o s', _publish (λ _, "0") "7" 9%Z "hook" "value" disk = (o, s') ∧
  (∀ p, hidden p = false → p ≠ "hook" → file_at s' p = file_at disk p) ∧
  (∀ n, file_at disk "hook" = Some n → file_at s' "hook" = Some n) ∧
  (file_at disk "hook" = None → file_at s' "hook" = None ∨ file_at s' "hook" = Some (File "value" 9%Z)) ∧
  (is_Ok o → file_at s' "hook" = Some (default (File "value" 9%Z) (file_at disk "hook"))).
Proof.
  cbv zeta. do 2 eexists. split; [vm_compute; reflexivity|].
  refine (publish_all_or_nothing (λ _, "0") "7" 9%Z "hook" "value"
    (mkDisk [("other", File "x" 1%Z)] true 0 [Go; Go; Go; Go; Go; Go; Err; Stop]) _ _ eq_refl eq_refl).
Defined.

(** ** A secret belongs to the identity it was minted for *)

(** What the minting path returns is on disk, bound and new. *)
Definition minted_for dumps token (name identity : string) (s : Disk) (b : string) (s' : Disk) : Prop :=
  secret_bound_to_identity dumps name identity s' = true ∧ minted dumps token name s b s'.

Lemma mint_for_identity_fresh dumps token hex pid wclock name identity s :
  str_true name = true → hidden name = false → strip identity = identity →
  _read_final dumps name "casa" s = None →
  wp (mint_for_identity dumps token hex pid wclock name identity)
    (λ r s', ∀ b, r = Some b → minted_for dumps token name identity s b s') (λ _ _, True) s.
Proof.
  intros Hn Hh Hst Hnone. pose proof (visible_suffix name ".ident" Hn Hh) as Hhi.
  unfold mint_for_identity. apply wp_bind.
  eapply wp_mono; [apply (ensure_minted dumps token hex pid wclock false); done| |done].
  intros [b|] s1 H1; [|by apply wp_ret]. specialize (H1 b eq_refl). apply wp_bind.
  eapply wp_mono; [apply (write_ident_agrees hex pid wclock false (file_at s1)); done| |done].
  intros [] s2 H2; cbn [negb].
  - apply wp_ret. intros b' [= <-]. destruct (H2 eq_refl) as [[_ HE] Ha]. destruct H1 as [Hr Hi].
    assert (_read_final dumps name "casa" s2 = Some b) as Hr2.
    { unfold _read_final in *. rewrite HE, upd_ne; [done| |done]. intros ?. by apply (suffix_ne name ".ident"). }
    split; [|by split]. unfold secret_bound_to_identity. rewrite Hr2. apply bool_decide_eq_true.
    unfold bound_identity. rewrite HE, upd_eq by done. cbn. by rewrite Ha, Hst.
  - apply wp_bind. eapply wp_mono; [apply retire_draws| |done]. intros ? s3 _. by apply wp_ret.
Qed.


Definition sample_token : string := "0123456789012345678901234567890123456789abc".

