(* ===== verification/RateLimit.v ===== *)
(** * Rate limiting

    [rate_limit.py]: token buckets per key, with periodic eviction of idle ones.

    The arithmetic is that of a number type, an interface with two instances: the
    rationals, for what the algorithm promises, and IEEE binary64, which is what
    Python's [float] computes with. *)

From Stdlib Require Import QArith SpecFloat.
From S2P Require Import Prelude PyDict PyNumbers.
#[local] Open Scope Z_scope.

(** ** Decisions and buckets *)

Record RateDecision (F : Type) := mkDecision {
  allowed : bool;
  should_notify : bool;
  retry_after_s : F
}.
Arguments mkDecision {F}.
Arguments allowed {F}.
Arguments should_notify {F}.
Arguments retry_after_s {F}.

Record TokenBucket (F : Type) := mkBucket {
  _capacity : Z;
  _refill_per_s : F;
  _tokens : F;
  _last : F;
  _notified : bool
}.
Arguments mkBucket {F}.
Arguments _capacity {F}.
Arguments _refill_per_s {F}.
Arguments _tokens {F}.
Arguments _last {F}.
Arguments _notified {F}.

Definition _SWEEP_INTERVAL_CHECKS : Z := 1024.

(** The clock readings of one call of [RateLimiter.check]: by the sweep, by the
    constructor of a new bucket, and by [TokenBucket.check]. *)
Record Clock (F : Type) := mkClock { at_sweep : F; at_new : F; at_check : F }.
Arguments mkClock {F}.
Arguments at_sweep {F}.
Arguments at_new {F}.
Arguments at_check {F}.

Section limiter.
Context {F : Type} `{Num F} {K : Type} `{EqDecision K}.

(** [TokenBucket.__init__] *)
Definition new_bucket (capacity : Z) (refill_per_s now : F) : TokenBucket F :=
  mkBucket capacity (pymax (of_Z 0) refill_per_s) (of_Z (Z.max 0 capacity)) now false.

(** [TokenBucket.check]: refill *)
Definition refilled (b : TokenBucket F) (now : F) : F :=
  let elapsed := pymax (of_Z 0) (sub now (_last b)) in
  pymin (of_Z (_capacity b)) (add (_tokens b) (mul elapsed (_refill_per_s b))).

(** [TokenBucket.check] *)
Definition bucket_check (b : TokenBucket F) (now : F) : RateDecision F * TokenBucket F :=
  if bool_decide (_capacity b ≤ 0) then (mkDecision true false (of_Z 0), b)
  else
    let tokens := refilled b now in
    if leb (of_Z 1) tokens then
      (mkDecision true false (of_Z 0),
       mkBucket (_capacity b) (_refill_per_s b) (sub tokens (of_Z 1)) now false)
    else
      let deficit := sub (of_Z 1) tokens in
      let retry_after :=
        if ltb (of_Z 0) (_refill_per_s b) then div deficit (_refill_per_s b) else of_Z 60 in
      (mkDecision false (negb (_notified b)) retry_after,
       mkBucket (_capacity b) (_refill_per_s b) tokens now true).

Record RateLimiter := mkLimiter {
  capacity : Z;
  window_s : F;
  refill_per_s : F;
  _buckets : list (K * TokenBucket F);
  _checks_since_sweep : Z
}.

(** [RateLimiter.__init__] *)
Definition new_limiter (cap : Z) (window : F) : RateLimiter :=
  mkLimiter cap window
    (if bool_decide (0 < cap) && ltb (of_Z 0) window then div (of_Z cap) window else of_Z 0) [] 0.

Definition enabled (l : RateLimiter) : bool := bool_decide (0 < capacity l).

(** [now - b._last >= self._window_s] *)
Definition stale (window now : F) (b : TokenBucket F) : bool := leb window (sub now (_last b)).

(** [_sweep] *)
Definition _sweep (l : RateLimiter) (now : F) : RateLimiter :=
  if leb (window_s l) (of_Z 0) then l
  else
    let keys := dkeys (filter (λ p, stale (window_s l) now p.2 = true) (_buckets l)) in
    mkLimiter (capacity l) (window_s l) (refill_per_s l)
      (foldl ddel (_buckets l) keys) (_checks_since_sweep l).

(** The counter of [check], and the sweep when it is due. *)
Definition count_check (l : RateLimiter) (now : F) : RateLimiter :=
  let n := _checks_since_sweep l + 1 in
  let at_ m := mkLimiter (capacity l) (window_s l) (refill_per_s l) (_buckets l) m in
  if bool_decide (_SWEEP_INTERVAL_CHECKS ≤ n) then _sweep (at_ 0) now else at_ n.

(** [RateLimiter.check] *)
Definition check (l : RateLimiter) (key : K) (c : Clock F) : RateDecision F * RateLimiter :=
  if negb (enabled l) then (mkDecision true false (of_Z 0), l)
  else
    let l := count_check l (at_sweep c) in
    let bucket := default (new_bucket (capacity l) (refill_per_s l) (at_new c)) (dget (_buckets l) key) in
    let '(d, bucket) := bucket_check bucket (at_check c) in
    (d, mkLimiter (capacity l) (window_s l) (refill_per_s l) (dset (_buckets l) key bucket)
          (_checks_since_sweep l)).

(** [rate_limit_response]: the [Retry-After] of the 429, or nothing. *)
Definition rate_limit_response (l : RateLimiter) (key : K) (c : Clock F) : outcome (option Z) * RateLimiter :=
  let '(d, l) := check l key c in
  if allowed d then (Ok None, l)
  else
    (match trunc (retry_after_s d) with
     | Ok n => Ok (Some (Z.max 1 (n + 1)))
     | Raise e => Raise e
     end, l).

(** A run of checks. *)
Fixpoint checks (l : RateLimiter) (calls : list (K * Clock F)) : list (RateDecision F) * RateLimiter :=
  match calls with
  | [] => ([], l)
  | (key, c) :: calls =>
    let '(d, l) := check l key c in
    let '(ds, l) := checks l calls in (d :: ds, l)
  end.

(** ** The limiter that never forgets

    What the limiter promises: every key has one bucket, made at its first call
    and kept forever. *)
Definition Ledger := K → option (TokenBucket F).

Definition ledger_check (cap : Z) (refill : F) (m : Ledger) (key : K) (c : Clock F)
    : RateDecision F * Ledger :=
  if bool_decide (cap ≤ 0) then (mkDecision true false (of_Z 0), m)
  else
    let '(d, b) := bucket_check (default (new_bucket cap refill (at_new c)) (m key)) (at_check c) in
    (d, λ k, if decide (k = key) then Some b else m k).

Fixpoint ledger_checks (cap : Z) (refill : F) (m : Ledger) (calls : list (K * Clock F))
    : list (RateDecision F) * Ledger :=
  match calls with
  | [] => ([], m)
  | (key, c) :: calls =>
    let '(d, m) := ledger_check cap refill m key c in
    let '(ds, m) := ledger_checks cap refill m calls in (d :: ds, m)
  end.
End limiter.
Arguments RateLimiter F K : clear implicits.

(** ** The same code on binary64

    One token a 49-second window, and a full window of silence: the rational
    bucket is full again, the binary64 one is not, since [1/49 * 49] rounds below
    one.  So the sweep is not invisible in floating point. *)
Definition idle_window `{Num F} : bool :=
  let b := new_bucket 1 (div (of_Z 1) (of_Z 49)) (of_Z 0) in
  let b := (bucket_check b (of_Z 0)).2 in
  allowed (bucket_check b (of_Z 49)).1.

Example idle_window_rational : idle_window (F := Q) = true.
Proof. reflexivity. Qed.

Example idle_window_binary64 : idle_window (F := spec_float) = false.
Proof. vm_compute. reflexivity. Qed.
