(* ===== verification/RateProperties.v ===== *)
(** * What the rate limiter promises

    Theorems about [RateLimit.v] over the rationals: the sweep is invisible, the
    admitted calls are bounded, and a rejected client that waits as long as it is
    told to is admitted. *)

From Stdlib Require Import QArith Lqa.
From S2P Require Import Prelude PyDict PyNumbers RateLimit.
#[local] Open Scope Q_scope.

(** ** Rationals *)

Lemma ltb_true (x y : Q) : ltb x y = true ↔ x < y.
Proof.
  cbn. rewrite negb_true_iff. rewrite <-not_true_iff_false, Qle_bool_iff. split; lra.
Qed.
Lemma ltb_false (x y : Q) : ltb x y = false ↔ y <= x.
Proof. rewrite <-not_true_iff_false, ltb_true. split; lra. Qed.
Lemma leb_true (x y : Q) : leb x y = true ↔ x <= y.
Proof. apply Qle_bool_iff. Qed.
Lemma leb_false (x y : Q) : leb x y = false ↔ y < x.
Proof. rewrite <-not_true_iff_false, leb_true. split; lra. Qed.

Lemma pymin_spec (a b : Q) : b < a ∧ pymin a b = b ∨ a <= b ∧ pymin a b = a.
Proof.
  unfold pymin. destruct (ltb b a) eqn:E; [left|right]; split; try done;
    [by apply ltb_true|by apply ltb_false].
Qed.
Lemma pymax_spec (a b : Q) : a < b ∧ pymax a b = b ∨ b <= a ∧ pymax a b = a.
Proof.
  unfold pymax. destruct (ltb a b) eqn:E; [left|right]; split; try done;
    [by apply ltb_true|by apply ltb_false].
Qed.

Lemma pos_true (x : Q) : 0 < x → ltb (of_Z (F := Q) 0) x = true.
Proof. apply ltb_true. Qed.

Lemma of_Z_pos c : (0 < c)%Z → 1 <= of_Z (F := Q) c.
Proof. intros. cbn. unfold Qle. cbn. lia. Qed.

(** ** One bucket *)

Section bucket.
Context (cap : Z) (r : Q) (Hcap : (0 < cap)%Z).
Let rate := pymax (of_Z 0) r.

Lemma rate_nonneg : 0 <= rate.
Proof. unfold rate. destruct (pymax_spec (of_Z 0) r) as [[? ->]|[? ->]]; change (of_Z 0) with 0 in *; lra. Qed.

(** A bucket of this limiter: between empty and full. *)
Definition bucket_ok (b : TokenBucket Q) : Prop :=
  _capacity b = cap ∧ _refill_per_s b = rate ∧ 0 <= _tokens b <= of_Z cap.

Lemma refilled_spec b now :
  bucket_ok b → _last b <= now →
  refilled b now = of_Z cap ∧ of_Z cap <= _tokens b + (now - _last b) * rate ∨
  refilled b now == _tokens b + (now - _last b) * rate ∧ refilled b now < of_Z cap.
Proof.
  intros (Hc & Hr & Ht) Hnow. unfold refilled. rewrite Hc, Hr. cbn [add mul sub num_Q].
  assert (pymax (of_Z 0) (now - _last b) == now - _last b) as He.
  { destruct (pymax_spec (of_Z 0) (now - _last b)) as [[? ->]|[Hle ->]]; [done|]. change (of_Z 0) with 0 in *. lra. }
  destruct (pymin_spec (of_Z cap) (_tokens b + pymax (of_Z 0) (now - _last b) * rate))
    as [[H1 H2]|[H1 H2]]; rewrite H2; [right|left]; rewrite He in *; done.
Qed.

Lemma refilled_bounds b now :
  bucket_ok b → _last b <= now → _tokens b <= refilled b now <= of_Z cap.
Proof.
  intros Hb Hnow. assert (0 <= (now - _last b) * rate) by (apply Qmult_le_0_compat; [lra|apply rate_nonneg]).
  destruct Hb as (Hc & Hr & Ht).
  destruct (refilled_spec b now) as [[-> ?]|[H1 ?]]; [done..| |]; [lra|]. split; [|lra]. rewrite H1. lra.
Qed.

(** The two outcomes of a check. *)
Lemma bucket_check_spec b now :
  bucket_ok b → _last b <= now →
  let '(d, b') := bucket_check b now in
  bucket_ok b' ∧ _last b' = now ∧
  (1 <= refilled b now ∧ allowed d = true ∧ should_notify d = false ∧ _notified b' = false ∧
     _tokens b' = refilled b now - 1 ∨
   refilled b now < 1 ∧ allowed d = false ∧ should_notify d = negb (_notified b) ∧ _notified b' = true ∧
     _tokens b' = refilled b now ∧ (0 < rate → retry_after_s d = (1 - refilled b now) / rate)).
Proof.
  intros Hb Hnow. pose proof (refilled_bounds b now Hb Hnow) as Hbd. destruct Hb as (Hc & Hr & Ht).
  unfold bucket_check. rewrite bool_decide_eq_false_2 by lia.
  pose proof (of_Z_pos cap Hcap). destruct (leb (of_Z 1) (refilled b now)) eqn:E.
  - apply leb_true in E. change (of_Z 1) with 1 in *. unfold bucket_ok. cbn -[of_Z refilled ltb Qminus Qdiv].
    split_and!; try done; try lra. left. split_and!; done.
  - apply leb_false in E. change (of_Z 1) with 1 in *. unfold bucket_ok. cbn -[of_Z refilled ltb Qminus Qdiv].
    split_and!; try done; try lra. right. split_and!; try done. intros Hp. rewrite Hr.
    by rewrite pos_true.
Qed.

Lemma new_bucket_ok now : bucket_ok (new_bucket cap r now).
Proof.
  pose proof (of_Z_pos cap Hcap). unfold bucket_ok. cbn -[of_Z]. rewrite Z.max_r by lia.
  split_and!; [done..| |]; lra.
Qed.

(** A full window refills: the bucket is then as good as new. *)
Lemma idle_bucket_is_new b now1 now2 :
  bucket_ok b → now1 <= now2 → _last b <= now2 → of_Z cap <= (now2 - _last b) * rate →
  bucket_check b now2 = bucket_check (new_bucket cap r now1) now2.
Proof.
  intros Hb H1 H2 Hfull. pose proof (refilled_spec b now2 Hb H2) as Hs.
  pose proof (refilled_spec _ now2 (new_bucket_ok now1) H1) as Hn.
  assert (_tokens (new_bucket cap r now1) = of_Z cap) as Ht by (cbn -[of_Z]; by rewrite Z.max_r by lia).
  pose proof rate_nonneg. pose proof (of_Z_pos cap Hcap).
  assert (0 <= (now2 - now1) * rate) by (apply Qmult_le_0_compat; lra).
  destruct Hb as (Hc & Hr & ?). rewrite Ht in Hn. cbn [_last new_bucket] in Hn.
  destruct Hs as [[Hs _]|Hs]; [|lra]. destruct Hn as [[Hn _]|Hn]; [|lra].
  unfold bucket_check. rewrite Hs, Hn, Hc, Hr. cbn [_capacity _refill_per_s new_bucket].
  rewrite !bool_decide_eq_false_2 by lia. by rewrite (proj2 (leb_true 1 (of_Z cap))).
Qed.
End bucket.

(** ** Deleting several keys *)

Section delete_keys.
Context {K V : Type} `{EqDecision K}.

Lemma dget_foldl_ddel (ks : list K) (d : list (K * V)) k :
  dget (foldl ddel d ks) k = if decide (k ∈ ks) then None else dget d k.
Proof.
  revert d. induction ks as [|k' ks IH]; intros d; [done|]. cbn [foldl]. rewrite IH.
  destruct (decide (k ∈ ks)) as [Hk|Hk].
  { by rewrite decide_True by (by apply list_elem_of_further). }
  rewrite dget_ddel. destruct (decide (k = k')) as [->|Hne].
  - by rewrite decide_True by (by apply list_elem_of_here).
  - rewrite decide_False; [done|]. by intros [?|?]%elem_of_cons.
Qed.

Lemma wf_foldl_ddel (ks : list K) (d : list (K * V)) : wf_dict d → wf_dict (foldl ddel d ks).
Proof. revert d. induction ks; intros d Hd; [done|]. by apply IHks, wf_ddel. Qed.

Lemma elem_of_filter_keys (P : K * V → Prop) `{∀ x, Decision (P x)} (d : list (K * V)) k :
  wf_dict d → (k ∈ dkeys (filter P d) ↔ ∃ v, dget d k = Some v ∧ P (k, v)).
Proof.
  intros Hd. unfold dkeys. rewrite list_elem_of_fmap. setoid_rewrite list_elem_of_filter. split.
  - intros ([k' v] & -> & HP & Hin). exists v. split; [|done]. by apply elem_dget.
  - intros (v & Hv & HP). exists (k, v). split_and!; [done..|]. by apply dget_elem.
Qed.
End delete_keys.

(** ** The limiter against the ledger *)

(** The clock never goes back. *)
Definition clock_ok (t : Q) (c : Clock Q) : Prop :=
  t <= at_sweep c ∧ at_sweep c <= at_new c ∧ at_new c <= at_check c.
Fixpoint ordered {K} (t : Q) (calls : list (K * Clock Q)) : Prop :=
  match calls with
  | [] => True
  | (_, c) :: calls => clock_ok t c ∧ ordered (at_check c) calls
  end.

(** The last reading of a run that begins at [t]. *)
Fixpoint last_time {K} (t : Q) (calls : list (K * Clock Q)) : Q :=
  match calls with [] => t | (_, c) :: calls => last_time (at_check c) calls end.

Lemma ordered_app {K} t (pre seg : list (K * Clock Q)) :
  ordered t (pre ++ seg) ↔ ordered t pre ∧ ordered (last_time t pre) seg.
Proof. revert t. induction pre as [|[k c] pre IH]; intros t; cbn; [tauto|]. rewrite IH. tauto. Qed.

Lemma last_time_le {K} t b (calls : list (K * Clock Q)) :
  Forall (λ p, at_check p.2 <= b) calls → calls = [] ∨ last_time t calls <= b.
Proof.
  intros H. destruct calls as [|[k c] calls]; [by left|right]. inversion H as [|?? Hc H']; subst.
  clear H. cbn in *. revert c Hc. induction calls as [|[k' c'] calls IH]; intros c Hc; [done|].
  inversion H'; subst. by apply IH.
Qed.

Section simulation.
Context {K : Type} `{EqDecision K} (cap : Z) (window : Q) (Hcap : (0 < cap)%Z).
Let r : Q := refill_per_s (new_limiter (K := K) cap window).
Abbreviation ok := (bucket_ok cap r).

Lemma full_window now last :
  0 < window → window <= now - last → of_Z cap <= (now - last) * pymax (of_Z 0) r.
Proof.
  intros Hw Hle. pose proof (of_Z_pos cap Hcap) as Hc.
  assert (r = of_Z cap / window) as Hr.
  { unfold r, new_limiter. cbn [refill_per_s]. rewrite bool_decide_eq_true_2 by lia.
    by rewrite pos_true. }
  assert (0 < r) by (rewrite Hr; apply Qlt_shift_div_l; lra).
  destruct (pymax_spec (of_Z 0) r) as [[_ ->]|[? _]]; [|change (of_Z 0) with 0 in *; lra].
  apply Qle_trans with (window * r).
  - rewrite Hr, Qmult_div_r by lra. lra.
  - apply Qmult_le_compat_r; lra.
Qed.

(** Where the limiter has a bucket the ledger has the same one; where only the
    ledger has one, it has been idle for a window. *)
Definition bucket_sim (t : Q) (real ledger : option (TokenBucket Q)) : Prop :=
  match real, ledger with
  | Some b, Some b' => b = b' ∧ ok b ∧ _last b <= t
  | None, Some b => ok b ∧ _last b <= t ∧ 0 < window ∧ window <= t - _last b
  | None, None => True
  | Some _, None => False
  end.

Definition sim (t : Q) (l : RateLimiter Q K) (m : Ledger) : Prop :=
  capacity l = cap ∧ window_s l = window ∧ refill_per_s l = r ∧ wf_dict (_buckets l) ∧
  ∀ k, bucket_sim t (dget (_buckets l) k) (m k).

Lemma bucket_sim_later t t' o o' : t <= t' → bucket_sim t o o' → bucket_sim t' o o'.
Proof. destruct o, o'; cbn; intuition lra. Qed.

Lemma sim_sweep t now l m : t <= now → sim t l m → sim now (_sweep l now) m.
Proof.
  intros Hnow (Hc & Hw & Hr & Hwf & Hb). unfold _sweep. rewrite Hw.
  destruct (leb window (of_Z 0)) eqn:E.
  { split_and!; try done. intros k. by eapply bucket_sim_later. }
  apply leb_false in E. change (of_Z 0) with 0 in E.
  split_and!; cbn -[of_Z]; try done; [by apply wf_foldl_ddel|]. intros k. specialize (Hb k).
  rewrite dget_foldl_ddel. destruct (decide _) as [(b & Hk & Hs)%elem_of_filter_keys|_]; [|done|].
  - rewrite Hk in Hb. cbn in Hb. destruct (m k) as [b'|]; [|done]. destruct Hb as (<- & Hok & Hle).
    apply leb_true in Hs. cbn in Hs. split_and!; [done|lra|lra|done].
  - by eapply bucket_sim_later.
Qed.

Lemma sim_count_check t now l m : t <= now → sim t l m → sim now (count_check l now) m.
Proof.
  intros Hnow Hs. unfold count_check. case_bool_decide.
  - apply (sim_sweep t); done.
  - destruct Hs as (Hc & Hw & Hr & Hwf & Hb). split_and!; try done.
    intros k. by eapply bucket_sim_later.
Qed.

(** The bucket each side consults gives the same decision and the same bucket. *)
Lemma same_bucket t c o o' :
  clock_ok t c → bucket_sim (at_sweep c) o o' →
  let b := default (new_bucket cap r (at_new c)) o in
  ok b ∧ _last b <= at_check c ∧
  bucket_check b (at_check c) = bucket_check (default (new_bucket cap r (at_new c)) o') (at_check c).
Proof.
  intros (H1 & H2 & H3) Hb. pose proof (new_bucket_ok cap r Hcap (at_new c)).
  destruct o as [b|], o' as [b'|]; cbn in *; try done.
  - destruct Hb as (<- & ? & ?). split_and!; [done|lra|done].
  - destruct Hb as (Hok & ? & Hw & Hidle). split_and!; [done|lra|]. symmetry.
    apply idle_bucket_is_new; try done; try lra. apply full_window; lra.
Qed.

Lemma sim_check t l m k c :
  clock_ok t c → sim t l m →
  (check l k c).1 = (ledger_check cap r m k c).1 ∧
  sim (at_check c) (check l k c).2 (ledger_check cap r m k c).2.
Proof.
  intros Hclk Hs. pose proof Hclk as (H1 & H2 & H3).
  pose proof (sim_count_check t (at_sweep c) l m H1 Hs) as (Hc & Hw & Hr & Hwf & Hb).
  unfold check, ledger_check, enabled. rewrite (proj1 Hs). rewrite bool_decide_eq_true_2 by lia.
  rewrite bool_decide_eq_false_2 by lia. cbn [negb]. set (l' := count_check l (at_sweep c)) in *.
  rewrite Hc, Hr.
  destruct (same_bucket t c _ _ Hclk (Hb k)) as (Hok & Hle & Heq). rewrite <-Heq.
  pose proof (bucket_check_spec cap r Hcap _ _ Hok Hle) as Hspec.
  destruct (bucket_check _ _) as [d b]. destruct Hspec as (Hok' & Hlast & _). split; [done|].
  split_and!; cbn; try done; [by apply wf_dset|]. intros k'. rewrite dget_dset.
  destruct (decide (k' = k)); [split_and!; [done..|rewrite Hlast; lra]|]. eapply bucket_sim_later; [|apply Hb]. lra.
Qed.

Lemma sim_checks t l m calls :
  ordered t calls → sim t l m →
  (checks l calls).1 = (ledger_checks cap r m calls).1 ∧
  sim (last_time t calls) (checks l calls).2 (ledger_checks cap r m calls).2.
Proof.
  revert t l m. induction calls as [|[k c] calls IH]; intros t l m Ho Hs; [done|].
  destruct Ho as [Hclk Ho]. destruct (sim_check t l m k c Hclk Hs) as [Hd Hs'].
  cbn [checks ledger_checks last_time]. specialize (IH _ _ _ Ho Hs').
  destruct (check l k c) as [d l'], (ledger_check cap r m k c) as [d' m']. cbn [fst snd] in *. subst d'.
  destruct (checks l' calls), (ledger_checks cap r m' calls). cbn [fst snd] in *.
  destruct IH as [-> IH]. by split.
Qed.

Lemma sim_new t : sim t (new_limiter cap window) (λ _, None).
Proof. split_and!; try done. apply wf_nil. Qed.
End simulation.

(** A disabled limiter answers like a disabled ledger. *)
Lemma disabled_checks {K} `{EqDecision K} (l : RateLimiter Q K) cap r m calls :
  (cap ≤ 0)%Z → capacity l = cap → (checks l calls).1 = (ledger_checks cap r m calls).1.
Proof.
  intros Hc Hl. induction calls as [|[k c] calls IH]; [done|]. cbn.
  unfold check, ledger_check, enabled. rewrite Hl, bool_decide_eq_false_2, bool_decide_eq_true_2 by lia.
  cbn. by destruct (checks l calls), (ledger_checks cap r m calls); cbn in *; subst.
Qed.



(** ** How much is admitted *)

Section bound.
Context {K : Type} `{EqDecision K} (cap : Z) (r : Q) (Hcap : (0 < cap)%Z) (key : K) (a : Q).
Abbreviation rate := (pymax (of_Z 0) r).
Abbreviation ok := (bucket_ok cap r).

(** How many calls with the key were admitted. *)
Definition admitted (calls : list (K * Clock Q)) (ds : list (RateDecision Q)) : nat :=
  length (filter (λ p, p.1.1 = key ∧ allowed p.2 = true) (zip calls ds)).

Definition paid (n : Q) (t : Q) (o : option (TokenBucket Q)) : Prop :=
  match o with
  | None => n == 0
  | Some b => ok b ∧ _last b <= t ∧
      (n == 0 ∨ a <= _last b ∧ n + _tokens b <= of_Z cap + (_last b - a) * rate)
  end.

Lemma paid_check n t c o :
  clock_ok t c → a <= at_check c → 0 <= n → paid n t o →
  let '(d, b) := bucket_check (default (new_bucket cap r (at_new c)) o) (at_check c) in
  paid (n + (if allowed d then 1 else 0)) (at_check c) (Some b).
Proof.
  intros (H1 & H2 & H3) Ha Hn Hp. set (b0 := default _ o).
  pose proof (rate_nonneg r) as Hrate.
  assert (ok b0 ∧ _last b0 <= at_check c ∧
    (n == 0 ∨ a <= _last b0 ∧ n + _tokens b0 <= of_Z cap + (_last b0 - a) * rate)) as (Hok & Hle & Hn0).
  { destruct o as [b|]; cbn in *.
    - destruct Hp as (? & ? & ?). split_and!; [done|lra|done].
    - split_and!; [by apply new_bucket_ok|lra|by left]. }
  pose proof (bucket_check_spec cap r Hcap b0 _ Hok Hle) as Hs.
  pose proof (refilled_bounds cap r b0 _ Hok Hle) as Hb.
  assert (n + refilled b0 (at_check c) <= of_Z cap + (at_check c - a) * rate) as Hpot.
  { assert (0 <= (at_check c - a) * rate) by (apply Qmult_le_0_compat; lra).
    destruct Hn0 as [->|[Hl Hn0]]; [lra|].
    destruct (refilled_spec cap r b0 _ Hok Hle) as [[Hr ?]|[Hr ?]]; lra. }
  destruct (bucket_check b0 (at_check c)) as [d b]. destruct Hs as (Hok' & Hl' & Hs).
  split_and!; [done|rewrite Hl'; lra|]. right. rewrite Hl'. split; [done|].
  destruct Hs as [(_ & -> & _ & _ & ->)|(_ & -> & _ & _ & -> & _)]; lra.
Qed.

Lemma inject_S (n : nat) : inject_Z (Z.of_nat (S n)) == inject_Z (Z.of_nat n) + 1.
Proof. by rewrite Nat2Z.inj_succ, <-Z.add_1_r, inject_Z_plus. Qed.

Lemma inject_nonneg (n : nat) : 0 <= inject_Z (Z.of_nat n).
Proof. change 0 with (inject_Z 0). rewrite <-Zle_Qle. lia. Qed.

Lemma paid_checks calls : ∀ t m n,
  ordered t calls → Forall (λ p, a <= at_check p.2) calls → paid (inject_Z (Z.of_nat n)) t (m key) →
  let '(ds, m') := ledger_checks cap r m calls in
  paid (inject_Z (Z.of_nat (admitted calls ds + n))) (last_time t calls) (m' key).
Proof.
  induction calls as [|[k c] calls IH]; intros t m n Ho Ha Hp; [done|].
  destruct Ho as [Hclk Ho]. inversion Ha as [|?? Hac Ha']; subst. cbn [ledger_checks last_time].
  unfold ledger_check. rewrite bool_decide_eq_false_2 by lia.
  pose proof (paid_check _ t c (m k) Hclk Hac (inject_nonneg n)) as Hstep.
  destruct (bucket_check _ _) as [d b]. set (m1 := λ k0, _).
  set (n1 := if decide (k = key ∧ allowed d = true) then S n else n).
  assert (paid (inject_Z (Z.of_nat n1)) (at_check c) (m1 key)) as Hp1.
  { subst m1 n1. cbn. destruct (decide (key = k)) as [<-|Hne].
    - specialize (Hstep Hp). destruct (allowed d).
      + rewrite decide_True by done. unfold paid in *. by rewrite inject_S.
      + rewrite decide_False by (by intros [_ ?]). unfold paid in *. by rewrite Qplus_0_r in Hstep.
    - rewrite decide_False by (by intros [-> _]). destruct Hclk as (?&?&?). unfold paid in *.
      destruct (m key); [|done]. destruct Hp as (?&?&?). split_and!; [done|lra|done]. }
  specialize (IH _ m1 n1 Ho Ha' Hp1). destruct (ledger_checks cap r m1 calls) as [ds m'].
  unfold admitted in *. cbn [zip zip_with]. rewrite filter_cons. subst n1. cbn [fst snd] in *.
  destruct (decide (k = key ∧ allowed d = true)); cbn [length]; [|exact IH].
  by rewrite Nat.add_succ_r in IH.
Qed.
End bound.

Section reachable.
Context {K : Type} `{EqDecision K} (cap : Z) (window : Q) (Hcap : (0 < cap)%Z) (Hwin : 0 < window).
Let r : Q := refill_per_s (new_limiter (K := K) cap window).

Lemma rate_of_window : pymax (of_Z 0) r = of_Z cap / window ∧ 0 < of_Z cap / window.
Proof.
  pose proof (of_Z_pos cap Hcap) as Hc.
  assert (0 < of_Z cap / window) as Hp by (apply Qlt_shift_div_l; lra). split; [|done].
  assert (r = of_Z cap / window) as ->.
  { unfold r, new_limiter. cbn [refill_per_s]. rewrite bool_decide_eq_true_2 by lia. by rewrite pos_true. }
  destruct (pymax_spec (of_Z 0) (of_Z cap / window)) as [[_ ->]|[? _]]; [done|].
  change (of_Z 0) with 0 in *. lra.
Qed.

Lemma sim_reachable t (pre : list (K * Clock Q)) :
  ordered t pre →
  sim cap window (last_time t pre) (checks (new_limiter cap window) pre).2
    (ledger_checks cap r (λ _, None) pre).2.
Proof. intros Ho. apply (sim_checks cap window Hcap t); [done|apply sim_new]. Qed.
Lemma sim_ledger t (l : RateLimiter Q K) m k b :
  sim cap window t l m → m k = Some b → bucket_ok cap r b ∧ _last b <= t.
Proof.
  intros (_ & _ & _ & _ & Hb) Hk. specialize (Hb k). rewrite Hk in Hb. fold r in Hb.
  destruct (dget (_buckets l) k) as [b'|]; cbn in Hb; [destruct Hb as (-> & ? & ?)|destruct Hb as (? & ? & _)];
    done.
Qed.

(** Calls with other keys leave a key's bucket alone. *)
Lemma others_keep (m : Ledger) (calls : list (K * Clock Q)) k :
  Forall (λ p, p.1 ≠ k) calls → (ledger_checks cap r m calls).2 k = m k.
Proof.
  revert m. induction calls as [|[k' c] calls IH]; intros m Ho; [done|].
  inversion Ho as [|?? Hk Ho']; subst. cbn [ledger_checks]. unfold ledger_check.
  rewrite bool_decide_eq_false_2 by lia. destruct (bucket_check _ _) as [d b]. set (m1 := λ k0, _).
  specialize (IH m1 Ho'). destruct (ledger_checks cap r m1 calls). cbn [snd] in *. rewrite IH.
  subst m1. cbn. by rewrite decide_False.
Qed.
End reachable.



(** ** What a rejected client is told *)

Lemma trunc_below (x : Q) : 0 <= x → x < inject_Z (Z.quot (Qnum x) (Zpos (Qden x)) + 1).
Proof.
  destruct x as [p q]. unfold Qle, Qlt. cbn. intros Hp. rewrite Z.mul_1_r in Hp |- *.
  rewrite Z.quot_div_nonneg by lia. pose proof (Z.mul_succ_div_gt p (Zpos q)). lia.
Qed.

Section rejected.
Context {K : Type} `{EqDecision K} (cap : Z) (window : Q) (Hcap : (0 < cap)%Z) (Hwin : 0 < window).
Let r : Q := refill_per_s (new_limiter (K := K) cap window).

(** A bucket that rejected and told its client to wait [w] admits after [w]. *)
Lemma admits_after b now w now' :
  bucket_ok cap r b → _last b <= now → allowed (bucket_check b now).1 = false →
  retry_after_s (bucket_check b now).1 <= w → now + w <= now' →
  allowed (bucket_check (bucket_check b now).2 now').1 = true ∧ 0 <= retry_after_s (bucket_check b now).1.
Proof.
  intros Hok Hl Ha Hw Hnow. destruct (rate_of_window (K := K) cap window Hcap Hwin) as [Hr Hpos].
  fold r in Hr. rewrite <-Hr in Hpos. pose proof (bucket_check_spec cap r Hcap b now Hok Hl) as H1.
  destruct (bucket_check b now) as [d b1]. cbn [fst snd] in *. destruct H1 as (Hok1 & Hl1 & H1).
  destruct H1 as [(? & Ha' & _)|(Hlt & _ & _ & _ & Ht & Hra)]; [congruence|].
  specialize (Hra Hpos). set (x := refilled b now) in *. rewrite Hra in *.
  assert (0 <= (1 - x) / pymax (of_Z 0) r) as Hd by (apply Qle_shift_div_l; lra). split; [|done].
  assert (1 <= refilled b1 now') as Hfull.
  { assert (_last b1 <= now') as Hl' by (rewrite Hl1; lra).
    pose proof (of_Z_pos cap Hcap).
    destruct (refilled_spec cap r b1 now' Hok1 Hl') as [[-> _]|[-> _]]; [done|]. rewrite Ht, Hl1.
    assert ((1 - x) / pymax (of_Z 0) r * pymax (of_Z 0) r <= (now' - now) * pymax (of_Z 0) r) as Hm
      by (apply Qmult_le_compat_r; lra).
    rewrite Qmult_comm, Qmult_div_r in Hm by lra. lra. }
  assert (_last b1 <= now') as Hl' by (rewrite Hl1; lra).
  pose proof (bucket_check_spec cap r Hcap b1 now' Hok1 Hl') as H2.
  destruct (bucket_check b1 now') as [d2 b2]. cbn [fst].
  destruct H2 as (_ & _ & [(_ & ? & _)|(? & _)]); [done|lra].
Qed.
End rejected.

(** The [Retry-After] of a 429 is a promise.  A client that was rejected and
    comes back no sooner than the whole number of seconds it was told, whatever
    calls other clients make meanwhile, is admitted. *)
Theorem retry_after_honoured {K} `{EqDecision K} (cap : Z) (window t : Q)
    (pre others : list (K * Clock Q)) (k : K) (c c' : Clock Q) (h : Z) :
  (0 < cap)%Z → 0 < window → ordered t (pre ++ (k, c) :: others ++ [(k, c')]) →
  Forall (λ p, p.1 ≠ k) others → at_check c + inject_Z h <= at_check c' →
  let '(answer, l) := rate_limit_response (checks (new_limiter cap window) pre).2 k c in
  answer = Ok (Some h) →
  (rate_limit_response (checks l others).2 k c').1 = Ok None.
Proof.
  intros Hc Hw Ho Hothers Hwait. apply ordered_app in Ho as [Hpre [Hclk Ho]].
  apply ordered_app in Ho as [Ho [Hclk' _]]. set (r := refill_per_s (new_limiter (K := K) cap window)).
  pose proof (sim_reachable cap window Hc t pre Hpre) as Hs. fold r in Hs.
  set (l0 := (checks _ pre).2) in *. set (m0 := (ledger_checks cap r _ pre).2) in *.
  destruct (sim_check cap window Hc _ l0 m0 k c Hclk Hs) as [Hd Hs1]. fold r in Hd, Hs1.
  set (b0 := default (new_bucket cap r (at_new c)) (m0 k)).
  assert (ledger_check cap r m0 k c = ((bucket_check b0 (at_check c)).1,
    λ k', if decide (k' = k) then Some (bucket_check b0 (at_check c)).2 else m0 k')) as Hlc.
  { unfold ledger_check. rewrite bool_decide_eq_false_2 by lia. fold b0. by destruct (bucket_check b0 _). }
  rewrite Hlc in Hd, Hs1. cbn [fst snd] in Hd, Hs1.
  unfold rate_limit_response at 1. destruct (check l0 k c) as [d l1]. cbn [fst snd] in Hd, Hs1. subst d.
  destruct (allowed (bucket_check b0 (at_check c)).1) eqn:Ha; [done|]. intros Hans.
  assert (bucket_ok cap r b0 ∧ _last b0 <= at_check c) as [Hok Hl].
  { subst b0. destruct Hclk as (?&?&?). destruct (m0 k) as [b|] eqn:E; cbn [default].
    - destruct (sim_ledger cap window _ _ _ _ _ Hs E) as [? Hle]. split; [done|].
      eapply Qle_trans; [exact Hle|lra].
    - split; [by apply new_bucket_ok|by cbn]. }
  destruct (sim_checks cap window Hc _ l1 _ others Ho Hs1) as [_ Hs2]. fold r in Hs2.
  destruct (sim_check cap window Hc _ _ _ k c' Hclk' Hs2) as [Hd2 _]. fold r in Hd2.
  unfold rate_limit_response. destruct (check (checks l1 others).2 k c') as [d2 l2]. cbn [fst] in Hd2.
  assert (allowed d2 = true) as ->; [|done]. rewrite Hd2. unfold ledger_check.
  rewrite bool_decide_eq_false_2 by lia. rewrite (others_keep cap window Hc _ others k Hothers).
  rewrite decide_True by done. cbn [default].
  assert (retry_after_s (bucket_check b0 (at_check c)).1 <= inject_Z h) as Hh.
  { cbn [trunc num_Q] in Hans. injection Hans as <-. set (x := retry_after_s _).
    apply Qle_trans with (inject_Z (Z.quot (Qnum x) (Zpos (Qden x)) + 1));
      [apply Qlt_le_weak, trunc_below|rewrite <-Zle_Qle; lia].
    by destruct (admits_after cap window Hc Hw b0 (at_check c) x (at_check c + x) Hok Hl Ha
      (Qle_refl _) (Qle_refl _)). }
  destruct (admits_after cap window Hc Hw b0 (at_check c) _ (at_check c') Hok Hl Ha Hh Hwait) as [Hadm _].
  revert Hadm. unfold id. by destruct (bucket_check (bucket_check b0 (at_check c)).2 (at_check c')).
Qed.

Lemma retry_after_honoured_witness :
  let pre := [("a", mkClock 0 0 0)] in
  let others := [("b", mkClock 11 11 11)] in
  let l := (checks (new_limiter 1 60) pre).2 in
  (0 < 1)%Z ∧ 0 < 60 ∧ ordered 0 (pre ++ ("a", mkClock 10 10 10) :: others ++ [("a", mkClock 61 61 61)]) ∧
  rate_limit_response l "a" (mkClock 10 10 10) = (Ok (Some 51%Z), (rate_limit_response l "a" (mkClock 10 10 10)).2) ∧
  (rate_limit_response (checks (rate_limit_response l "a" (mkClock 10 10 10)).2 others).2 "a"
     (mkClock 61 61 61)).1 = Ok None.
Proof.
  cbv zeta.
  assert (ordered 0 ([("a", mkClock 0 0 0)] ++ ("a", mkClock 10 10 10) ::
    [("b", mkClock 11 11 11)] ++ [("a", mkClock 61 61 61)])) as Ho
    by (cbn; unfold clock_ok; cbn; split_and!; try done; lra).
  split; [done|]. split; [done|]. split; [exact Ho|]. split; [vm_compute; reflexivity|].
  assert (Forall (λ p : string * Clock Q, p.1 ≠ "a") [("b", mkClock 11 11 11)]) as Hf by by constructor.
  pose proof (retry_after_honoured 1 60 0 [("a", mkClock 0 0 0)] [("b", mkClock 11 11 11)] "a"
    (mkClock 10 10 10) (mkClock 61 61 61) 51 eq_refl eq_refl Ho Hf) as H.
  destruct (rate_limit_response _ _ (mkClock 10 10 10)) as [answer l] eqn:E. cbn [snd].
  apply H; [done|]. by vm_compute in E; injection E as <- _.
Defined.
