(* ===== verification/Retry.v ===== *)
(** * Retries

    [error_kinds.py], [retry.py] and [settle_gate.py]: which failures are
    transient, the retry loop around an SDK call, and the confirmed-edit loop.

    A call that is awaited is an oracle: the answer of its n-th run.  Delays are
    whole milliseconds in the retry loop, as the code computes them; random numbers
    are a parameter that keeps the law of [random.randint]. *)

From Stdlib Require Import SpecFloat Ascii.
From S2P Require Import Prelude PyStr PyNumbers.
#[local] Open Scope Z_scope.

(** ** Classification *)

Module Kind.
Inductive ErrorKind :=
  TIMEOUT | RATE_LIMIT | SDK_ERROR | MEMORY_ERROR | CHANNEL_ERROR | VOICE_TOOL_LOOP | UNKNOWN.
#[export] Instance kind_eq_dec : EqDecision ErrorKind.
Proof. solve_decision. Defined.
End Kind.
Import Kind.

(** An exception object, as far as the code looks: two [isinstance] tests, the name
    of its class and its text. *)
Record Exc := mkExc {
  is_voice_tool_loop : bool;
  is_timeout : bool;
  type_name : string;
  text : string
}.

Definition _USER_MESSAGES (k : ErrorKind) : string :=
  match k with
  | TIMEOUT => "The request timed out. Try again in a moment."
  | RATE_LIMIT => "Rate limited by the API. Please wait a minute and try again."
  | SDK_ERROR => "There was an issue communicating with Claude. Please try again."
  | MEMORY_ERROR => "Memory service is unavailable, but I can still respond without context."
  | CHANNEL_ERROR => "There was an issue sending the response."
  | VOICE_TOOL_LOOP => "I couldn't resolve that cleanly. Try naming the device again."
  | UNKNOWN => "Sorry, something went wrong while processing your request."
  end.

(** [_classify_error] *)
Definition _classify_error (exc : Exc) : ErrorKind :=
  if is_voice_tool_loop exc then VOICE_TOOL_LOOP
  else if is_timeout exc then TIMEOUT
  else
    let msg := lower (text exc) in
    if contains "rate" msg && contains "limit" msg then RATE_LIMIT
    else if contains "429" msg then RATE_LIMIT
    else if contains "overloaded" msg || contains "529" msg then RATE_LIMIT
    else if contains "timeout" msg || contains "timed out" msg then TIMEOUT
    else if contains "CLI" (type_name exc) || contains "SDK" (type_name exc)
            || contains "Connection" (type_name exc) then SDK_ERROR
    else UNKNOWN.

(** [RETRY_KINDS] *)
Definition RETRY_KINDS (k : ErrorKind) : bool :=
  match k with TIMEOUT | RATE_LIMIT | SDK_ERROR => true | _ => false end.

(** ** Configuration *)

(** [_env_int] *)
Definition _env_int (raw : option string) (default_ min_value : Z) : Z :=
  match raw with
  | None => default_
  | Some raw =>
    if bool_decide (raw = "") then default_
    else match py_int raw with
         | None => default_
         | Some value => if value <? min_value then min_value else value
         end
  end.

(** ** The hint in the message *)

Definition skip_one (P : Ascii.ascii → bool) (s : string) : string :=
  match s with String c s' => if P c then s' else s | EmptyString => s end.

(** One literal, in any case. *)
Fixpoint after_prefix_ci (p s : string) : option string :=
  match p, s with
  | EmptyString, _ => Some s
  | String a p', String b s' => if bool_decide (a = lower_char b) then after_prefix_ci p' s' else None
  | _, EmptyString => None
  end.

Definition separator (c : Ascii.ascii) : bool :=
  bool_decide (c = "-"%char) || bool_decide (c = "_"%char) || bool_decide (c = " "%char).
Definition assigns (c : Ascii.ascii) : bool :=
  bool_decide (c = ":"%char) || bool_decide (c = "="%char) || py_space c.

(** The group [[0-9]*\.?[0-9]+]: the digits before the point, and after it. *)
Definition number_group (s : string) : option (string * string) :=
  let '(whole, s) := span digit s in
  match after_prefix "." s with
  | Some s => let '(frac, _) := span digit s in
              if str_true frac then Some (whole, frac)
              else if str_true whole then Some (whole, "") else None
  | None => if str_true whole then Some (whole, "") else None
  end.

(** The pattern of [_RETRY_AFTER_PATTERNS], at the head of the text. *)
Definition retry_after_here (s : string) : option (string * string) :=
  match after_prefix_ci "retry" s with
  | None => None
  | Some s =>
    match after_prefix_ci "after" (skip_one separator s) with
    | None => None
    | Some s => number_group (snd (span assigns s))
    end
  end.

(** [pat.search] *)
Fixpoint _RETRY_AFTER_PATTERNS (s : string) : option (string * string) :=
  match retry_after_here s with
  | Some g => Some g
  | None => match s with String _ s => _RETRY_AFTER_PATTERNS s | EmptyString => None end
  end.

(** [float(group)], correctly rounded. *)
Definition float_of (whole frac : string) : spec_float :=
  match int_of (whole +:+ frac) with
  | Zpos m => SFdiv 53 1024 (S754_finite false m 0) (S754_finite false (Z.to_pos (10 ^ Z.of_nat (String.length frac))) 0)
  | _ => S754_zero false
  end.

(** [parse_retry_after_ms]: [int] raises [OverflowError] on an infinity. *)
Definition parse_retry_after_ms (exc : Exc) : outcome (option Z) :=
  match _RETRY_AFTER_PATTERNS (text exc) with
  | None => Ok None
  | Some (whole, frac) =>
    match trunc (mul (float_of whole frac) (of_Z 1000)) with
    | Ok n => Ok (Some n)
    | Raise e => Raise e
    end
  end.

(** ** The retry loop *)

(** How an awaited call ends: a value, an [Exception], or the cancellation of the
    caller, which is not an [Exception]. *)
Inductive answer (V : Type) :=
  | Returned (v : V)
  | Raised (exc : Exc)
  | Cancelled.
Arguments Returned {V}.
Arguments Raised {V}.
Arguments Cancelled {V}.

Definition overflow_error : Exc := mkExc false false "OverflowError" "cannot convert float infinity to integer".

Section retry.
Context {V : Type} (MAX_ATTEMPTS INITIAL_MS CAP_MS : Z).
Context (fn : nat → answer V).
(** [on_retry], if there is one, may raise; [asyncio.sleep] may be cancelled. *)
Context (on_retry : option (nat → Exc → Z → answer unit)) (sleep : nat → Z → bool).
Context (randint : nat → Z → Z → Z).

(** [compute_backoff_ms] *)
Definition compute_backoff_ms (attempt : nat) (initial_ms cap_ms : Z) : Z :=
  let ceiling := Z.min (initial_ms * 2 ^ Z.of_nat attempt) cap_ms in
  let lower := ceiling / 2 in
  randint attempt lower ceiling.

(** The delay before the next attempt. *)
Definition delay_ms (attempt : nat) (exc : Exc) : outcome Z :=
  match parse_retry_after_ms exc with
  | Raise e => Raise e
  | Ok (Some hinted) => Ok (Z.min hinted (10 * CAP_MS))
  | Ok None => Ok (compute_backoff_ms attempt INITIAL_MS CAP_MS)
  end.

(** The loop of [retry_sdk_call], with the attempts that are left: how it ends, the
    number of calls made, and the delays slept. *)
Fixpoint attempts (left_ : nat) (attempt : nat) (slept : list Z) : answer V * nat * list Z :=
  match left_ with
  | O => (Raised (mkExc false false "RuntimeError" "retry_sdk_call did not allow any attempts"), attempt, slept)
  | S left_ =>
    match fn attempt with
    | Returned v => (Returned v, S attempt, slept)
    | Cancelled => (Cancelled, S attempt, slept)
    | Raised exc =>
      if negb (RETRY_KINDS (_classify_error exc)) then (Raised exc, S attempt, slept)
      else if bool_decide (Z.of_nat attempt = MAX_ATTEMPTS - 1) then (Raised exc, S attempt, slept)
      else
        match delay_ms attempt exc with
        | Raise _ => (Raised overflow_error, S attempt, slept)
        | Ok delay =>
          match from_option (λ f, f attempt exc delay) (Returned ()) on_retry with
          | Raised e => (Raised e, S attempt, slept)
          | Cancelled => (Cancelled, S attempt, slept)
          | Returned _ =>
            if sleep attempt delay then attempts left_ (S attempt) (slept ++ [delay])
            else (Cancelled, S attempt, slept)
          end
        end
    end
  end.

(** [retry_sdk_call] *)
Definition retry_sdk_call : answer V * nat * list Z := attempts (Z.to_nat MAX_ATTEMPTS) 0 [].
End retry.

(** ** The confirmed edit *)

(** [SETTLE_BACKOFFS], in milliseconds. *)
Definition SETTLE_BACKOFFS : list Z := [500; 1000; 2000].

Section settle.
(** The answer of the n-th edit, and whether the n-th sleep ends. *)
Context (do_edit : nat → answer bool) (sleep : nat → Z → bool).

Fixpoint settle_attempts (backoffs : list Z) (n : nat) (slept : list Z) : answer bool * nat * list Z :=
  match backoffs with
  | [] => (Returned false, n, slept)
  | delay :: backoffs =>
    match do_edit n with
    | Cancelled => (Cancelled, S n, slept)
    | Returned true => (Returned true, S n, slept)
    | Returned false | Raised _ =>
      if sleep n delay then settle_attempts backoffs (S n) (slept ++ [delay])
      else (Cancelled, S n, slept)
    end
  end.

(** [confirmed_settle_edit] *)
Definition confirmed_settle_edit (backoffs : list Z) : answer bool * nat * list Z :=
  settle_attempts backoffs 0 [].
End settle.

Definition said (s : string) : Exc := mkExc false false "Exception" s.
Example hint_colon : parse_retry_after_ms (said "HTTP 429: retry-after: 5") = Ok (Some 5000).
Proof. vm_compute. reflexivity. Qed.
Example hint_fraction : parse_retry_after_ms (said "please Retry After 1.001 seconds") = Ok (Some 1000).
Proof. vm_compute. reflexivity. Qed.
Example hint_seconds : parse_retry_after_ms (said "Retry_After=12s") = Ok (Some 12000).
Proof. vm_compute. reflexivity. Qed.
Example hint_absent : parse_retry_after_ms (said "retry-after: soon") = Ok None.
Proof. vm_compute. reflexivity. Qed.
