(* ===== verification/RetryProperties.v ===== *)
(** * What a retry loop may do

    Theorems about [Retry.v]: the retry loop ends within its attempts and its
    delays are bounded, it gets through transient failures, and an edit is confirmed
    only by an edit that was made. *)

From Stdlib Require Import SpecFloat.
From S2P Require Import Prelude PyStr PyNumbers Retry.
#[local] Open Scope Z_scope.

(** ** Hints are not negative *)

Definition nonneg64 (x : spec_float) : Prop :=
  match x with S754_zero s | S754_infinity s | S754_finite s _ _ => s = false | S754_nan => True end.

Lemma round_nonneg m e l : nonneg64 (binary_round_aux 53 1024 false m e l).
Proof.
  unfold binary_round_aux. destruct (shr_fexp _ _ _ _ _) as [mrs e'].
  destruct (shr_fexp 53 1024 _ e' _) as [mrs2 e2]. destruct (shr_m mrs2); [done| |done].
  by destruct (e2 <=? 1024 - 53).
Qed.

Lemma mul_nonneg x y : nonneg64 x → nonneg64 y → nonneg64 (SFmul 53 1024 x y).
Proof.
  destruct x as [[]|[]| |[] m e], y as [[]|[]| |[] m' e']; cbn -[binary_round_aux]; try done.
  intros _ _. apply round_nonneg.
Qed.

Lemma div_nonneg m m' : nonneg64 (SFdiv 53 1024 (S754_finite false m 0) (S754_finite false m' 0)).
Proof. cbn -[binary_round_aux SFdiv_core_binary]. destruct (SFdiv_core_binary _ _ _ _ _ _) as [[q e] l]. apply round_nonneg. Qed.

Lemma trunc_nonneg x n : nonneg64 x → trunc x = Ok n → 0 ≤ n.
Proof.
  destruct x as [s|s| |s m e]; cbn; [by intros _ [= <-]|done..|]. intros -> [= <-].
  destruct e as [|e|e]; [done| |]; unfold Z.shiftl.
  - apply (Z.shiftl_nonneg (Zpos m) (Zpos e)). done.
  - apply (Z.shiftl_nonneg (Zpos m) (Zneg e)). done.
Qed.

Lemma hint_nonneg exc n : parse_retry_after_ms exc = Ok (Some n) → 0 ≤ n.
Proof.
  unfold parse_retry_after_ms. destruct (_RETRY_AFTER_PATTERNS _) as [[whole frac]|]; [|done].
  destruct (trunc _) as [k|] eqn:E; [|done]. intros [= <-]. eapply trunc_nonneg; [|exact E].
  apply mul_nonneg; [|done]. unfold float_of. destruct (int_of _); [done|apply div_nonneg|done].
Qed.

(** ** The retry loop *)

Section retry.
Context {V : Type} (MAX_ATTEMPTS INITIAL_MS CAP_MS : Z).
Context (fn : nat → answer V).
Context (on_retry : option (nat → Exc → Z → answer unit)) (sleep : nat → Z → bool).
Context (randint : nat → Z → Z → Z).
Abbreviation attempts := (attempts MAX_ATTEMPTS INITIAL_MS CAP_MS fn on_retry sleep randint).
Abbreviation delay_ms := (delay_ms INITIAL_MS CAP_MS randint).

(** A failure that the loop retries. *)
Definition transient (i : nat) (exc : Exc) : Prop :=
  fn i = Raised exc ∧ RETRY_KINDS (_classify_error exc) = true.

(** How the loop may end after [n] calls. *)
Definition ending (n : nat) (a : answer V) : Prop :=
  match a with
  | Returned v => fn n = Returned v
  | Raised e =>
      (fn n = Raised e ∧ (RETRY_KINDS (_classify_error e) = false ∨ Z.of_nat (S n) = MAX_ATTEMPTS)) ∨
      Z.of_nat (S n) < MAX_ATTEMPTS ∧ ∃ exc, transient n exc ∧
        (e = overflow_error ∧ ¬ is_Ok (parse_retry_after_ms exc) ∨
         ∃ f delay, on_retry = Some f ∧ f n exc delay = Raised e)
  | Cancelled => fn n = Cancelled ∨ Z.of_nat (S n) < MAX_ATTEMPTS ∧ ∃ exc, transient n exc
  end.

Context (Hinit : 1 ≤ INITIAL_MS) (Hcap : 1 ≤ CAP_MS).
Context (Hrand : ∀ n lo hi, lo ≤ hi → lo ≤ randint n lo hi ∧ randint n lo hi ≤ hi).

Lemma backoff_bounds i : 0 ≤ compute_backoff_ms randint i INITIAL_MS CAP_MS ≤ CAP_MS.
Proof.
  unfold compute_backoff_ms. set (c := Z.min _ _).
  assert (1 ≤ 2 ^ Z.of_nat i) by (apply (Z.pow_le_mono_r 2 0); lia).
  assert (1 ≤ c ≤ CAP_MS) by (subst c; split; [apply Z.min_glb; nia|lia]).
  pose proof (Z.div_mod c 2 ltac:(lia)). pose proof (Z.mod_pos_bound c 2 ltac:(lia)).
  pose proof (Hrand i (c / 2) c ltac:(lia)). lia.
Qed.

Lemma delay_bounds i exc d : delay_ms i exc = Ok d → 0 ≤ d ≤ 10 * CAP_MS.
Proof.
  unfold Retry.delay_ms. destruct (parse_retry_after_ms exc) as [[h|]|] eqn:E; [| |done]; intros [= <-].
  - pose proof (hint_nonneg _ _ E). lia.
  - pose proof (backoff_bounds i). lia.
Qed.

Lemma delay_raises i exc e : delay_ms i exc = Raise e → ¬ is_Ok (parse_retry_after_ms exc).
Proof. unfold Retry.delay_ms. destruct (parse_retry_after_ms exc) as [[h|]|]; [done..|]. by intros _ []. Qed.

Lemma attempts_spec left_ i slept a n slept' :
  Z.of_nat (i + left_) = MAX_ATTEMPTS → (0 < left_)%nat →
  attempts left_ i slept = (a, n, slept') →
  (i < n ≤ i + left_)%nat ∧ (∀ j, (i ≤ j)%nat → (S j < n)%nat → ∃ exc, transient j exc) ∧
  (∃ ds, slept' = slept ++ ds ∧ length ds = (n - S i)%nat ∧ Forall (λ d, 0 ≤ d ≤ 10 * CAP_MS) ds) ∧
  ending (n - 1) a.
Proof.
  revert i slept. induction left_ as [|left_ IH]; intros i slept Hmax Hpos; [lia|]. cbn [Retry.attempts].
  assert (∀ a0, ending i a0 → (a0, S i, slept) = (a, n, slept') →
    (i < n ≤ i + S left_)%nat ∧ (∀ j, (i ≤ j)%nat → (S j < n)%nat → ∃ exc, transient j exc) ∧
    (∃ ds, slept' = slept ++ ds ∧ length ds = (n - S i)%nat ∧ Forall (λ d, 0 ≤ d ≤ 10 * CAP_MS) ds) ∧
    ending (n - 1) a) as Hstop.
  { intros a0 He [= <- <- <-]. split_and!; [lia|lia|intros; lia| |by rewrite Nat.sub_1_r].
    exists []. rewrite app_nil_r. split_and!; [done|cbn; lia|constructor]. }
  destruct (fn i) as [v|exc|] eqn:Ei; [by apply Hstop| |by apply Hstop; left].
  destruct (RETRY_KINDS _) eqn:Hk; cbn [negb]; [|by apply Hstop; left; auto].
  case_bool_decide as Hlast; [apply Hstop; left; split; [done|right; lia]|].
  assert (transient i exc) as Ht by done.
  destruct (delay_ms i exc) as [d|e] eqn:Ed.
  2:{ apply Hstop. right. split; [lia|]. exists exc. split; [done|left]. split; [done|by eapply delay_raises]. }
  destruct (from_option _ _ on_retry) as [[]|e|] eqn:Ec.
  - destruct (sleep i d); [|by apply Hstop; right; split; [lia|eauto]].
    intros Hrun. destruct (IH (S i) (slept ++ [d]) ltac:(lia) ltac:(lia) Hrun) as (Hn & Hj & (ds & -> & Hl & Hf) & He).
    split_and!; [lia|lia| | |done].
    + intros j Hij Hjn. destruct (decide (i = j)) as [<-|]; [by eauto|]. apply Hj; lia.
    + exists (d :: ds). rewrite <-app_assoc. split_and!; [done|cbn; lia|].
      constructor; [by eapply delay_bounds|done].
  - apply Hstop. right. split; [lia|]. exists exc. split; [done|right].
    destruct on_retry as [f|]; [|done]. by exists f, d.
  - apply Hstop. right. split; [lia|]. eauto.
Qed.

(** A run of transient failures that the loop survives. *)
Definition survives (i : nat) (d : Z) : Prop :=
  ∃ exc, transient i exc ∧ delay_ms i exc = Ok d ∧
    from_option (λ f, f i exc d) (Returned ()) on_retry = Returned () ∧ sleep i d = true.

Lemma attempts_survive left_ i slept ds v :
  Z.of_nat (i + left_) = MAX_ATTEMPTS → (length ds < left_)%nat →
  (∀ j d, ds !! j = Some d → survives (i + j) d) → fn (i + length ds) = Returned v →
  attempts left_ i slept = (Returned v, S (i + length ds), slept ++ ds).
Proof.
  revert i slept ds. induction left_ as [|left_ IH]; intros i slept ds Hmax Hlen Hs Hv; [lia|].
  cbn [Retry.attempts]. destruct ds as [|d ds].
  - cbn [length] in *. rewrite Nat.add_0_r in *. by rewrite Hv, app_nil_r.
  - destruct (Hs 0%nat d eq_refl) as (exc & [Hf Hk] & Hd & Hc & Hsl). rewrite Nat.add_0_r in *. cbn [length] in *.
    rewrite Hf, Hk. cbn [negb]. rewrite bool_decide_eq_false_2 by lia. rewrite Hd, Hc, Hsl.
    rewrite (IH (S i) (slept ++ [d]) ds); [|lia|lia| |by rewrite Nat.add_succ_r in Hv].
    + by rewrite <-app_assoc, Nat.add_succ_r.
    + intros j d' Hj. specialize (Hs (S j) d' Hj). by rewrite Nat.add_succ_r in Hs.
Qed.
End retry.

(** C30: the retry loop ends within its attempts.  [retry_sdk_call] makes at least
    one call and at most [MAX_ATTEMPTS]; every call before the last one failed with
    a transient kind of error, and was followed by one delay of at most ten times
    the cap, whatever hint the server sent.  It returns only what the last call
    returned; it raises the last call's error, because it is not transient or no
    attempt is left, or an error of the retry itself; a cancellation is never
    swallowed. *)
Theorem retry_ends_within_attempts {V} MAX_ATTEMPTS INITIAL_MS CAP_MS (fn : nat → answer V)
    on_retry sleep randint :
  1 ≤ MAX_ATTEMPTS → 1 ≤ INITIAL_MS → 1 ≤ CAP_MS →
  (∀ n lo hi, lo ≤ hi → lo ≤ randint n lo hi ∧ randint n lo hi ≤ hi) →
  let '(a, n, slept) := retry_sdk_call MAX_ATTEMPTS INITIAL_MS CAP_MS fn on_retry sleep randint in
  (1 ≤ n)%nat ∧ Z.of_nat n ≤ MAX_ATTEMPTS ∧
  (∀ i, (S i < n)%nat → ∃ exc, transient fn i exc) ∧
  length slept = (n - 1)%nat ∧ Forall (λ d, 0 ≤ d ≤ 10 * CAP_MS) slept ∧
  ending MAX_ATTEMPTS fn on_retry (n - 1) a.
Proof.
  intros Hmax Hi Hc Hr.
  destruct (retry_sdk_call _ _ _ _ _ _ _) as [[a n] slept] eqn:E. unfold retry_sdk_call in E.
  apply attempts_spec in E as (Hn & Hj & (ds & -> & Hl & Hf) & He); [|done..|lia|lia].
  split_and!; [lia|lia| |done..]. intros i ?. apply Hj; lia.
Qed.

Definition overloaded : Exc := mkExc false false "ProcessError" "529 overloaded, retry-after: 900".
Definition flaky (n : nat) : answer string := if (n <? 2)%nat then Raised overloaded else Returned "hello".

Lemma retry_ends_within_attempts_witness :
  1 ≤ 3 ∧ 1 ≤ 500 ∧ 1 ≤ 8000 ∧
  retry_sdk_call 3 500 8000 flaky None (λ _ _, true) (λ _ lo _, lo) = (Returned "hello", 3%nat, [80000; 80000]) ∧
  let '(a, n, slept) := retry_sdk_call 3 500 8000 flaky None (λ _ _, true) (λ _ lo _, lo) in
  (1 ≤ n)%nat ∧ Z.of_nat n ≤ 3 ∧ (∀ i, (S i < n)%nat → ∃ exc, transient flaky i exc) ∧
  length slept = (n - 1)%nat ∧ Forall (λ d, 0 ≤ d ≤ 10 * 8000) slept ∧
  ending 3 flaky None (n - 1) a.
Proof.
  do 3 (split; [done|]). split; [vm_compute; reflexivity|].
  by apply (retry_ends_within_attempts 3 500 8000 flaky None (λ _ _, true) (λ _ lo _, lo)).
Defined.

(** Transient failures are got through.  If the first calls fail with transient
    errors, fewer of them than [MAX_ATTEMPTS], while the callback and the sleeps
    go through, and the next call returns, then [retry_sdk_call] returns that
    value, after exactly those calls and the delays it computed for them. *)
Theorem retry_gets_through {V} MAX_ATTEMPTS INITIAL_MS CAP_MS (fn : nat → answer V)
    on_retry sleep randint (ds : list Z) (v : V) :
  Z.of_nat (length ds) < MAX_ATTEMPTS →
  (∀ i d, ds !! i = Some d → survives INITIAL_MS CAP_MS fn on_retry sleep randint i d) →
  fn (length ds) = Returned v →
  retry_sdk_call MAX_ATTEMPTS INITIAL_MS CAP_MS fn on_retry sleep randint
    = (Returned v, S (length ds), ds).
Proof.
  intros Hlen Hs Hv. unfold retry_sdk_call.
  rewrite (attempts_survive _ _ _ fn on_retry sleep randint _ 0 [] ds v); [done|lia..|exact Hs|exact Hv].
Qed.

Lemma retry_gets_through_witness :
  retry_sdk_call 3 500 8000 flaky None (λ _ _, true) (λ _ lo _, lo) = (Returned "hello", 3%nat, [80000; 80000]).
Proof.
  apply (retry_gets_through 3 500 8000 flaky None (λ _ _, true) (λ _ lo _, lo) [80000; 80000] "hello");
    [done| |done].
  intros [|[|i]] d; cbn; [intros [= <-]..|done].
  all: exists overloaded; split_and!; [done|vm_compute; reflexivity|done|done].
Defined.

(** ** The confirmed edit *)

Section settle.
Context (do_edit : nat → answer bool) (sleep : nat → Z → bool).

(** An attempt that did not confirm. *)
Definition unconfirmed (i : nat) : Prop :=
  do_edit i = Returned false ∨ ∃ exc, do_edit i = Raised exc.

Lemma settle_spec backoffs i slept a n slept' :
  settle_attempts do_edit sleep backoffs i slept = (a, n, slept') →
  (i ≤ n ≤ i + length backoffs)%nat ∧ (∀ j, (i ≤ j)%nat → (S j < n)%nat → unconfirmed j) ∧
  match a with
  | Returned true => (i < n)%nat ∧ do_edit (n - 1)%nat = Returned true ∧ slept' = slept ++ take (n - S i) backoffs
  | Returned false =>
      n = (i + length backoffs)%nat ∧ (∀ j, (i ≤ j < n)%nat → unconfirmed j) ∧ slept' = slept ++ backoffs
  | Cancelled => (i < n)%nat ∧ (do_edit (n - 1)%nat = Cancelled ∨ unconfirmed (n - 1))
  | Raised _ => False
  end.
Proof.
  revert i slept. induction backoffs as [|d ds IH]; intros i slept; cbn [settle_attempts].
  { intros [= <- <- <-]. rewrite app_nil_r, Nat.add_0_r.
    split_and!; [lia|lia|intros; lia|done|intros; lia|done]. }
  cbn [length].
  assert (unconfirmed i → (if sleep i d then settle_attempts do_edit sleep ds (S i) (slept ++ [d])
           else (Cancelled, S i, slept)) = (a, n, slept') →
    (i ≤ n ≤ i + S (length ds))%nat ∧ (∀ j, (i ≤ j)%nat → (S j < n)%nat → unconfirmed j) ∧
    match a with
    | Returned true => (i < n)%nat ∧ do_edit (n - 1)%nat = Returned true ∧ slept' = slept ++ take (n - S i) (d :: ds)
    | Returned false =>
        n = (i + S (length ds))%nat ∧ (∀ j, (i ≤ j < n)%nat → unconfirmed j) ∧ slept' = slept ++ d :: ds
    | Cancelled => (i < n)%nat ∧ (do_edit (n - 1)%nat = Cancelled ∨ unconfirmed (n - 1))
    | Raised _ => False
    end) as Hgo.
  { intros Hu. destruct (sleep i d).
    - intros Hrun. destruct (IH _ _ Hrun) as (Hn & Hj & Ha).
      assert (∀ j, (i ≤ j)%nat → (S j < n)%nat → unconfirmed j) as Hj'
        by (intros j ??; destruct (decide (i = j)) as [<-|]; [done|apply Hj; lia]).
      split_and!; [lia|lia|done|]. destruct a as [[]| |]; [..|done|].
      + destruct Ha as (? & ? & ->). split_and!; [lia|done|].
        replace (n - S i)%nat with (S (n - S (S i))) by lia. cbn [take]. by rewrite <-app_assoc.
      + destruct Ha as (-> & Hall & ->). split_and!; [lia| |by rewrite <-app_assoc].
        intros j ?. destruct (decide (i = j)) as [<-|]; [done|apply Hall; lia].
      + destruct Ha as (? & ?). split; [lia|done].
    - intros [= <- <- <-]. rewrite Nat.sub_1_r. split_and!; [lia|lia|intros; lia|lia|by right]. }
  destruct (do_edit i) as [[]|exc|] eqn:Ei.
  - intros [= <- <- <-]. rewrite Nat.sub_1_r, Nat.sub_diag, app_nil_r. split_and!; [lia|lia|intros; lia|lia|done|done].
  - apply Hgo. by left.
  - apply Hgo. right. eauto.
  - intros [= <- <- <-]. rewrite Nat.sub_1_r. split_and!; [lia|lia|intros; lia|lia|by left].
Qed.
End settle.

(** An edit is reported as confirmed only when it was.
    [confirmed_settle_edit] makes at most as many edits as there are backoffs and
    never raises.  It answers true exactly after an edit that was confirmed, all
    earlier ones having failed and one backoff slept after each; it answers false
    only when every one failed and every backoff was slept. *)
Theorem settle_confirms_truly do_edit sleep backoffs :
  let '(a, n, slept) := confirmed_settle_edit do_edit sleep backoffs in
  (n ≤ length backoffs)%nat ∧ (∀ i, (S i < n)%nat → unconfirmed do_edit i) ∧
  match a with
  | Returned true => (0 < n)%nat ∧ do_edit (n - 1)%nat = Returned true ∧ slept = take (n - 1) backoffs
  | Returned false => n = length backoffs ∧ (∀ i, (i < n)%nat → unconfirmed do_edit i) ∧ slept = backoffs
  | Cancelled => (0 < n)%nat ∧ (do_edit (n - 1)%nat = Cancelled ∨ unconfirmed do_edit (n - 1))
  | Raised _ => False
  end.
Proof.
  destruct (confirmed_settle_edit do_edit sleep backoffs) as [[a n] slept] eqn:E.
  apply settle_spec in E as (Hn & Hj & Ha). split_and!; [lia|intros; apply Hj; lia|].
  destruct a as [[]| |]; [done| |done..]. destruct Ha as (? & Hall & ->). split_and!; [done| |done].
  intros i ?. apply Hall. lia.
Qed.
