(* ===== verification/TextUtil.v ===== *)
(** * Text utilities

    [text_util.py]: the unsafe-text predicate and its escape, the UTF-16 measure of
    Telegram's limits, and topic names that fit a number of bytes.

    A text is the list of its code points, so that astral characters, lone
    surrogates and bidirectional controls are all there. *)

From S2P Require Import Prelude.
#[local] Open Scope Z_scope.

Definition text : Type := list Z.

(** The code points of a string of the model, which are below 256. *)
Definition codes (s : string) : text :=
  (λ c, Z.of_nat (Ascii.nat_of_ascii c)) <$> String.list_ascii_of_string s.

(** The code points of a literal, which is written in UTF-8. *)
Fixpoint decode (s : list Z) : text :=
  match s with
  | [] => []
  | a :: s1 =>
    if a <? 0x80 then a :: decode s1
    else match s1 with
    | [] => [a]
    | b :: s2 =>
      if a <? 0xE0 then (a - 0xC0) * 64 + (b - 128) :: decode s2
      else match s2 with
      | [] => [a]
      | c :: s3 =>
        if a <? 0xF0 then ((a - 0xE0) * 64 + (b - 128)) * 64 + (c - 128) :: decode s3
        else match s3 with
        | [] => [a]
        | d :: s4 => (((a - 0xF0) * 64 + (b - 128)) * 64 + (c - 128)) * 64 + (d - 128) :: decode s4
        end
      end
    end
  end.
Definition lit (s : string) : text := decode (codes s).

Definition between (lo hi c : Z) : bool := (lo <=? c) && (c <=? hi).

Definition TELEGRAM_TOPIC_NAME_BYTES : Z := 128.

(** [sanitize_segment] *)
Definition segment_char (c : Z) : bool :=
  between 65 90 c || between 97 122 c || between 48 57 c || bool_decide (c = 95) || bool_decide (c = 45).
Definition sanitize_segment (s : text) : text := (λ c, if segment_char c then c else 95) <$> s.

(** ** Unsafe text *)

Definition _UNSAFE_TEXT_RANGES : list (Z * Z) :=
  [(0x0000, 0x001F); (0x007F, 0x009F); (0x2028, 0x2028); (0x2029, 0x2029); (0x061C, 0x061C);
   (0x200E, 0x200F); (0x202A, 0x202E); (0x2066, 0x2069)].

Definition unsafe (c : Z) : bool := existsb (λ p, between p.1 p.2 c) _UNSAFE_TEXT_RANGES.

(** [is_unsafe_text] *)
Definition is_unsafe_text (s : text) : bool := existsb unsafe s.

Definition hex_digit (n : Z) : Z := if n <? 10 then 48 + n else 87 + n.

(** ["\\u%04x" % c], for a code point of at most four hexadecimal digits. *)
Definition u_escape (c : Z) : text :=
  [92; 117; hex_digit (c / 4096 mod 16); hex_digit (c / 256 mod 16); hex_digit (c / 16 mod 16);
   hex_digit (c mod 16)].

(** [escape_unsafe_text] *)
Definition escape_unsafe_text (s : text) : text :=
  mjoin ((λ c, if unsafe c then u_escape c else [c]) <$> s).

(** ** UTF-16 *)

Definition units (c : Z) : Z := if 0x10000 <=? c then 2 else 1.

(** [utf16_len] *)
Definition utf16_len (s : text) : Z := foldr (λ c n, units c + n) 0 s.

(** The loop of [utf16_prefix_end], from index [i] of the text, whose rest is [s]. *)
Fixpoint prefix_end (s : text) (i : nat) (used budget : Z) : nat :=
  match s with
  | [] => i
  | c :: s => let used := used + units c in
              if budget <? used then i else prefix_end s (S i) used budget
  end.

(** [utf16_prefix_end] *)
Definition utf16_prefix_end (s : text) (start : nat) (budget : Z) : nat :=
  prefix_end (drop start s) start 0 budget.

(** ** Topic names *)

Definition surrogate (c : Z) : bool := between 0xD800 0xDFFF c.

(** [len(ch.encode("utf-8"))] *)
Definition utf8_width (c : Z) : Z :=
  if c <? 0x80 then 1 else if c <? 0x800 then 2 else if c <? 0x10000 then 3 else 4.
Definition utf8_len (s : text) : Z := foldr (λ c n, utf8_width c + n) 0 s.

Definition _ELLIPSIS : Z := 0x2026.
Definition _ELLIPSIS_BYTES : Z := 3.
Definition trailing_punct (c : Z) : bool := bool_decide (c ∈ [44; 59; 58; 46]).

(** The characters [str.rstrip] removes. *)
Definition is_space (c : Z) : bool :=
  between 9 13 c || between 28 32 c || bool_decide (c ∈ [133; 160; 5760]) || between 8192 8202 c
  || bool_decide (c ∈ [8232; 8233; 8239; 8287; 12288]).

Fixpoint drop_while (P : Z → bool) (s : text) : text :=
  match s with c :: s' => if P c then drop_while P s' else s | [] => [] end.
Definition rstrip (s : text) : text := reverse (drop_while is_space (reverse s)).

(** The walk over the characters: the body, and how much of it ends at its last
    space. *)
Fixpoint body_loop (text_ : text) (budget : Z) (body : text) (body_bytes : Z) (last_space : nat)
    : text * nat :=
  match text_ with
  | [] => (body, last_space)
  | ch :: text_ =>
    if budget <? body_bytes + utf8_width ch then (body, last_space)
    else
      let body := body ++ [ch] in
      body_loop text_ budget body (body_bytes + utf8_width ch)
        (if bool_decide (ch = 32) then length body else last_space)
  end.

(** [while truncated and truncated[-1] in _TRAILING_PUNCT: ...], on the reversed
    text: every turn drops at least one character. *)
Fixpoint strip_punct (fuel : nat) (s : text) : text :=
  match fuel, last s with
  | S fuel, Some c => if trailing_punct c then strip_punct fuel (rstrip (removelast s)) else s
  | _, _ => s
  end.

(** [truncate_for_topic]: a lone surrogate cannot be encoded. *)
Definition truncate_for_topic (text_ : text) (byte_budget : Z) : outcome text :=
  if bool_decide (text_ = []) then Ok []
  else if existsb surrogate text_ then Raise ValueError
  else if utf8_len text_ <=? byte_budget then Ok text_
  else if byte_budget <? _ELLIPSIS_BYTES then Ok []
  else
    let '(body, last_space) := body_loop text_ (byte_budget - _ELLIPSIS_BYTES) [] 0 0 in
    if bool_decide (body = []) then Ok [_ELLIPSIS]
    else
      let truncated := if (0 <? last_space)%nat then take last_space body else body in
      let truncated := rstrip truncated in
      Ok (strip_punct (length truncated) truncated ++ [_ELLIPSIS]).

(** ** Escaping makes text safe *)

Lemma hex_digit_safe n : 0 ≤ n < 16 → unsafe (hex_digit n) = false.
Proof.
  intros Hn. assert (Forall (λ n, unsafe (hex_digit n) = false) (seqZ 0 16)) as H
    by (vm_compute; repeat constructor).
  rewrite Forall_forall in H. apply H, elem_of_seqZ. lia.
Qed.

Lemma u_escape_safe c : is_unsafe_text (u_escape c) = false.
Proof.
  unfold u_escape, is_unsafe_text. cbn [existsb].
  rewrite !hex_digit_safe by (apply Z.mod_pos_bound; lia). reflexivity.
Qed.

Lemma is_unsafe_app s t : is_unsafe_text (s ++ t) = is_unsafe_text s || is_unsafe_text t.
Proof. apply existsb_app. Qed.

Lemma escape_cons c s :
  escape_unsafe_text (c :: s) = (if unsafe c then u_escape c else [c]) ++ escape_unsafe_text s.
Proof. done. Qed.

Lemma escape_safe s : is_unsafe_text (escape_unsafe_text s) = false.
Proof.
  induction s as [|c s IH]; [done|]. rewrite escape_cons, is_unsafe_app, IH.
  destruct (unsafe c) eqn:E; [by rewrite u_escape_safe|]. unfold is_unsafe_text. cbn [existsb]. by rewrite E.
Qed.

Lemma escape_id s : is_unsafe_text s = false → escape_unsafe_text s = s.
Proof.
  induction s as [|c s IH]; [done|]. unfold is_unsafe_text in *. cbn [existsb].
  intros [Hc Hs]%orb_false_iff. rewrite escape_cons, Hc, IH by done. done.
Qed.

(** ** The UTF-16 budget *)

Lemma units_pos c : 1 ≤ units c.
Proof. unfold units. case_match; lia. Qed.

Lemma utf16_len_app s t : utf16_len (s ++ t) = utf16_len s + utf16_len t.
Proof. unfold utf16_len. induction s as [|c s IH]; cbn; [done|]. lia. Qed.

Lemma utf16_len_nonneg s : 0 ≤ utf16_len s.
Proof. unfold utf16_len. induction s as [|c s IH]; cbn; [done|]. pose proof (units_pos c). lia. Qed.

Lemma prefix_end_spec s i used budget :
  used ≤ budget →
  ∃ n, prefix_end s i used budget = (i + n)%nat ∧ (n ≤ length s)%nat ∧
    used + utf16_len (take n s) ≤ budget ∧
    ((n < length s)%nat → budget < used + utf16_len (take (S n) s)).
Proof.
  revert i used. induction s as [|c s IH]; intros i used Hu.
  { exists 0%nat. cbn. split_and!; [lia|lia|lia|lia]. }
  cbn [prefix_end]. destruct (budget <? used + units c) eqn:E.
  - apply Z.ltb_lt in E. exists 0%nat. cbn. split_and!; [lia|lia|lia|]. rewrite take_0. cbn. lia.
  - apply Z.ltb_ge in E. destruct (IH (S i) _ E) as (n & -> & Hn & Hle & Hmax).
    exists (S n). cbn [length]. split_and!; [lia|lia|cbn; unfold utf16_len in *; lia|].
    intros Hlt. specialize (Hmax ltac:(lia)). change (take (S (S n)) (c :: s)) with (c :: take (S n) s).
    unfold utf16_len in *. cbn [foldr]. lia.
Qed.

(** The UTF-16 budget is spent to the last character.  From any position and
    for any budget, [utf16_prefix_end] ends inside the text, what lies between fits
    the budget, and one more character would not: so pages cut with it fit
    Telegram's limit, are as long as they can be, and never split a character. *)
Theorem utf16_prefix_maximal s start budget :
  (start ≤ length s)%nat → 0 ≤ budget →
  let e := utf16_prefix_end s start budget in
  (start ≤ e ≤ length s)%nat ∧ utf16_len (take (e - start) (drop start s)) ≤ budget ∧
  ((e < length s)%nat → budget < utf16_len (take (S e - start) (drop start s))).
Proof.
  intros Hs Hb. unfold utf16_prefix_end.
  destruct (prefix_end_spec (drop start s) start 0 budget Hb) as (n & -> & Hn & Hle & Hmax).
  rewrite length_drop in *. cbv zeta. replace (start + n - start)%nat with n by lia.
  replace (S (start + n) - start)%nat with (S n) by lia. split_and!; [lia|lia|lia|]. intros ?. apply Hmax. lia.
Qed.

Lemma utf16_prefix_maximal_witness :
  let s := [65; 0x1F510; 66] in
  (1 ≤ length s)%nat ∧ 0 ≤ 2 ∧ utf16_prefix_end s 1 2 = 2%nat ∧
  let e := utf16_prefix_end s 1 2 in
  (1 ≤ e ≤ length s)%nat ∧ utf16_len (take (e - 1) (drop 1 s)) ≤ 2 ∧
  ((e < length s)%nat → 2 < utf16_len (take (S e - 1) (drop 1 s))).
Proof.
  cbv zeta. split; [cbn; lia|]. split; [done|]. split; [reflexivity|].
  apply (utf16_prefix_maximal [65; 0x1F510; 66] 1 2); [cbn; lia|done].
Defined.

(** ** Topic names fit *)

Lemma utf8_width_pos c : 1 ≤ utf8_width c.
Proof. unfold utf8_width. repeat case_match; lia. Qed.

Lemma utf8_len_app s t : utf8_len (s ++ t) = utf8_len s + utf8_len t.
Proof. unfold utf8_len. induction s as [|c s IH]; cbn; [done|]. lia. Qed.

Lemma utf8_len_nonneg s : 0 ≤ utf8_len s.
Proof. unfold utf8_len. induction s as [|c s IH]; cbn; [done|]. pose proof (utf8_width_pos c). lia. Qed.

Lemma utf8_len_prefix s t : s `prefix_of` t → utf8_len s ≤ utf8_len t.
Proof. intros [k ->]. rewrite utf8_len_app. pose proof (utf8_len_nonneg k). lia. Qed.

Lemma drop_while_spec P s :
  ∃ k, s = k ++ drop_while P s ∧ ∀ c, head (drop_while P s) = Some c → P c = false.
Proof.
  induction s as [|c s IH]; cbn; [by exists []|]. destruct (P c) eqn:E.
  - destruct IH as (k & Hk & Hh). exists (c :: k). split; [cbn; congruence|done].
  - exists []. split; [done|]. intros ? [= <-]. done.
Qed.

Lemma rstrip_spec s :
  rstrip s `prefix_of` s ∧ ∀ c, last (rstrip s) = Some c → is_space c = false.
Proof.
  unfold rstrip. destruct (drop_while_spec is_space (reverse s)) as (k & Hk & Hh). split.
  - exists (reverse k). rewrite <-reverse_app, <-Hk. by rewrite reverse_involutive.
  - intros c. rewrite last_reverse. apply Hh.
Qed.

Lemma removelast_last (s : text) c : last s = Some c → s = removelast s ++ [c].
Proof. intros (l & ->)%last_Some. by rewrite removelast_last. Qed.

Lemma strip_punct_spec fuel s :
  (length s ≤ fuel)%nat → (∀ c, last s = Some c → is_space c = false) →
  strip_punct fuel s `prefix_of` s ∧
  ∀ c, last (strip_punct fuel s) = Some c → is_space c = false ∧ trailing_punct c = false.
Proof.
  revert s. induction fuel as [|fuel IH]; intros s Hl Hs.
  { destruct s; [|cbn in Hl; lia]. by split. }
  cbn [strip_punct]. destruct (last s) as [c|] eqn:E.
  - destruct (trailing_punct c) eqn:Hp; [|split; [done|]; intros c' ?; simplify_eq; auto].
    pose proof (removelast_last s c E) as Hsplit. destruct (rstrip_spec (removelast s)) as [Hpre Hlast].
    destruct (IH (rstrip (removelast s))) as [H1 H2]; [|done|].
    + apply prefix_length in Hpre. apply (f_equal length) in Hsplit. rewrite length_app in Hsplit. cbn in *. lia.
    + split; [|done]. etrans; [exact H1|]. etrans; [exact Hpre|]. exists [c]. done.
  - apply last_None in E as ->. by split.
Qed.

Lemma body_loop_spec s budget body n b k :
  utf8_len body ≤ budget → (n ≤ length body)%nat →
  body_loop s budget body (utf8_len body) n = (b, k) →
  b `prefix_of` body ++ s ∧ utf8_len b ≤ budget ∧ (k ≤ length b)%nat.
Proof.
  revert body n. induction s as [|c s IH]; intros body n Hb Hn; cbn [body_loop].
  { intros [= <- <-]. by rewrite app_nil_r. }
  destruct (budget <? _) eqn:E; [intros [= <- <-]; split_and!; [by apply prefix_app_r|done|done]|].
  apply Z.ltb_ge in E. assert (utf8_len body + utf8_width c = utf8_len (body ++ [c])) as Hw
    by (rewrite utf8_len_app; unfold utf8_len at 3; cbn; lia).
  rewrite Hw. intros Hrun. apply IH in Hrun as (H1 & H2 & H3); [|lia|].
  - rewrite <-app_assoc in H1. done.
  - rewrite length_app. cbn. case_bool_decide; lia.
Qed.

(** A topic name fits and stays readable.  For every text without lone
    surrogates and every budget of bytes, [truncate_for_topic] returns; a text that
    fits is unchanged, and otherwise the result takes at most the budget and is a
    prefix of the text with an ellipsis, the prefix ending neither in a space nor
    in a stray mark of punctuation; only below three bytes is there nothing left. *)
Theorem topic_name_fits s budget :
  existsb surrogate s = false → 0 ≤ budget →
  ∃ r, truncate_for_topic s budget = Ok r ∧ utf8_len r ≤ budget ∧
    (utf8_len s ≤ budget → r = s) ∧
    (budget < utf8_len s →
     (budget < 3 ∧ r = []) ∨
     ∃ p, r = p ++ [_ELLIPSIS] ∧ p `prefix_of` s ∧
       ∀ c, last p = Some c → is_space c = false ∧ trailing_punct c = false).
Proof.
  intros Hsur Hb. unfold truncate_for_topic. case_bool_decide as Hnil.
  { subst s. exists []. split_and!; [done|done|done|cbn; lia]. }
  rewrite Hsur. destruct (utf8_len s <=? budget) eqn:E.
  { apply Z.leb_le in E. exists s. split_and!; [done|done|done|lia]. }
  apply Z.leb_gt in E. destruct (budget <? _ELLIPSIS_BYTES) eqn:E3.
  { apply Z.ltb_lt in E3. exists []. unfold _ELLIPSIS_BYTES in *. split_and!; [done|done|lia|by left]. }
  apply Z.ltb_ge in E3. unfold _ELLIPSIS_BYTES in *.
  destruct (body_loop s (budget - 3) [] 0 0) as [body k] eqn:El.
  change 0 with (utf8_len []) in El at 1. apply body_loop_spec in El as (Hpre & Hlen & Hk); [|cbn; lia|cbn; lia].
  assert (∀ p, p `prefix_of` body → utf8_len (p ++ [_ELLIPSIS]) ≤ budget) as Hfit.
  { intros p Hp%utf8_len_prefix. rewrite utf8_len_app. change (utf8_len [_ELLIPSIS]) with 3. lia. }
  case_bool_decide as Hbody.
  { exists [_ELLIPSIS]. split_and!; [done|apply (Hfit []); apply prefix_nil|lia|]. right.
    exists []. split_and!; [done|apply prefix_nil|done]. }
  set (t := if (0 <? k)%nat then take k body else body).
  assert (t `prefix_of` body) as Ht by (subst t; case_match; [apply prefix_take|done]).
  destruct (rstrip_spec t) as [H1 H2]. destruct (strip_punct_spec (length (rstrip t)) (rstrip t)) as [H3 H4]; [done|done|].
  set (p := strip_punct _ _) in *. assert (p `prefix_of` body) as Hp by (etrans; [exact H3|etrans; [exact H1|done]]).
  exists (p ++ [_ELLIPSIS]). split_and!; [done|by apply Hfit|lia|]. right. exists p.
  split_and!; [done| |done]. by etrans.
Qed.

Lemma topic_name_fits_witness :
  let s := codes "fix the kitchen, please" in
  existsb surrogate s = false ∧ 0 ≤ 20 ∧
  truncate_for_topic s 20 = Ok (codes "fix the kitchen" ++ [_ELLIPSIS]) ∧
  ∃ r, truncate_for_topic s 20 = Ok r ∧ utf8_len r ≤ 20 ∧ (utf8_len s ≤ 20 → r = s) ∧
    (20 < utf8_len s → (20 < 3 ∧ r = []) ∨
     ∃ p, r = p ++ [_ELLIPSIS] ∧ p `prefix_of` s ∧
       ∀ c, last p = Some c → is_space c = false ∧ trailing_punct c = false).
Proof.
  cbv zeta. split; [reflexivity|]. split; [done|]. split; [vm_compute; reflexivity|].
  by apply (topic_name_fits (codes "fix the kitchen, please") 20).
Defined.
