(* ===== verification/Challenge.v ===== *)
(** * What an authorization challenge shows

    [authz_grants.py], the rendering part: the plain-language summary of a protected
    call, interpolated from the plugin's template, and the message put to the
    operator. *)

From S2P Require Import Prelude PyDict Json TextUtil.
#[local] Open Scope Z_scope.

Definition _CHALLENGE_MAX_CHARS : Z := 3900.
Definition _DISPLAY_NAME_MAX : nat := 64.
Definition _SUMMARY_VALUE_MAX : nat := 80.
Definition _SUMMARY_ELLIPSIS_BODY : nat := 77.
Definition _SUMMARY_ELLIPSIS : Z := 0x2026.

Definition brace_open : Z := 123.
Definition brace_close : Z := 125.
Definition underscore : Z := 95.
Definition has_brace (s : text) : bool :=
  existsb (λ c, bool_decide (c = brace_open) || bool_decide (c = brace_close)) s.

(** What follows the last ["__"]. *)
Fixpoint after_last_dunder (s : text) : option text :=
  match s with
  | c :: (d :: s'') as s' =>
    match after_last_dunder s' with
    | Some r => Some r
    | None => if bool_decide (c = underscore ∧ d = underscore) then Some s'' else None
    end
  | _ => None
  end.

(** [short_tool_name] *)
Definition short_tool_name (tool_name : text) : text := default tool_name (after_last_dunder tool_name).

(** [_resolve_display_name] *)
Definition _resolve_display_name (name : option text) (role : text) : text :=
  match name with
  | None => role
  | Some name =>
    if bool_decide (name = []) || (_DISPLAY_NAME_MAX <? length name)%nat || is_unsafe_text name
    then role else name
  end.

Definition ident_start (c : Z) : bool := between 65 90 c || between 97 122 c || bool_decide (c = underscore).
(** [_SUMMARY_IDENT_RE.fullmatch] *)
Definition _SUMMARY_IDENT_RE (s : text) : bool :=
  match s with
  | c :: s => ident_start c && forallb (λ c, ident_start c || between 48 57 c) s
  | [] => false
  end.

Section render.
(** [json.dumps] of a number, and [json.loads]. *)
Context (number_text : json → text) (loads : text → option json).

(** [_render_summary_value] *)
Definition _render_summary_value (val : json) : option text :=
  match val with
  | JBool b => Some (codes (if b then "true" else "false"))
  | JInt _ | JFloat _ => Some (number_text val)
  | JStr s =>
    let s := codes s in
    if is_unsafe_text s || has_brace s then None
    else if (_SUMMARY_VALUE_MAX <? length s)%nat
         then Some (take _SUMMARY_ELLIPSIS_BODY s ++ [_SUMMARY_ELLIPSIS])
         else Some s
  | _ => None
  end.

(** [args[name]], if it is a key. *)
Definition arg (args : list (string * json)) (name : text) : option json :=
  snd <$> List.find (λ p, bool_decide (codes p.1 = name)) args.

(** The text up to the first closing brace, and after it. *)
Fixpoint split_close (s : text) : option (text * text) :=
  match s with
  | [] => None
  | c :: s =>
    if bool_decide (c = brace_close) then Some ([], s)
    else match split_close s with Some (a, b) => Some (c :: a, b) | None => None end
  end.

(** The scan of [_interpolate_summary]; every turn consumes a character. *)
Fixpoint scan (fuel : nat) (template : text) (args : list (string * json)) (out : text) : option text :=
  match template with
  | [] => Some out
  | ch :: rest =>
    match fuel with
    | O => None
    | S fuel =>
      if bool_decide (ch = brace_close) then None
      else if bool_decide (ch = brace_open) then
        match split_close rest with
        | None => None
        | Some (inner, rest) =>
          if negb (_SUMMARY_IDENT_RE inner) then None
          else match arg args inner ≫= _render_summary_value with
               | None => None
               | Some rendered => scan fuel rest args (out ++ rendered)
               end
        end
      else scan fuel rest args (out ++ [ch])
    end
  end.

(** [_interpolate_summary] *)
Definition _interpolate_summary (template : text) (args : list (string * json)) : option text :=
  match scan (length template) template args [] with
  | Some result => if has_brace result then None else if is_unsafe_text result then None else Some result
  | None => None
  end.

(** [_interpolated_summary_or_none] *)
Definition _interpolated_summary_or_none (summary : option text) (canonical_json : text) : option text :=
  match summary with
  | None | Some [] => None
  | Some summary =>
    match loads canonical_json with
    | Some (JObj args) => _interpolate_summary summary args
    | _ => None
    end
  end.

Definition nl : text := [10].

(** [render_challenge_message] *)
Definition render_challenge_message (tool_name enforcement_role canonical_json : text)
    (summary display_name : option text) : text :=
  let short := short_tool_name tool_name in
  let display := _resolve_display_name display_name enforcement_role in
  let shown_json := escape_unsafe_text canonical_json in
  match _interpolated_summary_or_none summary canonical_json with
  | Some interpolated =>
    lit "🔐 Approval needed" ++ nl ++ nl ++
    display ++ codes " (" ++ enforcement_role ++ codes ") wants to: " ++ interpolated ++ nl ++ nl ++
    codes "Exact action (binding):" ++ nl ++
    codes "```" ++ nl ++ shown_json ++ nl ++ codes "```" ++ nl ++
    codes "Tool id: " ++ tool_name
  | None =>
    lit "🔐 Approval needed" ++ nl ++ nl ++
    display ++ codes " (" ++ enforcement_role ++ codes ") wants to run " ++ short ++
    codes " with EXACTLY these arguments:" ++ nl ++ nl ++
    codes "```" ++ nl ++ shown_json ++ nl ++ codes "```" ++ nl ++
    codes "Tool id: " ++ tool_name
  end.

(** ** A summary is an instance of its template *)

(** [instance args t r]: [r] is [t] with every hole [{name}] filled by the rendering
    of the argument of that name, and no other brace. *)
Inductive instance (args : list (string * json)) : text → text → Prop :=
  | inst_nil : instance args [] []
  | inst_char c t r :
      c ≠ brace_open → c ≠ brace_close → instance args t r → instance args (c :: t) (c :: r)
  | inst_hole name v x t r :
      _SUMMARY_IDENT_RE name = true → arg args name = Some v → _render_summary_value v = Some x →
      instance args t r → instance args (brace_open :: name ++ brace_close :: t) (x ++ r).

Lemma split_close_sound s a b : split_close s = Some (a, b) → s = a ++ brace_close :: b.
Proof.
  revert a b. induction s as [|c s IH]; intros a b; cbn; [done|].
  case_bool_decide as Hc; [by intros [= <- <-]; subst c|].
  destruct (split_close s) as [[a' b']|]; [|done]. intros [= <- <-]. by rewrite (IH _ _ eq_refl).
Qed.

Lemma split_close_complete a b : brace_close ∉ a → split_close (a ++ brace_close :: b) = Some (a, b).
Proof.
  induction a as [|c a IH]; [done|]. rewrite not_elem_of_cons. intros [Hc Ha]. cbn [split_close app].
  rewrite bool_decide_eq_false_2 by congruence. by rewrite IH.
Qed.

Lemma ident_no_close name : _SUMMARY_IDENT_RE name = true → brace_close ∉ name.
Proof.
  unfold _SUMMARY_IDENT_RE. destruct name as [|c s]; [done|]. intros [Hc Hs]%andb_true_iff.
  rewrite forallb_forall in Hs. intros [E|Hin]%elem_of_cons; [by subst c|].
  apply list_elem_of_In, Hs in Hin. done.
Qed.

Lemma scan_sound fuel t args out r :
  scan fuel t args out = Some r → ∃ r', r = out ++ r' ∧ instance args t r'.
Proof.
  revert t out. induction fuel as [|fuel IH]; intros [|c t] out; cbn; [|done| |].
  1,2: intros [= <-]; exists []; split; [by rewrite app_nil_r|constructor].
  case_bool_decide as Hc; [done|]. case_bool_decide as Ho.
  - subst c. destruct (split_close t) as [[inner rest]|] eqn:E; [|done]. apply split_close_sound in E as ->.
    destruct (_SUMMARY_IDENT_RE inner) eqn:Hi; [|done]. cbn [negb].
    destruct (arg args inner) as [v|] eqn:Hv; [|done]. cbn.
    destruct (_render_summary_value v) as [x|] eqn:Hx; [|done]. intros (r' & -> & Hr)%IH.
    exists (x ++ r'). split; [by rewrite app_assoc|]. by eapply inst_hole.
  - intros (r' & -> & Hr)%IH. exists (c :: r'). split; [by rewrite <-app_assoc|]. by constructor.
Qed.

Lemma scan_complete t args r :
  instance args t r → ∀ fuel out, (length t ≤ fuel)%nat → scan fuel t args out = Some (out ++ r).
Proof.
  induction 1 as [|c t r Ho Hc Hi IH|name v x t r Hn Hv Hx Hi IH]; intros fuel out Hf.
  - rewrite app_nil_r. by destruct fuel.
  - destruct fuel as [|fuel]; cbn in Hf; [lia|]. cbn.
    rewrite !bool_decide_eq_false_2 by done. rewrite IH by lia. by rewrite <-app_assoc.
  - destruct fuel as [|fuel]; cbn in Hf; [lia|]. rewrite length_app in Hf. cbn in Hf. cbn -[brace_open brace_close].
    rewrite bool_decide_eq_false_2 by done. rewrite bool_decide_eq_true_2 by done.
    rewrite split_close_complete by by apply ident_no_close. rewrite Hn, Hv. cbn. rewrite Hx.
    rewrite IH by lia. by rewrite app_assoc.
Qed.

(** Interpolation is what the templates say: it succeeds exactly on the safe,
    brace-free instances. *)
Lemma interpolate_spec template args r :
  _interpolate_summary template args = Some r ↔
  instance args template r ∧ has_brace r = false ∧ is_unsafe_text r = false.
Proof.
  unfold _interpolate_summary. split.
  - destruct (scan _ _ _ _) as [r'|] eqn:E; [|done]. apply scan_sound in E as (r'' & -> & Hi). change ([] ++ r'') with r''.
    destruct (has_brace r'') eqn:Hb; [done|]. destruct (is_unsafe_text r'') eqn:Hu; [done|]. by intros [= <-].
  - intros (Hi & Hb & Hu). rewrite (scan_complete _ _ _ Hi) by done. change ([] ++ r) with r. by rewrite Hb, Hu.
Qed.

Lemma display_name_shown name role :
  _resolve_display_name name role = role ∨
  ∃ n, name = Some n ∧ _resolve_display_name name role = n ∧ n ≠ [] ∧ (length n ≤ _DISPLAY_NAME_MAX)%nat ∧
    is_unsafe_text n = false.
Proof.
  unfold _resolve_display_name. destruct name as [n|]; [|by left].
  destruct (bool_decide (n = []) || _ || _) eqn:E; [by left|right].
  apply orb_false_iff in E as [[E1%bool_decide_eq_false E2%Nat.ltb_ge]%orb_false_iff E3].
  by exists n.
Qed.
End render.

(** C31: the operator sees what the approval binds.  Whatever template, name and
    arguments a challenge is rendered from, the message ends with the complete
    canonical arguments in a fence, with every control or bidirectional character
    spelled out and everything else verbatim, and the full tool name.  Before that
    it shows either the plain headline, or a sentence that is the plugin's template
    with every hole filled from the very arguments that are bound, and that has no
    brace and no unsafe character; and the name shown is safe or the role. *)
Theorem challenge_shows_the_call number_text loads tool role canonical summary name :
  let shown := escape_unsafe_text canonical in
  let display := _resolve_display_name name role in
  is_unsafe_text shown = false ∧ (is_unsafe_text canonical = false → shown = canonical) ∧
  (display = role ∨ name = Some display ∧ (length display ≤ 64)%nat ∧ is_unsafe_text display = false) ∧
  ∃ headline lead,
    render_challenge_message number_text loads tool role canonical summary name
      = lit "🔐 Approval needed" ++ nl ++ nl ++ display ++ codes " (" ++ role ++ headline ++ lead ++
        codes "```" ++ nl ++ shown ++ nl ++ codes "```" ++ nl ++ codes "Tool id: " ++ tool ∧
    (headline = codes ") wants to run " ++ short_tool_name tool
       ∧ lead = codes " with EXACTLY these arguments:" ++ nl ++ nl ∨
     ∃ template args sentence, summary = Some template ∧ loads canonical = Some (JObj args) ∧
       instance number_text args template sentence ∧ has_brace sentence = false ∧
       is_unsafe_text sentence = false ∧ headline = codes ") wants to: " ++ sentence
       ∧ lead = nl ++ nl ++ codes "Exact action (binding):" ++ nl).
Proof.
  cbv zeta. split; [apply escape_safe|]. split; [apply escape_id|]. split.
  { destruct (display_name_shown name role) as [->|(n & -> & -> & _ & ? & ?)]; [by left|right]. done. }
  unfold render_challenge_message.
  destruct (_interpolated_summary_or_none _ _ summary canonical) as [sentence|] eqn:E.
  - exists (codes ") wants to: " ++ sentence), (nl ++ nl ++ codes "Exact action (binding):" ++ nl). split.
    { by rewrite <-!app_assoc. }
    right. unfold _interpolated_summary_or_none in E. destruct summary as [[|c template]|]; [done| |done].
    destruct (loads canonical) as [[| | | | | |args]|] eqn:El; try done.
    apply interpolate_spec in E as (Hi & Hb & Hu). by exists (c :: template), args, sentence.
  - exists (codes ") wants to run " ++ short_tool_name tool), (codes " with EXACTLY these arguments:" ++ nl ++ nl).
    split; [by rewrite <-!app_assoc|by left].
Qed.

Example summary_filled :
  _interpolate_summary (λ _, codes "7") (codes "unlock {door} for {who}") [("door", JStr "front"); ("who", JStr "Ann")]
  = Some (codes "unlock front for Ann").
Proof. reflexivity. Qed.
Example summary_bad_hole :
  _interpolate_summary (λ _, codes "7") (codes "unlock {door!r}") [("door", JStr "front")] = None.
Proof. reflexivity. Qed.
