(* ===== verification/Provenance.v ===== *)
(** * Turn provenance

    [provenance.py]: what is stripped from the context a caller supplies, identifiers,
    and how the current turn is classified. *)

From S2P Require Import Prelude PyDict Json PyStr.
#[local] Open Scope Z_scope.

Definition RESERVED_CONTEXT_KEYS : list string :=
  ["synthetic"; "button_answer"; "execution_role"; "message_type"; "source";
   "_voice_route_id"; "_voice_route_capabilities"; "_voice_job_control_id";
   "_origin_device_id"; "_voice_transport"; "_voice_handoff_reservation";
   "_voice_delivery_offer"; "_origin_route"; "_origin_clearance"].

(** [sanitize_external_context] *)
Definition sanitize_external_context (ctx : json) : list (string * json) :=
  match ctx with
  | JObj d => filter (λ p, p.1 ∉ RESERVED_CONTEXT_KEYS) d
  | _ => []
  end.

(** [str.isdigit] of characters below 256: the superscripts are digits too. *)
Definition isdigit (s : string) : bool :=
  str_true s &&
  forallb (λ c, digit c || bool_decide (Ascii.nat_of_ascii c ∈ [178; 179; 185]%nat))
    (String.list_ascii_of_string s).

(** [strict_positive_id]: [int] refuses the superscripts that [isdigit] accepts, and
    more than 4300 digits. *)
Definition strict_positive_id (v : json) : outcome (option Z) :=
  match v with
  | JBool _ => Ok None
  | JInt n => Ok (if 0 <? n then Some n else None)
  | JStr s =>
    if isdigit s then
      match py_int s with
      | Some n => Ok (if 0 <? n then Some n else None)
      | None => Raise ValueError
      end
    else Ok None
  | _ => Ok None
  end.

Record Provenance := mkProvenance { transport : string; execution : string }.

(** The transport of an origin: the test of [turn_provenance], left to right. *)
Definition is_telegram_dm (origin : list (string * json)) : outcome bool :=
  if bool_decide (obj_get origin "message_type" = JStr "channel_in")
     && bool_decide (obj_get origin "channel" = JStr "telegram")
     && bool_decide (obj_get origin "source" = JStr "telegram")
  then
    match strict_positive_id (obj_get origin "chat_id") with
    | Raise e => Raise e
    | Ok None => Ok false
    | Ok (Some _) =>
      match strict_positive_id (obj_get origin "user_id") with
      | Raise e => Raise e
      | Ok u => Ok (bool_decide (is_Some u))
      end
    end
  else Ok false.

(** [turn_provenance], of the origin and of whether an engagement is bound. *)
Definition turn_provenance (origin : list (string * json)) (engaged : bool) : outcome Provenance :=
  match is_telegram_dm origin with
  | Raise e => Raise e
  | Ok dm =>
    let marker := obj_get origin "synthetic" in
    let transport :=
      if dm then
        if bool_decide (marker = JNull) then "dm"
        else if bool_decide (marker = JStr "button") then "button" else "other"
      else "other" in
    let execution :=
      if engaged then "engagement"
      else if negb (bool_decide (obj_get origin "execution_role" = obj_get origin "role"))
      then "delegated" else "direct" in
    Ok (mkProvenance transport execution)
  end.

Example superscript_id : strict_positive_id (JStr (String (Ascii.ascii_of_nat 178) "")) = Raise ValueError.
Proof. reflexivity. Qed.
