(* ===== verification/Authz.v ===== *)
(** * Authorization grants

    [authz_grants.py]: the single-use grants, the coordinator of authorization
    challenges and the hook that guards protected tools; and
    [TelegramChannel._on_resident_callback], the operator's tap.

    The state is the broker's, the grant table and the coordinator's.  Challenges
    are objects, so they live in a list and a reference is an index into it; so do
    the closures of the synchronous steps, whose references are what the key
    ["on_commit_sync"] of a [meta] holds.  [minted] lists the requests whose [meta]
    says ["minted"]. *)

From S2P Require Import Prelude PyDict Json PyStr TextUtil Challenge Provenance VerdictBroker.
#[local] Open Scope Z_scope.

(** ** Grants *)

Record GrantKey := mkGrantKey {
  key_operator_id : Z;
  key_chat_id : Z;
  enforcement_role : string;
  artifact_id : string;
  tool_name : string;
  args_hash : string;
  engagement_id : string
}.
#[export] Instance grant_key_eq_dec : EqDecision GrantKey.
Proof. solve_decision. Defined.

Record _Grant := mkGrant { expires_at : Z; used : bool }.

Definition GrantStore : Type := list (GrantKey * _Grant).

Definition DEFAULT_GRANT_TTL_S : Z := seconds 300.

(** [normalize_role] *)
Fixpoint after_colon (s : string) : option string :=
  match s with
  | String c s => if bool_decide (c = Ascii.ascii_of_nat 58) then Some s else after_colon s
  | EmptyString => None
  end.
Definition normalize_role (target : string) : string := default target (after_colon target).

(** [mint] *)
Definition mint (now ttl_s : Z) (key : GrantKey) (g : GrantStore) : GrantStore :=
  dset g key (mkGrant (now + ttl_s) false).

(** [consume] *)
Definition consume (now : Z) (key : GrantKey) (g : GrantStore) : bool * GrantStore :=
  match dget g key with
  | None => (false, g)
  | Some grant =>
    if used grant || (expires_at grant <=? now) then (false, g)
    else (true, dset g key (mkGrant (expires_at grant) true))
  end.

(** [_purge] *)
Definition _purge (predicate : GrantKey → _Grant → bool) (g : GrantStore) : nat * GrantStore :=
  let matched := dkeys (filter (λ p, predicate p.1 p.2 = true) g) in
  (length matched, foldl ddel g matched).

Definition purge_chat (chat : Z) : GrantStore → nat * GrantStore :=
  _purge (λ k _, bool_decide (key_chat_id k = chat)).
Definition purge_role (role : string) : GrantStore → nat * GrantStore :=
  _purge (λ k _, bool_decide (enforcement_role k = role)).
Definition purge_artifact (artifact : string) : GrantStore → nat * GrantStore :=
  _purge (λ k _, bool_decide (artifact_id k = artifact)).
Definition sweep (now : Z) : GrantStore → nat * GrantStore :=
  _purge (λ _ grant, expires_at grant <=? now).

(** ** Challenges *)

(** What a challenge is for: a grant, or the consent to a plugin's trigger. *)
Inductive ChallengeKey :=
  | ForGrant (k : GrantKey)
  | ForTrigger (plugin artifact effective target identity : string).
#[export] Instance challenge_key_eq_dec : EqDecision ChallengeKey.
Proof. solve_decision. Defined.

(** The synchronous step of an approval: [GRANTS.mint], or the caller's own. *)
Inductive commit_step := MintStep (k : GrantKey) | OtherStep.

Record _Challenge := mkChallenge {
  ch_key : ChallengeKey;
  ch_scope : string;
  ch_rid : string;
  ch_req : nat;
  setup_settled : bool;
  request_settled : bool
}.
#[export] Instance challenge_eta : Eta _Challenge := λ c,
  mkChallenge (ch_key c) (ch_scope c) (ch_rid c) (ch_req c) (setup_settled c) (request_settled c).

Record Authz := mkAuthz {
  broker : VerdictBroker;
  grants : GrantStore;
  challenges : list _Challenge;
  _entries : list (ChallengeKey * nat);
  _drivers : list nat;                 (** challenges whose setup driver runs *)
  steps : list (nat * commit_step);    (** the closures: captured request, step *)
  minted : list nat;                   (** [meta["minted"]] *)
  drawn : nat                          (** uuids drawn *)
}.
#[export] Instance authz_eta : Eta Authz := λ s,
  mkAuthz (broker s) (grants s) (challenges s) (_entries s) (_drivers s) (steps s) (minted s) (drawn s).

Definition AuthzM := PyM Authz.

Definition new_authz : Authz := mkAuthz new_broker [] [] [] [] [] [] 0.

Record ChallengeHandle := mkHandle {
  created : bool;
  refused : option string;
  _challenge : option nat
}.

Definition _CHALLENGE_TTL_S : Z := seconds 120.

(** [f"{n}"] *)
Definition show_int (n : Z) : string := if n <? 0 then "-" +:+ show (- n) else show n.

Section authz.
(** [uuid4().hex], [json.dumps] with the options of [canonical_args_json], SHA-256,
    and what the rendering needs. *)
Context (uuid : nat → string) (dumps : json → outcome string) (sha256 : string → string).
Context (number_text : json → text) (loads : text → option json).

(** [canonical_args_json] *)
Definition canonical_args_json (tool_input : json) : outcome string :=
  match dumps tool_input with
  | Raise TypeError => Raise ValueError
  | r => r
  end.

(** [canonical_args_hash] *)
Definition canonical_args_hash (tool_input : json) : outcome string :=
  match canonical_args_json tool_input with
  | Ok s => Ok (sha256 s)
  | Raise e => Raise e
  end.

Definition set_challenge (c : nat) (f : _Challenge → _Challenge) (s : Authz) : Authz :=
  s <| challenges ::= alter f c |>.

(** [_maybe_remove] *)
Definition _maybe_remove (c : nat) (s : Authz) : Authz :=
  match challenges s !! c with
  | Some ch =>
    if setup_settled ch && request_settled ch
       && bool_decide (dget (_entries s) (ch_key ch) = Some c)
    then s <| _entries ::= λ d, ddel d (ch_key ch) |> else s
  | None => s
  end.

(** [_settle_request] and [_settle_setup] *)
Definition _settle_request (c : nat) (s : Authz) : Authz :=
  _maybe_remove c (set_challenge c (λ ch, ch <| request_settled := true |>) s).
Definition _settle_setup (c : nat) (s : Authz) : Authz :=
  _maybe_remove c (set_challenge c (λ ch, ch <| setup_settled := true |>) s).

(** [req.meta["on_commit_sync"] = _step] *)
Definition set_step (n : nat) (m : Meta) : Meta :=
  m <| other_meta ::= λ d, dset d "on_commit_sync" (JInt (Z.of_nat n)) |>.

(** [register_challenge]: refusals first; then the request, its step, the entry and
    the driver, with nothing awaited in between. *)
Definition register_challenge (now : Z) (key : ChallengeKey) (chat operator : Z)
    (challenge_text : text) (options : list string) (step : option commit_step) (kind : string)
    (meta_extra : list (string * json)) (timeout : option Z) : AuthzM ChallengeHandle :=
  let* s := get in
  match dget (_entries s) key with
  | Some existing => mret (mkHandle false None (Some existing))
  | None =>
    if _CHALLENGE_MAX_CHARS <? utf16_len challenge_text
    then mret (mkHandle true (Some "args_too_large") None)
    else
      let rid := uuid (drawn s) in
      let sc := "authz:" +:+ show_int chat in
      let fields := [("kind", JStr kind); ("chat_id", JInt chat);
                     ("options", JList (JStr <$> options)); ("_scope", JStr sc)] in
      let m := mkMeta (JInt operator) None None
                 (foldl (λ d p, dset d p.1 p.2) fields meta_extra) in
      modify (λ s, s <| drawn ::= S |>) ;;;
      let* s := get in
      match register now "resident_ask" sc rid (default _CHALLENGE_TTL_S timeout) true m false (broker s) with
      | (Raise e, b) => modify (λ s, s <| broker := b |>) ;;; raise e
      | (Ok (req, _), b) =>
        modify (λ s, s <| broker := b |>) ;;;
        modify (λ s, match step with
                     | Some step =>
                       s <| broker ::= set_req req (λ q, q <| meta ::= set_step (length (steps s)) |>) |>
                         <| steps ::= λ l, l ++ [(req, step)] |>
                     | None => s
                     end) ;;;
        let* s := get in
        let c := length (challenges s) in
        modify (λ s, s <| challenges ::= λ l, l ++ [mkChallenge key sc rid req false false] |>
                       <| _entries ::= λ d, dset d key c |>
                       <| _drivers ::= λ l, l ++ [c] |>) ;;;
        mret (mkHandle true None (Some c))
      end
  end.

(** [get_or_create] *)
Definition get_or_create (now : Z) (key : GrantKey) (chat operator : Z) (target_role : json)
    (tool canonical_json role : string) (summary display_name : option text) : AuthzM ChallengeHandle :=
  let* s := get in
  match dget (_entries s) (ForGrant key) with
  | Some existing => mret (mkHandle false None (Some existing))
  | None =>
    register_challenge now (ForGrant key) chat operator
      (render_challenge_message number_text loads (codes tool) (codes role) (codes canonical_json)
         summary display_name)
      ["Approve"; "Deny"] (Some (MintStep key)) "authz"
      [("target_role", target_role); ("canonical_args_json", JStr canonical_json);
       ("enforcement_role", JStr role)] None
  end.

(** [_drive], up to its wait: [ensure_posted] starts the post, unless the request is
    over, and then the setup latch is settled at once. *)
Definition _drive (c : nat) (s : Authz) : Authz :=
  match challenges s !! c with
  | None => s
  | Some ch =>
    let s := s <| broker ::= ensure_posted (ch_req ch) (λ _, c) |> in
    match requests (broker s) !! ch_req ch ≫= _setup_task with
    | None => _settle_setup c (s <| _drivers ::= filter (λ d, d ≠ c) |>)
    | Some _ => s
    end
  end.

(** The end of [_drive], once the post is over. *)
Definition drive_end (c : nat) (s : Authz) : Authz :=
  match challenges s !! c with
  | None => s
  | Some ch =>
    match requests (broker s) !! ch_req ch ≫= _setup_task with
    | Some t =>
      if dhas (setups (broker s)) t then s
      else _settle_setup c (s <| _drivers ::= filter (λ d, d ≠ c) |>)
    | None => s
    end
  end.

(** [settled_post], once the driver is done. *)
Definition settled_post (h : ChallengeHandle) (s : Authz) : string :=
  match _challenge h ≫= λ c, challenges s !! c with
  | None => "inactive"
  | Some ch =>
    match requests (broker s) !! ch_req ch ≫= _future with
    | None => "posted"
    | Some delivery_failed => "delivery_failed"
    | Some _ => "inactive"
    end
  end.

(** [_matches] of [cancel_matching] *)
Definition matches (role artifact : option string) (chat : option Z) (plugin : option string)
    (k : ChallengeKey) : bool :=
  match k with
  | ForGrant k =>
    bool_decide (role = Some (enforcement_role k)) || bool_decide (artifact = Some (artifact_id k))
    || bool_decide (chat = Some (key_chat_id k))
  | ForTrigger p a _ _ _ => bool_decide (artifact = Some a) || bool_decide (plugin = Some p)
  end.

(** [cancel_matching] *)
Definition cancel_matching (now : Z) (role artifact : option string) (chat : option Z)
    (plugin : option string) (s : Authz) : nat * Authz :=
  let matched := snd <$> filter (λ p, matches role artifact chat plugin p.1 = true) (_entries s) in
  foldl (λ '(n, s) c,
    match challenges s !! c with
    | Some ch =>
      let '(hit, b) := cancel now ("resident_ask", ch_scope ch, ch_rid ch) "challenge_cancelled" (broker s) in
      ((if hit then S n else n), s <| broker := b |>)
    | None => (n, s)
    end) (0%nat, s) matched.

(** ** The tap *)

(** [meta.get("on_commit_sync")] *)
Definition get_step (m : Meta) (s : Authz) : option (nat * commit_step) :=
  match obj_get (other_meta m) "on_commit_sync" with
  | JInt n => steps s !! Z.to_nat n
  | _ => None
  end.

(** The closure: an approval mints the grant and records it in the [meta] of the
    request it was made for. *)
Definition run_step (now : Z) (r : nat) (idx : Z) (step : commit_step) (s : Authz) : Authz :=
  match step with
  | MintStep k =>
    if bool_decide (idx = 0)
    then s <| grants ::= mint now DEFAULT_GRANT_TTL_S k |> <| minted ::= cons r |> else s
  | OtherStep => s
  end.

(** [_on_resident_callback]: the toast, the step that ran, and the state.  [chat]
    and [from_user] are those of the callback query, if it has them. *)
Definition _on_resident_callback (now : Z) (chat from_user : option Z) (rid : string) (idx : Z)
    (s : Authz) : outcome (string * option (nat * commit_step)) * Authz :=
  match chat with
  | None => (Ok ("expired", None), s)
  | Some chat =>
    let dm := ("resident_ask", "dm:" +:+ show_int chat, rid) in
    let authz := ("resident_ask", "authz:" +:+ show_int chat, rid) in
    let key := if bool_decide (is_Some (get_meta dm (broker s))) then dm else authz in
    match get_meta key (broker s) with
    | None => (Ok ("expired", None), s)
    | Some m =>
      if negb (bool_decide (obj_get (other_meta m) "chat_id" = JInt chat)) then (Ok ("expired", None), s)
      else
        let n := match obj_get (other_meta m) "options" with JList l => length l | _ => 0%nat end in
        if negb ((0 <=? idx) && (idx <? Z.of_nat n)) then (Ok ("invalid", None), s)
        else match from_user with
        | None => (Ok ("not for you", None), s)
        | Some user =>
          if negb (bool_decide (VerdictBroker.operator_id m = JInt user)) then (Ok ("not for you", None), s)
          else match obj_get (other_meta m) "_scope" with
          | JStr sc =>
            match claim ("resident_ask", sc, rid) idx (JInt user) None (broker s) with
            | (Claimed c, b) =>
              let '(committed, b) := commit now c b in
              let s := s <| broker := b |> in
              if committed then
                match get_step m s with
                | Some (r, step) => (Ok ("✔", Some (r, step)), run_step now r idx step s)
                | None => (Ok ("✔", None), s)
                end
              else (Ok ("expired", None), s)
            | (Duplicate, b) => (Ok ("already answered", None), s <| broker := b |>)
            | (Stale, b) => (Ok ("expired", None), s <| broker := b |>)
            | (Forbidden, b) => (Ok ("not for you", None), s <| broker := b |>)
            end
          | _ => (Raise KeyError, s)
          end
        end
    end
  end.

(** ** The hook *)

Definition _DENY_ENGAGEMENT_UNAVAILABLE : string :=
  "not executed: this engagement cannot authorize a protected action (no reachable operator). Do NOT retry the call.".
Definition _DENY_UNSUPPORTED_ORIGIN : string :=
  "protected action requires operator confirmation over the Telegram DM (unsupported origin)".
Definition _DENY_ROLE_MISMATCH : string := "execution-role mismatch".
Definition _DENY_UNRENDERABLE : string :=
  "arguments cannot be rendered for confirmation (unserializable / too large) — narrow the call".
Definition _DENY_PENDING : string :=
  "not executed: operator authorization is already outstanding for this exact call. Produce NO user-facing narration and end your turn now.".
Definition _DENY_DELIVERY_FAILED : string := "could not post the confirmation button — try again".
Definition _DENY_INACTIVE : string := "the confirmation expired before it could be delivered — call again".
Definition _DENY_POSTED : string :=
  "not executed: awaiting operator authorization. Produce NO user-facing narration and end your turn now. When authorization arrives, retry the SAME call with EXACTLY the same arguments.".
Definition _DENY_INTERNAL : string := "internal authorization error — the call was not executed".
Definition _DENY_NOT_OPERATOR : string :=
  "not executed: this protected action requires authorization by the configured operator, and this conversation cannot provide it. Do NOT retry the call.".

(** [AuthzDeps]: the channel's operator test, if it has one, and the name shown. *)
Record AuthzDeps := mkDeps {
  _user_id_is_operator : option (Z → outcome bool);
  deps_display_name : option text
}.

(** The engagement bound to the turn, as far as the hook reads it. *)
Record Engagement := mkEngagement {
  eng_id : string;
  eng_kind : json;
  eng_status : json;
  eng_topic_id : json;
  eng_origin : list (string * json);
  eng_role_or_type : json
}.

(** [{}], a deny, or a deny that waits for the post of the challenge. *)
Inductive hook_answer :=
  | Allow
  | Deny (reason : string)
  | Awaiting (h : ChallengeHandle).

(** A protected tool: the artifact that provides it and its summary template. *)
Record Protected := mkProtected { p_artifact : string; p_summary : option text }.

(** [_authorize] *)
Definition _authorize (now : Z) (role : string) (tool : string) (p : Protected) (tool_input : json)
    (deps : AuthzDeps) (operator chat : Z) (engagement : string) (target_role : json) : AuthzM hook_answer :=
  let* is_op := match _user_id_is_operator deps with
                | None => mret false
                | Some f => lift (f operator)
                end in
  if negb is_op then mret (Deny _DENY_NOT_OPERATOR)
  else match canonical_args_json tool_input with
  | Raise ValueError => mret (Deny _DENY_UNRENDERABLE)
  | Raise e => raise e
  | Ok canonical_json =>
    let key := mkGrantKey operator chat role (p_artifact p) tool (sha256 canonical_json) engagement in
    let* s := get in
    let '(hit, g) := consume now key (grants s) in
    modify (λ s, s <| grants := g |>) ;;;
    if hit then mret Allow
    else
      let* handle := get_or_create now key chat operator target_role tool canonical_json role
                       (p_summary p) (deps_display_name deps) in
      if bool_decide (refused handle = Some "args_too_large") then mret (Deny _DENY_UNRENDERABLE)
      else if negb (created handle) then mret (Deny _DENY_PENDING)
      else mret (Awaiting handle)
  end.

(** The engagement path: an active specialist engagement with a topic. *)
Definition engagement_ready (rec : Engagement) : outcome bool :=
  if negb (str_true (eng_id rec)) || negb (bool_decide (eng_kind rec = JStr "specialist"))
     || negb (bool_decide (eng_status rec = JStr "active"))
  then Ok false
  else match strict_positive_id (eng_topic_id rec) with
       | Raise e => Raise e
       | Ok t => Ok (bool_decide (is_Some t))
       end.

(** The body of the hook's [try]. *)
Definition protected_call (now : Z) (role : string) (tool : string) (p : Protected) (tool_input : json)
    (deps_factory : outcome (option AuthzDeps)) (origin : list (string * json))
    (engagement : option Engagement) : AuthzM hook_answer :=
  let* prov := lift (turn_provenance origin (bool_decide (is_Some engagement))) in
  match engagement with
  | Some rec =>
    let* ready := lift (engagement_ready rec) in
    if negb ready then mret (Deny _DENY_ENGAGEMENT_UNAVAILABLE)
    else
      let* operator := lift (strict_positive_id (obj_get (eng_origin rec) "user_id")) in
      let* chat := lift (strict_positive_id (obj_get (eng_origin rec) "chat_id")) in
      match operator, chat with
      | Some operator, Some chat =>
        let* deps := lift deps_factory in
        match deps with
        | None => mret (Deny _DENY_ENGAGEMENT_UNAVAILABLE)
        | Some deps => _authorize now role tool p tool_input deps operator chat (eng_id rec) (eng_role_or_type rec)
        end
      | _, _ => mret (Deny _DENY_ENGAGEMENT_UNAVAILABLE)
      end
  | None =>
    if negb (bool_decide (transport prov ∈ ["dm"; "button"]))
       || negb (bool_decide (execution prov ∈ ["direct"; "delegated"]))
    then mret (Deny _DENY_UNSUPPORTED_ORIGIN)
    else if negb (bool_decide (obj_get origin "execution_role" = JStr role))
    then mret (Deny _DENY_ROLE_MISMATCH)
    else
      let* deps := lift deps_factory in
      match deps with
      | None => mret (Deny _DENY_UNSUPPORTED_ORIGIN)
      | Some deps =>
        let* operator := lift (strict_positive_id (obj_get origin "user_id")) in
        let* chat := lift (strict_positive_id (obj_get origin "chat_id")) in
        match operator, chat with
        | Some operator, Some chat =>
          _authorize now role tool p tool_input deps operator chat "" (obj_get origin "role")
        | _, _ => mret (Deny _DENY_UNSUPPORTED_ORIGIN)
        end
      end
  end.

(** The hook of [make_resident_authz_hook]: every exception but a cancellation is a
    deny.  [tool_input] is [input_data.get("tool_input") or {}]. *)
Definition make_resident_authz_hook (now : Z) (role : string) (protected : list (string * Protected))
    (deps_factory : outcome (option AuthzDeps)) (tool : string) (tool_input : json)
    (origin : list (string * json)) (engagement : option Engagement) : AuthzM hook_answer :=
  match dget protected tool with
  | None => mret Allow
  | Some p =>
    try_except (protected_call now role tool p tool_input deps_factory origin engagement)
      (λ e, match e with CancelledError => None | _ => Some (mret (Deny _DENY_INTERNAL)) end)
  end.

(** The rest of the hook, when the awaited post has settled. *)
Definition hook_resumes (h : ChallengeHandle) (s : Authz) : hook_answer :=
  let outcome := settled_post h s in
  if bool_decide (outcome = "delivery_failed") then Deny _DENY_DELIVERY_FAILED
  else if bool_decide (outcome = "inactive") then Deny _DENY_INACTIVE
  else Deny _DENY_POSTED.

(** ** The finish hook *)

(** What [_finish] asks of the channel. *)
Inductive channel_call :=
  | edit_dm_message (message : text)
  | dispatch_engagement (engagement : string) (message : text)
  | dispatch_button (target_role : json) (message : text).

Definition _challenge_expired_text (tool : text) : text :=
  lit "⌛ Expired — " ++ short_tool_name tool ++ codes " was not approved in time".

(** [_finish]: the calls in order; [delivered] says whether the dispatch succeeds. *)
Definition _make_finish_hook (target_role : json) (role : string) (tool canonical_json : text)
    (was_minted : bool) (display_name : option text) (engagement : string) (delivered : bool)
    (outcome : verdict) : list channel_call :=
  let short := short_tool_name tool in
  let display := _resolve_display_name display_name (codes role) in
  let dispatch m := if str_true engagement then dispatch_engagement engagement m
                    else dispatch_button target_role m in
  let target := if str_true engagement
                then codes "engagement " ++ take 8 (codes engagement)
                else match target_role with JStr r => codes r | _ => codes "None" end in
  match outcome with
  | answered idx _ _ =>
    if bool_decide (idx = 0) then
      if negb was_minted then
        [edit_dm_message (lit "internal error recording the approval — call the tool again")]
      else
        [edit_dm_message (lit "✅ Approved — " ++ display ++ codes " (" ++ codes role ++
           codes ") may run " ++ short ++ codes " once with exactly these arguments");
         dispatch (codes "[authorization approved]: have " ++ codes role ++ codes " call " ++ tool ++
           codes " with EXACTLY these arguments:" ++ nl ++ canonical_json)] ++
        (if delivered then []
         else [edit_dm_message (lit "⚠️ Approved, but delivery to " ++ target ++
                 lit " failed — say 'retry' in chat")])
    else
      [edit_dm_message (lit "❌ Denied — " ++ short ++ codes " will not run");
       dispatch (codes "[authorization denied]: do not retry " ++ tool)] ++
      (if delivered then []
       else [edit_dm_message (lit "⚠️ Denied, but delivery to " ++ target ++
               lit " failed — say 'retry' in chat")])
  | _ => [edit_dm_message (_challenge_expired_text tool)]
  end.
End authz.
