(* ===== verification/AuthzProperties.v ===== *)
(** * What an authorization promises

    Theorems about [Authz.v] over every interleaving of protected calls, taps,
    posts, timeouts, cancellations and purges: a call is allowed only on a fresh
    approval of that very call, once; the hook fails closed; and a challenge holds
    its key exactly as long as it is unsettled. *)

From S2P Require Import Prelude PyDict Json PyStr TextUtil Challenge Provenance VerdictBroker BrokerProperties Authz.
#[local] Open Scope Z_scope.

(** ** What the broker does to the metas it keeps *)

Section metas.
Context (P : Meta → Prop).
Hypothesis Hsel : ∀ m l, P m → P (m <| selected := l |>).
Hypothesis Hmid : ∀ m x, P m → P (m <| message_id := x |>).

(** Every [meta] of the broker, live or in a tombstone. *)
Definition all_metas (b : VerdictBroker) : Prop :=
  (∀ r q, requests b !! r = Some q → P (meta q)) ∧
  (∀ k e, dget (_retired b) k = Some e → P (ret_meta e)).

Lemma metas_set r f b b0 :
  requests b0 = requests b → _retired b0 = _retired b → (∀ q, P (meta q) → P (meta (f q))) →
  all_metas b → all_metas (set_req r f b0).
Proof.
  intros Er Ee Hf [H1 H2]. split.
  - intros r' q. rewrite lookup_set_req, Er. case_decide; [|by apply H1].
    destruct (requests b !! r') as [q0|] eqn:E; [|done]. intros [= <-]. by apply Hf, (H1 r').
  - intros k e. change (_retired (set_req r f b0)) with (_retired b0). rewrite Ee. apply H2.
Qed.

Lemma metas_same b b0 :
  requests b0 = requests b → _retired b0 = _retired b → all_metas b → all_metas b0.
Proof. intros Er Ee [H1 H2]. split; [intros r q; rewrite Er; apply H1|intros k e; rewrite Ee; apply H2]. Qed.

Lemma metas_alloc q b : P (meta q) → all_metas b → all_metas (alloc q b).2.
Proof.
  intros Hq [H1 H2]. split; [|done]. intros r q'. change (requests (alloc q b).2) with (requests b ++ [q]).
  rewrite lookup_snoc. intros [?|[_ ->]]; [by eapply H1|done].
Qed.

Lemma metas_cancel_timer r b : all_metas b → all_metas (_cancel_timer r b).
Proof.
  intros Hb. unfold _cancel_timer. destruct (requests b !! r ≫= _timer); [|done].
  by apply (metas_set _ _ b).
Qed.

Lemma metas_fire_hook r v b : all_metas b → all_metas (_fire_hook r v b).
Proof.
  intros Hb. unfold _fire_hook. destruct (requests b !! r) as [q|]; [|done].
  destruct (_hook_fired q); [done|]. destruct (_hook q); [|done]. by apply (metas_set _ _ b).
Qed.

Lemma metas_retire now k r v b : all_metas b → all_metas (retire now k r v b).
Proof.
  intros [H1 H2]. unfold retire. destruct (requests b !! r) as [q|] eqn:E; [|done]. split; [done|].
  intros k' e. change (dget (dset (_retired b) k (mkRetired v (meta q) (_id q) (fresh b))) k' = Some e → P (ret_meta e)).
  rewrite dget_dset. case_decide; [intros [= <-]; by eapply H1|by apply H2].
Qed.

Lemma resolve_meta v q : meta (resolve v q) = meta q.
Proof. unfold resolve. by destruct (_future q). Qed.

Lemma metas_finish now k v b : all_metas b → all_metas (_finish now k v b).
Proof.
  intros Hb. unfold _finish. destruct (dget (_live b) k) as [r|]; [|done].
  apply metas_fire_hook, metas_retire. eapply metas_set; [done|done| |].
  - intros q. by rewrite resolve_meta.
  - apply metas_cancel_timer. by apply (metas_same b).
Qed.

Lemma metas_finish_all now ks v b : all_metas b → all_metas (finish_all now ks v b).
Proof.
  unfold finish_all. revert b. induction ks as [|k ks IH]; intros b Hb; [done|]. by apply IH, metas_finish.
Qed.

Lemma metas_register now ns sc rid t d m sup b :
  P m → all_metas b → all_metas (register now ns sc rid t d m sup b).2.
Proof.
  intros Hm Hb. unfold register. destruct (negb _); [done|]. destruct (dget (_live b) _); [done|].
  destruct (dget (_retired b) _) as [e|] eqn:He.
  { pose proof (metas_alloc (tombstone ns sc rid t d e b) b) as H. destruct (alloc _ b). apply H; [|done].
    destruct Hb as [_ H2]. by eapply H2. }
  set (b1 := if sup then _ else b). assert (all_metas b1) as H1 by (subst b1; destruct sup; [by apply metas_finish_all|done]).
  unfold open_request.
  pose proof (metas_alloc (mkRequest ns sc rid t d m None (Some (fresh b1)) (_id_counter b1) (now + t) None None false None)
    b1 Hm H1) as H. destruct (alloc _ b1). cbn [snd] in *. by apply (metas_same v).
Qed.

Lemma metas_claim k i a l b : all_metas b → all_metas (claim k i a l b).2.
Proof.
  intros Hb. unfold claim. destruct (_ ≫= _) as [[r q]|]; [|by destruct (dget (_retired b) k)].
  destruct (negb _); [done|]. destruct (_claimed q); [done|]. cbn [snd].
  apply metas_cancel_timer. by apply (metas_set _ _ b).
Qed.

Lemma metas_commit now c b : all_metas b → all_metas (commit now c b).2.
Proof.
  intros Hb. unfold commit. destruct (requests b !! _) as [q|]; [|done]. destruct (lost q c); [done|].
  by apply metas_finish.
Qed.

Lemma metas_abort now c b : all_metas b → all_metas (abort_claim now c b).
Proof.
  intros Hb. unfold abort_claim. destruct (requests b !! _) as [q|]; [|done]. destruct (lost q c); [done|].
  set (b1 := set_req _ _ b). assert (all_metas b1) as H1 by by apply (metas_set _ _ b).
  case_bool_decide; [by apply metas_finish|]. by apply (metas_set _ _ b1).
Qed.

Lemma metas_unregister k b : all_metas b → all_metas (unregister k b).
Proof.
  intros Hb. unfold unregister. destruct (dget (_live b) k); [|done].
  eapply metas_set; [done|done|intros q; by rewrite resolve_meta|]. apply metas_cancel_timer. by apply (metas_same b).
Qed.

Lemma metas_set_hook r h b : all_metas b → all_metas (set_finish_hook r h b).
Proof.
  intros Hb. unfold set_finish_hook. set (b1 := set_req _ _ b).
  assert (all_metas b1) as H1 by by apply (metas_set _ _ b).
  destruct (requests b1 !! r ≫= _future); [by apply metas_fire_hook|done].
Qed.

(** What the other callers of the broker may register. *)
Definition op_metas (o : bop) : Prop :=
  match o with BRegister _ _ _ _ _ m _ => P m | _ => True end.

Lemma metas_bop now o b : op_metas o → all_metas b → all_metas (run_bop now o b).
Proof.
  intros Ho Hb. destruct o; cbn [run_bop].
  - by apply metas_register.
  - unfold toggle_selection. destruct (_ ≫= _) as [[r q]|]; [|done]. destruct (_claimed q); [done|].
    apply (metas_set _ _ b); [done|done| |done]. intros q'. apply Hsel.
  - by apply metas_unregister.
  - unfold cancel. destruct (dhas _ _); [by apply metas_finish|done].
  - by apply metas_finish_all.
  - by apply metas_finish_all.
  - by apply metas_set_hook.
  - unfold ensure_posted. destruct (requests b !! r) as [q|]; [|done]. destruct (_setup_task q); [done|].
    case_bool_decide; [done|]. by apply (metas_set _ _ b).
  - unfold setup_returns. destruct (dget (setups b) task) as [[r f]|]; [|done].
    set (b1 := b <| setups ::= _ |>). assert (all_metas b1) as H1 by by apply (metas_same b).
    destruct (requests b1 !! r) as [q|]; [|done]. destruct mid as [x|]; [|by apply metas_unregister].
    apply metas_set_hook. apply (metas_set _ _ b1); [done|done| |done]. intros q'. apply Hmid.
  - unfold timer_fires. destruct (dget (timers b) h) as [[t k]|]; [|done]. case_bool_decide; [|done].
    apply metas_finish. by apply (metas_same b).
  - unfold pop_fires. destruct (dget (pops b) e) as [[t k]|]; [|done]. case_bool_decide; [|done].
    set (b1 := b <| pops ::= _ |>). assert (all_metas b1) as H1 by by apply (metas_same b).
    destruct (dget (_retired b1) k) as [e'|]; [|done]. destruct (_ =? _)%nat; [|done].
    destruct H1 as [H1 H2]. split; [done|]. intros k' e0.
    change (dget (ddel (_retired b1) k) k' = Some e0 → P (ret_meta e0)). rewrite dget_ddel.
    case_decide; [done|]. apply H2.
Qed.

Lemma metas_get k b m : all_metas b → get_meta k b = Some m → P m.
Proof.
  intros [H1 H2]. unfold get_meta. destruct (dget (_live b) k ≫= _) as [q|] eqn:E.
  - intros [= <-]. destruct (dget (_live b) k) as [r|]; [|done]. by apply (H1 r).
  - destruct (dget (_retired b) k) as [e|] eqn:Ee; [|done]. intros [= <-]. by eapply H2.
Qed.
End metas.

(** ** The hook *)

Section authz.
Context (uuid : nat → string) (dumps : json → outcome string) (sha256 : string → string).
Context (number_text : json → text) (loads : text → option json).
Abbreviation hook := (make_resident_authz_hook uuid dumps sha256 number_text loads).
Abbreviation get_or_create := (get_or_create uuid number_text loads).
Abbreviation authorize := (_authorize uuid dumps sha256 number_text loads).

(** The grant that a call asks for: the operator and the chat of the engagement, or of
    the turn; the hook's role; the tool, its artifact and the exact arguments. *)
Definition call_key (role tool : string) (p : Protected) (tool_input : json)
    (origin : list (string * json)) (engagement : option Engagement) : option GrantKey :=
  let ids := match engagement with Some rec => eng_origin rec | None => origin end in
  match strict_positive_id (obj_get ids "user_id"), strict_positive_id (obj_get ids "chat_id"),
        canonical_args_json dumps tool_input with
  | Ok (Some operator), Ok (Some chat), Ok canonical =>
    Some (mkGrantKey operator chat role (p_artifact p) tool (sha256 canonical)
            (from_option eng_id "" engagement))
  | _, _, _ => None
  end.

(** The channel says that the identifier is the configured operator's. *)
Definition operator_confirmed (deps_factory : outcome (option AuthzDeps)) (operator : Z) : Prop :=
  ∃ deps f, deps_factory = Ok (Some deps) ∧ _user_id_is_operator deps = Some f ∧ f operator = Ok true.

(** The state after a challenge for [k] was looked up or made. *)
Definition challenged (now : Z) (k : GrantKey) (s s' : Authz) : Prop :=
  ∃ target tool canonical role summary name,
    s' = (get_or_create now k (key_chat_id k) (key_operator_id k) target tool canonical role summary name s).2.

(** What a call of the hook's body may do. *)
Definition call_effect (now : Z) (key : GrantKey → Prop) (deps_factory : outcome (option AuthzDeps))
    (s : Authz) (o : outcome hook_answer) (s' : Authz) : Prop :=
  match o with
  | Ok Allow => ∃ k, key k ∧ operator_confirmed deps_factory (key_operator_id k) ∧
      consume now k (grants s) = (true, grants s') ∧ s' = s <| grants := grants s' |>
  | _ => s' = s ∨ ∃ k, key k ∧ operator_confirmed deps_factory (key_operator_id k) ∧ challenged now k s s'
  end.

Lemma consume_misses now k g : (consume now k g).1 = false → (consume now k g).2 = g.
Proof. unfold consume. destruct (dget g k) as [x|]; [|done]. by destruct (used x || _). Qed.

Lemma set_same_grants (s : Authz) : s <| grants := grants s |> = s.
Proof. by destruct s. Qed.

(** [k] names the call with these arguments. *)
Definition names role tool p input operator chat engagement (k : GrantKey) : Prop :=
  ∃ canonical, canonical_args_json dumps input = Ok canonical ∧
    k = mkGrantKey operator chat role (p_artifact p) tool (sha256 canonical) engagement.

Lemma stays now key d s o : o ≠ Ok Allow → call_effect now key d s o s.
Proof. destruct o as [[]|]; try done; by left. Qed.

Lemma made_challenge now (key : GrantKey → Prop) d s o s' k :
  key k → operator_confirmed d (key_operator_id k) → challenged now k s s' → o ≠ Ok Allow →
  call_effect now key d s o s'.
Proof. intros. destruct o as [[]|]; try done; right; by exists k. Qed.

Lemma call_authorize_effect now role tool p input deps operator chat engagement target s :
  let '(o, s') := authorize now role tool p input deps operator chat engagement target s in
  call_effect now (names role tool p input operator chat engagement) (Ok (Some deps)) s o s'.
Proof.
  unfold _authorize. cbv [mbind pym_bind].
  destruct (_user_id_is_operator deps) as [f|] eqn:Ef; [|by apply stays].
  cbv [lift]. destruct (f operator) as [[]|e] eqn:Eop; [|by apply stays..]. cbn [negb].
  destruct (canonical_args_json dumps input) as [canonical|e] eqn:Ec; [|destruct e; by apply stays].
  cbv [get]. set (k := mkGrantKey _ _ _ _ _ _ _).
  assert (names role tool p input operator chat engagement k) as Hk by by exists canonical.
  assert (operator_confirmed (Ok (Some deps)) (key_operator_id k)) as Hop by by exists deps, f.
  pose proof (consume_misses now k (grants s)) as Hmiss.
  destruct (consume now k (grants s)) as [[] g] eqn:Eg; cbv [modify mret pym_ret]; [by exists k|].
  cbn in Hmiss. rewrite Hmiss by done.
  change (s <| grants ::= _ |>) with (s <| grants := grants s |>). rewrite set_same_grants.
  destruct (get_or_create _ _ _ _ _ _ _ _ _ _ s) as [o s'] eqn:Es.
  assert (challenged now k s s') as Hch.
  { exists target, tool, canonical, role, (p_summary p), (deps_display_name deps).
    change (s' = (get_or_create now k chat operator target tool canonical role (p_summary p)
      (deps_display_name deps) s).2). by rewrite Es. }
  destruct o as [h|e]; [|by eapply made_challenge].
  case_bool_decide; [by eapply made_challenge|]. destruct (negb _); by eapply made_challenge.
Qed.

(** The gates before the grant is looked up. *)
Definition may_authorize (role : string) (origin : list (string * json)) (engagement : option Engagement) : Prop :=
  match engagement with
  | Some rec => eng_kind rec = JStr "specialist" ∧ eng_status rec = JStr "active" ∧ eng_id rec ≠ "" ∧
      ∃ t, strict_positive_id (eng_topic_id rec) = Ok (Some t)
  | None => obj_get origin "execution_role" = JStr role ∧
      obj_get origin "message_type" = JStr "channel_in" ∧ obj_get origin "channel" = JStr "telegram" ∧
      obj_get origin "source" = JStr "telegram" ∧
      (obj_get origin "synthetic" = JNull ∨ obj_get origin "synthetic" = JStr "button")
  end.

Lemma engagement_ready_spec rec :
  engagement_ready rec = Ok true →
  eng_kind rec = JStr "specialist" ∧ eng_status rec = JStr "active" ∧ eng_id rec ≠ "" ∧
  ∃ t, strict_positive_id (eng_topic_id rec) = Ok (Some t).
Proof.
  unfold engagement_ready, str_true. repeat case_bool_decide; try done. cbn.
  destruct (strict_positive_id _) as [[t|]|] eqn:E; try done. intros _. eauto.
Qed.

Lemma transport_spec origin engaged prov :
  turn_provenance origin engaged = Ok prov → transport prov ∈ ["dm"; "button"] →
  obj_get origin "message_type" = JStr "channel_in" ∧ obj_get origin "channel" = JStr "telegram" ∧
  obj_get origin "source" = JStr "telegram" ∧
  (obj_get origin "synthetic" = JNull ∨ obj_get origin "synthetic" = JStr "button").
Proof.
  unfold turn_provenance, is_telegram_dm.
  repeat (case_bool_decide; cbn [andb]); try (intros [= <-]; cbn; by rewrite !elem_of_cons, elem_of_nil; intuition);
    repeat match goal with |- context [strict_positive_id ?v] => destruct (strict_positive_id v) as [[?|]|] end;
    try done; try (intros [= <-]; cbn; by rewrite ?elem_of_cons, ?elem_of_nil; intuition).
Qed.

Lemma effect_mono now (key key' : GrantKey → Prop) d s o s' :
  (∀ k, key k → key' k) → call_effect now key d s o s' → call_effect now key' d s o s'.
Proof.
  intros Hk. unfold call_effect. destruct o as [[]|]; naive_solver.
Qed.

(** What a call that names [k] through the gates is. *)
Definition passes role tool p input origin engagement (k : GrantKey) : Prop :=
  call_key role tool p input origin engagement = Some k ∧ may_authorize role origin engagement.

Lemma names_passes role tool p input origin engagement operator chat k :
  may_authorize role origin engagement →
  let ids := match engagement with Some rec => eng_origin rec | None => origin end in
  strict_positive_id (obj_get ids "user_id") = Ok (Some operator) →
  strict_positive_id (obj_get ids "chat_id") = Ok (Some chat) →
  names role tool p input operator chat (from_option eng_id "" engagement) k →
  passes role tool p input origin engagement k.
Proof.
  cbv zeta. intros Hm Ho Hc (canonical & Hcan & ->). split; [|done]. unfold call_key. by rewrite Ho, Hc, Hcan.
Qed.

Lemma protected_call_effect now role tool p input deps_factory origin engagement s :
  let '(o, s') := protected_call uuid dumps sha256 number_text loads now role tool p input deps_factory origin engagement s in
  call_effect now (passes role tool p input origin engagement) deps_factory s o s'.
Proof.
  unfold protected_call. cbv [mbind pym_bind lift].
  destruct (turn_provenance origin _) as [prov|e] eqn:Ep; [|by apply stays].
  destruct engagement as [rec|].
  - destruct (engagement_ready rec) as [[]|e] eqn:Er; [|by apply stays..]. apply engagement_ready_spec in Er. cbn [negb].
    destruct (strict_positive_id (obj_get _ "user_id")) as [operator|e] eqn:Eo; [|by apply stays].
    destruct (strict_positive_id (obj_get _ "chat_id")) as [chat|e] eqn:Ec; [|by apply stays].
    destruct operator as [operator|]; [|by apply stays]. destruct chat as [chat|]; [|by apply stays].
    destruct deps_factory as [[deps|]|e] eqn:Ed; [|by apply stays..].
    pose proof (call_authorize_effect now role tool p input deps operator chat (eng_id rec) (eng_role_or_type rec) s) as H.
    destruct (authorize _ _ _ _ _ _ _ _ _ _ s) as [o s']. eapply effect_mono; [|exact H].
    intros k. by apply (names_passes role tool p input origin (Some rec)).
  - destruct (negb _ || negb _) eqn:Eg; [by apply stays|]. apply orb_false_iff in Eg as [Eg _].
    apply negb_false_iff, bool_decide_eq_true in Eg. apply (transport_spec _ _ _ Ep) in Eg.
    destruct (negb _) eqn:Erole; [by apply stays|]. apply negb_false_iff, bool_decide_eq_true in Erole.
    destruct deps_factory as [[deps|]|e] eqn:Ed; [|by apply stays..].
    destruct (strict_positive_id (obj_get origin "user_id")) as [operator|e] eqn:Eo; [|by apply stays].
    destruct (strict_positive_id (obj_get origin "chat_id")) as [chat|e] eqn:Ec; [|by apply stays].
    destruct operator as [operator|]; [|by apply stays]. destruct chat as [chat|]; [|by apply stays].
    pose proof (call_authorize_effect now role tool p input deps operator chat "" (obj_get origin "role") s) as H.
    destruct (authorize _ _ _ _ _ _ _ _ _ _ s) as [o s']. eapply effect_mono; [|exact H].
    intros k. by apply (names_passes role tool p input origin None).
Qed.

Lemma hook_effect now role protected deps_factory tool input origin engagement s :
  let '(o, s') := hook now role protected deps_factory tool input origin engagement s in
  match dget protected tool with
  | None => o = Ok Allow ∧ s' = s
  | Some p => (o = Raise CancelledError ∨ is_Ok o) ∧
      call_effect now (passes role tool p input origin engagement) deps_factory s o s'
  end.
Proof.
  unfold make_resident_authz_hook. destruct (dget protected tool) as [p|]; [|done].
  pose proof (protected_call_effect now role tool p input deps_factory origin engagement s) as H.
  unfold try_except. destruct (protected_call _ _ _ _ _ _ _ _ _ _ _ _ _ s) as [[a|e] s'].
  - split; [by right|done].
  - destruct e; (split; [by (left + right)|exact H]).
Qed.
End authz.

(** C32: the hook fails closed.  A call of an unprotected tool passes and touches
    nothing.  A call of a protected one never raises, whatever goes wrong inside,
    except to pass on a cancellation.  It is allowed only by consuming a live grant
    for exactly that call, and only past the gates: a direct or delegated turn of a
    Telegram chat whose execution role is the hook's, or an active specialist
    engagement with a topic, in both cases with an identifier that the channel
    confirms as the operator's.  Otherwise it changes nothing, or looks up or makes
    the challenge of that very call, past the same gates. *)
Theorem hook_fails_closed uuid dumps sha256 number_text loads now role protected deps_factory tool input origin engagement s o s' :
  make_resident_authz_hook uuid dumps sha256 number_text loads now role protected deps_factory tool input origin engagement s
    = (o, s') →
  match dget protected tool with
  | None => o = Ok Allow ∧ s' = s
  | Some p => (o = Raise CancelledError ∨ is_Ok o) ∧
      match o with
      | Ok Allow => ∃ k, passes dumps sha256 role tool p input origin engagement k ∧
          operator_confirmed deps_factory (key_operator_id k) ∧
          consume now k (grants s) = (true, grants s') ∧ s' = s <| grants := grants s' |>
      | _ => s' = s ∨ ∃ k, passes dumps sha256 role tool p input origin engagement k ∧
          operator_confirmed deps_factory (key_operator_id k) ∧ challenged uuid number_text loads now k s s'
      end
  end.
Proof.
  intros E.
  pose proof (hook_effect uuid dumps sha256 number_text loads now role protected deps_factory tool input origin engagement s) as H.
  rewrite E in H. exact H.
Qed.

(** ** Closures *)

(** The closure a [meta] refers to exists, and one that mints a grant mints it for the
    operator the request is bound to. *)
Definition closure_ok (l : list (nat * commit_step)) (m : Meta) : Prop :=
  ∀ n, obj_get (other_meta m) "on_commit_sync" = JInt n →
    ∃ r st, l !! Z.to_nat n = Some (r, st) ∧
      match st with MintStep k => VerdictBroker.operator_id m = JInt (key_operator_id k) | OtherStep => True end.

Definition closures (s : Authz) : Prop := all_metas (closure_ok (steps s)) (broker s).

Lemma closure_selected l m x : closure_ok l m → closure_ok l (m <| selected := x |>).
Proof. done. Qed.
Lemma closure_message l m x : closure_ok l m → closure_ok l (m <| message_id := x |>).
Proof. done. Qed.
Lemma closure_more l l' m : closure_ok l m → closure_ok (l ++ l') m.
Proof.
  intros H n Hn. destruct (H n Hn) as (r & st & Hl & Hst). exists r, st. split; [|done].
  by apply lookup_app_l_Some.
Qed.
Lemma all_metas_mono (P Q : Meta → Prop) b : (∀ m, P m → Q m) → all_metas P b → all_metas Q b.
Proof. intros HPQ [H1 H2]. split; eauto. Qed.

(** The identifier about to be drawn names no request yet. *)
Definition uuid_fresh (uuid : nat → string) (s : Authz) : Prop :=
  ∀ sc, dget (_live (broker s)) ("resident_ask", sc, uuid (drawn s)) = None ∧
        dget (_retired (broker s)) ("resident_ask", sc, uuid (drawn s)) = None.

Lemma register_fresh now sc rid t m b :
  dget (_live b) ("resident_ask", sc, rid) = None → dget (_retired b) ("resident_ask", sc, rid) = None →
  ∃ b' q, register now "resident_ask" sc rid t true m false b = (Ok (length (requests b), true), b') ∧
    requests b' = requests b ++ [q] ∧ meta q = m ∧ _retired b' = _retired b ∧ _future q = None ∧ _setup_task q = None.
Proof.
  intros Hl Hr. unfold register. rewrite Hl, Hr. cbn -[open_request].
  unfold open_request. cbn. do 2 eexists. split; [reflexivity|]. by split_and!.
Qed.

Lemma obj_get_foldl_dset (extra fields : list (string * json)) k :
  dget extra k = None → dget fields k = None → obj_get (foldl (λ d p, dset d p.1 p.2) fields extra) k = JNull.
Proof.
  revert fields. induction extra as [|[k' v] extra IH]; intros fields He Hf; cbn.
  { unfold obj_get. by rewrite Hf. }
  cbn in He. destruct (decide (k = k')) as [->|Hne]; [done|].
  apply IH; [done|]. by rewrite dget_dset_ne.
Qed.

Section steps.
Context (uuid : nat → string) (dumps : json → outcome string) (sha256 : string → string).
Context (number_text : json → text) (loads : text → option json).
Abbreviation hook := (make_resident_authz_hook uuid dumps sha256 number_text loads).
Abbreviation register_challenge := (register_challenge uuid).

(** A challenge that was made: a new request, its closure, its entry and its driver. *)
Record made (key : ChallengeKey) (operator : Z) (step : option commit_step) (s s' : Authz) : Prop := {
  md_grants : grants s' = grants s;
  md_absent : dget (_entries s) key = None;
  md_entries : _entries s' = dset (_entries s) key (length (challenges s));
  md_challenges : ∃ sc rid, challenges s' =
    challenges s ++ [mkChallenge key sc rid (length (requests (broker s))) false false];
  md_drivers : _drivers s' = _drivers s ++ [length (challenges s)];
  md_steps : steps s' = steps s ++ from_option (λ st, [(length (requests (broker s)), st)]) [] step;
  md_requests : ∃ q, requests (broker s') = requests (broker s) ++ [q] ∧ _future q = None ∧ _setup_task q = None ∧
    VerdictBroker.operator_id (meta q) = JInt operator ∧
    obj_get (other_meta (meta q)) "on_commit_sync" =
      from_option (λ _, JInt (Z.of_nat (length (steps s)))) JNull step;
  md_retired : _retired (broker s') = _retired (broker s)
}.

Lemma register_challenge_effect now key chat operator text options step kind extra timeout s :
  uuid_fresh uuid s → dget extra "on_commit_sync" = None →
  let '(o, s') := register_challenge now key chat operator text options step kind extra timeout s in
  is_Ok o ∧ (s' = s ∨ made key operator step s s').
Proof.
  intros Hfresh Hextra. unfold Authz.register_challenge. cbv [mbind pym_bind get].
  destruct (dget (_entries s) key) as [c|] eqn:Ek; [by split; [|left]|].
  destruct (_ <? _); [by split; [|left]|]. cbv [modify].
  set (sc := "authz:" +:+ show_int chat). set (m := mkMeta _ _ _ _).
  destruct (Hfresh sc) as [Hl Hr].
  destruct (register_fresh now sc (uuid (drawn s)) (default _CHALLENGE_TTL_S timeout) m (broker s) Hl Hr)
    as (b & q & Hreg & Hq & Hm & Hret & Hfut & Htask).
  change (broker (s <| drawn ::= S |>)) with (broker s). rewrite Hreg. cbv [mret pym_ret].
  assert (obj_get (other_meta m) "on_commit_sync" = JNull) as Hnone by (by apply obj_get_foldl_dset).
  assert (requests b !! length (requests (broker s)) = Some q) as Hlook by (rewrite Hq; by rewrite lookup_app_r, Nat.sub_diag).
  split; [done|right]. destruct step as [st|].
  - set (n := length (steps s)).
    set (f := λ q0 : PendingRequest, q0 <| meta ::= set_step n |>).
    assert (alter f (length (requests (broker s))) (requests b) = requests (broker s) ++ [f q]) as Hreqs.
    { rewrite Hq, alter_app_r_alt, Nat.sub_diag by done. done. }
    split; try done.
    + eexists _, _. reflexivity.
    + exists (f q). split; [exact Hreqs|]. split; [done|]. split; [done|].
      change (meta (f q)) with (set_step n (meta q)). rewrite Hm. split; [done|]. subst n.
      unfold obj_get, set_step. change (other_meta _) with (dset (other_meta m) "on_commit_sync" (JInt (Z.of_nat (length (steps s))))).
      by rewrite dget_dset_eq.
  - split; try done.
    + eexists _, _. reflexivity.
    + cbn. by rewrite app_nil_r.
    + exists q. split; [exact Hq|]. split; [done|]. split; [done|]. rewrite Hm. split; [done|exact Hnone].
Qed.

Lemma made_closures key operator step s s' :
  made key operator step s s' → (∀ k, step = Some (MintStep k) → key_operator_id k = operator) →
  closures s → closures s'.
Proof.
  intros Hmd Hop [H1 H2]. destruct (md_requests _ _ _ _ _ Hmd) as (q & Hq & _ & _ & Ho & Hs).
  unfold closures, all_metas. rewrite (md_steps _ _ _ _ _ Hmd), (md_retired _ _ _ _ _ Hmd), Hq. split.
  - intros r q'. rewrite lookup_snoc. intros [Hr|[_ ->]]; [by eapply closure_more, H1|].
    intros n Hn. rewrite Hs in Hn. destruct step as [st|]; [|done]. cbn in Hn. injection Hn as <-.
    exists (length (requests (broker s))), st. rewrite Nat2Z.id, lookup_app_r, Nat.sub_diag by done.
    split; [done|]. destruct st as [k|]; [|done]. by rewrite Ho, (Hop k eq_refl).
  - intros k e He. by eapply closure_more, H2.
Qed.

Lemma challenged_effect now k s s' :
  uuid_fresh uuid s → challenged uuid number_text loads now k s s' →
  s' = s ∨ made (ForGrant k) (key_operator_id k) (Some (MintStep k)) s s'.
Proof.
  intros Hf (target & tool & canonical & role & summary & name & ->). unfold get_or_create. cbv [mbind pym_bind get].
  destruct (dget (_entries s) (ForGrant k)); [by left|].
  match goal with |- context [register_challenge ?a ?b ?c ?d ?e ?f ?g ?h ?i ?j s] =>
    pose proof (register_challenge_effect a b c d e f g h i j s Hf eq_refl) as H;
    destruct (register_challenge a b c d e f g h i j s) end.
  apply H.
Qed.

(** ** Every interleaving *)

Inductive event := EvMint (now : Z) (k : GrantKey) (actor : Z) | EvAllow (now : Z) (k : GrantKey).

(** The call was allowed. *)
Definition hook_events (now : Z) (o : outcome hook_answer) (k : option GrantKey) : list event :=
  match o, k with Ok Allow, Some k => [EvAllow now k] | _, _ => [] end.

(** The tap ran the step of an approval. *)
Definition tap_events (now : Z) (user : option Z) (idx : Z) (step : option (nat * commit_step)) : list event :=
  match step, user with
  | Some (_, MintStep k), Some user => if bool_decide (idx = 0) then [EvMint now k user] else []
  | _, _ => []
  end.

(** Steps of the system.  Calls of protected tools draw identifiers that are new;
    other callers of the broker may do anything there except forge a closure. *)
Inductive astep : Authz → list event → Authz → Prop :=
  | st_call now role protected p deps tool input origin engagement s o s' :
      dget protected tool = Some p → uuid_fresh uuid s →
      hook now role protected deps tool input origin engagement s = (o, s') →
      astep s (hook_events now o (call_key dumps sha256 role tool p input origin engagement)) s'
  | st_consent now plugin artifact effective target identity chat operator txt options step kind extra timeout s o s' :
      uuid_fresh uuid s → dget extra "on_commit_sync" = None → (∀ k, step ≠ Some (MintStep k)) →
      register_challenge now (ForTrigger plugin artifact effective target identity) chat operator txt options
        step kind extra timeout s = (o, s') →
      astep s [] s'
  | st_tap now chat user rid idx s toast step s' :
      _on_resident_callback now chat user rid idx s = (Ok (toast, step), s') →
      astep s (tap_events now user idx step) s'
  | st_broker now o s :
      op_metas (λ m, ∀ n, obj_get (other_meta m) "on_commit_sync" ≠ JInt n) o →
      astep s [] (s <| broker ::= run_bop now o |>)
  | st_claim key i a l s : astep s [] (s <| broker ::= λ b, (claim key i a l b).2 |>)
  | st_commit now c s : astep s [] (s <| broker ::= λ b, (commit now c b).2 |>)
  | st_abort now c s : astep s [] (s <| broker ::= abort_claim now c |>)
  | st_purge pred s : astep s [] (s <| grants ::= λ g, (_purge pred g).2 |>)
  | st_request c ch s :
      challenges s !! c = Some ch → is_Some (requests (broker s) !! ch_req ch ≫= _future) →
      astep s [] (_settle_request c s)
  | st_drive c s : c ∈ _drivers s → astep s [] (_drive c s)
  | st_drive_end c s : c ∈ _drivers s → astep s [] (drive_end c s)
  | st_cancel now role artifact chat plugin s : astep s [] (cancel_matching now role artifact chat plugin s).2.

Inductive atrace : list event → Authz → Prop :=
  | tr_nil : atrace [] new_authz
  | tr_step log evs s s' : atrace log s → astep s evs s' → atrace (log ++ evs) s'.

(** A grant in the store is the record of the last mint of its key, and is unused
    only if nothing was allowed since. *)
Definition grants_recorded (log : list event) (g : GrantStore) : Prop :=
  ∀ k x, dget g k = Some x → ∃ pre t post,
    log = pre ++ EvMint t k (key_operator_id k) :: post ∧ expires_at x = t + DEFAULT_GRANT_TTL_S ∧
    (used x = false → ∀ t', EvAllow t' k ∉ post).

(** Every call that was allowed spent an approval of its own. *)
Definition allowed_once (log : list event) : Prop :=
  ∀ l1 t k l2, log = l1 ++ EvAllow t k :: l2 → ∃ l0 t' lm,
    l1 = l0 ++ EvMint t' k (key_operator_id k) :: lm ∧ t < t' + DEFAULT_GRANT_TTL_S ∧
    ∀ t'', EvAllow t'' k ∉ lm.

Lemma grants_more log evs g :
  (∀ t k, EvAllow t k ∉ evs) → grants_recorded log g → grants_recorded (log ++ evs) g.
Proof.
  intros Hno H k x Hk. destruct (H k x Hk) as (pre & t & post & -> & He & Hu).
  exists pre, t, (post ++ evs). rewrite <-app_assoc. split_and!; [done|done|].
  intros Hx t' [?|?]%elem_of_app; [by eapply Hu|by eapply Hno].
Qed.

Lemma grants_purge log pred g : grants_recorded log g → grants_recorded log (_purge pred g).2.
Proof.
  intros H k x Hk. apply H. unfold _purge in Hk. cbn [snd] in Hk. revert Hk.
  generalize (dkeys (filter (λ p : GrantKey * _Grant, pred p.1 p.2 = true) g)).
  intros l. revert g H. induction l as [|k0 l IH]; intros g H Hk; [done|]. cbn [foldl] in Hk.
  apply IH in Hk; [|intros k1 x1; rewrite dget_ddel; case_decide; [done|apply H]].
  rewrite dget_ddel in Hk. by destruct (decide _).
Qed.

Lemma grants_mint log now k g :
  grants_recorded log g →
  grants_recorded (log ++ [EvMint now k (key_operator_id k)]) (mint now DEFAULT_GRANT_TTL_S k g).
Proof.
  intros H k' x. unfold mint. rewrite dget_dset. case_decide as E.
  - intros [= <-]. subst k'. exists log, now, []. split_and!; [done|done|]. intros _ t' ?%elem_of_nil. done.
  - intros Hk. apply (grants_more log [EvMint now k (key_operator_id k)] g); [|done|done].
    intros t k0 [?|?%elem_of_nil]%elem_of_cons; done.
Qed.

Lemma consume_hit now k g g' :
  consume now k g = (true, g') →
  ∃ x, dget g k = Some x ∧ used x = false ∧ now < expires_at x ∧ g' = dset g k (mkGrant (expires_at x) true).
Proof.
  unfold consume. destruct (dget g k) as [x|]; [|done]. destruct (used x || _) eqn:E; [done|].
  apply orb_false_iff in E as [E1 E2%Z.leb_gt]. intros [= <-]. by exists x.
Qed.

(** An allowed call: its grant was minted before, in time, and is now spent. *)
Lemma grants_consume log now k g g' :
  consume now k g = (true, g') → grants_recorded log g → allowed_once log →
  grants_recorded (log ++ [EvAllow now k]) g' ∧ allowed_once (log ++ [EvAllow now k]).
Proof.
  intros (x & Hx & Hun & Hnow & ->)%consume_hit Hg Ha.
  destruct (Hg k x Hx) as (pre & t & post & Hlog & He & Hno). split.
  - intros k' x'. rewrite dget_dset. case_decide as E.
    + intros [= <-]. subst k'. exists pre, t, (post ++ [EvAllow now k]). rewrite Hlog, <-app_assoc. by split_and!.
    + intros Hk. destruct (Hg k' x' Hk) as (pre' & t' & post' & Hlog' & He' & Hno').
      exists pre', t', (post' ++ [EvAllow now k]). rewrite Hlog', <-app_assoc. split_and!; [done|done|].
      intros Hu t'' [?|[?|?%elem_of_nil]%elem_of_cons]%elem_of_app; [by eapply Hno'|congruence|done].
  - intros l1 t1 k1 l2 Hl. destruct l2 as [|e l2 _] using rev_ind.
    + apply app_inj_tail in Hl as [-> [= <- <-]]. exists pre, t, post. split_and!; [done|lia|auto].
    + rewrite app_comm_cons, app_assoc in Hl. apply app_inj_tail in Hl as [-> _]. by eapply Ha.
Qed.

Lemma allowed_more log evs :
  (∀ t k, EvAllow t k ∉ evs) → allowed_once log → allowed_once (log ++ evs).
Proof.
  intros Hno H l1 t k l2 Hl. symmetry in Hl. apply app_eq_inv in Hl as [(l & -> & Hl)|(l & -> & Hl)].
  - exfalso. apply (Hno t k). rewrite Hl. apply elem_of_app. right. apply list_elem_of_here.
  - destruct l as [|e l]; [|injection Hl as <- _; by eapply H].
    exfalso. apply (Hno t k). rewrite <-(app_nil_l evs), <-Hl. apply list_elem_of_here.
Qed.

(** What a tap does to the grants. *)
Lemma tap_effect now chat user rid idx s toast step s' :
  closures s → _on_resident_callback now chat user rid idx s = (Ok (toast, step), s') →
  closures s' ∧
  match tap_events now user idx step with
  | [EvMint _ k actor] => actor = key_operator_id k ∧ grants s' = mint now DEFAULT_GRANT_TTL_S k (grants s)
  | evs => evs = [] ∧ grants s' = grants s
  end.
Proof.
  intros Hcl. unfold _on_resident_callback. destruct chat as [chat|]; [|by intros [= <- <- <-]].
  set (key := if bool_decide _ then _ else _). destruct (get_meta key (broker s)) as [m|] eqn:Em; [|by intros [= <- <- <-]].
  assert (closure_ok (steps s) m) as Hm by (by eapply metas_get).
  destruct (negb _); [by intros [= <- <- <-]|]. destruct (negb _); [by intros [= <- <- <-]|].
  destruct user as [user|]; [|by intros [= <- <- <-]].
  destruct (negb _) eqn:Eop; [by intros [= <- <- <-]|]. apply negb_false_iff, bool_decide_eq_true in Eop.
  destruct (obj_get (other_meta m) "_scope") as [| | | |sc| |]; try done.
  assert (closures (s <| broker := (claim ("resident_ask", sc, rid) idx (JInt user) None (broker s)).2 |>)) as H1
    by by apply metas_claim.
  destruct (claim _ _ _ _ (broker s)) as [[c| | |] b]; [|by intros [= <- <- <-]..].
  assert (closures (s <| broker := (commit now c b).2 |>)) as H2 by by apply metas_commit.
  destruct (commit now c b) as [[] b']; [|by intros [= <- <- <-]].
  destruct (get_step m _) as [[r st]|] eqn:Es; [|by intros [= <- <- <-]]. intros [= <- <- <-].
  unfold get_step in Es. destruct (obj_get (other_meta m) "on_commit_sync") as [| |n| | | |] eqn:En; try done.
  destruct (Hm n En) as (r' & st' & Hst & Hk). change (steps (s <| broker := b' |>)) with (steps s) in Es.
  rewrite Hst in Es. injection Es as -> ->. destruct st as [k|]; [|done].
  unfold run_step, tap_events. case_bool_decide; [|done]. split; [done|]. split; [|done].
  cbn in Hk. congruence.
Qed.

Lemma closures_broker (f : VerdictBroker → VerdictBroker) s :
  (all_metas (closure_ok (steps s)) (broker s) → all_metas (closure_ok (steps s)) (f (broker s))) →
  closures s → closures (s <| broker ::= f |>).
Proof. intros Hf Hs. by apply Hf. Qed.

Lemma maybe_remove_same c s :
  (broker (_maybe_remove c s), grants (_maybe_remove c s), steps (_maybe_remove c s)) = (broker s, grants s, steps s).
Proof. unfold _maybe_remove. destruct (challenges s !! c); [|done]. by destruct (_ && _). Qed.

Lemma settle_same c s :
  (broker (_settle_setup c s), grants (_settle_setup c s), steps (_settle_setup c s)) = (broker s, grants s, steps s) ∧
  (broker (_settle_request c s), grants (_settle_request c s), steps (_settle_request c s)) = (broker s, grants s, steps s).
Proof.
  split; [apply (maybe_remove_same c (set_challenge c (λ ch, ch <| setup_settled := true |>) s))|
          apply (maybe_remove_same c (set_challenge c (λ ch, ch <| request_settled := true |>) s))].
Qed.

Lemma drive_same c s :
  closures s → closures (_drive c s) ∧ grants (_drive c s) = grants s.
Proof.
  intros Hs. unfold _drive. destruct (challenges s !! c) as [ch|]; [|done].
  set (s1 := s <| broker ::= _ |>).
  assert (closures s1) as H1 by (apply closures_broker; [|done]; intros H;
    exact (metas_bop _ (closure_selected _) (closure_message _) 0 (BPost (ch_req ch) (λ _, c)) _ I H)).
  destruct (requests (broker s1) !! ch_req ch ≫= _setup_task); [done|].
  set (s2 := s1 <| _drivers ::= _ |>). destruct (settle_same c s2) as [[= E1 E2 E3] _].
  unfold closures in *. by rewrite E1, E2, E3.
Qed.

Lemma drive_end_same c s : closures s → closures (drive_end c s) ∧ grants (drive_end c s) = grants s.
Proof.
  intros Hs. unfold drive_end. destruct (challenges s !! c) as [ch|]; [|done].
  destruct (requests (broker s) !! ch_req ch ≫= _setup_task) as [t|]; [|done].
  destruct (dhas (setups (broker s)) t); [done|].
  set (s2 := s <| _drivers ::= _ |>). destruct (settle_same c s2) as [[= E1 E2 E3] _].
  unfold closures in *. by rewrite E1, E2, E3.
Qed.

(** A cancellation is a run of broker cancellations. *)
Lemma cancel_matching_same (I : Authz → Prop) now role artifact chat plugin s :
  (∀ s key why, I s → I (s <| broker := (cancel now key why (broker s)).2 |>)) → I s →
  I (cancel_matching now role artifact chat plugin s).2.
Proof.
  intros HI. unfold cancel_matching. generalize 0%nat.
  generalize (snd <$> filter (λ p : ChallengeKey * nat, matches role artifact chat plugin p.1 = true) (_entries s)).
  intros l. revert s. induction l as [|c l IH]; intros s n Hs; [done|]. cbn [foldl].
  destruct (challenges s !! c) as [ch|]; [|by apply IH].
  pose proof (HI s ("resident_ask", ch_scope ch, ch_rid ch) "challenge_cancelled" Hs) as H.
  destruct (cancel now _ _ (broker s)) as [hit b]. by apply IH.
Qed.

(** One step keeps the record. *)
Lemma astep_recorded log s evs s' :
  closures s → grants_recorded log (grants s) → allowed_once log → astep s evs s' →
  closures s' ∧ grants_recorded (log ++ evs) (grants s') ∧ allowed_once (log ++ evs).
Proof.
  intros Hc Hg Ha Hst.
  assert (closures s' → grants s' = grants s → evs = [] →
    closures s' ∧ grants_recorded (log ++ evs) (grants s') ∧ allowed_once (log ++ evs)) as Hquiet
    by (intros ? -> ->; by rewrite app_nil_r).
  destruct Hst as [now role protected p deps tool input origin eng s o s' Hp Hf E|now plugin artifact effective target identity chat operator txt options step kind extra timeout s o s' Hf He Hno E|now chat user rid idx s toast step s' E|now o s Ho|key i a l s|now c s|now c s|pred s|c ch s Hch Hfut|c s Hin|c s Hin|now role artifact chat plugin s].
  - pose proof (hook_effect uuid dumps sha256 number_text loads now role protected deps tool input origin eng s) as H.
    rewrite E, Hp in H. destruct H as [_ H].
    assert (s' = s ∨ (∃ k, challenged uuid number_text loads now k s s') → closures s' ∧ grants s' = grants s) as Hch.
    { intros [->|(k & Hk)]; [done|]. apply challenged_effect in Hk as [->|Hmd]; [done| |done].
      split; [|by eapply md_grants]. eapply made_closures; [exact Hmd| |done]. by intros k0 [= <-]. }
    destruct o as [[| |h]|e]; cbn [call_effect] in H.
    + destruct H as (k & [Hkey _] & _ & Hcons & ->). rewrite Hkey. cbn [hook_events]. split; [done|].
      by eapply grants_consume.
    + destruct Hch; [by destruct H as [?|(? & ? & ? & ?)]; eauto|]. by apply Hquiet.
    + destruct Hch; [by destruct H as [?|(? & ? & ? & ?)]; eauto|]. by apply Hquiet.
    + destruct Hch; [by destruct H as [?|(? & ? & ? & ?)]; eauto|]. by apply Hquiet.
  - pose proof (register_challenge_effect now (ForTrigger plugin artifact effective target identity)
      chat operator txt options step kind extra timeout s Hf He) as H. rewrite E in H.
    destruct H as [_ [->|Hmd]]; [by apply Hquiet|]. apply Hquiet; [|by eapply md_grants|done].
    eapply made_closures; [exact Hmd| |done]. intros k Hk. by destruct (Hno k).
  - destruct (tap_effect now chat user rid idx s toast step s' Hc E) as [Hc' Hev]. split; [done|].
    destruct (tap_events now user idx step) as [|[t k actor|] [|]] eqn:Eev; try by destruct Hev.
    + destruct Hev as [_ ->]. by rewrite app_nil_r.
    + unfold tap_events in Eev. destruct step as [[r [k'|]]|]; [|done..]. destruct user as [u|]; [|done].
      destruct (bool_decide _); [|done]. injection Eev as <- <- <-. destruct Hev as [-> ->].
      split; [by apply grants_mint|]. apply allowed_more; [|done]. by intros t' k0 [?|?%elem_of_nil]%elem_of_cons.
  - apply Hquiet; [|done|done]. apply closures_broker; [|done]. intros H.
    apply (metas_bop _ (closure_selected _) (closure_message _)); [|done].
    destruct o; try done. intros n Hn. by destruct (Ho n).
  - apply Hquiet; [|done|done]. apply closures_broker; [|done]. apply metas_claim.
  - apply Hquiet; [|done|done]. apply closures_broker; [|done]. apply metas_commit.
  - apply Hquiet; [|done|done]. apply closures_broker; [|done]. apply metas_abort.
  - rewrite app_nil_r. split; [done|]. split; [by apply grants_purge|done].
  - destruct (settle_same c s) as [_ [= E1 E2 E3]]. apply Hquiet; [|done|done]. unfold closures in *. by rewrite E1, E3.
  - destruct (drive_same c s Hc). by apply Hquiet.
  - destruct (drive_end_same c s Hc). by apply Hquiet.
  - pose proof (cancel_matching_same (λ s', closures s' ∧ grants s' = grants s) now role artifact chat plugin s) as H.
    destruct H; [| |by apply Hquiet]; [|done]. intros s1 key why [H1 H2]. split; [|done].
    pose proof (metas_bop (closure_ok (steps s1)) (closure_selected _) (closure_message _) now (BCancel key why)
      (broker s1) I H1) as H. exact H.
Qed.

Lemma atrace_recorded log s :
  atrace log s → closures s ∧ grants_recorded log (grants s) ∧ allowed_once log.
Proof.
  induction 1 as [|log evs s s' _ (Hc & Hg & Ha) Hst]; [|by eapply astep_recorded].
  split_and!; [by split|by intros k x ?|]. intros l1 t k l2 Hl. by destruct l1.
Qed.
End steps.

(** C3: every protected call that runs was freshly approved.  Over any interleaving
    of calls, taps, posts, timeouts, cancellations, purges and other users of the
    broker: whenever the hook allows a call, its grant (this operator, chat, role,
    artifact, tool, arguments and engagement) was minted earlier, less than five
    minutes before, by a tap of the first option of the challenge made by that same
    operator; and no call with that grant was allowed since that tap.  So approvals
    are single-use, and never serve another call, another artifact or another
    engagement. *)
Theorem allowed_calls_were_approved uuid dumps sha256 number_text loads log s l1 t k l2 :
  atrace uuid dumps sha256 number_text loads log s → log = l1 ++ EvAllow t k :: l2 →
  ∃ l0 t' lm, l1 = l0 ++ EvMint t' k (key_operator_id k) :: lm ∧ t < t' + DEFAULT_GRANT_TTL_S ∧
    ∀ t'', EvAllow t'' k ∉ lm.
Proof.
  intros Htr Hlog. apply atrace_recorded in Htr as (_ & _ & Ha). by eapply Ha.
Qed.

(** ** Entries and latches *)

Definition settled (ch : _Challenge) : bool := setup_settled ch && request_settled ch.

(** The entries are the unsettled challenges, and a challenge whose setup is unsettled
    has a driver; [x] is the one, if any, whose driver has just ended. *)
Record entries_but (x : option nat) (s : Authz) : Prop := {
  en_dict : wf_dict (_entries s);
  en_entry k c : dget (_entries s) k = Some c →
    ∃ ch, challenges s !! c = Some ch ∧ ch_key ch = k ∧ settled ch = false;
  en_open c ch : challenges s !! c = Some ch → settled ch = false → dget (_entries s) (ch_key ch) = Some c;
  en_driver c ch : challenges s !! c = Some ch → setup_settled ch = false → x ≠ Some c → c ∈ _drivers s
}.

Lemma entries_same x s s' :
  challenges s' = challenges s → _entries s' = _entries s → _drivers s' = _drivers s →
  entries_but x s → entries_but x s'.
Proof. intros E1 E2 E3 [H1 H2 H3 H4]. split; rewrite ?E1, ?E2, ?E3; done. Qed.

Lemma settle_entries x c f s :
  (∀ ch, ch_key (f ch) = ch_key ch ∧ (setup_settled ch = true → setup_settled (f ch) = true) ∧
     (request_settled ch = true → request_settled (f ch) = true) ∧ (x = Some c → setup_settled (f ch) = true)) →
  (x = None ∨ x = Some c) → entries_but x s → entries_but None (_maybe_remove c (set_challenge c f s)).
Proof.
  intros Hf Hx Hs. set (s1 := set_challenge c f s).
  assert (∀ c', challenges s1 !! c' = if decide (c' = c) then f <$> challenges s !! c' else challenges s !! c') as Hl.
  { intros c'. change (challenges s1) with (alter f c (challenges s)). rewrite list_lookup_alter.
    repeat case_decide; by subst. }
  assert (∀ ch, settled ch = true → settled (f ch) = true) as Hmono.
  { intros ch [H1 H2]%andb_true_iff. destruct (Hf ch) as (_ & ? & ? & _). unfold settled. rewrite !andb_true_iff. auto. }
  assert (∀ c' ch, challenges s1 !! c' = Some ch → settled ch = false →
    ∃ ch0, challenges s !! c' = Some ch0 ∧ ch_key ch0 = ch_key ch ∧ settled ch0 = false) as Hback.
  { intros c' ch. rewrite Hl. case_decide; [|by eauto]. destruct (challenges s !! c') as [ch0|]; [|done].
    intros [= <-] Hset. exists ch0. split; [done|]. destruct (Hf ch0) as (-> & _). split; [done|].
    destruct (settled ch0) eqn:E; [|done]. by rewrite (Hmono _ E) in Hset. }
  assert (∀ c' ch, challenges s1 !! c' = Some ch → setup_settled ch = false → c' ∈ _drivers s) as Hdrv.
  { intros c' ch. rewrite Hl. case_decide as Ec.
    - destruct (challenges s !! c') as [ch0|] eqn:E; [|done]. intros [= <-] Hset. subst c'.
      destruct (Hf ch0) as (_ & Hup & _ & Hsome). apply (en_driver _ _ Hs c ch0 E).
      + destruct (setup_settled ch0) eqn:E0; [|done]. by rewrite Hup in Hset.
      + intros Hxc. by rewrite Hsome in Hset.
    - intros E Hset. apply (en_driver _ _ Hs c' ch E Hset). destruct Hx as [->| ->]; congruence. }
  assert (∀ k c', dget (_entries s) k = Some c' → c' ≠ c →
    ∃ ch, challenges s1 !! c' = Some ch ∧ ch_key ch = k ∧ settled ch = false) as Hent.
  { intros k c' Hk Hne. rewrite Hl, decide_False by done. by apply Hs. }
  assert (∀ k, dget (_entries s) k = Some c →
    ∃ ch, challenges s1 !! c = Some ch ∧ ch_key ch = k) as Hkey.
  { intros k Hk. destruct (en_entry _ _ Hs k c Hk) as (ch0 & E & <- & _). rewrite Hl, decide_True, E by done.
    exists (f ch0). by destruct (Hf ch0). }
  assert (∀ c' ch, challenges s1 !! c' = Some ch → settled ch = false → dget (_entries s) (ch_key ch) = Some c')
    as Hopen by (intros c' ch E Hset; destruct (Hback _ _ E Hset) as (ch0 & E0 & <- & Hset0); by apply Hs).
  unfold _maybe_remove. destruct (challenges s1 !! c) as [ch|] eqn:Ech.
  2:{ split; [apply Hs| |exact Hopen|intros c' ch E Hset _; by eapply Hdrv].
      intros k c' Hk. destruct (decide (c' = c)) as [->|]; [by destruct (Hkey k Hk) as (? & ? & _)|by apply Hent]. }
  fold (settled ch). change (_entries s1) with (_entries s). destruct (settled ch) eqn:Hset; cbn [andb].
  2:{ split; [apply Hs| |exact Hopen|intros c' ch' E Hset' _; by eapply Hdrv].
      intros k c' Hk. destruct (decide (c' = c)) as [->|]; [|by apply Hent].
      destruct (Hkey k Hk) as (ch' & E & ?). exists ch'. assert (ch' = ch) as -> by congruence. done. }
  case_bool_decide as Hcur.
  - split.
    + apply wf_ddel, Hs.
    + intros k c' Hk. change (dget (ddel (_entries s) (ch_key ch)) k = Some c') in Hk.
      rewrite dget_ddel in Hk. destruct (decide (k = ch_key ch)) as [|Ek]; [done|].
      apply Hent; [done|]. intros ->. destruct (Hkey k Hk) as (ch' & E & ?).
      assert (ch' = ch) as -> by congruence. congruence.
    + intros c' ch' E Hset'. change (dget (ddel (_entries s) (ch_key ch)) (ch_key ch') = Some c').
      pose proof (Hopen c' ch' E Hset') as Ho. rewrite dget_ddel. case_decide as Ek; [|done].
      rewrite Ek, Hcur in Ho. injection Ho as <-. change (challenges s1 !! c = Some ch') in E.
      assert (ch' = ch) as -> by congruence. congruence.
    + intros c' ch' E Hset' _. by eapply Hdrv.
  - split; [apply Hs| |exact Hopen|intros c' ch' E Hset' _; by eapply Hdrv].
    intros k c' Hk. destruct (decide (c' = c)) as [->|]; [|by apply Hent].
    destruct (Hkey k Hk) as (ch' & E & Hk'). assert (ch' = ch) as -> by congruence. by subst k.
Qed.

Lemma settle_request_entries c s : entries_but None s → entries_but None (_settle_request c s).
Proof. intros Hs. apply (settle_entries None); [|by left|done]. by intros ch. Qed.

Lemma settle_setup_entries c s :
  entries_but None s → entries_but None (_settle_setup c (s <| _drivers ::= filter (λ d, d ≠ c) |>)).
Proof.
  intros Hs. apply (settle_entries (Some c)); [by intros ch|by right|]. split; try apply Hs.
  intros c' ch E Hset Hne. apply list_elem_of_filter. split; [congruence|].
  by apply (en_driver _ _ Hs c' ch).
Qed.

Lemma made_entries key operator step s s' : made key operator step s s' → entries_but None s → entries_but None s'.
Proof.
  intros [_ Habs He (sc & rid & Hc) Hd _ _ _] Hs. set (c0 := length (challenges s)) in *.
  assert (∀ c ch, challenges s !! c = Some ch → c ≠ c0) as Hne by (intros c ch H%lookup_lt_Some; subst c0; lia).
  assert (∀ c ch, challenges s' !! c = Some ch ↔
    challenges s !! c = Some ch ∨ c = c0 ∧ ch = mkChallenge key sc rid (length (requests (broker s))) false false) as Hl.
  { intros c ch. rewrite Hc, lookup_app_Some, list_lookup_singleton_Some. unfold c0. split.
    - intros [?|(? & ? & <-)]; [by left|right]. split; [lia|done].
    - intros [?|[-> ->]]; [by left|right]. split; [lia|]. split; [lia|done]. }
  split.
  - rewrite He. apply wf_dset, Hs.
  - intros k c. rewrite He, dget_dset. setoid_rewrite Hl. case_decide as Ek.
    + intros [= <-]. subst k. eexists. split; [by right|done].
    + intros Hk. destruct (en_entry _ _ Hs k c Hk) as (ch & ? & ? & ?). exists ch. split_and!; [by left|done|done].
  - intros c ch [Hch|[-> ->]]%Hl Hset; rewrite He.
    + pose proof (en_open _ _ Hs c ch Hch Hset) as Ho. rewrite dget_dset_ne; [done|]. intros E. by rewrite E, Habs in Ho.
    + apply dget_dset_eq.
  - intros c ch [Hch|[-> ->]]%Hl Hset Hx; rewrite Hd; apply elem_of_app.
    + left. by apply (en_driver _ _ Hs c ch).
    + right. by apply list_elem_of_singleton.
Qed.

Definition tables (s : Authz) := (challenges s, _entries s, _drivers s).

Lemma entries_tables x s s' : tables s' = tables s → entries_but x s → entries_but x s'.
Proof. intros [= E1 E2 E3]. by apply entries_same. Qed.

Lemma tap_tables now chat user rid idx s : tables (_on_resident_callback now chat user rid idx s).2 = tables s.
Proof.
  unfold _on_resident_callback. destruct chat as [chat|]; [|done].
  destruct (get_meta _ (broker s)) as [m|]; [|done].
  destruct (negb _); [done|]. destruct (negb _); [done|]. destruct user as [user|]; [|done].
  destruct (negb _); [done|]. destruct (obj_get (other_meta m) "_scope"); try done.
  destruct (claim _ _ _ _ (broker s)) as [[c| | |] b]; [|done..]. destruct (commit now c b) as [[] b']; [|done].
  destruct (get_step m _) as [[r st]|]; [|done]. destruct st as [k|]; [|done]. unfold run_step. by case_bool_decide.
Qed.

Lemma astep_entries uuid dumps sha256 number_text loads s evs s' :
  entries_but None s → astep uuid dumps sha256 number_text loads s evs s' → entries_but None s'.
Proof.
  intros Hs Hst.
  destruct Hst as [now role protected p deps tool input origin eng s o s' Hp Hf E|now plugin artifact effective target identity chat operator txt options step kind extra timeout s o s' Hf He Hno E|now chat user rid idx s toast step s' E|now o s Ho|key i a l s|now c s|now c s|pred s|c ch s Hch Hfut|c s Hin|c s Hin|now role artifact chat plugin s];
    try (by apply (entries_tables None s)).
  - pose proof (hook_effect uuid dumps sha256 number_text loads now role protected deps tool input origin eng s) as H.
    rewrite E, Hp in H. destruct H as [_ H].
    assert (s' = s ∨ (∃ k, challenged uuid number_text loads now k s s') → entries_but None s') as Hch.
    { intros [->|(k & Hk)]; [done|]. apply challenged_effect in Hk as [->|Hmd]; [done| |done]. by eapply made_entries. }
    destruct o as [[| |h]|e]; cbn [call_effect] in H;
      [|apply Hch; destruct H as [?|(? & ? & ? & ?)]; eauto..].
    destruct H as (k & _ & _ & _ & ->). by eapply (entries_tables None s).
  - pose proof (register_challenge_effect uuid now (ForTrigger plugin artifact effective target identity)
      chat operator txt options step kind extra timeout s Hf He) as H. rewrite E in H.
    destruct H as [_ [->|Hmd]]; [done|]. by eapply made_entries.
  - apply (entries_tables None s); [|done]. pose proof (tap_tables now chat user rid idx s) as H. by rewrite E in H.
  - by apply settle_request_entries.
  - unfold _drive. destruct (challenges s !! c) as [ch|]; [|done].
    destruct (requests _ !! ch_req ch ≫= _setup_task); [by apply (entries_tables None s)|].
    apply settle_setup_entries. by apply (entries_tables None s).
  - unfold drive_end. destruct (challenges s !! c) as [ch|]; [|done].
    destruct (requests (broker s) !! ch_req ch ≫= _setup_task) as [t|]; [|done].
    destruct (dhas (setups (broker s)) t); [done|]. by apply settle_setup_entries.
  - apply (cancel_matching_same (entries_but None)); [|done]. intros s1 key why H. by apply (entries_tables None s1).
Qed.

(** C33: a challenge holds its key exactly while it is unsettled.  Over every
    interleaving, a challenge is the entry of its key until both its request and its
    setup have settled, and from then on it is not; so there is at most one
    unsettled challenge per key, a late latch never evicts a newer challenge, and no
    settled challenge blocks a retry; and while its setup is unsettled its driver is
    there to settle it. *)
Theorem challenge_holds_its_key uuid dumps sha256 number_text loads log s c ch :
  atrace uuid dumps sha256 number_text loads log s → challenges s !! c = Some ch →
  (dget (_entries s) (ch_key ch) = Some c ↔ ¬ (setup_settled ch = true ∧ request_settled ch = true)) ∧
  (setup_settled ch = false → c ∈ _drivers s).
Proof.
  intros Htr Hc. assert (entries_but None s) as Hs.
  { clear c ch Hc. induction Htr as [|log evs s s' _ IH Hst]; [|by eapply astep_entries].
    split; [apply wf_nil|done..]. }
  split; [|intros; by apply (en_driver _ _ Hs c ch)].
  assert (settled ch = false ↔ ¬ (setup_settled ch = true ∧ request_settled ch = true)) as <-.
  { unfold settled. destruct (setup_settled ch), (request_settled ch); cbn; intuition congruence. }
  split; [|by apply Hs]. intros Hk. destruct (en_entry _ _ Hs _ _ Hk) as (ch' & ? & _ & ?). by simplify_eq.
Qed.

(** ** A concrete run

    A resident calls a protected tool, the challenge is posted, the operator taps
    Approve, and the retried call is allowed. *)

Definition ex_uuid (i : nat) : string := "u" +:+ show (Z.of_nat i).
Definition ex_dumps (_ : json) : outcome string := Ok "{}".
Definition ex_origin : list (string * json) :=
  [("message_type", JStr "channel_in"); ("channel", JStr "telegram"); ("source", JStr "telegram");
   ("chat_id", JInt 7); ("user_id", JInt 7); ("role", JStr "butler"); ("execution_role", JStr "butler")].
Definition ex_tool : Protected := mkProtected "art1" None.
Definition ex_deps : outcome (option AuthzDeps) := Ok (Some (mkDeps (Some (λ n, Ok (n =? 7))) None)).
Definition ex_call (now : Z) : AuthzM hook_answer :=
  make_resident_authz_hook ex_uuid ex_dumps (λ s, s) (λ _, []) (λ _, None) now "butler" [("unlock", ex_tool)]
    ex_deps "unlock" (JObj []) ex_origin None.
Definition ex_key : GrantKey := mkGrantKey 7 7 "butler" "art1" "unlock" "{}" "".

Definition ex1 : Authz := Eval vm_compute in (ex_call 0 new_authz).2.
Definition ex2 : Authz := Eval vm_compute in _drive 0 ex1.
Definition ex3 : Authz := Eval vm_compute in ex2 <| broker ::= run_bop 1 (BSetup 1 (Some 99)) |>.
Definition ex4 : Authz := Eval vm_compute in (_on_resident_callback 5 (Some 7) (Some 7) (ex_uuid 0) 0 ex3).2.
Definition ex5 : Authz := Eval vm_compute in (ex_call 10 ex4).2.

Abbreviation ex_trace := (atrace ex_uuid ex_dumps (λ s, s) (λ _, []) (λ _, None)).

Lemma ex_fresh0 : uuid_fresh ex_uuid new_authz.
Proof. by intros sc. Qed.

Lemma ex_fresh4 : uuid_fresh ex_uuid ex4.
Proof.
  intros sc. change (ex_uuid (drawn ex4)) with "u1". split; [done|].
  cbn. rewrite decide_False; [done|]. congruence.
Qed.

Lemma ex_approved : ex_trace [EvMint 5 ex_key 7] ex4.
Proof.
  change [EvMint 5 ex_key 7] with ((([] ++ []) ++ []) ++ [] ++ tap_events 5 (Some 7) 0 (Some (0%nat, MintStep ex_key))).
  apply (tr_step _ _ _ _ _ _ _ ex3).
  - apply (tr_step _ _ _ _ _ ([] ++ []) [] ex2).
    + apply (tr_step _ _ _ _ _ [] [] ex1).
      * apply (tr_step _ _ _ _ _ [] [] new_authz); [constructor|].
        apply (st_call _ _ _ _ _ 0 "butler" [("unlock", ex_tool)] ex_tool ex_deps "unlock" (JObj []) ex_origin None
          new_authz (ex_call 0 new_authz).1); [done|apply ex_fresh0|vm_compute; reflexivity].
      * change ex2 with (_drive 0 ex1). apply st_drive. vm_compute. constructor.
    + change ex3 with (ex2 <| broker ::= run_bop 1 (BSetup 1 (Some 99)) |>). by apply st_broker.
  - apply (st_tap _ _ _ _ _ 5 (Some 7) (Some 7) (ex_uuid 0) 0 ex3 "✔"). vm_compute. reflexivity.
Qed.

Lemma ex_allowed : ex_trace [EvMint 5 ex_key 7; EvAllow 10 ex_key] ex5.
Proof.
  change [EvMint 5 ex_key 7; EvAllow 10 ex_key] with ([EvMint 5 ex_key 7] ++ hook_events 10 (Ok Allow)
    (call_key ex_dumps (λ s, s) "butler" "unlock" ex_tool (JObj []) ex_origin None)).
  apply (tr_step _ _ _ _ _ _ _ ex4); [apply ex_approved|].
  apply (st_call _ _ _ _ _ 10 "butler" [("unlock", ex_tool)] ex_tool ex_deps "unlock" (JObj []) ex_origin None
    ex4 (Ok Allow)); [done|apply ex_fresh4|vm_compute; reflexivity].
Qed.

Lemma hook_fails_closed_witness :
  ex_call 10 ex4 = (Ok Allow, ex5) ∧
  (Ok Allow = Raise CancelledError ∨ is_Ok (Ok Allow)) ∧
  ∃ k, passes ex_dumps (λ s, s) "butler" "unlock" ex_tool (JObj []) ex_origin None k ∧
    operator_confirmed ex_deps (key_operator_id k) ∧
    consume 10 k (grants ex4) = (true, grants ex5) ∧ ex5 = ex4 <| grants := grants ex5 |>.
Proof.
  split; [vm_compute; reflexivity|].
  apply (hook_fails_closed ex_uuid ex_dumps (λ s, s) (λ _, []) (λ _, None) 10 "butler" [("unlock", ex_tool)] ex_deps
    "unlock" (JObj []) ex_origin None ex4 (Ok Allow) ex5). vm_compute. reflexivity.
Defined.

Lemma allowed_calls_were_approved_witness :
  ∃ l0 t' lm, [EvMint 5 ex_key 7] = l0 ++ EvMint t' ex_key (key_operator_id ex_key) :: lm ∧
    10 < t' + DEFAULT_GRANT_TTL_S ∧ ∀ t'', EvAllow t'' ex_key ∉ lm.
Proof.
  apply (allowed_calls_were_approved ex_uuid ex_dumps (λ s, s) (λ _, []) (λ _, None)
    [EvMint 5 ex_key 7; EvAllow 10 ex_key] ex5 [EvMint 5 ex_key 7] 10 ex_key []); [apply ex_allowed|reflexivity].
Defined.

Lemma challenge_holds_its_key_witness :
  ∃ ch, challenges ex5 !! 0%nat = Some ch ∧
  (dget (_entries ex5) (ch_key ch) = Some 0%nat ↔ ¬ (setup_settled ch = true ∧ request_settled ch = true)) ∧
  (setup_settled ch = false → 0%nat ∈ _drivers ex5).
Proof.
  eexists. split; [reflexivity|].
  apply (challenge_holds_its_key ex_uuid ex_dumps (λ s, s) (λ _, []) (λ _, None) _ ex5 0 _ ex_allowed). reflexivity.
Defined.
