(* ===== verification/Engagement.v ===== *)
(** * Engagement records

    The data of [engagement_registry.py]: the record of one engagement, its row in
    the tombstone file in both directions, the questions it has open and its
    interaction state.

    Fields that [load] takes from a row unchecked are JSON values, because that is
    what they hold after reading a file somebody edited; fields that [load]
    converts have the converted type.  An [origin] may carry live Python objects
    next to JSON values. *)

From S2P Require Import Prelude PyDict Json JsonOps.
#[local] Open Scope Z_scope.

(** ** The record *)

(** A value of an [origin] dict: JSON, or an object of the running process. *)
Inductive pyval :=
  | PJson (v : json)
  | PLive (ref : nat).

#[export] Instance pyval_eq_dec : EqDecision pyval.
Proof. solve_decision. Defined.

Abbreviation origin_dict := (list (string * pyval)).

(** An entry of [open_questions]. *)
Abbreviation question := (list (string * json)).

Record EngagementRecord := mkEngagement {
  id_ : json;
  kind : json;
  role_or_type : json;
  driver : json;
  status : json;
  topic_id : json;
  started_at : Z;
  last_user_turn_ts : Z;
  last_idle_reminder_ts : Z;
  completed_at : json;
  sdk_session_id : json;
  origin : origin_dict;
  task : json;
  auth_token : string;
  pinned_message_id : json;
  progress_message_id : json;
  current_state_emoji : json;
  tools_allowed : list json;
  permission_mode : json;
  plugin_artifacts : list json;
  interaction_state : json;
  permit : option nat;                (** a permit of the specialist limiter *)
  next_question_number : Z;
  open_questions : list question;
  summary_message_id : json;
  summary_revision : Z;
  topic_title : json
}.

#[export] Instance engagement_eta : Eta EngagementRecord := λ r,
  mkEngagement (id_ r) (kind r) (role_or_type r) (driver r) (status r) (topic_id r)
    (started_at r) (last_user_turn_ts r) (last_idle_reminder_ts r) (completed_at r)
    (sdk_session_id r) (origin r) (task r) (auth_token r) (pinned_message_id r)
    (progress_message_id r) (current_state_emoji r) (tools_allowed r)
    (permission_mode r) (plugin_artifacts r) (interaction_state r) (permit r)
    (next_question_number r) (open_questions r) (summary_message_id r)
    (summary_revision r) (topic_title r).

Definition _TERMINAL_STATUSES : list string := ["completed"; "cancelled"; "error"].

(** [status in (...)] *)
Definition status_in (l : list string) (st : json) : bool :=
  match st with JStr s => bool_decide (s ∈ l) | _ => false end.

Definition terminal (rec : EngagementRecord) : bool :=
  status_in _TERMINAL_STATUSES (status rec).

Definition json_of_opt_int (o : option Z) : json :=
  match o with Some n => JInt n | None => JNull end.

(** ** [interaction_state] *)

Definition _pure_interaction_transition (current : json) (event : string) : option string :=
  if bool_decide (event = "first_contact") then
    if bool_decide (current = JStr "first_contact_required") then Some "awaiting_operator" else None
  else if bool_decide (event = "operator_answered") || bool_decide (event = "operator_turn") then
    if bool_decide (current = JStr "first_contact_required")
       || bool_decide (current = JStr "awaiting_operator")
    then Some "authorized" else None
  else None.

(** ** Questions *)

Definition _STALE_KIND_DEFAULT : string := "plain".

Definition normalize_stale_mid_entry (entry : json) : question :=
  match entry with
  | JObj e => [("mid", obj_get e "mid"); ("kind", json_or (obj_get e "kind") (JStr _STALE_KIND_DEFAULT))]
  | _ => [("mid", entry); ("kind", JStr _STALE_KIND_DEFAULT)]
  end.

(** [q.get("n") == number] *)
Definition is_number (number : Z) (q : question) : bool := py_eq (obj_get q "n") (JInt number).

Definition answered (q : question) : bool := truthy (obj_get q "answered").

(** The loop the mutators of one question share: each entry is copied, and [edit]
    is applied to the copies that carry [number]. *)
Fixpoint edit_entries (number : Z) (edit : question → outcome question) (qs : list question)
    : outcome (bool * list question) :=
  match qs with
  | [] => Ok (false, [])
  | q :: qs' =>
    if is_number number q then
      let* nq := edit q in
      let* r := edit_entries number edit qs' in Ok (true, nq :: r.2)
    else
      let* r := edit_entries number edit qs' in Ok (r.1, q :: r.2)
  end.

(** The four edits. *)
Definition answer_question (q : question) : outcome question :=
  Ok (dset q "answered" (JBool true)).

(** [[normalize_stale_mid_entry(m) for m in (nq.get("stale_mids") or [])]] *)
Definition stale_of (q : question) : outcome (list question) :=
  let* l := json_iter_or_empty (obj_get q "stale_mids") in
  Ok (normalize_stale_mid_entry <$> (l : list json)).

Definition has_mid (mid : json) (s : question) : bool := py_eq (obj_get s "mid") mid.

Definition stage_stale (mid : Z) (stale_kind : string) (q : question) : outcome question :=
  let* stale := stale_of q in
  let stale' := if existsb (has_mid (JInt mid)) stale then stale
                else stale ++ [[("mid", JInt mid); ("kind", JStr stale_kind)]] in
  Ok (dset q "stale_mids" (JList (JObj <$> (stale' : list question)))).

Definition unstage_stale (mid : Z) (q : question) : outcome question :=
  let* stale := stale_of q in
  Ok (dset q "stale_mids" (JList (JObj <$> filter (λ s, has_mid (JInt mid) s = false) (stale : list question)))).

Definition flip_kind (old_mid : json) (s : question) : question :=
  if has_mid old_mid s then dset s "kind" (JStr "reanchored") else s.

Definition reanchor (new_mid : Z) (q : question) : outcome question :=
  let old_mid := obj_get q "tg_message_id" in
  let* stale := stale_of q in
  Ok (dset (dset q "tg_message_id" (JInt new_mid)) "stale_mids" (JList (JObj <$> (flip_kind old_mid <$> (stale : list question))))).

(** The entry [add_open_question] appends. *)
Definition new_question (number : Z) (tg_message_id : option Z) (text : option string)
    (qkind : string) (source_hash : option string) : question :=
  [("n", JInt number); ("tg_message_id", json_of_opt_int tg_message_id); ("kind", JStr qkind);
   ("answered", JBool false); ("stale_mids", JList [])]
  ++ match text with Some t => [("text", JStr t)] | None => [] end
  ++ match source_hash with Some h => [("source_hash", JStr h)] | None => [] end.

(** ** Rows *)

Definition _NON_PERSISTABLE_ORIGIN_KEYS : list string :=
  ["speaker_provenance"; "_voice_handoff_reservation"; "_progress_sink";
   "voice_route_capabilities"; "voice_deadline"].

Definition _persistable_origin (o : origin_dict) : origin_dict :=
  filter (λ p, p.1 ∉ _NON_PERSISTABLE_ORIGIN_KEYS) o.

(** The text of a row is made by [json.dumps], which raises on a live object. *)
Definition dumps_origin (o : origin_dict) : outcome json :=
  let* l := map_outcome (λ p, match p.2 with PJson v => Ok (p.1, v) | PLive _ => Raise TypeError end) o in
  Ok (JObj l).

(** The dict a snapshot has for a record, its origin apart: [dict(pa)] may raise,
    while the snapshot is taken. *)
Definition row_of (rec : EngagementRecord) : outcome (json → json) :=
  let* pas := map_outcome (λ pa, let* d := dict_of pa in Ok (JObj d)) (plugin_artifacts rec) in
  Ok (λ o, JObj
    [("id", id_ rec); ("kind", kind rec); ("role_or_type", role_or_type rec);
     ("driver", driver rec); ("status", status rec); ("topic_id", topic_id rec);
     ("started_at", JFloat (started_at rec));
     ("last_user_turn_ts", JFloat (last_user_turn_ts rec));
     ("last_idle_reminder_ts", JFloat (last_idle_reminder_ts rec));
     ("completed_at", completed_at rec); ("sdk_session_id", sdk_session_id rec);
     ("origin", o); ("task", task rec); ("auth_token", JStr (auth_token rec));
     ("pinned_message_id", pinned_message_id rec);
     ("progress_message_id", progress_message_id rec);
     ("current_state_emoji", current_state_emoji rec);
     ("tools_allowed", JList (tools_allowed rec));
     ("permission_mode", permission_mode rec); ("plugin_artifacts", JList pas);
     ("interaction_state", interaction_state rec);
     ("next_question_number", JInt (next_question_number rec));
     ("open_questions", JList (JObj <$> open_questions rec));
     ("summary_message_id", summary_message_id rec);
     ("summary_revision", JInt (summary_revision rec));
     ("topic_title", topic_title rec)]).

(** A list of these is what the writer thread is given, the origins still dicts. *)
Record snapshot_row := mkRow { row_origin : origin_dict; row_with : json → json }.

Definition dumps_row (r : snapshot_row) : outcome json :=
  let* o := dumps_origin (row_origin r) in Ok (row_with r o).

Definition dumps (rows : list snapshot_row) : outcome json :=
  let* l := map_outcome dumps_row rows in Ok (JList l).

Definition _TERMINAL_RETENTION_DAYS : Z := 30.

(** A terminal record old enough to leave the snapshot.  The comparison raises on
    a [completed_at] that is not a number. *)
Definition aged_out (now : Z) (rec : EngagementRecord) : outcome bool :=
  if terminal rec && negb (bool_decide (completed_at rec = JNull))
  then py_lt (completed_at rec) (JFloat (now - seconds (_TERMINAL_RETENTION_DAYS * 86400)))
  else Ok false.

Fixpoint snapshot_of (now : Z) (recs : list EngagementRecord) : outcome (list snapshot_row) :=
  match recs with
  | [] => Ok []
  | rec :: recs' =>
    let* old := aged_out now rec in
    if old : bool then snapshot_of now recs'
    else
      let* row := row_of rec in
      let* rows := snapshot_of now recs' in
      Ok (mkRow (_persistable_origin (origin rec)) row :: rows)
  end.

(** ** Reading a row *)

Section decode.
Context `{PyText}.

(** [str.isascii] *)
Fixpoint is_ascii (s : string) : bool :=
  match s with
  | EmptyString => true
  | String c s' => (Ascii.nat_of_ascii c <? 128)%nat && is_ascii s'
  end.

Definition _valid_token_or_blank (value : json) : string :=
  match value with JStr s => if str_true s && is_ascii s then s else "" | _ => "" end.

(** [row.get(k, d)] *)
Definition obj_get_or (row : list (string * json)) (k : string) (d : json) : json :=
  default d (dget row k).

Definition decode_row (v : json) : outcome EngagementRecord :=
  match v with
  | JObj row =>
    let* id := obj_item row "id" in
    let* kind := obj_item row "kind" in
    let* role_or_type := obj_item row "role_or_type" in
    let* driver := obj_item row "driver" in
    let* status := obj_item row "status" in
    let* started := obj_item row "started_at" in
    let* started_at := to_float started in
    let* turn := obj_item row "last_user_turn_ts" in
    let* last_user_turn_ts := to_float turn in
    let* last_idle_reminder_ts := to_float (obj_get_or row "last_idle_reminder_ts" (JFloat 0)) in
    let* origin := dict_of (json_or (obj_get row "origin") (JObj [])) in
    let* tools_allowed := json_iter_or_empty (obj_get row "tools_allowed") in
    let* plugin_artifacts := json_iter_or_empty (obj_get row "plugin_artifacts") in
    let* next_question_number :=
      to_int (json_or (obj_get_or row "next_question_number" (JInt 1)) (JInt 1)) in
    let* questions := json_iter_or_empty (obj_get row "open_questions") in
    let* open_questions := map_outcome dict_of questions in
    let* summary_revision :=
      to_int (json_or (obj_get_or row "summary_revision" (JInt 0)) (JInt 0)) in
    Ok (mkEngagement id kind role_or_type driver status (obj_get row "topic_id")
      started_at last_user_turn_ts last_idle_reminder_ts (obj_get row "completed_at")
      (obj_get row "sdk_session_id") ((λ p, (p.1, PJson p.2)) <$> origin)
      (obj_get_or row "task" (JStr "")) (_valid_token_or_blank (obj_get row "auth_token"))
      (obj_get row "pinned_message_id") (obj_get row "progress_message_id")
      (obj_get row "current_state_emoji") tools_allowed
      (json_or (obj_get row "permission_mode") (JStr "acceptEdits")) plugin_artifacts
      (json_or (obj_get row "interaction_state") (JStr "")) None
      next_question_number open_questions (obj_get row "summary_message_id")
      summary_revision (json_or (obj_get_or row "topic_title" (JStr "")) (JStr "")))
  | _ => Raise TypeError
  end.

(** [except (KeyError, TypeError, ValueError)] *)
Definition malformed (e : exn) : bool :=
  match e with KeyError | TypeError | ValueError => true | _ => false end.
End decode.
