(* ===== verification/EngagementRegistry.v ===== *)
(** * The engagement registry: state and operations

    [engagement_registry.py], [class EngagementRegistry]: one definition per method.
    A mutator holds [self._lock] from end to end, so it is one atomic step; what
    the outside does to it is in its environment [Env]: the clock, fresh
    identities, whether the tombstone write succeeds, and how often the caller is
    cancelled while the write is in a worker thread.

    A thread cannot be interrupted.  A call whose [await] of the write is torn down
    leaves the write behind: its text joins [abandoned], and may reach the file at
    any later moment, after writes that started later, or never.  The source guards
    against this with three patterns, which are three definitions here: a bare
    [await], the single [shield] with a [gather] ([shield_and_await]), and the loop
    that waits out any number of cancellations ([settle_despite_cancel]).

    Interactive engagements hold a permit of the specialist limiter, which is part
    of the state. *)

From S2P Require Import Prelude PyDict Json JsonOps VoiceResult SpecialistLimits Engagement.
#[local] Open Scope Z_scope.

(** The tombstone file. *)
Inductive Tombstone :=
  | Missing
  | NotUtf8              (** bytes that do not decode *)
  | NotJson              (** text that does not parse *)
  | Holds (v : json).

Record Env := mkEnv {
  now : Z;               (** [time.time()] *)
  uuid : string;         (** [uuid.uuid4().hex] *)
  token : nat → string;  (** the results of [secrets.token_urlsafe(32)], in order *)
  write_ok : bool;       (** the call's tombstone write succeeds *)
  undo_ok : bool;        (** the compensating write of [create] succeeds *)
  cancels : nat;         (** cancellations of the caller before the write settles *)
  begun : bool;          (** the inner task had started before the second of them *)
  readable : bool;       (** [load] can read the file *)
  writable : bool        (** and can open it for writing *)
}.

Record EngagementRegistry := mkRegistry {
  _records : list (json * EngagementRecord);
  _topic_index : list (json * json);
  disk : Tombstone;
  abandoned : list json;              (** writes left to their threads *)
  limiter : SpecialistLimiter
}.

#[export] Instance engagements_eta : Eta EngagementRegistry := λ s,
  mkRegistry (_records s) (_topic_index s) (disk s) (abandoned s) (limiter s).

(** [EngagementRegistry(tombstone_path=..., bus=...)] over a file. *)
Definition fresh_registry (file : Tombstone) (l : SpecialistLimiter) : EngagementRegistry :=
  mkRegistry [] [] file [] l.

(** [self._records.get(engagement_id)] *)
Definition record_of (s : EngagementRegistry) (engagement_id : string) : option EngagementRecord :=
  dget (_records s) (JStr engagement_id).

(** Assignments to fields of the record object of [engagement_id]. *)
Definition assign (engagement_id : string) (f : EngagementRecord → EngagementRecord)
    (s : EngagementRegistry) : EngagementRegistry :=
  match record_of s engagement_id with
  | Some rec => s <| _records ::= λ d, dset d (JStr engagement_id) (f rec) |>
  | None => s
  end.

(** [rec.origin[key] = v] *)
Definition set_origin (key : string) (v : json) (rec : EngagementRecord) : EngagementRecord :=
  rec <| origin ::= λ o, dset o key (PJson v) |>.

(** ** Queries *)

Definition active_and_idle (s : EngagementRegistry) : list EngagementRecord :=
  filter (λ r, status_in ["active"; "idle"] (status r) = true) (dvals (_records s)).

Definition terminal_records (s : EngagementRegistry) : list EngagementRecord :=
  filter (λ r, status_in ["completed"; "cancelled"; "error"] (status r) = true) (dvals (_records s)).

Definition by_topic_id (topic : Z) (s : EngagementRegistry) : option EngagementRecord :=
  match dget (_topic_index s) (JInt topic) with
  | Some rec_id => if truthy rec_id then dget (_records s) rec_id else None
  | None => None
  end.

(** [candidates.sort(key=..., reverse=True)]: stable, latest first. *)
Fixpoint insert_latest (r : EngagementRecord) (l : list EngagementRecord) : list EngagementRecord :=
  match l with
  | [] => [r]
  | r' :: l' => if started_at r' <? started_at r then r :: l else r' :: insert_latest r l'
  end.

Definition latest_first (l : list EngagementRecord) : list EngagementRecord :=
  foldl (λ acc r, insert_latest r acc) [] l.

Section recent.
Context `{PyText} (repr_live : nat → string).

(** [str(v)] *)
Definition str_of (v : pyval) : string :=
  match v with PJson v => to_str v | PLive ref => repr_live ref end.

Definition recent_for_origin (channel chat_id : string) (max_age_s now : Z)
    (s : EngagementRegistry) : option EngagementRecord :=
  let cutoff := now - max_age_s in
  let matches rec :=
    bool_decide (default (PJson (JStr "")) (dget (origin rec) "channel") = PJson (JStr channel))
    && bool_decide (str_of (default (PJson (JStr "")) (dget (origin rec) "chat_id")) = chat_id)
    && negb (started_at rec <? cutoff) in
  head (latest_first (filter (λ rec, matches rec = true) (dvals (_records s)))).
End recent.

Definition open_question_entries (engagement_id : string) (s : EngagementRegistry) : list question :=
  match record_of s engagement_id with Some rec => open_questions rec | None => [] end.

Definition oldest_open_anchor (engagement_id : string) (s : EngagementRegistry)
    : outcome (option question) :=
  match record_of s engagement_id with
  | None => Ok None
  | Some rec =>
    match filter (λ q, obj_get q "kind" = JStr "anchor" ∧ answered q = false) (open_questions rec) with
    | [] => Ok None
    | q :: anchors => let* q := py_min (λ q, obj_get_or q "n" (JInt 0)) q anchors in Ok (Some q)
    end
  end.

Definition open_question_numbers (engagement_id : string) (s : EngagementRegistry)
    : outcome (list json) :=
  match record_of s engagement_id with
  | None => Ok []
  | Some rec =>
    sorted_json ((λ q, obj_get q "n")
      <$> filter (λ q, dhas q "n" = true ∧ answered q = false) (open_questions rec))
  end.

(** ** Writing the tombstone *)

(** What [except Exception] catches. *)
Definition is_exception (e : exn) : bool :=
  match e with CancelledError | PowerLoss => false | _ => true end.

(** [_write_tombstone]: the whole file or nothing ([atomic_write_json]). *)
Definition _write_tombstone (ok : bool) (snapshot : list snapshot_row)
    : PyM EngagementRegistry unit :=
  let* text := lift (dumps snapshot) in
  raise_when (negb ok) OSError ;;;
  modify (λ s, s <| disk := Holds text |>).

(** A write whose caller is gone. *)
Definition abandon (snapshot : list snapshot_row) (s : EngagementRegistry) : EngagementRegistry :=
  match dumps snapshot with
  | Ok text => s <| abandoned ::= λ l, l ++ [text] |>
  | Raise _ => s
  end.

(** [_write_tombstone_locked]; [torn] says that the task that awaits it is
    cancelled while the thread runs. *)
Definition _write_tombstone_locked (now : Z) (ok strict torn : bool) : PyM EngagementRegistry unit :=
  let* s := get in
  let* snapshot := lift (snapshot_of now (dvals (_records s))) in
  if torn then modify (abandon snapshot) ;;; raise CancelledError
  else
    try_except (_write_tombstone ok snapshot)
      (λ e, if is_exception e then Some (if strict then raise e else mret tt) else None).

(** [try: await self._write_tombstone_locked(strict=True)  except Exception: rollback; raise] *)
Definition write_or_rollback (now : Z) (ok torn : bool)
    (rollback : EngagementRegistry → EngagementRegistry) : PyM EngagementRegistry unit :=
  try_except (_write_tombstone_locked now ok true torn)
    (λ e, if is_exception e then Some (modify rollback ;;; raise e) else None).

Section ops.
Context (env : Env).
Abbreviation M := (PyM EngagementRegistry).

(** [await self._write_tombstone_locked()] in the mutator itself: the first
    cancellation tears it down. *)
Definition bare_write (strict : bool) : M unit :=
  _write_tombstone_locked (now env) (write_ok env) strict (0 <? cancels env)%nat.

(** [task = ensure_future(inner()); try: await shield(task) except CancelledError:
    await gather(task); raise].  The first cancellation waits for the task; the
    second one cancels the [gather], and with it the task. *)
Definition shield_and_await {A} (inner : bool → M A) : M A := λ s,
  match cancels env with
  | O => inner false s
  | S O => (Raise CancelledError, (inner false s).2)
  | _ => (Raise CancelledError, if begun env then (inner true s).2 else s)
  end.

(** The strict commit most mutators share, after they assigned their field. *)
Definition commit_strict (rollback : EngagementRegistry → EngagementRegistry) : M unit :=
  shield_and_await (λ torn, write_or_rollback (now env) (write_ok env) torn rollback).

(** [_settle_despite_cancel]: the task always runs to its end. *)
Definition settle_despite_cancel {A} (inner : M A) : M (outcome A) := λ s,
  let '(o, s') := inner s in (Ok o, s').

(** [_release_permit] *)
Definition _release_permit (rec : EngagementRecord) : M unit :=
  match permit rec with
  | Some p => modify (λ s, s <| limiter ::= release p |>)
  | None => mret tt
  end.

(** The guard most mutators start with. *)
Definition with_record {A} (engagement_id : string) (missing : A)
    (body : EngagementRecord → M A) : M A :=
  let* s := get in
  match record_of s engagement_id with Some rec => body rec | None => mret missing end.

(** ** [create] *)

Definition new_record (kind role_or_type driver task : string) (origin : origin_dict)
    (topic_id : option Z) (tools_allowed : list json) (permission_mode : string)
    (plugin_artifacts : list question) (interaction_state topic_title : string)
    : EngagementRecord :=
  mkEngagement (JStr (uuid env)) (JStr kind) (JStr role_or_type) (JStr driver)
    (JStr "active") (json_of_opt_int topic_id) (now env) (now env) 0 JNull JNull
    origin (JStr task) (token env 0) JNull JNull JNull tools_allowed
    (JStr (if str_true permission_mode then permission_mode else "acceptEdits"))
    (JObj <$> plugin_artifacts) (JStr interaction_state) None 1 [] JNull 0 (JStr topic_title).

Definition insert_record (rec : EngagementRecord) (topic_id : option Z)
    (s : EngagementRegistry) : EngagementRegistry :=
  let s := s <| _records ::= λ d, dset d (JStr (uuid env)) rec |> in
  match topic_id with
  | Some t => s <| _topic_index ::= λ d, dset d (JInt t) (JStr (uuid env)) |>
  | None => s
  end.

Definition rollback_create (topic_id : option Z) (s : EngagementRegistry) : EngagementRegistry :=
  let s := s <| _records ::= λ d, ddel d (JStr (uuid env)) |> in
  match topic_id with
  | Some t =>
    if bool_decide (dget (_topic_index s) (JInt t) = Some (JStr (uuid env)))
    then s <| _topic_index ::= λ d, ddel d (JInt t) |> else s
  | None => s
  end.

Definition create (kind role_or_type driver task : string) (origin : origin_dict)
    (topic_id : option Z) (tools_allowed : list json) (permission_mode : string)
    (plugin_artifacts : list question) (interaction_state topic_title : string)
    : M EngagementRecord :=
  let rec := new_record kind role_or_type driver task origin topic_id tools_allowed
               permission_mode plugin_artifacts interaction_state topic_title in
  modify (insert_record rec topic_id) ;;;
  let* o := settle_despite_cancel
    (write_or_rollback (now env) (write_ok env) false (rollback_create topic_id)) in
  if (0 <? cancels env)%nat then
    match o with
    | Ok _ =>
      modify (rollback_create topic_id) ;;;
      settle_despite_cancel (_write_tombstone_locked (now env) (undo_ok env) false false) ;;;
      raise CancelledError
    | Raise _ => raise CancelledError
    end
  else lift o ;;; mret rec.

(** ** Terminal transitions *)

Definition mark_completed (engagement_id : string) (at_ : Z) : M unit :=
  with_record engagement_id tt (λ rec,
    if terminal rec then mret tt
    else
      modify (assign engagement_id (λ r,
        r <| status := JStr "completed" |> <| completed_at := JFloat at_ |>)) ;;;
      _release_permit rec ;;;
      bare_write false).

Definition mark_cancelled (engagement_id : string) : M unit :=
  with_record engagement_id tt (λ rec,
    if terminal rec then mret tt
    else
      modify (assign engagement_id (λ r,
        r <| status := JStr "cancelled" |> <| completed_at := JFloat (now env) |>)) ;;;
      _release_permit rec ;;;
      bare_write false).

Definition mark_error (engagement_id ekind message : string) : M bool :=
  with_record engagement_id false (λ rec,
    if terminal rec then mret false
    else
      modify (assign engagement_id (λ r,
        set_origin "error_message" (JStr message)
          (set_origin "error_kind" (JStr ekind)
            (r <| status := JStr "error" |> <| completed_at := JFloat (now env) |>)))) ;;;
      _release_permit rec ;;;
      bare_write false ;;;
      mret true).

(** [_restore_origin_field] *)
Definition _restore_origin_field (key : string) (snapped : option pyval)
    (rec : EngagementRecord) : EngagementRecord :=
  match snapped with
  | None => rec <| origin ::= λ o, ddel o key |>
  | Some v => rec <| origin ::= λ o, dset o key v |>
  end.

Definition flip_terminal (new_status : string) (new_completed : Z)
    (error_kind error_message : string) (r : EngagementRecord) : EngagementRecord :=
  let r := r <| status := JStr new_status |> <| completed_at := JFloat new_completed |> in
  if bool_decide (new_status = "error") then
    set_origin "error_message" (JStr error_message)
      (set_origin "error_kind"
        (JStr (if str_true error_kind then error_kind else "emit_completion_error")) r)
  else r.

Definition restore_terminal (snap : EngagementRecord) (r : EngagementRecord) : EngagementRecord :=
  _restore_origin_field "error_message" (dget (origin snap) "error_message")
    (_restore_origin_field "error_kind" (dget (origin snap) "error_kind")
      (r <| status := status snap |> <| completed_at := completed_at snap |>)).

(** [hook] is the answer of the terminal hook the caller passed: whether it vetoes. *)
Definition try_transition_terminal (engagement_id outcome_ : string) (completed_at_ : option Z)
    (error_kind error_message : string) (stale_before : option Z) (strict : bool)
    (hook : option bool) : M bool :=
  with_record engagement_id false (λ rec,
    if terminal rec then mret false
    else if match stale_before with Some t => t <=? last_user_turn_ts rec | None => false end
    then mret false
    else
      raise_when (match hook with Some veto => veto | None => false end) TerminalPreconditionFailed ;;;
      let new_status := if bool_decide (outcome_ ∈ ["completed"; "cancelled"]) then outcome_ else "error" in
      let new_completed := default (now env) completed_at_ in
      let flip := modify (assign engagement_id
                    (flip_terminal new_status new_completed error_kind error_message)) in
      if negb strict then
        flip ;;; _release_permit rec ;;; bare_write false ;;; mret true
      else
        shield_and_await (λ torn,
          flip ;;;
          write_or_rollback (now env) (write_ok env) torn (assign engagement_id (restore_terminal rec)) ;;;
          _release_permit rec ;;;
          mret true)).

Definition mark_idle (engagement_id : string) : M unit :=
  with_record engagement_id tt (λ rec,
    if terminal rec then mret tt
    else
      modify (assign engagement_id (λ r, r <| status := JStr "idle" |>)) ;;;
      bare_write false).

(** ** Turns, clearance and counters *)

Definition update_user_turn (engagement_id : string) (ts : Z) : M unit :=
  with_record engagement_id tt (λ _,
    modify (assign engagement_id (λ r,
      let r := r <| last_user_turn_ts := ts |> <| last_idle_reminder_ts := 0 |> in
      if bool_decide (status r = JStr "idle") then r <| status := JStr "active" |> else r)) ;;;
    bare_write false).

(** [TIERS.index(v)] of an origin's value, if it is a tier. *)
Definition tier_of (v : option pyval) : option nat :=
  match v with Some (PJson (JStr c)) => index_of c TIERS | _ => None end.

Definition lower_origin_clearance (engagement_id clearance : string) : M bool :=
  match index_of clearance TIERS with
  | None => mret false
  | Some floor =>
    with_record engagement_id false (λ rec,
      match tier_of (dget (origin rec) "_origin_clearance") with
      | None => mret false
      | Some current =>
        if (current <=? floor)%nat then mret false
        else
          modify (assign engagement_id (set_origin "_origin_clearance" (JStr clearance))) ;;;
          try_except (bare_write true) (λ e, if is_exception e then Some (mret tt) else None) ;;;
          mret true
      end)
  end.

Definition update_last_idle_reminder (engagement_id : string) (ts : Z) : M unit :=
  with_record engagement_id tt (λ _,
    modify (assign engagement_id (λ r, r <| last_idle_reminder_ts := ts |>)) ;;;
    bare_write false).

Definition set_resume_fail_count (engagement_id : string) (count : Z) : M unit :=
  with_record engagement_id tt (λ _,
    modify (assign engagement_id (set_origin "_resume_fail_count" (JInt count))) ;;;
    bare_write false).

Definition persist_session_id (engagement_id session_id : string) : M unit :=
  with_record engagement_id tt (λ rec,
    let prior := sdk_session_id rec in
    modify (assign engagement_id (λ r, r <| sdk_session_id := JStr session_id |>)) ;;;
    let* o := settle_despite_cancel
      (_write_tombstone_locked (now env) (write_ok env) true false) in
    match o with
    | Ok _ => mret tt
    | Raise _ => modify (assign engagement_id (λ r, r <| sdk_session_id := prior |>))
    end ;;;
    raise_when (0 <? cancels env)%nat CancelledError ;;;
    lift o).

Definition set_channel_state (engagement_id : string) (pinned progress : option Z)
    (emoji : option string) : M unit :=
  with_record engagement_id tt (λ _,
    modify (assign engagement_id (λ r,
      let r := match pinned with Some m => r <| pinned_message_id := JInt m |> | None => r end in
      let r := match progress with Some m => r <| progress_message_id := JInt m |> | None => r end in
      match emoji with Some e => r <| current_state_emoji := JStr e |> | None => r end)) ;;;
    bare_write false).

(** ** Interaction state *)

Definition advance_interaction_state (engagement_id event : string) : M (option string) :=
  with_record engagement_id None (λ rec,
    match _pure_interaction_transition (interaction_state rec) event with
    | None => mret None
    | Some new_state =>
      shield_and_await (λ torn,
        modify (assign engagement_id (λ r, r <| interaction_state := JStr new_state |>)) ;;;
        write_or_rollback (now env) (write_ok env) torn
          (assign engagement_id (λ r, r <| interaction_state := interaction_state rec |>)) ;;;
        mret (Some new_state))
    end).

Definition set_interaction_violated (engagement_id : string) : M unit :=
  with_record engagement_id tt (λ rec,
    let prev := dget (origin rec) "interaction_violated" in
    modify (assign engagement_id (set_origin "interaction_violated" (JBool true))) ;;;
    write_or_rollback (now env) (write_ok env) (0 <? cancels env)%nat
      (assign engagement_id (_restore_origin_field "interaction_violated" prev))).

(** ** Questions *)

Definition allocate_question_number (engagement_id : string) : M (option Z) :=
  with_record engagement_id None (λ rec,
    let allocated := next_question_number rec in
    modify (assign engagement_id (λ r, r <| next_question_number := allocated + 1 |>)) ;;;
    commit_strict (assign engagement_id (λ r, r <| next_question_number := allocated |>)) ;;;
    mret (Some allocated)).

(** [rec.open_questions = entries] and [_commit_open_questions_strict(rec, prev)] *)
Definition _commit_open_questions_strict (engagement_id : string) (rec : EngagementRecord)
    (entries : list question) : M unit :=
  modify (assign engagement_id (λ r, r <| open_questions := entries |>)) ;;;
  commit_strict (assign engagement_id (λ r, r <| open_questions := open_questions rec |>)).

Definition add_open_question (engagement_id : string) (number : Z) (tg_message_id : option Z)
    (text : option string) (qkind : string) (source_hash : option string) : M unit :=
  with_record engagement_id tt (λ rec,
    let entries := filter (λ q, is_number number q = false) (open_questions rec) in
    _commit_open_questions_strict engagement_id rec
      (entries ++ [new_question number tg_message_id text qkind source_hash])).

(** The mutators of one question. *)
Definition edit_question (engagement_id : string) (number : Z)
    (edit : question → outcome question) : M bool :=
  with_record engagement_id false (λ rec,
    let* r := lift (edit_entries number edit (open_questions rec)) in
    if r.1 : bool then
      _commit_open_questions_strict engagement_id rec r.2 ;;; mret true
    else mret false).

Definition mark_question_answered (engagement_id : string) (number : Z) : M bool :=
  edit_question engagement_id number answer_question.

Definition stage_stale_mid (engagement_id : string) (number mid : Z) (stale_kind : string) : M bool :=
  edit_question engagement_id number (stage_stale mid stale_kind).

Definition unstage_stale_mid (engagement_id : string) (number mid : Z) : M bool :=
  edit_question engagement_id number (unstage_stale mid).

Definition update_question_mid (engagement_id : string) (number new_mid : Z) : M bool :=
  edit_question engagement_id number (reanchor new_mid).

Definition close_open_question (engagement_id : string) (number : Z) : M unit :=
  with_record engagement_id tt (λ rec,
    let remaining := filter (λ q, is_number number q = false) (open_questions rec) in
    if (length remaining =? length (open_questions rec))%nat then mret tt
    else _commit_open_questions_strict engagement_id rec remaining).

(** ** The live summary *)

Definition set_summary_message_id (engagement_id : string) (message_id : option Z) : M unit :=
  with_record engagement_id tt (λ rec,
    let prev := summary_message_id rec in
    modify (assign engagement_id (λ r, r <| summary_message_id := json_of_opt_int message_id |>)) ;;;
    commit_strict (assign engagement_id (λ r, r <| summary_message_id := prev |>))).

Definition allocate_summary_revision (engagement_id : string) : M (option Z) :=
  with_record engagement_id None (λ rec,
    let allocated := summary_revision rec in
    modify (assign engagement_id (λ r, r <| summary_revision := allocated + 1 |>)) ;;;
    commit_strict (assign engagement_id (λ r, r <| summary_revision := allocated |>)) ;;;
    mret (Some allocated)).

(** ** [load] *)

Section load.
Context `{PyText}.

(** [rec.id[:8]], for a log line: only sequences have slices. *)
Definition log_id (id : json) : outcome unit :=
  match id with JStr _ | JList _ => Ok tt | _ => Raise TypeError end.

(** Keys of a dict must be hashable. *)
Definition hashable (k : json) : outcome unit :=
  match k with JList _ | JObj _ => Raise TypeError | _ => Ok tt end.

(** Boot reconcile: no driver survives a restart. *)
Definition reconcile (rec : EngagementRecord) : outcome (bool * EngagementRecord) :=
  if bool_decide (status rec = JStr "active") then
    let* _ := log_id (id_ rec) in
    Ok (true, rec <| status := JStr "idle" |>)
  else Ok (false, rec).

(** Boot backfill of the auth token; [n] tokens were minted before. *)
Definition backfill (n : nat) (rec : EngagementRecord) : bool * EngagementRecord :=
  if str_true (auth_token rec) then (false, rec) else (true, rec <| auth_token := token env n |>).

Definition index_record (rec : EngagementRecord) : M unit :=
  lift (hashable (id_ rec)) ;;;
  modify (λ s, s <| _records ::= λ d, dset d (id_ rec) rec |>) ;;;
  if bool_decide (topic_id rec = JNull) then mret tt
  else
    lift (hashable (topic_id rec)) ;;;
    modify (λ s, s <| _topic_index ::= λ d, dset d (topic_id rec) (id_ rec) |>).

(** The loop over the rows; the answer says whether any was reconciled. *)
Fixpoint load_rows (rows : list json) (minted : nat) (reconciled_any : bool) : M bool :=
  match rows with
  | [] => mret reconciled_any
  | row :: rows' =>
    match decode_row row with
    | Raise e => if malformed e then load_rows rows' minted reconciled_any else raise e
    | Ok rec =>
      let* a := lift (reconcile rec) in
      let b := backfill minted a.2 in
      index_record b.2 ;;;
      load_rows rows' (if b.1 then S minted else minted) (reconciled_any || a.1 || b.1)
    end
  end.

(** [open(path, w)] and [json.dump([], fh)]; opening empties the file. *)
Definition truncate_tombstone : M unit :=
  if writable env then
    modify (λ s, s <| disk := if write_ok env then Holds (JList []) else NotJson |>)
  else mret tt.

Definition load : M unit :=
  let* s := get in
  match disk s with
  | Missing => mret tt
  | file =>
    if negb (readable env) then truncate_tombstone
    else
      match file with
      | NotUtf8 => raise ValueError
      | Holds (JList rows) =>
        let* reconciled_any := load_rows rows 0 false in
        if reconciled_any : bool then bare_write false else mret tt
      | _ => truncate_tombstone
      end
  end.
End load.
End ops.
