(* ===== verification/EngagementCalls.v ===== *)
(** * The engagement registry: calls and what each may change

    The mutators as one type of calls, and the effect every call has on the one
    record it names: nothing; or a step forward of that record, on disk when the
    call is strict; or, when the caller is cancelled more often than the call
    tolerates, a step forward in memory with the write left behind. *)

From S2P Require Import Prelude PyDict Json JsonOps VoiceResult SpecialistLimits Engagement EngagementRegistry.
#[local] Open Scope Z_scope.

(** ** Calls *)

Inductive call :=
  | Create (kind role_or_type driver task : string) (origin : origin_dict)
      (topic_id : option Z) (tools_allowed : list json) (permission_mode : string)
      (plugin_artifacts : list question) (interaction_state topic_title : string)
  | MarkCompleted (engagement_id : string) (at_ : Z)
  | MarkCancelled (engagement_id : string)
  | MarkError (engagement_id ekind message : string)
  | TryTerminal (engagement_id outcome_ : string) (completed_at_ : option Z)
      (error_kind error_message : string) (stale_before : option Z) (strict : bool)
      (hook : option bool)
  | MarkIdle (engagement_id : string)
  | UserTurn (engagement_id : string) (ts : Z)
  | LowerClearance (engagement_id clearance : string)
  | IdleReminder (engagement_id : string) (ts : Z)
  | ResumeFailCount (engagement_id : string) (count : Z)
  | PersistSession (engagement_id session_id : string)
  | ChannelState (engagement_id : string) (pinned progress : option Z) (emoji : option string)
  | Advance (engagement_id event : string)
  | Violated (engagement_id : string)
  | AllocateNumber (engagement_id : string)
  | AddQuestion (engagement_id : string) (number : Z) (tg_message_id : option Z)
      (text : option string) (qkind : string) (source_hash : option string)
  | Answered (engagement_id : string) (number : Z)
  | StageStale (engagement_id : string) (number mid : Z) (stale_kind : string)
  | UnstageStale (engagement_id : string) (number mid : Z)
  | UpdateMid (engagement_id : string) (number new_mid : Z)
  | CloseQuestion (engagement_id : string) (number : Z)
  | SummaryMessage (engagement_id : string) (message_id : option Z)
  | AllocateRevision (engagement_id : string).

Inductive reply :=
  | RNone | RBool (b : bool) | RInt (n : option Z) | RState (st : option string)
  | RRecord (rec : EngagementRecord).

Definition reply_with {A} (f : A → reply) (m : PyM EngagementRegistry A) : PyM EngagementRegistry reply :=
  let* a := m in mret (f a).

Definition run_call (env : Env) (c : call) : PyM EngagementRegistry reply :=
  match c with
  | Create kind role driver task origin topic tools mode artifacts st title =>
    reply_with RRecord (create env kind role driver task origin topic tools mode artifacts st title)
  | MarkCompleted e at_ => reply_with (λ _, RNone) (mark_completed env e at_)
  | MarkCancelled e => reply_with (λ _, RNone) (mark_cancelled env e)
  | MarkError e k m => reply_with RBool (mark_error env e k m)
  | TryTerminal e o at_ k m stale strict hook =>
    reply_with RBool (try_transition_terminal env e o at_ k m stale strict hook)
  | MarkIdle e => reply_with (λ _, RNone) (mark_idle env e)
  | UserTurn e ts => reply_with (λ _, RNone) (update_user_turn env e ts)
  | LowerClearance e c => reply_with RBool (lower_origin_clearance env e c)
  | IdleReminder e ts => reply_with (λ _, RNone) (update_last_idle_reminder env e ts)
  | ResumeFailCount e n => reply_with (λ _, RNone) (set_resume_fail_count env e n)
  | PersistSession e sid => reply_with (λ _, RNone) (persist_session_id env e sid)
  | ChannelState e p g m => reply_with (λ _, RNone) (set_channel_state env e p g m)
  | Advance e ev => reply_with RState (advance_interaction_state env e ev)
  | Violated e => reply_with (λ _, RNone) (set_interaction_violated env e)
  | AllocateNumber e => reply_with RInt (allocate_question_number env e)
  | AddQuestion e n mid text k h => reply_with (λ _, RNone) (add_open_question env e n mid text k h)
  | Answered e n => reply_with RBool (mark_question_answered env e n)
  | StageStale e n mid k => reply_with RBool (stage_stale_mid env e n mid k)
  | UnstageStale e n mid => reply_with RBool (unstage_stale_mid env e n mid)
  | UpdateMid e n mid => reply_with RBool (update_question_mid env e n mid)
  | CloseQuestion e n => reply_with (λ _, RNone) (close_open_question env e n)
  | SummaryMessage e m => reply_with (λ _, RNone) (set_summary_message_id env e m)
  | AllocateRevision e => reply_with RInt (allocate_summary_revision env e)
  end.

(** The engagement a call names; a creation names a new one. *)
Definition target (env : Env) (c : call) : string :=
  match c with
  | Create _ _ _ _ _ _ _ _ _ _ _ => uuid env
  | MarkCompleted e _ | MarkCancelled e | MarkError e _ _ | TryTerminal e _ _ _ _ _ _ _
  | MarkIdle e | UserTurn e _ | LowerClearance e _ | IdleReminder e _ | ResumeFailCount e _
  | PersistSession e _ | ChannelState e _ _ _ | Advance e _ | Violated e | AllocateNumber e
  | AddQuestion e _ _ _ _ _ | Answered e _ | StageStale e _ _ _ | UnstageStale e _ _
  | UpdateMid e _ _ | CloseQuestion e _ | SummaryMessage e _ | AllocateRevision e => e
  end.

Definition creates (c : call) : bool :=
  match c with Create _ _ _ _ _ _ _ _ _ _ _ => true | _ => false end.

(** The calls whose return promises that the file has the change. *)
Definition strict_call (c : call) : bool :=
  match c with
  | TryTerminal _ _ _ _ _ _ strict _ => strict
  | Create _ _ _ _ _ _ _ _ _ _ _ | PersistSession _ _ | Advance _ _ | Violated _
  | AllocateNumber _ | AddQuestion _ _ _ _ _ _ | Answered _ _ | StageStale _ _ _ _
  | UnstageStale _ _ _ | UpdateMid _ _ _ | CloseQuestion _ _ | SummaryMessage _ _
  | AllocateRevision _ => true
  | _ => false
  end.

(** How many cancellations of the caller a call waits out: none at a bare await,
    one behind a shield, any number in the settling loops. *)
Definition tolerates (c : call) (n : nat) : bool :=
  match c with
  | Create _ _ _ _ _ _ _ _ _ _ _ | PersistSession _ _ => true
  | Violated _ => (n =? 0)%nat
  | _ => if strict_call c then (n <=? 1)%nat else (n =? 0)%nat
  end.

(** ** Progress of a record *)

(** What only strict calls change. *)
Definition view (r : EngagementRecord) :=
  (sdk_session_id r, interaction_state r, next_question_number r, open_questions r,
   summary_message_id r, summary_revision r).

(** What no call changes. *)
Definition birth (r : EngagementRecord) :=
  (id_ r, kind r, role_or_type r, driver r, topic_id r, started_at r, task r, auth_token r,
   tools_allowed r, permission_mode r, plugin_artifacts r, permit r, topic_title r).

Definition clearance (r : EngagementRecord) : option pyval := dget (origin r) "_origin_clearance".

Definition interaction_edge (a b : json) : Prop :=
  a = b ∨ ∃ event st, _pure_interaction_transition a event = Some st ∧ b = JStr st.

Definition clearance_edge (a b : option pyval) : Prop :=
  a = b ∨ ∃ m n, tier_of a = Some m ∧ tier_of b = Some n ∧ (n < m)%nat.

Record progress (r r' : EngagementRecord) : Prop := {
  pr_birth : birth r' = birth r;
  pr_terminal : terminal r = true → status r' = status r ∧ completed_at r' = completed_at r;
  pr_clearance : clearance_edge (clearance r) (clearance r');
  pr_interaction : interaction_edge (interaction_state r) (interaction_state r');
  pr_number : next_question_number r ≤ next_question_number r';
  pr_revision : summary_revision r ≤ summary_revision r'
}.

(** [self._records[engagement_id]] replaced. *)
Definition put (engagement_id : string) (rec : EngagementRecord) (s : EngagementRegistry)
    : EngagementRegistry :=
  s <| _records ::= λ d, dset d (JStr engagement_id) rec |>.

(** The limiter after a record went from [r] to [r']: its permit is released when
    it becomes terminal. *)
Definition permit_after (r r' : EngagementRecord) (l : SpecialistLimiter) : SpecialistLimiter :=
  if negb (terminal r) && terminal r' then
    match permit r with Some p => release p l | None => l end
  else l.

(** The text of the snapshot of a registry. *)
Definition text_of (now : Z) (s : EngagementRegistry) : outcome json :=
  let* rows := snapshot_of now (dvals (_records s)) in dumps rows.

(** The effect of a call on the record it names. *)
Inductive effect (tolerated strict : bool) (now : Z) (e : string) (s : EngagementRegistry)
    : EngagementRegistry → Prop :=
  | eff_same : effect tolerated strict now e s s
  | eff_saved r r' text :
      record_of s e = Some r → progress r r' → text_of now (put e r' s) = Ok text →
      effect tolerated strict now e s
        ((put e r' s) <| disk := Holds text |> <| limiter ::= permit_after r r' |>)
  | eff_kept r r' :
      strict = false → record_of s e = Some r → progress r r' → view r' = view r →
      effect tolerated strict now e s ((put e r' s) <| limiter ::= permit_after r r' |>)
  | eff_torn r r' (released : bool) l :
      tolerated = false → record_of s e = Some r → progress r r' →
      (strict = false → released = true) →
      effect tolerated strict now e s
        ((put e r' s) <| abandoned := l |>
           <| limiter ::= if released then permit_after r r' else id |>).

(** ** Rules for the building blocks *)

Lemma record_put s e r e' :
  record_of (put e r s) e' = if decide (e' = e) then Some r else record_of s e'.
Proof.
  unfold record_of, put. change (_records (update _ _ _)) with (dset (_records s) (JStr e) r).
  rewrite dget_dset. repeat case_decide; naive_solver.
Qed.

Lemma assign_put s e r f : record_of s e = Some r → assign e f s = put e (f r) s.
Proof. unfold assign. by intros ->. Qed.

Lemma put_put s e r r' : put e r' (put e r s) = put e r' s.
Proof. destruct s. unfold put. cbv [update]. cbn. by rewrite dset_dset. Qed.

Lemma put_same s e r : record_of s e = Some r → put e r s = s.
Proof. destruct s. unfold put, record_of. cbv [update]. cbn. intros. by rewrite dset_same. Qed.

(** Undoing an assignment. *)
Lemma assign_undo s e r r' g : record_of s e = Some r → g r' = r → assign e g (put e r' s) = s.
Proof.
  intros Hr Hg. rewrite (assign_put _ _ r') by (rewrite record_put; by case_decide).
  rewrite put_put, Hg. by apply put_same.
Qed.

Section rules.
Context (env : Env).

Lemma wp_with_record {A} e (missing : A) body Q R s :
  (record_of s e = None → Q missing s) →
  (∀ r, record_of s e = Some r → wp (body r) Q R s) →
  wp (with_record e missing body) Q R s.
Proof.
  intros H1 H2. unfold with_record. do 2 wp_step. destruct (record_of s e); [by apply H2|].
  apply wp_ret. by apply H1.
Qed.

Lemma snapshot_raises now recs e : snapshot_of now recs = Raise e → is_exception e = true.
Proof.
  assert (∀ x y e, py_lt x y = Raise e → e = TypeError) as Hlt.
  { fix IH 1. intros x y e'.
    destruct x as [|b|z|z|a|a|a], y as [|b'|z'|z'|a'|a'|a']; cbn; try congruence.
    revert a'. induction a as [|x a IHa]; intros [|y a']; try congruence.
    destruct (py_eq x y); [apply IHa|apply IH]. }
  assert (∀ v e, json_iter v = Raise e → e = TypeError) as Hit by (intros []; cbn; congruence).
  assert (∀ l acc e, dict_of_pairs l acc = Raise e → is_exception e = true) as Hp.
  { induction l as [|p l IH]; intros acc e'; cbn; [done|].
    destruct (json_iter p) as [kv|] eqn:E; cbn; [|intros [= <-]; by rewrite (Hit _ _ E)].
    destruct kv as [|[] [|? []]]; try (by intros [= <-]); apply IH. }
  assert (∀ v e, dict_of v = Raise e → is_exception e = true) as Hd.
  { intros v e' He. destruct v; cbn in He; try (by injection He as <-); try done;
      by eapply Hp. }
  induction recs as [|r recs IH]; cbn; [done|].
  destruct (aged_out now r) as [[]|] eqn:Ea; cbn; [done| |].
  - destruct (row_of r) as [row|] eqn:Er; cbn.
    + destruct (snapshot_of now recs); cbn; [done|]. intros [= <-]. by apply IH.
    + intros [= <-]. revert Er. unfold row_of.
      induction (plugin_artifacts r) as [|pa pas IHp]; cbn; [done|].
      destruct (dict_of pa) eqn:E; cbn; [|intros [= <-]; by eapply Hd].
      destruct (map_outcome _ pas); cbn; [done|]. intros [= <-]. by apply IHp.
  - intros [= <-]. unfold aged_out in Ea. case_match; [|done]. by rewrite (Hlt _ _ _ Ea).
Qed.

Lemma dumps_raises rows e : dumps rows = Raise e → is_exception e = true.
Proof.
  unfold dumps. enough (map_outcome dumps_row rows = Raise e → is_exception e = true) as H.
  { destruct (map_outcome dumps_row rows); cbn in *; [done|]. intros [= <-]. by apply H. }
  induction rows as [|r rows IH]; cbn; [done|].
  destruct (dumps_row r) eqn:E; cbn.
  - destruct (map_outcome dumps_row rows); cbn; [done|]. intros [= <-]. by apply IH.
  - intros [= <-]. revert E. unfold dumps_row, dumps_origin.
    induction (row_origin r) as [|[k []] o IHo]; cbn; [done| |by intros [= <-]].
    destruct (map_outcome _ o); cbn; [done|]. intros [= <-]. by apply IHo.
Qed.

(** Why a write fails: the disk, or a snapshot that cannot be taken. *)
Definition cannot_write (now : Z) (ok : bool) (s : EngagementRegistry) : Prop :=
  ok = false ∨ ∃ e, text_of now s = Raise e.

(** Writing the tombstone: the file gets the snapshot, or the call raises or
    swallows an ordinary exception, or the write is left behind. *)
Lemma wp_write now ok strict torn Q R s :
  (∀ text, text_of now s = Ok text → Q tt (s <| disk := Holds text |>)) →
  (∀ e, is_exception e = true → cannot_write now ok s → R e s) →
  (strict = false → cannot_write now ok s → Q tt s) →
  (torn = true → ∀ l, R CancelledError (s <| abandoned := l |>)) →
  wp (_write_tombstone_locked now ok strict torn) Q R s.
Proof.
  intros HQ HR Hs Ht. unfold cannot_write, text_of in *.
  unfold _write_tombstone_locked. do 2 wp_step. wp_step.
  apply wp_lift.
  2: { intros e E. apply HR; [by apply (snapshot_raises _ _ _ E)|]. right. rewrite E. by exists e. }
  intros rows Hrows. rewrite Hrows in *. destruct torn.
  { do 3 wp_step. unfold abandon. destruct (dumps rows); [by apply Ht|].
    specialize (Ht eq_refl (abandoned s)). by destruct s. }
  apply wp_try_except. unfold _write_tombstone. wp_step. apply wp_lift.
  - intros text Htext. wp_step. apply wp_raise_when; intros Hok.
    + apply negb_true_iff in Hok. destruct strict; [apply wp_raise, HR|apply wp_ret, Hs]; auto.
    + wp_step. by apply HQ.
  - intros e He. rewrite (dumps_raises _ _ He).
    assert (∃ x, mbind dumps (Ok rows) = Raise x) as Hx by by exists e.
    destruct strict; [apply wp_raise, HR; [|by right]|apply wp_ret, Hs; [done|by right]].
    by apply (dumps_raises _ _ He).
Qed.

Lemma wp_write_or_rollback now ok torn rollback Q R s :
  (∀ text, text_of now s = Ok text → Q tt (s <| disk := Holds text |>)) →
  (∀ e, is_exception e = true → R e (rollback s)) →
  (torn = true → ∀ l, R CancelledError (s <| abandoned := l |>)) →
  wp (write_or_rollback now ok torn rollback) Q R s.
Proof.
  intros HQ HR Ht. apply wp_try_except. apply wp_write; [done| |done|done].
  intros e He _. rewrite He. do 2 wp_step. wp_step. by apply HR.
Qed.

(** A task that is waited out. *)
Lemma wp_settle {A} (inner : PyM EngagementRegistry A) (Q : outcome A → EngagementRegistry → Prop) R s :
  wp inner (λ a, Q (Ok a)) (λ e, Q (Raise e)) s → wp (settle_despite_cancel inner) Q R s.
Proof. unfold wp, settle_despite_cancel. by destruct (inner s) as [[] ?]. Qed.

(** A shielded task runs whole, unless a second cancellation tears it. *)
Lemma wp_shield {A} (inner : bool → PyM EngagementRegistry A) Q R s :
  (∀ torn, (torn = true → (2 <= cancels env)%nat) →
     wp (inner torn) (λ a s', Q a s' ∧ R CancelledError s')
       (λ e s', R e s' ∧ R CancelledError s') s) →
  ((2 <= cancels env)%nat → R CancelledError s) →
  wp (shield_and_await env inner) Q R s.
Proof.
  intros Hi Hn. unfold shield_and_await, wp in *. destruct (cancels env) as [|[|n]].
  - specialize (Hi false ltac:(done)). destruct (inner false s) as [[] ?]; tauto.
  - specialize (Hi false ltac:(done)). destruct (inner false s) as [[] ?]; cbn in *; tauto.
  - destruct (begun env); [|apply Hn; lia].
    specialize (Hi true ltac:(lia)). destruct (inner true s) as [[] ?]; cbn in *; tauto.
Qed.
End rules.
