(* ===== verification/EngagementEffects.v ===== *)
(** * The engagement registry: every call has the effect its kind promises

    One lemma per call, from the rules of [EngagementCalls], and their sum
    [run_call_spec]. *)

From S2P Require Import Prelude PyDict Json JsonOps VoiceResult SpecialistLimits Engagement EngagementRegistry EngagementCalls.
#[local] Open Scope Z_scope.

(** ** Steps of a record *)

Lemma clearance_set_origin k v r :
  k ≠ "_origin_clearance" → clearance (set_origin k v r) = clearance r.
Proof. intros Hk. exact (dget_dset_ne (origin r) k (PJson v) _ (not_eq_sym Hk)). Qed.

Lemma interaction_edge_refl a : interaction_edge a a.
Proof. by left. Qed.

Lemma clearance_edge_refl a : clearance_edge a a.
Proof. by left. Qed.

(** A step that leaves the fields a record is judged by alone. *)
Lemma progress_quiet r r' :
  birth r' = birth r → (terminal r = true → status r' = status r ∧ completed_at r' = completed_at r) →
  clearance r' = clearance r → view r' = view r → progress r r'.
Proof.
  intros Hb Ht Hc [= _ Hi Hn _ _ Hv]. by split; rewrite ?Hc, ?Hi, ?Hn, ?Hv; auto using
    interaction_edge_refl, clearance_edge_refl, Z.le_refl.
Qed.

Lemma permit_after_same r r' l : terminal r' = terminal r → permit_after r r' l = l.
Proof. unfold permit_after. intros ->. by destruct (terminal r). Qed.

Lemma limiter_untouched e s r r' :
  terminal r' = terminal r → (put e r' s) <| limiter ::= permit_after r r' |> = put e r' s.
Proof. intros Ht. destruct s. unfold put. cbv [update]. cbn. by rewrite permit_after_same. Qed.

Lemma saved_untouched e s r r' text :
  terminal r' = terminal r →
  (put e r' s) <| disk := Holds text |> <| limiter ::= permit_after r r' |>
  = (put e r' s) <| disk := Holds text |>.
Proof. intros Ht. destruct s. unfold put. cbv [update]. cbn. by rewrite permit_after_same. Qed.

(** ** Families of calls *)

Section families.
Context (env : Env) (e : string) (s : EngagementRegistry) (r r' : EngagementRecord).
Context (Hr : record_of s e = Some r) (Hp : progress r r').

Abbreviation tol0 := ((cancels env =? 0)%nat).
Abbreviation tol1 := ((cancels env <=? 1)%nat).

(** A best-effort write after the record moved and its permit was released. *)
Lemma bare_effect (strict : bool) :
  view r' = view r →
  wp (bare_write env strict) (λ _, effect tol0 false (now env) e s)
    (λ _, effect tol0 false (now env) e s) ((put e r' s) <| limiter ::= permit_after r r' |>).
Proof.
  intros Hv. unfold bare_write. apply wp_write.
  - intros text Htext. by apply (eff_saved tol0 false (now env) e s r r' text).
  - intros _ _ _. by apply eff_kept.
  - intros _ _. by apply eff_kept.
  - intros Hc%Nat.ltb_lt l.
    apply (eff_torn tol0 false (now env) e s r r' true l); [|done..].
    apply Nat.eqb_neq. lia.
Qed.

(** A strict write after the record moved, with its rollback. *)
Lemma rollback_effect tolerated torn rollback :
  terminal r' = terminal r → rollback (put e r' s) = s → (torn = true → tolerated = false) →
  wp (write_or_rollback (now env) (write_ok env) torn rollback)
    (λ _ s', effect tolerated true (now env) e s s')
    (λ x s', effect tolerated true (now env) e s s' ∧ (x ≠ CancelledError → s' = s)) (put e r' s).
Proof.
  intros Ht Hrb Htorn. apply wp_write_or_rollback.
  - intros text Htext. rewrite <-(saved_untouched e s r r' text Ht). by apply eff_saved.
  - intros x _. rewrite Hrb. split; [constructor|done].
  - intros Hc l. split; [|done].
    apply (eff_torn tolerated true (now env) e s r r' false l); auto.
Qed.

Lemma commit_effect rollback :
  terminal r' = terminal r → rollback (put e r' s) = s →
  wp (commit_strict env rollback)
    (λ _ s', effect tol1 true (now env) e s s')
    (λ x s', effect tol1 true (now env) e s s' ∧ (x ≠ CancelledError → s' = s)) (put e r' s).
Proof.
  intros Ht Hrb. unfold commit_strict. apply wp_shield.
  - intros torn Htorn. eapply wp_mono; [apply (rollback_effect tol1 torn rollback Ht Hrb)| |].
    + intros ->. apply Nat.leb_gt. specialize (Htorn eq_refl). lia.
    + intros ? s' H. by split.
    + intros x s' H. split; [done|]. by split; [apply H|].
  - intros Hc. split; [|done]. replace (put e r' s) with
      ((put e r' s) <| abandoned := abandoned s |> <| limiter ::= id |>) by by destruct s.
    apply (eff_torn tol1 true (now env) e s r r' false); [apply Nat.leb_gt; lia|done..].
Qed.
End families.

(** The lemma for a whole call, from its body. *)
Definition spec (env : Env) (c : call) (s : EngagementRegistry) (o : outcome reply)
    (s' : EngagementRegistry) : Prop :=
  effect (tolerates c (cancels env)) (strict_call c) (now env) (target env c) s s'
  ∧ (∀ x, o = Raise x → strict_call c = true → x ≠ CancelledError → s' = s).

Definition sound_call (env : Env) (c : call) (s : EngagementRegistry) : Prop :=
  wp (run_call env c) (λ a, spec env c s (Ok a)) (λ x, spec env c s (Raise x)) s.

Lemma wp_reply {A} (f : A → reply) m (Q : reply → EngagementRegistry → Prop) R s :
  wp m (λ a s', Q (f a) s') R s → wp (reply_with f m) Q R s.
Proof. intros H. apply wp_bind. eapply wp_mono; [exact H| |done]. intros a s' Ha. by apply wp_ret. Qed.

(** Calls that do not promise persistence. *)
Lemma loose_call {A} env c s (f : A → reply) m :
  strict_call c = false → run_call env c = reply_with f m →
  wp m (λ _, effect (tolerates c (cancels env)) false (now env) (target env c) s)
    (λ _, effect (tolerates c (cancels env)) false (now env) (target env c) s) s →
  sound_call env c s.
Proof.
  intros Hs Hc Hw. unfold sound_call, spec. rewrite Hc, Hs. apply wp_reply.
  eapply wp_mono; [exact Hw| |]; intros; (split; [done|congruence]).
Qed.

(** Calls that do. *)
Lemma strict_sound {A} env c s (f : A → reply) m :
  strict_call c = true → run_call env c = reply_with f m →
  wp m (λ _, effect (tolerates c (cancels env)) true (now env) (target env c) s)
    (λ x s', effect (tolerates c (cancels env)) true (now env) (target env c) s s'
       ∧ (x ≠ CancelledError → s' = s)) s →
  sound_call env c s.
Proof.
  intros Hs Hc Hw. unfold sound_call, spec. rewrite Hc, Hs. apply wp_reply.
  eapply wp_mono; [exact Hw| |].
  - intros a s' H. split; [done|congruence].
  - intros x s' [H1 H2]. split; [done|]. intros ? [= <-] _. done.
Qed.

(** A best-effort mutator: assign, and write. *)
Lemma wp_loose env e s r f :
  record_of s e = Some r → progress r (f r) → view (f r) = view r → terminal (f r) = terminal r →
  wp (modify (assign e f) ;;; bare_write env false)
    (λ _, effect (cancels env =? 0)%nat false (now env) e s)
    (λ _, effect (cancels env =? 0)%nat false (now env) e s) s.
Proof.
  intros Hr Hp Hv Ht. wp_step. apply wp_modify. rewrite (assign_put _ _ r) by done.
  rewrite <-(limiter_untouched e s r (f r) Ht). by apply bare_effect.
Qed.

(** A call whose body is followed by its answer. *)
Lemma wp_answer {A B} (m : PyM EngagementRegistry A) (a : B) (Q : EngagementRegistry → Prop) R s :
  wp m (λ _, Q) R s → wp (m ;;; mret a) (λ _, Q) R s.
Proof. intros H. apply wp_bind. eapply wp_mono; [exact H| |done]. intros ? s' Hs. by apply wp_ret. Qed.

Lemma wp_assoc {A B C} (m : PyM EngagementRegistry A) (k : PyM EngagementRegistry B)
    (l : PyM EngagementRegistry C) Q R s :
  wp ((m ;;; k) ;;; l) Q R s → wp (m ;;; k ;;; l) Q R s.
Proof. unfold wp, mbind, pym_bind. by destruct (m s) as [[] ?]. Qed.

(** A terminal one: assign, release, and write. *)
Lemma wp_ending env e s r f :
  record_of s e = Some r → progress r (f r) → view (f r) = view r →
  terminal r = false → terminal (f r) = true →
  wp (modify (assign e f) ;;; _release_permit r ;;; bare_write env false)
    (λ _, effect (cancels env =? 0)%nat false (now env) e s)
    (λ _, effect (cancels env =? 0)%nat false (now env) e s) s.
Proof.
  intros Hr Hp Hv Ht Ht'. wp_step. apply wp_modify. rewrite (assign_put _ _ r) by done.
  pose proof (bare_effect env e s r (f r) Hr Hp false Hv) as H.
  assert ((put e (f r) s) <| limiter ::= permit_after r (f r) |>
    = (_release_permit r (put e (f r) s)).2) as E.
  { unfold _release_permit, permit_after. rewrite Ht, Ht'. cbn. by destruct (permit r), s. }
  rewrite E in H. wp_step. unfold _release_permit in *.
  destruct (permit r).
  - by apply wp_modify.
  - by apply wp_ret.
Qed.

(** A strict mutator: assign and commit. *)
Lemma wp_strict env e s r f g :
  record_of s e = Some r → progress r (f r) → terminal (f r) = terminal r → g (f r) = r →
  wp (modify (assign e f) ;;; commit_strict env (assign e g))
    (λ _, effect (cancels env <=? 1)%nat true (now env) e s)
    (λ x s', effect (cancels env <=? 1)%nat true (now env) e s s' ∧ (x ≠ CancelledError → s' = s)) s.
Proof.
  intros Hr Hp Ht Hg. wp_step. apply wp_modify. rewrite (assign_put _ _ r) by done.
  apply (commit_effect env e s r); [done..|]. by eapply assign_undo.
Qed.

(** ** The calls *)

Ltac quiet_step :=
  apply progress_quiet;
  [reflexivity|first [done|congruence]|rewrite ?clearance_set_origin by done; reflexivity|reflexivity].

Ltac open_record r Hr :=
  apply wp_with_record; [intros _; constructor|]; intros r Hr; cbv beta zeta.

Ltac unless_terminal r Ht :=
  destruct (terminal r) eqn:Ht; [apply wp_ret; constructor|].

Section calls.
Context (env : Env) (s : EngagementRegistry).

Lemma mark_completed_sound e at_ : sound_call env (MarkCompleted e at_) s.
Proof.
  eapply loose_call; [done..|]. open_record r Hr. unless_terminal r Ht.
  apply (wp_ending env e s r); [done|quiet_step|done..].
Qed.

Lemma mark_cancelled_sound e : sound_call env (MarkCancelled e) s.
Proof.
  eapply loose_call; [done..|]. open_record r Hr. unless_terminal r Ht.
  apply (wp_ending env e s r); [done|quiet_step|done..].
Qed.

Lemma mark_error_sound e k m : sound_call env (MarkError e k m) s.
Proof.
  eapply loose_call; [done..|]. open_record r Hr. unless_terminal r Ht.
  apply wp_assoc, wp_assoc, wp_answer.
  apply (wp_ending env e s r); [done|quiet_step|done..].
Qed.

Lemma mark_idle_sound e : sound_call env (MarkIdle e) s.
Proof.
  eapply loose_call; [done..|]. open_record r Hr. unless_terminal r Ht.
  apply (wp_loose env e s r); [done|quiet_step|done..].
Qed.

Lemma user_turn_sound e ts : sound_call env (UserTurn e ts) s.
Proof.
  eapply loose_call; [done..|]. open_record r Hr.
  apply (wp_loose env e s r); [done| | |]; cbn beta zeta;
    change (status (update _ _ (update _ _ r))) with (status r);
    (case_bool_decide as Hi; [|first [quiet_step|done]]);
    [|done|unfold terminal; by rewrite Hi].
  apply progress_quiet; [done| |done|done]. unfold terminal. by rewrite Hi.
Qed.

Lemma idle_reminder_sound e ts : sound_call env (IdleReminder e ts) s.
Proof.
  eapply loose_call; [done..|]. open_record r Hr.
  apply (wp_loose env e s r); [done|quiet_step|done..].
Qed.

Lemma resume_fail_count_sound e n : sound_call env (ResumeFailCount e n) s.
Proof.
  eapply loose_call; [done..|]. open_record r Hr.
  apply (wp_loose env e s r); [done|quiet_step|done..].
Qed.

Lemma channel_state_sound e p g m : sound_call env (ChannelState e p g m) s.
Proof.
  eapply loose_call; [done..|]. open_record r Hr.
  apply (wp_loose env e s r); [done|destruct p, g, m; quiet_step|by destruct p, g, m..].
Qed.

Lemma lower_clearance_sound e c : sound_call env (LowerClearance e c) s.
Proof.
  eapply loose_call; [done..|]. unfold lower_origin_clearance.
  destruct (index_of c TIERS) as [n|] eqn:Hn; [|apply wp_ret; constructor].
  open_record r Hr. destruct (tier_of _) as [m|] eqn:Hm; [|apply wp_ret; constructor].
  destruct (Nat.leb_spec m n); [apply wp_ret; constructor|].
  set (r' := set_origin "_origin_clearance" (JStr c) r).
  assert (progress r r') as Hp.
  { split; [done|done| |by left|done|done]. right. exists m, n. split_and!; [done| |done].
    unfold clearance, r', set_origin. cbv [update]. cbn [origin]. by rewrite dget_dset_eq. }
  wp_step. apply wp_modify. rewrite (assign_put _ _ r) by done. fold r'. wp_step.
  rewrite <-(limiter_untouched e s r r' eq_refl). apply wp_try_except.
  eapply wp_mono; [by apply (bare_effect env e s r r' Hr Hp true)| |].
  - intros [] s' H'. by apply wp_ret.
  - intros x s' H'. destruct (is_exception x); [|done]. by do 2 apply wp_ret.
Qed.

(** Strict ones. *)

Lemma flip_progress st at_ k m r :
  terminal r = false → progress r (flip_terminal st at_ k m r) ∧ view (flip_terminal st at_ k m r) = view r.
Proof. intros Ht. unfold flip_terminal. case_bool_decide; (split; [quiet_step|done]). Qed.

Definition final_status (o : string) : string :=
  if bool_decide (o ∈ ["completed"; "cancelled"]) then o else "error".

Lemma flip_is_terminal o at_ k m r : terminal (flip_terminal (final_status o) at_ k m r) = true.
Proof.
  assert (final_status o ∈ _TERMINAL_STATUSES) as Ho.
  { unfold final_status, _TERMINAL_STATUSES. case_bool_decide as Ho; [|by do 2 right; left].
    apply elem_of_cons in Ho as [->|Ho%list_elem_of_singleton]; [left|subst; right; left]. }
  unfold flip_terminal. case_bool_decide; exact (bool_decide_eq_true_2 _ Ho).
Qed.

(** [_restore_origin_field] on the dict. *)
Definition restored (key : string) (snapped : option pyval) (o : origin_dict) : origin_dict :=
  match snapped with None => ddel o key | Some v => dset o key v end.

Lemma restored_set k v o : restored k (dget o k) (dset o k v) = o.
Proof.
  unfold restored. destruct (dget o k) as [w|] eqn:E; [by rewrite dset_dset, dset_same|].
  by apply ddel_dset_new.
Qed.

Lemma restored_same k o : restored k (dget o k) o = o.
Proof. unfold restored. destruct (dget o k) eqn:E; [by apply dset_same|by apply ddel_absent]. Qed.

Lemma restored_under k k' snapped v v' o :
  k' ≠ k → restored k snapped (dset (dset o k v) k' v') = dset (restored k snapped (dset o k v)) k' v'.
Proof.
  intros Hk. unfold restored. destruct snapped; [|by apply ddel_dset_ne].
  apply dset_dset_ne; [done|]. by rewrite dget_dset_eq.
Qed.

Lemma restore_field key snapped r :
  _restore_origin_field key snapped r = r <| origin ::= restored key snapped |>.
Proof. by destruct snapped. Qed.

(** Laws of the three fields a terminal transition sets. *)
Lemma set_ends (r : EngagementRecord) f g st st' at_ at' :
  (r <| status := st |> <| completed_at := at_ |> <| origin ::= f |>)
    <| status := st' |> <| completed_at := at' |> <| origin ::= g |>
  = r <| status := st' |> <| completed_at := at' |> <| origin ::= λ o, g (f o) |>.
Proof. done. Qed.

Lemma set_origin_twice (r : EngagementRecord) f g :
  r <| origin ::= f |> <| origin ::= g |> = r <| origin ::= λ o, g (f o) |>.
Proof. done. Qed.

Lemma set_ends_same (r : EngagementRecord) f :
  f (origin r) = origin r →
  r <| status := status r |> <| completed_at := completed_at r |> <| origin ::= f |> = r.
Proof. intros Hf. destruct r. cbv [update]. cbn in *. by rewrite Hf. Qed.

Lemma flip_shape st at_ k m r :
  ∃ f, flip_terminal st at_ k m r = r <| status := JStr st |> <| completed_at := JFloat at_ |> <| origin ::= f |>
    ∧ restored "error_message" (dget (origin r) "error_message")
        (restored "error_kind" (dget (origin r) "error_kind") (f (origin r))) = origin r.
Proof.
  unfold flip_terminal, set_origin. case_bool_decide.
  - eexists. split; [apply set_origin_twice|]. cbn beta.
    rewrite restored_under by done. by rewrite !restored_set.
  - exists id. split; [done|]. by rewrite !restored_same.
Qed.

Lemma restore_flip st at_ k m r : restore_terminal r (flip_terminal st at_ k m r) = r.
Proof.
  destruct (flip_shape st at_ k m r) as (f & -> & Hf).
  unfold restore_terminal. rewrite !restore_field, set_origin_twice, set_ends.
  by apply set_ends_same.
Qed.

Lemma try_terminal_sound e o at_ k m stale strict hook :
  sound_call env (TryTerminal e o at_ k m stale strict hook) s.
Proof.
  destruct strict; [eapply strict_sound; [done..|]|eapply loose_call; [done..|]];
    open_record r Hr; (unless_terminal r Ht);
    (destruct (match stale with Some t => t <=? last_user_turn_ts r | None => false end);
      [apply wp_ret; constructor|]);
    wp_step; (apply wp_raise_when; intros _; [repeat split; constructor|]); cbv zeta;
    change (if bool_decide (o ∈ _) then o else "error") with (final_status o);
    destruct (flip_progress (final_status o) (default (now env) at_) k m r Ht) as [Hp Hv];
    set (f := flip_terminal _ _ _ _) in *.
  - apply wp_shield; [|intros _; by split; [constructor|]].
    intros torn Htorn. wp_step. apply wp_modify. rewrite (assign_put _ _ r) by done.
    wp_step. apply wp_write_or_rollback.
    + intros text Htext. wp_step. unfold _release_permit.
      pose proof (eff_saved (tolerates (TryTerminal e o at_ k m stale true hook) (cancels env))
        true (now env) e s r (f r) text Hr Hp Htext) as H.
      assert (terminal (f r) = true) as Ht' by apply flip_is_terminal.
      unfold permit_after in H. rewrite Ht, Ht' in H. cbn [andb negb] in H.
      destruct (permit r); [apply wp_modify|apply wp_ret]; apply wp_ret; by split.
    + intros x _. rewrite (assign_undo s e r) by (done || apply restore_flip).
      by repeat split; [constructor|constructor].
    + intros Hc l. specialize (Htorn Hc).
      pose proof (eff_torn (tolerates (TryTerminal e o at_ k m stale true hook) (cancels env))
        true (now env) e s r (f r) false l) as H.
      specialize (H ltac:(apply Nat.leb_gt; lia) Hr Hp ltac:(done)).
      by repeat split.
  - apply wp_assoc, wp_assoc, wp_answer.
    apply (wp_ending env e s r); [done..|apply flip_is_terminal].
Qed.

Lemma advance_sound e ev : sound_call env (Advance e ev) s.
Proof.
  eapply strict_sound; [done..|]. open_record r Hr.
  destruct (_pure_interaction_transition (interaction_state r) ev) as [st|] eqn:Hst;
    [|apply wp_ret; constructor].
  set (f := λ r, r <| interaction_state := JStr st |>).
  assert (progress r (f r)) as Hp.
  { split; [done|done|by left| |done|done]. right. by exists ev, st. }
  apply wp_shield; [|intros _; by split; [constructor|]].
  intros torn Htorn. wp_step. apply wp_modify. rewrite (assign_put _ _ r) by done. wp_step.
  eapply wp_mono; [apply (rollback_effect env e s r (f r) Hr Hp (cancels env <=? 1)%nat)| |].
  - done.
  - eapply assign_undo; [done|]. by destruct r.
  - intros Hc. apply Nat.leb_gt. specialize (Htorn Hc). lia.
  - intros [] s' H. apply wp_ret. by split.
  - intros x s' [H1 H2]. by repeat split.
Qed.

Lemma violated_sound e : sound_call env (Violated e) s.
Proof.
  eapply strict_sound; [done..|]. open_record r Hr.
  set (f := set_origin "interaction_violated" (JBool true)).
  wp_step. apply wp_modify. rewrite (assign_put _ _ r) by done.
  apply (rollback_effect env e s r (f r) Hr); [unfold f; quiet_step|done| |].
  - eapply assign_undo; [done|]. rewrite restore_field. unfold f, set_origin.
    rewrite set_origin_twice. destruct r. cbv [update]. cbn. by rewrite restored_set.
  - intros Hc%Nat.ltb_lt. apply Nat.eqb_neq. lia.
Qed.

Lemma allocate_number_sound e : sound_call env (AllocateNumber e) s.
Proof.
  eapply strict_sound; [done..|]. open_record r Hr. apply wp_assoc, wp_answer.
  apply (wp_strict env e s r); [done| |done|by destruct r].
  split; [done|done|by left|by left| |done]. cbv [update]. cbn. lia.
Qed.

Lemma allocate_revision_sound e : sound_call env (AllocateRevision e) s.
Proof.
  eapply strict_sound; [done..|]. open_record r Hr. apply wp_assoc, wp_answer.
  apply (wp_strict env e s r); [done| |done|by destruct r].
  split; [done|done|by left|by left|done|]. cbv [update]. cbn. lia.
Qed.

Lemma summary_message_sound e m : sound_call env (SummaryMessage e m) s.
Proof.
  eapply strict_sound; [done..|]. open_record r Hr.
  apply (wp_strict env e s r); [done| |done|by destruct r].
  split; [done|done|by left|by left|done|done].
Qed.

Lemma commit_questions e r entries :
  record_of s e = Some r →
  wp (_commit_open_questions_strict env e r entries)
    (λ _, effect (cancels env <=? 1)%nat true (now env) e s)
    (λ x s', effect (cancels env <=? 1)%nat true (now env) e s s' ∧ (x ≠ CancelledError → s' = s)) s.
Proof.
  intros Hr. apply (wp_strict env e s r); [done| |done|by destruct r].
  split; [done|done|by left|by left|done|done].
Qed.

Lemma add_question_sound e n mid text k h : sound_call env (AddQuestion e n mid text k h) s.
Proof.
  eapply strict_sound; [done..|]. open_record r Hr. by apply commit_questions.
Qed.

Lemma close_question_sound e n : sound_call env (CloseQuestion e n) s.
Proof.
  eapply strict_sound; [done..|]. open_record r Hr.
  destruct (_ =? _)%nat; [apply wp_ret; constructor|]. by apply commit_questions.
Qed.

Lemma edit_question_effect e n edit :
  wp (edit_question env e n edit)
    (λ _, effect (cancels env <=? 1)%nat true (now env) e s)
    (λ x s', effect (cancels env <=? 1)%nat true (now env) e s s' ∧ (x ≠ CancelledError → s' = s)) s.
Proof.
  open_record r Hr. wp_step. apply wp_lift; [|intros; by split; [constructor|]].
  intros [[] entries] _; cbn [fst snd]; [|apply wp_ret; constructor].
  apply wp_answer. by apply commit_questions.
Qed.

Lemma persist_session_sound e sid : sound_call env (PersistSession e sid) s.
Proof.
  eapply strict_sound; [done..|]. open_record r Hr.
  set (f := λ r, r <| sdk_session_id := JStr sid |>).
  assert (progress r (f r)) as Hp by (split; [done|done|by left|by left|done|done]).
  wp_step. apply wp_modify. rewrite (assign_put _ _ r) by done. wp_step.
  pose proof (wp_write (now env) (write_ok env) true false
    (λ _ s', effect true true (now env) e s s')
    (λ x s', is_exception x = true ∧ s' = put e (f r) s) (put e (f r) s)) as H.
  assert (assign e (λ r0, r0 <| sdk_session_id := sdk_session_id r |>) (put e (f r) s) = s) as Hundo
    by (eapply assign_undo; [done|by destruct r]).
  assert (∀ text, text_of (now env) (put e (f r) s) = Ok text →
    effect true true (now env) e s ((put e (f r) s) <| disk := Holds text |>)) as Hsaved.
  { intros text Htext. rewrite <-(saved_untouched e s r (f r) text eq_refl). by apply eff_saved. }
  apply wp_settle. eapply wp_mono; [by apply H| |].
  - intros [] s' H'. cbv beta iota. wp_step. apply wp_ret. wp_step. apply wp_raise_when; intros _; [by split|].
    by apply wp_lift; [|done].
  - intros x s' [Hx ->]. cbv beta iota. wp_step. apply wp_modify. rewrite Hundo.
    wp_step. apply wp_raise_when; intros _; [by split; [constructor|]|].
    apply wp_lift; [done|]. intros ? _. by split; [constructor|].
Qed.
End calls.

(** Every call but a creation. *)
Theorem run_call_spec env c s o s' :
  creates c = false → run_call env c s = (o, s') → spec env c s o s'.
Proof.
  intros Hc E. assert (sound_call env c s) as H.
  { destruct c; try done; eauto using mark_completed_sound, mark_cancelled_sound,
      mark_error_sound, try_terminal_sound, mark_idle_sound, user_turn_sound,
      lower_clearance_sound, idle_reminder_sound, resume_fail_count_sound,
      persist_session_sound, channel_state_sound, advance_sound, violated_sound,
      allocate_number_sound, add_question_sound, close_question_sound,
      summary_message_sound, allocate_revision_sound;
      (eapply strict_sound; [done..|]); apply edit_question_effect. }
  pose proof (wp_run _ _ _ _ H _ _ E) as Hs. by destruct o.
Qed.
