(* ===== verification/EngagementHistory.v ===== *)
(** * The engagement registry: histories

    What can happen to a registry: calls in any order, with any environment; the
    assignments other modules make to a record object without the lock (the permit
    of a delegation, notes in [origin]); writes left behind reaching the file or
    getting lost; the limiter used by other delegations; and a restart of the
    process, which loads a fresh registry from the file.

    A history is the list of events with their results.  Three things are asked of
    the outside: [uuid4] never repeats, nothing but the registry writes the
    clearance marker, and a delegation gives a permit it acquired to an engagement
    that is live. *)

From S2P Require Import Prelude PyDict Json JsonOps VoiceResult SpecialistLimits Engagement EngagementRegistry EngagementCalls EngagementEffects.
#[local] Open Scope Z_scope.

#[local] Arguments ddel : simpl never.
#[local] Arguments dset : simpl never.

(** ** Creation *)

(** What a rolled back creation leaves: the registry without its topic. *)
Definition forget_topic (topic_id : option Z) (s : EngagementRegistry) : EngagementRegistry :=
  match topic_id with
  | Some t => s <| _topic_index ::= λ d, ddel d (JInt t) |>
  | None => s
  end.

Inductive created (env : Env) (rec : EngagementRecord) (topic : option Z) (s : EngagementRegistry)
    : outcome EngagementRecord → EngagementRegistry → Prop :=
  | cr_ok text :
      cancels env = 0%nat → text_of (now env) (insert_record env rec topic s) = Ok text →
      created env rec topic s (Ok rec) ((insert_record env rec topic s) <| disk := Holds text |>)
  | cr_failed x : created env rec topic s (Raise x) (forget_topic topic s)
  | cr_ghost text :
      undo_ok env = false → text_of (now env) (insert_record env rec topic s) = Ok text →
      created env rec topic s (Raise CancelledError) ((forget_topic topic s) <| disk := Holds text |>)
  | cr_undone text :
      text_of (now env) (forget_topic topic s) = Ok text →
      created env rec topic s (Raise CancelledError) ((forget_topic topic s) <| disk := Holds text |>).

(** A snapshot that can be taken with a record can be taken without its last. *)
Lemma snapshot_app now recs recs' rows :
  snapshot_of now (recs ++ recs') = Ok rows →
  ∃ rows1 rows2, rows = rows1 ++ rows2 ∧ snapshot_of now recs = Ok rows1.
Proof.
  revert rows. induction recs as [|r recs IH]; intros rows; cbn; [by exists [], rows|].
  destruct (aged_out now r) as [[]|]; cbn; [by apply IH| |done].
  destruct (row_of r); cbn; [|done]. intros E. apply outcome_bind_ok in E as (rs & E & [= <-]).
  destruct (IH _ E) as (rows1 & rows2 & -> & ->). by eexists (_ :: rows1), rows2.
Qed.

Lemma map_outcome_app {A B} (f : A → outcome B) l l' ys :
  map_outcome f (l ++ l') = Ok ys → ∃ zs, map_outcome f l = Ok zs.
Proof.
  revert ys. induction l as [|x l IH]; intros ys; cbn; [by exists []|].
  destruct (f x); cbn; [|done]. intros E. apply outcome_bind_ok in E as (zs & E & _).
  destruct (IH _ E) as [zs' ->]. by eexists.
Qed.

Lemma text_without now s s' k rec text :
  _records s' = _records s ++ [(k, rec)] → text_of now s' = Ok text →
  ∃ text', text_of now s = Ok text'.
Proof.
  unfold text_of, dvals. intros ->. rewrite fmap_app. intros E.
  apply outcome_bind_ok in E as (rows & E & Ed).
  destruct (snapshot_app _ _ _ _ E) as (rows1 & rows2 & -> & ->). cbn.
  unfold dumps in *. apply outcome_bind_ok in Ed as (l & Ed & _).
  destruct (map_outcome_app _ _ _ _ Ed) as [zs ->]. by eexists.
Qed.

Section create.
Context (env : Env) (s : EngagementRegistry) (rec : EngagementRecord) (topic : option Z).
Context (Hnew : record_of s (uuid env) = None).

Lemma rollback_insert : rollback_create env topic (insert_record env rec topic s) = forget_topic topic s.
Proof.
  unfold rollback_create, insert_record, forget_topic. destruct s as [rs ti d ab l].
  unfold record_of in Hnew. cbn in Hnew. destruct topic as [t|]; cbv [update]; cbn.
  - rewrite dget_dset_eq, bool_decide_true by done. by rewrite !ddel_dset_eq, (ddel_absent rs).
  - by rewrite ddel_dset_new.
Qed.

Lemma rollback_insert_disk v :
  rollback_create env topic ((insert_record env rec topic s) <| disk := v |>)
  = (forget_topic topic s) <| disk := v |>.
Proof.
  rewrite <-rollback_insert. unfold rollback_create. destruct topic as [t|]; [|done].
  cbv [update]; cbn. by case_bool_decide.
Qed.

(** The compensating write can only fail for the disk's sake. *)
Lemma ghost_only text :
  text_of (now env) (insert_record env rec topic s) = Ok text →
  cannot_write (now env) (undo_ok env) ((forget_topic topic s) <| disk := Holds text |>) →
  undo_ok env = false.
Proof.
  intros Htext [Hok|[x Hx]]; [done|].
  destruct (text_without (now env) s (insert_record env rec topic s) (JStr (uuid env)) rec text)
    as [text' Ht]; [|done|].
  - transitivity (dset (_records s) (JStr (uuid env)) rec); [by destruct topic|by apply dset_new].
  - assert (text_of (now env) ((forget_topic topic s) <| disk := Holds text |>) = text_of (now env) s)
      as E by by destruct topic.
    congruence.
Qed.

Lemma create_body :
  wp (modify (insert_record env rec topic) ;;;
      let* o := settle_despite_cancel
        (write_or_rollback (now env) (write_ok env) false (rollback_create env topic)) in
      if (0 <? cancels env)%nat then
        match o with
        | Ok _ =>
          modify (rollback_create env topic) ;;;
          settle_despite_cancel (_write_tombstone_locked (now env) (undo_ok env) false false) ;;;
          raise CancelledError
        | Raise _ => raise CancelledError
        end
      else lift o ;;; mret rec)
    (λ r, created env rec topic s (Ok r)) (λ x, created env rec topic s (Raise x)) s.
Proof.
  wp_step. apply wp_modify. wp_step. apply wp_settle. apply wp_write_or_rollback; [| |done].
  - intros text Htext. destruct (cancels env) as [|n] eqn:Hc; cbn [Nat.ltb Nat.leb].
    + wp_step. apply wp_lift; [|done]. intros _ _. apply wp_ret. by apply cr_ok.
    + wp_step. apply wp_modify. rewrite rollback_insert_disk. wp_step. apply wp_settle.
      apply wp_write; [| | |done].
      * intros text' Htext'. apply wp_raise. by apply (cr_undone env rec topic s text').
      * intros x _ Hf. by apply wp_raise, (cr_ghost _ _ _ _ text), Htext; apply (ghost_only text).
      * intros _ Hf. by apply wp_raise, (cr_ghost _ _ _ _ text), Htext; apply (ghost_only text).
  - intros x _. rewrite rollback_insert. case_match.
    + apply wp_raise, cr_failed.
    + wp_step. apply wp_lift; [done|]. intros ? [= <-]. apply cr_failed.
Qed.
End create.

(** The record a creation makes. *)
Definition created_record (env : Env) (c : call) : option (EngagementRecord * option Z) :=
  match c with
  | Create kind role driver task origin topic tools mode artifacts st title =>
    Some (new_record env kind role driver task origin topic tools mode artifacts st title, topic)
  | _ => None
  end.

Lemma create_spec env c rec topic s o s' :
  created_record env c = Some (rec, topic) → record_of s (uuid env) = None →
  run_call env c s = (o, s') →
  created env rec topic s (match o with Ok _ => Ok rec | Raise x => Raise x end) s'.
Proof.
  intros Hc Hn E. destruct c; try done. injection Hc as Hrec <-.
  pose proof (create_body env s rec topic_id Hn) as H.
  cbn [run_call] in E. unfold reply_with, create in E. rewrite Hrec in E.
  set (m := (_ ;;; _)) in H.
  change (reply_with RRecord m s = (o, s')) in E.
  pose proof (wp_run _ _ _ _ H) as Hr. unfold reply_with, mbind, pym_bind in E.
  destruct (m s) as [[r|x] t]; injection E as <- <-; specialize (Hr _ _ eq_refl); [|done].
  by inversion Hr; subst.
Qed.

(** ** Events *)

Inductive event :=
  | Call (env : Env) (c : call)
  | GivePermit (engagement_id : string) (p : nat)   (** [rec.permit = permit] *)
  | Note (engagement_id key : string) (v : pyval)   (** [rec.origin[key] = v] *)
  | Land (i : nat)                                  (** an abandoned write reaches the file *)
  | Lose (i : nat)                                  (** or never does *)
  | Limit (calls : list limiter_call)
  | Reboot (env : Env).

Section history.
Context `{PyText}.

Definition happens (ev : event) (s : EngagementRegistry) : outcome reply * EngagementRegistry :=
  match ev with
  | Call env c => run_call env c s
  | GivePermit e p => (Ok RNone, assign e (λ r, r <| permit := Some p |>) s)
  | Note e key v => (Ok RNone, assign e (λ r, r <| origin ::= λ o, dset o key v |>) s)
  | Land i =>
    (Ok RNone,
      match abandoned s !! i with
      | Some text => s <| disk := Holds text |> <| abandoned := delete i (abandoned s) |>
      | None => s
      end)
  | Lose i => (Ok RNone, s <| abandoned := delete i (abandoned s) |>)
  | Limit calls => (Ok RNone, s <| limiter ::= limiter_run calls |>)
  | Reboot env =>
    reply_with (λ _, RNone) (load env)
      (fresh_registry (disk s) (mkLimiter (_max_global (limiter s)) 0 ∅ []))
  end.

Abbreviation past := (list (event * outcome reply)).

(** The engagements a history mentions. *)
Definition mentioned (h : past) : list string :=
  omap (λ x, match x.1 with Call env c => Some (target env c) | _ => None end) h.

Definition legal (h : past) (ev : event) (s : EngagementRegistry) : Prop :=
  match ev with
  | Call env c => creates c = true → uuid env ∉ mentioned h ∧ record_of s (uuid env) = None
  | Note _ key _ => key ≠ "_origin_clearance"
  | GivePermit e p =>
    is_Some (permits (limiter s) !! p) ∧ ∀ r, record_of s e = Some r → terminal r = false
  | _ => True
  end.

Inductive history (s0 : EngagementRegistry) : past → EngagementRegistry → Prop :=
  | h_start : history s0 [] s0
  | h_next h s ev o s' :
      history s0 h s → legal h ev s → happens ev s = (o, s') → history s0 (h ++ [(ev, o)]) s'.

(** Histories of one process. *)
Definition reboots (x : event * outcome reply) : bool :=
  match x.1 with Reboot _ => true | _ => false end.

Definition one_process (h : past) : Prop := forallb (λ x, negb (reboots x)) h = true.

Lemma one_process_snoc h x : one_process (h ++ [x]) ↔ one_process h ∧ reboots x = false.
Proof.
  unfold one_process. rewrite forallb_app. cbn. destruct (reboots x); cbn;
    rewrite ?andb_true_r, ?andb_false_r; naive_solver.
Qed.

(** What an event other than a restart does to the record of [e]: nothing, or it
    makes one step of progress, up to the permit it was given. *)
Definition moves (r r' : EngagementRecord) : Prop :=
  r' = r ∨ progress r r' ∨ ∃ p, r' = r <| permit := Some p |>.

Lemma effect_record tol strict t e s s' e' r :
  effect tol strict t e s s' → record_of s e' = Some r →
  ∃ r', record_of s' e' = Some r' ∧ (r' = r ∨ (e' = e ∧ progress r r')).
Proof.
  intros He Hr. destruct He as [|r0 r' text Hr0 Hp|r0 r' Hs Hr0 Hp|r0 r' b l Ht Hr0 Hp].
  - eauto.
  - change (∃ r1, record_of (put e r' s) e' = Some r1 ∧ (r1 = r ∨ e' = e ∧ progress r r1)).
    rewrite record_put. case_decide; [subst; simplify_eq; eauto|eauto].
  - change (∃ r1, record_of (put e r' s) e' = Some r1 ∧ (r1 = r ∨ e' = e ∧ progress r r1)).
    rewrite record_put. case_decide; [subst; simplify_eq; eauto|eauto].
  - change (∃ r1, record_of (put e r' s) e' = Some r1 ∧ (r1 = r ∨ e' = e ∧ progress r r1)).
    rewrite record_put. case_decide; [subst; simplify_eq; eauto|eauto].
Qed.

Lemma created_records env rec topic s o s' e r :
  created env rec topic s o s' → record_of s (uuid env) = None → record_of s e = Some r →
  record_of s' e = Some r.
Proof.
  intros Hc Hn Hr.
  assert (e ≠ uuid env) as Hne by congruence.
  assert (record_of (forget_topic topic s) e = record_of s e) as Hf by by destruct topic.
  assert (record_of (insert_record env rec topic s) e = record_of (put (uuid env) rec s) e) as Hi
    by by destruct topic.
  rewrite record_put, decide_False in Hi by done.
  destruct Hc; [change (record_of (insert_record env rec topic s) e = Some r); congruence| | |];
    change (record_of (forget_topic topic s) e = Some r); congruence.
Qed.

Lemma call_record env c s o s' e r :
  (creates c = true → record_of s (uuid env) = None) →
  run_call env c s = (o, s') → record_of s e = Some r →
  ∃ r', record_of s' e = Some r' ∧ (r' = r ∨ (e = target env c ∧ creates c = false ∧ progress r r')).
Proof.
  intros Hn E Hr. destruct (creates c) eqn:Hc.
  - destruct (created_record env c) as [[rec topic]|] eqn:Hrec; [|by destruct c].
    exists r. split; [|by left].
    eapply created_records; [by eapply create_spec; eauto|by auto|done].
  - destruct (run_call_spec _ _ _ _ _ Hc E) as [He _].
    destruct (effect_record _ _ _ _ _ _ _ _ He Hr) as (r' & Hr' & [->|[-> Hp]]); eauto 7.
Qed.

Lemma assign_record e f s e' r :
  record_of s e' = Some r → record_of (assign e f s) e' = Some (if decide (e' = e) then f r else r).
Proof.
  intros Hr. unfold assign. destruct (record_of s e) as [r0|] eqn:E.
  - change (record_of (put e (f r0) s) e' = Some (if decide (e' = e) then f r else r)).
    rewrite record_put. case_decide; congruence.
  - case_decide; [congruence|done].
Qed.

Lemma note_moves r key v : key ≠ "_origin_clearance" → progress r (r <| origin ::= λ o, dset o key v |>).
Proof.
  intros Hk. apply progress_quiet; [done|done| |done].
  exact (dget_dset_ne (origin r) key v _ (not_eq_sym Hk)).
Qed.

Lemma event_record h ev s o s' e r :
  legal h ev s → happens ev s = (o, s') → reboots (ev, o) = false → record_of s e = Some r →
  ∃ r', record_of s' e = Some r' ∧ moves r r'.
Proof.
  intros Hl E Hb Hr. unfold moves. destruct ev as [env c|e0 p|e0 key v|i|i|cs|env]; cbn in E; try done.
  - destruct (call_record env c s o s' e r) as (r' & ? & [->|(_ & _ & ?)]); [by apply Hl|done..|eauto|eauto].
  - injection E as _ <-. rewrite (assign_record _ _ _ _ r Hr). case_decide; eauto 6.
  - injection E as _ <-. rewrite (assign_record _ _ _ _ r Hr).
    case_decide; eauto 6 using note_moves.
  - injection E as _ <-. exists r. split; [|by left]. by destruct (abandoned s !! i).
  - injection E as _ <-. exists r. split; [done|by left].
  - injection E as _ <-. exists r. split; [done|by left].
Qed.
End history.
