(* ===== verification/EngagementScenario.v ===== *)
(** * The engagement registry: a scenario

    Playing a list of events, and the concrete run the witnesses use. *)

From S2P Require Import Prelude PyDict Json JsonOps VoiceResult SpecialistLimits Engagement EngagementRegistry EngagementCalls EngagementEffects EngagementHistory.
#[local] Open Scope Z_scope.
#[local] Existing Instance no_text.

(** An environment in which everything works, at second [n], with identity [u]. *)
Definition fine (n : Z) (u : string) : Env :=
  mkEnv (seconds n) u (λ _, "secret") true true 0 true true true.

Definition two_slots : SpecialistLimiter := mkLimiter 2 0 ∅ [].
Definition boot : EngagementRegistry := fresh_registry Missing two_slots.

Definition engage (topic : Z) : call :=
  Create "specialist" "finance" "in_casa" "taxes" [("channel", PJson (JStr "telegram"));
    ("_origin_clearance", PJson (JStr "family"))] (Some topic) [] "" [] "first_contact_required" "Taxes".

(** Running a list of events. *)
Fixpoint play (evs : list event) (s : EngagementRegistry)
    : list (event * outcome reply) * EngagementRegistry :=
  match evs with
  | [] => ([], s)
  | ev :: evs' =>
    let '(o, s') := happens ev s in
    let '(h, s'') := play evs' s' in ((ev, o) :: h, s'')
  end.

Definition result_of (ev : event) (s : EngagementRegistry) : outcome reply := (happens ev s).1.
Definition after (evs : list event) (s : EngagementRegistry) : EngagementRegistry := (play evs s).2.

(** A played list of legal events is a history. *)
Fixpoint legal_run (h : list (event * outcome reply)) (evs : list event) (s : EngagementRegistry) : Prop :=
  match evs with
  | [] => True
  | ev :: evs' => legal h ev s ∧ legal_run (h ++ [(ev, result_of ev s)]) evs' (happens ev s).2
  end.

Lemma play_history_from s0 h evs s :
  history s0 h s → legal_run h evs s → history s0 (h ++ (play evs s).1) (after evs s).
Proof.
  unfold after. revert h s. induction evs as [|ev evs IH]; intros h s Hh; cbn.
  - by rewrite app_nil_r.
  - unfold result_of. destruct (happens ev s) as [o s1] eqn:E. cbn. intros [Hl Hrun].
    specialize (IH _ _ (h_next _ _ _ _ _ _ Hh Hl E) Hrun).
    destruct (play evs s1) as [h' s2]. by rewrite <-app_assoc in IH.
Qed.

Lemma play_history s evs : legal_run [] evs s → history s (play evs s).1 (after evs s).
Proof. apply (play_history_from s []). constructor. Qed.

(** What holds of the events holds of their history. *)
Lemma play_forall (P : event → Prop) evs s :
  Forall P evs → Forall (λ x, P x.1) (play evs s).1.
Proof.
  intros Hevs. revert s. induction Hevs as [|ev evs Hev _ IH]; intros s; cbn; [constructor|].
  destruct (happens ev s) as [o s1]. specialize (IH s1). destruct (play evs s1). by constructor.
Qed.

(** One engagement that holds a slot, a steerer of lower clearance, questions, and
    two ways to end it. *)
Definition story : list event :=
  [Limit [Acquire "room"]; Call (fine 1 "a") (engage 7); GivePermit "a" 0;
   Call (fine 2 "") (AllocateNumber "a"); Call (fine 3 "") (LowerClearance "a" "friends");
   Call (fine 4 "") (AllocateNumber "a")].

Definition ending : list event :=
  [Call (fine 5 "") (TryTerminal "a" "completed" None "" "" None true None);
   Call (fine 6 "") (MarkError "a" "resume_failed" "late")].

(** Events that are legal at any time. *)
Definition plain (ev : event) : Prop :=
  match ev with
  | Call _ c => creates c = false
  | Note _ _ _ | GivePermit _ _ => False
  | _ => True
  end.

Lemma plain_run evs h s : Forall plain evs → legal_run h evs s.
Proof.
  intros Hevs. revert h s. induction Hevs as [|ev evs Hev _ IH]; intros h s; [done|].
  split; [|apply IH]. destruct ev; try done. cbn in *. by rewrite Hev.
Qed.

Lemma story_legal evs : Forall plain evs → legal_run [] (story ++ evs) boot.
Proof.
  intros Hevs. cbn [legal_run app story].
  split; [done|]. split; [intros _; split; [by apply not_elem_of_nil|by vm_compute]|].
  split.
  { split; [eexists; by vm_compute|]. intros r. vm_compute. by intros [= <-]. }
  do 3 (split; [done|]). by apply plain_run.
Qed.

Lemma ending_legal : legal_run [] (story ++ ending) boot.
Proof. apply story_legal. by repeat constructor. Qed.
