(* ===== verification/EngagementSafety.v ===== *)
(** * The engagement registry: what holds in one process

    Strict calls are all or nothing; a record ends once; a clearance only falls;
    an ended engagement has given its slot back. *)

From S2P Require Import Prelude PyDict Json JsonOps VoiceResult SpecialistLimits Engagement EngagementRegistry EngagementCalls EngagementEffects EngagementHistory EngagementScenario.
#[local] Open Scope Z_scope.

#[local] Arguments ddel : simpl never.

(** ** Strict calls *)

(** The file holds the snapshot of memory, and no write is under way. *)
Definition saved (env : Env) (s s' : EngagementRegistry) : Prop :=
  abandoned s' = abandoned s ∧ ∃ text, text_of (now env) s' = Ok text ∧ disk s' = Holds text.

(** A creation whose caller is gone may leave its row in the file, if the write
    that takes it back fails too. *)
Definition ghost (env : Env) (c : call) (s s' : EngagementRegistry) : Prop :=
  undo_ok env = false ∧ ∃ rec topic text,
    created_record env c = Some (rec, topic)
    ∧ text_of (now env) (insert_record env rec topic s) = Ok text
    ∧ s' = s <| disk := Holds text |>.

(** The topic of a creation is new to the index. *)
Definition new_topic (env : Env) (c : call) (s : EngagementRegistry) : Prop :=
  match created_record env c with
  | Some (_, Some t) => dget (_topic_index s) (JInt t) = None
  | _ => True
  end.

Lemma forget_new env c rec topic s :
  created_record env c = Some (rec, topic) → new_topic env c s → forget_topic topic s = s.
Proof.
  unfold new_topic. intros ->. destruct topic as [t|]; [|done]. intros Ht.
  destruct s. cbv [forget_topic update]. cbn in *. by rewrite ddel_absent.
Qed.


(** ** Endings *)

Definition is_win (e : string) (x : event * outcome reply) : bool :=
  match x with
  | (Call _ (TryTerminal e' _ _ _ _ _ _ _), Ok (RBool true))
  | (Call _ (MarkError e' _ _), Ok (RBool true)) => bool_decide (e' = e)
  | _ => false
  end.

Definition wins (e : string) (h : list (event * outcome reply)) : nat :=
  length (filter (λ x, is_win e x = true) h).

(** [m] answers [True] only when it takes the record of [e] into a terminal state. *)
Definition wins_terminal (e : string) (s : EngagementRegistry) (m : PyM EngagementRegistry bool) : Prop :=
  wp m (λ b s', b = true →
      (∃ r, record_of s e = Some r ∧ terminal r = false)
      ∧ ∃ r', record_of s' e = Some r' ∧ terminal r' = true) (λ _ _, True) s.

Lemma ending_put e s r r' s' :
  record_of s e = Some r → terminal r = false → record_of s' e = record_of (put e r' s) e →
  terminal r' = true →
  (∃ r, record_of s e = Some r ∧ terminal r = false) ∧ ∃ r', record_of s' e = Some r' ∧ terminal r' = true.
Proof.
  intros Hr Ht E Ht'. split; [eauto|]. exists r'. split; [|done].
  rewrite E, record_put. by case_decide.
Qed.

(** Releasing and writing leave the records. *)
Lemma release_keeps e r s0 (Q : unit → EngagementRegistry → Prop) R :
  (∀ s', record_of s' e = record_of s0 e → Q tt s') → wp (_release_permit r) Q R s0.
Proof. intros H. unfold _release_permit. destruct (permit r); [apply wp_modify|apply wp_ret]; by apply H. Qed.

Lemma write_keeps now ok strict torn e s0 (Q : unit → EngagementRegistry → Prop) :
  (∀ s', record_of s' e = record_of s0 e → Q tt s') →
  wp (_write_tombstone_locked now ok strict torn) Q (λ _ _, True) s0.
Proof. intros H. apply wp_write; intros; try done; by apply H. Qed.

Lemma mark_error_wins env e k m s : wins_terminal e s (mark_error env e k m).
Proof.
  apply wp_with_record; [done|]. intros r Hr. destruct (terminal r) eqn:Ht; [by apply wp_ret|].
  wp_step. apply wp_modify. rewrite (assign_put _ _ r) by done. wp_step.
  apply (release_keeps e). intros s1 H1. wp_step. apply (write_keeps _ _ _ _ e). intros s2 H2.
  apply wp_ret. intros _. eapply ending_put; [done|done|by rewrite H2, H1|done].
Qed.

Lemma try_terminal_wins env e o at_ k m stale strict hook s :
  wins_terminal e s (try_transition_terminal env e o at_ k m stale strict hook).
Proof.
  apply wp_with_record; [done|]. intros r Hr. destruct (terminal r) eqn:Ht; [by apply wp_ret|].
  destruct (match stale with Some t => t <=? last_user_turn_ts r | None => false end); [by apply wp_ret|].
  wp_step. apply wp_raise_when; intros _; [done|]. cbv zeta.
  change (if bool_decide (o ∈ _) then o else "error") with (final_status o).
  pose proof (flip_is_terminal o (default (now env) at_) k m r) as Ht'.
  destruct strict; cbn [negb].
  - apply wp_shield; [|done]. intros torn _. wp_step. apply wp_modify.
    rewrite (assign_put _ _ r) by done. wp_step. apply wp_write_or_rollback; [|done|done].
    intros text _. wp_step. apply (release_keeps e). intros s1 H1. apply wp_ret.
    split; [|done]. intros _. eapply ending_put; [exact Hr|exact Ht|exact H1|exact Ht'].
  - wp_step. apply wp_modify. rewrite (assign_put _ _ r) by done. wp_step.
    apply (release_keeps e). intros s1 H1. wp_step. apply (write_keeps _ _ _ _ e). intros s2 H2.
    apply wp_ret. intros _. eapply ending_put; [exact Hr|exact Ht|rewrite H2; exact H1|exact Ht'].
Qed.

Section one_process.
Context `{PyText}.

Lemma moves_terminal r r' :
  moves r r' → terminal r = true →
  terminal r' = true ∧ status r' = status r ∧ completed_at r' = completed_at r.
Proof.
  intros Hm Ht. assert (status r' = status r ∧ completed_at r' = completed_at r) as [Hs Hc].
  { destruct Hm as [->|[Hp|[p ->]]]; [done|by apply (pr_terminal _ _ Hp)|done]. }
  split; [|done]. unfold terminal in *. by rewrite Hs.
Qed.

Lemma wins_snoc e h x : wins e (h ++ [x]) = (wins e h + if is_win e x then 1 else 0)%nat.
Proof. unfold wins. rewrite filter_app, length_app, filter_cons. by destruct (is_win e x). Qed.

(** A winning event ends a live record. *)
Lemma win_ends e ev o s s' :
  happens ev s = (o, s') → is_win e (ev, o) = true →
  (∃ r, record_of s e = Some r ∧ terminal r = false)
  ∧ ∃ r', record_of s' e = Some r' ∧ terminal r' = true.
Proof.
  intros E Hw. destruct ev as [env c| | | | | |]; try done.
  assert (∀ m : PyM EngagementRegistry bool, wins_terminal e s m →
    reply_with RBool m s = (o, s') → o = Ok (RBool true) →
    (∃ r, record_of s e = Some r ∧ terminal r = false)
    ∧ ∃ r', record_of s' e = Some r' ∧ terminal r' = true) as Hm.
  { intros m Hm Em ->. unfold wins_terminal, wp in Hm. unfold reply_with, mbind, pym_bind in Em.
    destruct (m s) as [[b|x] t]; [|done]. injection Em as -> <-. by apply Hm. }
  destruct c; try done; destruct o as [[|[]| | |]|]; try done;
    apply bool_decide_eq_true in Hw as <-; (eapply Hm; [|exact E|done]);
    auto using mark_error_wins, try_terminal_wins.
Qed.

(** A record cannot vanish while the process runs. *)
Lemma history_record s h s' e r :
  history s h s' → one_process h → record_of s e = Some r → ∃ r', record_of s' e = Some r'.
Proof.
  induction 1 as [|h s1 ev o s2 Hh IH Hl E]; intros Hone Hr; [eauto|].
  apply one_process_snoc in Hone as [Hone Hb]. destruct (IH Hone Hr) as [r1 Hr1].
  destruct (event_record _ _ _ _ _ _ _ Hl E Hb Hr1) as (r2 & ? & _). eauto.
Qed.

(** C11: Between two restarts an engagement is ended by at most one caller: of all
    the calls of try_transition_terminal and mark_error on it, in any interleaving
    with any other calls, write failures and cancellations, at most one answers
    true; then the record is terminal, and a terminal record keeps its status and
    its completion time, and no call on it answers true any more. *)
Theorem one_finalizer s h s' e :
  history s h s' → one_process h →
  (wins e h <= 1)%nat
  ∧ (wins e h = 1%nat → ∃ r', record_of s' e = Some r' ∧ terminal r' = true)
  ∧ ∀ r, record_of s e = Some r → terminal r = true →
      wins e h = 0%nat ∧ ∃ r', record_of s' e = Some r'
        ∧ status r' = status r ∧ completed_at r' = completed_at r.
Proof.
  induction 1 as [|h s1 ev o s2 Hh IH Hl E]; intros Hone.
  { split_and!; [cbn; lia|done|eauto]. }
  apply one_process_snoc in Hone as [Hone Hb]. destruct (IH Hone) as (Hle & Hend & Hold).
  assert (∀ r1, record_of s1 e = Some r1 → terminal r1 = true → is_win e (ev, o) = false
    ∧ ∃ r2, record_of s2 e = Some r2 ∧ terminal r2 = true
        ∧ status r2 = status r1 ∧ completed_at r2 = completed_at r1) as Hstep.
  { intros r1 Hr1 Ht1. destruct (event_record _ _ _ _ _ _ _ Hl E Hb Hr1) as (r2 & Hr2 & Hm).
    split; [|exists r2; split; [done|by apply moves_terminal]].
    apply not_true_is_false. intros Hw. destruct (win_ends _ _ _ _ _ E Hw) as [(r & ? & ?) _]. congruence. }
  rewrite wins_snoc. destruct (is_win e (ev, o)) eqn:Hw.
  - assert (wins e h = 0%nat) as H0.
    { destruct (wins e h) as [|[|n]]; [done| |lia]. destruct (Hend eq_refl) as (r1 & Hr1 & Ht1).
      by destruct (Hstep _ Hr1 Ht1) as [? _]. }
    rewrite H0. split_and!; [lia|intros _; by apply (win_ends _ _ _ _ _ E Hw)|].
    intros r Hr Ht. destruct (Hold r Hr Ht) as (_ & r1 & Hr1 & Hs1 & _).
    assert (terminal r1 = true) as Ht1 by (unfold terminal in *; by rewrite Hs1).
    by destruct (Hstep _ Hr1 Ht1) as [? _].
  - rewrite Nat.add_0_r. split_and!; [done| |].
    + intros H1. destruct (Hend H1) as (r1 & Hr1 & Ht1).
      destruct (Hstep _ Hr1 Ht1) as (_ & r2 & ? & ? & _). eauto.
    + intros r Hr Ht. destruct (Hold r Hr Ht) as (H0 & r1 & Hr1 & Hs1 & Hc1).
      split; [done|]. assert (terminal r1 = true) as Ht1 by (unfold terminal in *; by rewrite Hs1).
      destruct (Hstep _ Hr1 Ht1) as (_ & r2 & ? & _ & ? & ?). exists r2. split_and!; congruence.
Qed.

(** ** Clearance *)

Lemma clearance_edge_trans a b c : clearance_edge a b → clearance_edge b c → clearance_edge a c.
Proof.
  intros [->|(m & n & Ha & Hb & Hlt)]; [done|]. intros [<-|(m' & n' & Hb' & Hc & Hlt')].
  - right. eauto 6.
  - right. exists m, n'. split_and!; [done..|]. simplify_eq. lia.
Qed.

Lemma moves_clearance r r' : moves r r' → clearance_edge (clearance r) (clearance r').
Proof. intros [->|[Hp|[p ->]]]; [by left|by apply pr_clearance|by left]. Qed.

Definition at_most (n : nat) (v : option pyval) : Prop := ∀ m, tier_of v = Some m → (m <= n)%nat.

Lemma at_most_edge n a b : clearance_edge a b → at_most n a → at_most n b.
Proof.
  intros [->|(m & m' & Ha & Hb & Hlt)] Hn; [done|]. intros k Hk. simplify_eq.
  specialize (Hn m Ha). lia.
Qed.

(** The clamp holds however the call ends. *)
Lemma lower_clearance_clamps env e c n s o s' r :
  index_of c TIERS = Some n → record_of s e = Some r →
  run_call env (LowerClearance e c) s = (o, s') →
  ∃ r', record_of s' e = Some r' ∧ at_most n (clearance r').
Proof.
  intros Hn Hr E. set (Q := λ s' : EngagementRegistry, ∃ r', record_of s' e = Some r' ∧ at_most n (clearance r')).
  enough (wp (run_call env (LowerClearance e c)) (λ _, Q) (λ _, Q) s) as Hw.
  { unfold wp in Hw. rewrite E in Hw. by destruct o. }
  apply wp_reply. unfold lower_origin_clearance. rewrite Hn. unfold with_record.
  do 2 wp_step. rewrite Hr. destruct (tier_of _) as [m|] eqn:Hm.
  2: { apply wp_ret. exists r. split; [done|]. intros k Hk. unfold clearance in Hk. congruence. }
  destruct (Nat.leb_spec m n).
  { apply wp_ret. exists r. split; [done|]. intros k Hk. unfold clearance in Hk. simplify_eq. lia. }
  wp_step. apply wp_modify. rewrite (assign_put _ _ r) by done. wp_step.
  set (r' := set_origin "_origin_clearance" (JStr c) r).
  assert (∀ s', record_of s' e = record_of (put e r' s) e → Q s') as HQ.
  { intros s1 E1. exists r'. rewrite E1, record_put. case_decide; [|done]. split; [done|].
    unfold clearance, r', set_origin. change (origin (update _ _ r)) with (dset (origin r) "_origin_clearance" (PJson (JStr c))).
    rewrite dget_dset_eq. intros k. cbn [tier_of]. rewrite Hn. intros [= <-]. done. }
  apply wp_try_except. apply wp_write.
  - intros text _. apply wp_ret. by apply HQ.
  - intros x -> _. do 2 apply wp_ret. by apply HQ.
  - intros _ _. apply wp_ret. by apply HQ.
  - intros _ l. by apply HQ.
Qed.


(** ** Slots *)

(** A permit that was given back. *)
Definition given_back (l : SpecialistLimiter) (p : nat) : Prop :=
  ∃ pm, permits l !! p = Some pm ∧ _released pm = true.

Lemma release_lookup p q l :
  permits (release p l) !! q
  = (λ pm, if bool_decide (p = q) then mkPermit (_scope pm) true else pm) <$> permits l !! q.
Proof.
  unfold release. destruct (permits l !! p) as [pm|] eqn:Hp.
  - destruct (_released pm) eqn:Hr.
    + case_bool_decide; [subst; rewrite Hp; cbn; destruct pm; cbn in *; by subst|].
      by destruct (permits l !! q).
    + assert (∀ sc l, permits (_release sc l) = permits l) as E
        by (intros sc l0; unfold _release; by case_match).
      rewrite E. change (permits (update _ _ l)) with (alter (λ pm, pm <| _released := true |>) p (permits l)).
      rewrite list_lookup_alter. case_decide as Hd.
      * subst q. by rewrite bool_decide_true.
      * rewrite bool_decide_false by done. by destruct (permits l !! q).
  - case_bool_decide; [subst; by rewrite Hp|]. by destruct (permits l !! q).
Qed.

Lemma release_gives_back p l : is_Some (permits l !! p) → given_back (release p l) p.
Proof.
  intros [pm Hp]. unfold given_back. rewrite release_lookup, Hp. cbn.
  rewrite bool_decide_true by done. by eexists.
Qed.

Lemma limiter_keeps c l p :
  (is_Some (permits l !! p) → is_Some (permits (limiter_step c l) !! p))
  ∧ (given_back l p → given_back (limiter_step c l) p).
Proof.
  destruct c as [scope|q]; cbn.
  - unfold try_acquire, mbind, pym_bind, get. case_bool_decide; [done|].
    destruct (_max_global l <=? _global_count l); [done|]. unfold given_back. cbn.
    change (permits (update _ _ _)) with (permits l ++ [mkPermit scope false]). split.
    + intros [pm Hp]. exists pm. by apply lookup_app_l_Some.
    + intros (pm & Hp & Hr). exists pm. split; [by apply lookup_app_l_Some|done].
  - unfold given_back. rewrite release_lookup. split; [intros [pm ->]; by eexists|].
    intros (pm & -> & Hr). cbn. case_bool_decide; by eexists.
Qed.

Lemma limiter_run_keeps cs l p :
  (is_Some (permits l !! p) → is_Some (permits (limiter_run cs l) !! p))
  ∧ (given_back l p → given_back (limiter_run cs l) p).
Proof.
  revert l. induction cs as [|c cs IH]; intros l; [done|].
  change (limiter_run (c :: cs) l) with (limiter_run cs (limiter_step c l)).
  destruct (limiter_keeps c l p), (IH (limiter_step c l)). tauto.
Qed.

Lemma permit_after_keeps r r' l p :
  (is_Some (permits l !! p) → is_Some (permits (permit_after r r' l) !! p))
  ∧ (given_back l p → given_back (permit_after r r' l) p).
Proof.
  unfold permit_after. destruct (negb _ && _); [|done]. destruct (permit r) as [q|]; [|done].
  apply (limiter_keeps (Release q)).
Qed.

(** Every permit a record holds exists, and an ended record has given it back. *)
Definition slots (s : EngagementRegistry) : Prop :=
  ∀ e r p, record_of s e = Some r → permit r = Some p →
    is_Some (permits (limiter s) !! p) ∧ (terminal r = true → given_back (limiter s) p).

Lemma slots_moved s s' e r r' :
  slots s → record_of s e = Some r → progress r r' →
  (∀ e1, record_of s' e1 = record_of (put e r' s) e1) →
  limiter s' = permit_after r r' (limiter s) → slots s'.
Proof.
  intros Hs Hr Hp Hs' Hl e1 r1 p. rewrite Hs', record_put, Hl.
  destruct (permit_after_keeps r r' (limiter s) p) as [K1 K2]. case_decide.
  - intros [= <-] Hpm. subst. assert (permit r = Some p) as Hpr.
    { pose proof (pr_birth _ _ Hp) as Hb. unfold birth in Hb. congruence. }
    destruct (Hs _ _ _ Hr Hpr) as [H1 H2]. split; [by apply K1|]. intros Ht'.
    destruct (terminal r) eqn:Ht; [by apply K2, H2|].
    unfold permit_after. rewrite Ht, Ht', Hpr. by apply release_gives_back.
  - intros Hr1 Hp1. destruct (Hs _ _ _ Hr1 Hp1) as [H1 H2]. split; [by apply K1|].
    intros Ht. by apply K2, H2.
Qed.

Lemma slots_same s s' :
  slots s → (∀ e, record_of s' e = record_of s e) → limiter s' = limiter s → slots s'.
Proof. intros Hs Hr Hl e r p. rewrite Hr, Hl. apply Hs. Qed.

Lemma slots_call env c s o s' :
  slots s → tolerates c (cancels env) = true → (creates c = true → record_of s (uuid env) = None) →
  run_call env c s = (o, s') → slots s'.
Proof.
  intros Hs Ht Hn E. destruct (creates c) eqn:Hc.
  - destruct (created_record env c) as [[rec topic]|] eqn:Hrec; [|by destruct c].
    assert (permit rec = None) as Hp by (destruct c; by simplify_eq/=).
    pose proof (create_spec _ _ _ _ _ _ _ Hrec (Hn eq_refl) E) as H'.
    assert (∀ v, slots ((forget_topic topic s) <| disk := v |>)) as Hf
      by (intros v; apply (slots_same s); [done|by destruct topic..]).
    inversion H'; subst; [|by apply (Hf (disk (forget_topic topic s)))|by apply Hf..].
    assert (∀ e, record_of ((insert_record env rec topic s) <| disk := Holds text |>) e
      = record_of (put (uuid env) rec s) e) as Hi by by destruct topic.
    intros e r p. rewrite Hi, record_put. case_decide; [congruence|].
    assert (limiter ((insert_record env rec topic s) <| disk := Holds text |>) = limiter s) as ->
      by by destruct topic.
    apply Hs.
  - destruct (run_call_spec _ _ _ _ _ Hc E) as [He _]. rewrite Ht in He.
    destruct He as [|r r' text Hr Hp Htext|r r' _ Hr Hp Hv|r r' b l Hno]; [done| | |done];
      by eapply slots_moved.
Qed.

Definition tolerated (x : event * outcome reply) : Prop :=
  match x.1 with Call env c => tolerates c (cancels env) = true | _ => True end.

(** An engagement that ended, by whichever of the four terminal transitions and
    whether or not its row could be written, has given its specialist slot back,
    unless a caller was cancelled more often than its call tolerates. *)
Theorem slots_are_returned file l h s e r p :
  history (fresh_registry file l) h s → one_process h →
  Forall tolerated h →
  record_of s e = Some r → permit r = Some p → terminal r = true → given_back (limiter s) p.
Proof.
  intros Hh Hone Htol Hr Hp Ht. enough (slots s) as Hs by by apply (Hs e r p).
  clear Hr Hp Ht. induction Hh as [|h s1 ev o s2 Hh IH Hl E]; [done|].
  apply one_process_snoc in Hone as [Hone Hb].
  apply Forall_app in Htol as [Htol Hev]. apply Forall_cons in Hev as [Hev _].
  specialize (IH Hone Htol) as Hs.
  destruct ev as [env c|e0 p0|e0 key v|i|i|cs|env]; try done.
  - apply (slots_call env c s1 o s2); [done|exact Hev| |done]. intros Hc. by apply Hl.
  - injection E as _ <-. intros e1 r1 p1 Hr1 Hp1.
    destruct Hl as [Hp0 Hlive0].
    unfold assign in *. destruct (record_of s1 e0) as [r0|] eqn:Hr0; [|by eapply Hs].
    change (record_of (put e0 (r0 <| permit := Some p0 |>) s1) e1 = Some r1) in Hr1.
    change (is_Some (permits (limiter s1) !! p1) ∧ (terminal r1 = true → given_back (limiter s1) p1)).
    rewrite record_put in Hr1. case_decide; [|by eapply Hs].
    injection Hr1 as <-. injection Hp1 as <-. split; [done|].
    change (terminal r0 = true → given_back (limiter s1) p0). by rewrite Hlive0.
  - injection E as _ <-. intros e1 r1 p1 Hr1 Hp1.
    unfold assign in *. destruct (record_of s1 e0) as [r0|] eqn:Hr0; [|by eapply Hs].
    change (record_of (put e0 (r0 <| origin ::= λ o, dset o key v |>) s1) e1 = Some r1) in Hr1.
    change (is_Some (permits (limiter s1) !! p1) ∧ (terminal r1 = true → given_back (limiter s1) p1)).
    rewrite record_put in Hr1. case_decide; [|by eapply Hs].
    injection Hr1 as <-. exact (Hs e0 r0 p1 Hr0 Hp1).
  - injection E as _ <-. apply (slots_same s1); [done|by destruct (abandoned s1 !! i)..].
  - injection E as _ <-. by apply (slots_same s1).
  - injection E as _ <-. intros e1 r1 p1 Hr1 Hp1. destruct (Hs e1 r1 p1 Hr1 Hp1) as [H1 H2].
    destruct (limiter_run_keeps cs (limiter s1) p1) as [K1 K2]. split; [by apply K1|].
    intros Ht. by apply K2, H2.
Qed.
End one_process.

(** ** Concrete runs *)

#[local] Existing Instance no_text.

Abbreviation story_end := (after story boot).
Abbreviation ending_past := (play (story ++ ending) boot).1.
Abbreviation ending_end := (after (story ++ ending) boot).


Lemma one_finalizer_witness :
  wins "a" ending_past = 1%nat ∧ ∃ r, record_of ending_end "a" = Some r ∧ terminal r = true.
Proof.
  pose proof (one_finalizer boot ending_past ending_end "a" (play_history _ _ ending_legal)
    ltac:(by vm_compute)) as (_ & H & _).
  assert (wins "a" ending_past = 1%nat) as E by by vm_compute.
  split; [exact E|exact (H E)].
Defined.


Lemma slots_are_returned_witness : given_back (limiter ending_end) 0.
Proof.
  assert (∃ r, record_of ending_end "a" = Some r ∧ permit r = Some 0%nat ∧ terminal r = true)
    as (r & Hr & Hp & Ht) by (eexists; split_and!; by vm_compute).
  refine (slots_are_returned Missing two_slots ending_past ending_end "a" r 0
    (play_history _ _ ending_legal) ltac:(by vm_compute) _ Hr Hp Ht).
  apply (play_forall (λ ev, match ev with Call env c => tolerates c (cancels env) = true | _ => True end)).
  repeat (constructor; [done|]). constructor.
Defined.
