(* ===== verification/EngagementReload.v ===== *)
(** * The engagement registry: what a restart finds

    A row read back is the record that was written, without its live objects; a
    registry loaded from the file another one wrote has the same engagements, the
    active ones idle. *)

From S2P Require Import Prelude PyDict Json JsonOps VoiceResult SpecialistLimits Engagement EngagementRegistry EngagementCalls EngagementEffects EngagementHistory EngagementScenario.
#[local] Open Scope Z_scope.

(** ** Rows *)

(** What every record made by [create] or [load] satisfies. *)
Record sane (key : json) (r : EngagementRecord) : Prop := {
  sn_id : id_ r = key ∧ ∃ e, key = JStr e;
  sn_number : 1 ≤ next_question_number r;
  sn_mode : json_or (permission_mode r) (JStr "acceptEdits") = permission_mode r;
  sn_state : json_or (interaction_state r) (JStr "") = interaction_state r;
  sn_title : json_or (topic_title r) (JStr "") = topic_title r;
  sn_token : str_true (auth_token r) && is_ascii (auth_token r) = true;
  sn_topic : hashable (topic_id r) = Ok tt;
  sn_artifacts : ∃ l, plugin_artifacts r = JObj <$> l
}.

(** The record a row gives back. *)
Definition reread (r : EngagementRecord) : EngagementRecord :=
  r <| origin ::= _persistable_origin |> <| permit := None |>.

(** And what [load] makes of it. *)
Definition restarted (r : EngagementRecord) : EngagementRecord :=
  (reread r) <| status := if bool_decide (status r = JStr "active") then JStr "idle" else status r |>.

Lemma map_dict_objects (l : list question) :
  map_outcome (λ pa, let* d := dict_of pa in Ok (JObj d)) (JObj <$> l) = Ok (JObj <$> l).
Proof. induction l as [|d l IH]; [done|]. cbn [map_outcome fmap list_fmap dict_of mbind outcome_bind]. by rewrite IH. Qed.

Lemma dict_of_objects (l : list question) : map_outcome dict_of (JObj <$> l) = Ok l.
Proof. induction l as [|d l IH]; [done|]. cbn [map_outcome fmap list_fmap dict_of mbind outcome_bind]. by rewrite IH. Qed.

Lemma dumps_origin_ok o v :
  dumps_origin o = Ok v → ∃ l, v = JObj l ∧ (λ p, (p.1, PJson p.2)) <$> l = o.
Proof.
  unfold dumps_origin. intros E. apply outcome_bind_ok in E as (l & E & [= <-]).
  exists l. split; [done|]. revert l E. induction o as [|[k []] o IH]; intros l; cbn.
  - by intros [= <-].
  - intros E. apply outcome_bind_ok in E as (l' & E & [= <-]). cbn. by rewrite (IH _ E).
  - done.
Qed.

Lemma iter_list (l : list json) : json_iter_or_empty (JList l) = Ok l.
Proof. by destruct l. Qed.

Section decode.
Context `{PyText}.

Lemma int_or n d : n ≠ 0 → to_int (json_or (JInt n) d) = Ok n.
Proof. intros Hn. unfold json_or. cbn. destruct (Z.eqb_spec n 0); [done|]. done. Qed.

Lemma int_or_zero n : to_int (json_or (JInt n) (JInt 0)) = Ok n.
Proof. unfold json_or. cbn. destruct (Z.eqb_spec n 0); [by subst|]. done. Qed.

Lemma decode_written key r row o :
  sane key r → row_of r = Ok row → dumps_origin (_persistable_origin (origin r)) = Ok o →
  decode_row (row o) = Ok (reread r).
Proof.
  intros [Hid Hn Hm Hi Htt Htk _ [pas Hpas]] Hrow (ol & -> & Ho)%dumps_origin_ok.
  unfold row_of in Hrow. rewrite Hpas, map_dict_objects in Hrow. injection Hrow as <-.
  unfold decode_row, obj_get_or. row_lookups. cbn [mbind outcome_bind to_float].
  rewrite !iter_list. cbn [mbind outcome_bind].
  assert (dict_of (json_or (JObj ol) (JObj [])) = Ok ol) as -> by by destruct ol.
  cbn [mbind outcome_bind]. rewrite (int_or (next_question_number r)) by lia. cbn [mbind outcome_bind].
  rewrite dict_of_objects. cbn [mbind outcome_bind]. rewrite (int_or_zero (summary_revision r)). cbn [mbind outcome_bind].
  rewrite Ho, Hm, Hi, Htt. unfold _valid_token_or_blank. rewrite Htk, <-Hpas.
  by destruct r.
Qed.
End decode.

(** ** Snapshots *)

(** The items a snapshot taken at [t] keeps. *)
Definition gone (t : Z) (r : EngagementRecord) : bool :=
  match aged_out t r with Ok b => b | Raise _ => false end.

Definition kept (t : Z) (d : list (json * EngagementRecord)) : list (json * EngagementRecord) :=
  filter (λ kr, gone t kr.2 = false) d.

Definition wf_records (d : list (json * EngagementRecord)) : Prop :=
  wf_dict d ∧ ∀ key r, (key, r) ∈ d → sane key r.

(** The row [v] was written for [r]. *)
Definition written (r : EngagementRecord) (v : json) : Prop :=
  ∃ row o, row_of r = Ok row ∧ dumps_origin (_persistable_origin (origin r)) = Ok o ∧ v = row o.

Lemma snapshot_written t d rows :
  snapshot_of t (dvals d) = Ok rows →
  ∀ l, map_outcome dumps_row rows = Ok l → Forall2 (λ kr v, written kr.2 v) (kept t d) l.
Proof.
  revert rows. induction d as [|[k r] d IH]; intros rows.
  { intros [= <-] l [= <-]. constructor. }
  change (dvals ((k, r) :: d)) with (r :: dvals d). cbn [snapshot_of].
  intros E l El. apply outcome_bind_ok in E as (old & Hold & E).
  unfold kept. destruct old.
  { rewrite filter_cons_False by (cbn; unfold gone; by rewrite Hold). by eapply IH. }
  rewrite filter_cons_True by (cbn; unfold gone; by rewrite Hold).
  apply outcome_bind_ok in E as (row & Hrow & E). apply outcome_bind_ok in E as (rs & Hrs & [= <-]).
  cbn in El. apply outcome_bind_ok in El as (v & Hv & El). apply outcome_bind_ok in El as (vs & Hvs & [= <-]).
  constructor; [|by eapply IH].
  unfold dumps_row in Hv. apply outcome_bind_ok in Hv as (o & Ho & [= <-]). by exists row, o.
Qed.

Lemma text_written t s text :
  text_of t s = Ok text →
  ∃ l, text = JList l ∧ Forall2 (λ kr v, written kr.2 v) (kept t (_records s)) l.
Proof.
  unfold text_of, dumps. intros E. apply outcome_bind_ok in E as (rows & Hr & E).
  apply outcome_bind_ok in E as (l & Hl & [= <-]). exists l. split; [done|].
  by eapply snapshot_written.
Qed.

(** Whether a snapshot can be taken does not depend on the clock. *)
Lemma aged_out_any t t' r b : aged_out t r = Ok b → ∃ b', aged_out t' r = Ok b'.
Proof.
  unfold aged_out. case_match; [|eauto].
  destruct (completed_at r); cbn; eauto; done.
Qed.

Lemma snapshot_can t recs :
  (∀ r, r ∈ recs → (∃ b, aged_out t r = Ok b) ∧ ∃ l, plugin_artifacts r = JObj <$> l) →
  ∃ rows, snapshot_of t recs = Ok rows.
Proof.
  induction recs as [|r recs IH]; intros H; cbn; [eauto|].
  destruct (H r ltac:(left)) as [[b ->] [l Hl]].
  destruct IH as [rows Hrows]; [intros; apply H; by right|].
  destruct b; cbn; [eauto|]. unfold row_of. rewrite Hl, map_dict_objects. cbn. rewrite Hrows. eauto.
Qed.

Lemma snapshot_could t recs rows r :
  snapshot_of t recs = Ok rows → r ∈ recs → ∃ b, aged_out t r = Ok b.
Proof.
  revert rows. induction recs as [|r' recs IH]; intros rows E; [by intros ?%not_elem_of_nil|].
  cbn in E. apply outcome_bind_ok in E as (b & Hb & E).
  intros [->|Hr]%elem_of_cons; [eauto|]. destruct b; [by eapply IH|].
  apply outcome_bind_ok in E as (row & _ & E). apply outcome_bind_ok in E as (rs & E & _). by eapply IH.
Qed.

(** ** Loading *)

Definition is_active (r : EngagementRecord) : bool := bool_decide (status r = JStr "active").

Section loading.
Context `{PyText} (env : Env).

Lemma reconcile_reread key r :
  sane key r → reconcile (reread r) = Ok (is_active r, restarted r).
Proof.
  intros Hs. destruct (sn_id _ _ Hs) as [Hid [e He]].
  unfold reconcile, restarted, is_active. change (status (reread r)) with (status r).
  case_bool_decide as Ha.
  - change (id_ (reread r)) with (id_ r). by rewrite Hid, He.
  - done.
Qed.

Lemma backfill_restarted key n r : sane key r → backfill env n (restarted r) = (false, restarted r).
Proof.
  intros Hs. unfold backfill. change (auth_token (restarted r)) with (auth_token r).
  pose proof (sn_token _ _ Hs) as Ht. by apply andb_prop in Ht as [-> _].
Qed.

Lemma index_restarted key r s :
  sane key r → dget (_records s) key = None →
  ∃ idx, index_record (restarted r) s
    = (Ok tt, mkRegistry (_records s ++ [(key, restarted r)]) idx (disk s) (abandoned s) (limiter s)).
Proof.
  intros Hs Hn. destruct (sn_id _ _ Hs) as [Hid [e He]]. unfold index_record.
  change (id_ (restarted r)) with (id_ r). change (topic_id (restarted r)) with (topic_id r).
  rewrite Hid. assert (hashable key = Ok tt) as -> by by rewrite He.
  unfold mbind, pym_bind, lift. cbn [modify].
  rewrite <-(dset_new _ _ (restarted r) Hn). case_bool_decide.
  - exists (_topic_index s). by destruct s.
  - unfold mbind, pym_bind. rewrite (sn_topic _ _ Hs). eexists. by destruct s.
Qed.

Lemma load_rows_written d l n b s :
  wf_records d → Forall2 (λ kr v, written kr.2 v) d l →
  (∀ key, key ∈ dkeys d → dget (_records s) key = None) →
  ∃ idx, load_rows env l n b s
    = (Ok (b || existsb is_active (dvals d)),
       mkRegistry (_records s ++ dmap restarted d) idx (disk s) (abandoned s) (limiter s)).
Proof.
  intros [Hwf Hsane] Hl. revert n b s Hwf Hsane.
  induction Hl as [|[key r] v d l (row & o & Hrow & Ho & ->) Hl IH]; intros n b s Hwf Hsane Hn.
  { exists (_topic_index s). cbn. rewrite orb_false_r, app_nil_r. by destruct s. }
  assert (sane key r) as Hs by (apply Hsane; left). cbn in Hrow, Ho.
  cbn [load_rows]. rewrite (decode_written key r row o Hs Hrow Ho).
  rewrite (reconcile_reread key r Hs). unfold mbind at 1, pym_bind, lift. cbn [snd].
  rewrite (backfill_restarted key n r Hs). cbn [fst snd].
  destruct (index_restarted key r s Hs) as [idx E]; [apply Hn; left|].
  unfold mbind, pym_bind. rewrite E.
  apply NoDup_cons in Hwf as [Hk Hwf].
  destruct (IH n ((b || is_active r) || false)
    (mkRegistry (_records s ++ [(key, restarted r)]) idx (disk s) (abandoned s) (limiter s)))
    as [idx' E']; [done| | |].
  - intros k' r' Hin. apply Hsane. by right.
  - intros k' Hk'. cbn [_records]. apply dget_None. unfold dkeys. rewrite fmap_app, elem_of_app. cbn.
    intros [Hin|Hin%list_elem_of_singleton]; [|by subst].
    revert Hin. apply dget_None, Hn. by right.
  - exists idx'. rewrite E'. cbn. rewrite orb_false_r, orb_assoc, <-app_assoc. done.
Qed.

Lemma existsb_fmap {A B} (f : A → B) p (l : list A) : existsb p (f <$> l) = existsb (λ x, p (f x)) l.
Proof. induction l as [|x l IH]; [done|]. csimpl. by rewrite IH. Qed.

Lemma terminal_restarted r : terminal (restarted r) = terminal r.
Proof.
  unfold terminal, restarted. change (status (update status _ _)) with
    (if bool_decide (status r = JStr "active") then JStr "idle" else status r).
  case_bool_decide as Ha; [by rewrite Ha|done].
Qed.

Lemma aged_restarted t r : aged_out t (restarted r) = aged_out t r.
Proof. unfold aged_out. by rewrite terminal_restarted. Qed.

Lemma sane_restarted key r : sane key r → sane key (restarted r).
Proof. by intros []; split. Qed.

Lemma kept_sub t d kr : kr ∈ kept t d → kr ∈ d.
Proof. intros Hin. by apply list_elem_of_filter in Hin as [_ ?]. Qed.

Lemma kept_wf t d : wf_records d → wf_records (kept t d).
Proof.
  intros [Hd Hs]. split; [by apply wf_filter|]. intros key r Hin. by apply Hs, (kept_sub t).
Qed.

Lemma restarted_wf d : wf_records d → wf_records (dmap restarted d).
Proof.
  intros [Hd Hs]. split; [by apply wf_dmap|]. intros key r Hin.
  apply list_elem_of_fmap in Hin as ([k r'] & [= -> ->] & Hin). by apply sane_restarted, Hs.
Qed.

(** C37: A restart finds what the last write left: from the snapshot a well-formed
    registry wrote, [load] succeeds, whatever the file system does, and gives
    exactly the engagements that had not aged out, in order and with every field,
    except that an active engagement is idle, an origin has lost its live objects,
    and a permit is gone; the file is the snapshot of the old memory or of the
    new one. *)
Theorem restart_keeps_engagements s t text l :
  wf_records (_records s) → text_of t s = Ok text → readable env = true → cancels env = 0%nat →
  ∃ s', load env (fresh_registry (Holds text) l) = (Ok tt, s')
    ∧ _records s' = dmap restarted (kept t (_records s))
    ∧ (disk s' = Holds text ∨ ∃ text', text_of (now env) s' = Ok text' ∧ disk s' = Holds text')
    ∧ abandoned s' = [] ∧ limiter s' = l.
Proof.
  intros Hwf Htext Hread Hc.
  destruct (text_written _ _ _ Htext) as (rows & -> & Hrows).
  destruct (load_rows_written (kept t (_records s)) rows 0 false (fresh_registry (Holds (JList rows)) l))
    as [idx E]; [by apply kept_wf|done|done|].
  unfold load, mbind at 1, pym_bind, get. cbn [disk fresh_registry]. rewrite Hread. cbn [negb].
  unfold mbind, pym_bind. rewrite E. cbn [orb].
  set (s1 := mkRegistry _ _ _ _ _).
  destruct (existsb is_active (dvals (kept t (_records s)))); [|by exists s1; eauto 6].
  assert (∃ rs, snapshot_of (now env) (dvals (_records s1)) = Ok rs) as [rs Hrs].
  { apply snapshot_can. intros r Hr. apply list_elem_of_fmap in Hr as ([k r'] & -> & Hr).
    apply list_elem_of_fmap in Hr as ([k' r0] & [= -> ->] & Hr). cbn.
    apply kept_sub in Hr. split.
    - rewrite aged_restarted.
      unfold text_of in Htext. apply outcome_bind_ok in Htext as (rs & Hrs & _).
      destruct (snapshot_could _ _ _ r0 Hrs) as [b Hb]; [|by eapply aged_out_any].
      apply list_elem_of_fmap. by exists (k', r0).
    - by apply (sn_artifacts _ _ (proj2 Hwf k' r0 Hr)). }
  unfold bare_write, _write_tombstone_locked. rewrite Hc. cbn [Nat.ltb Nat.leb].
  unfold mbind at 1, pym_bind, get. unfold mbind, pym_bind. rewrite Hrs. cbn [lift].
  unfold try_except, _write_tombstone, mbind, pym_bind, lift.
  destruct (dumps rs) as [text'|x] eqn:Hd.
  - unfold raise_when. destruct (write_ok env); cbn; [|by exists s1; eauto 6].
    eexists. split; [done|]. split; [done|]. split; [|done]. right. exists text'.
    split; [|done]. rewrite <-Hd.
    change (mbind dumps (snapshot_of (now env) (dvals (_records s1))) = dumps rs). by rewrite Hrs.
  - rewrite (dumps_raises _ _ Hd). exists s1. eauto 6.
Qed.
End loading.

(** ** A concrete restart *)

#[local] Existing Instance no_text.

Lemma story_wf : wf_records (_records (after story boot)).
Proof.
  assert (∃ r, _records (after story boot) = [(JStr "a", r)] ∧ sane (JStr "a") r) as (r & -> & Hs).
  { eexists. split; [vm_compute; reflexivity|]. split; vm_compute; eauto; try done. by exists []. }
  split; [apply NoDup_singleton|]. by intros key r' [= -> ->]%list_elem_of_singleton.
Qed.

Lemma restart_keeps_engagements_witness :
  ∃ s', (load (fine 9 "") (fresh_registry (disk (after story boot)) two_slots)) = (Ok tt, s')
    ∧ (status <$> record_of s' "a") = Some (JStr "idle").
Proof.
  assert (∃ text, text_of (seconds 4) (after story boot) = Ok text ∧ disk (after story boot) = Holds text)
    as (text & Ht & Hd) by (eexists; split; by vm_compute).
  destruct (restart_keeps_engagements (fine 9 "") (after story boot) (seconds 4) text two_slots
    story_wf Ht eq_refl eq_refl) as (s' & Hl & Hr & _).
  exists s'. rewrite Hd. split; [exact Hl|].
  unfold record_of. rewrite Hr. by vm_compute.
Defined.
