(* ===== verification/EngagementDurable.v ===== *)
(** * The engagement registry: what survives a crash

    The invariant that relates memory to the file over any history in which no
    write is left behind: the file is the snapshot of an earlier memory that agrees
    with the current one on everything a strict call promised.  From it: a crash
    loses none of that, and question and revision numbers are never issued twice. *)

From S2P Require Import Prelude PyDict Json JsonOps VoiceResult SpecialistLimits Engagement EngagementRegistry EngagementCalls EngagementEffects EngagementHistory EngagementScenario EngagementReload.
#[local] Open Scope Z_scope.

(** What a record was created with, its permit apart. *)
Definition identity (r : EngagementRecord) :=
  (id_ r, kind r, role_or_type r, driver r, topic_id r, started_at r, task r, auth_token r,
   tools_allowed r, permission_mode r, plugin_artifacts r, topic_title r).

(** The earlier record [r0] promises what [r] needs. *)
Definition promises (r0 r : EngagementRecord) : Prop :=
  view r0 = view r ∧ identity r0 = identity r
  ∧ (terminal r0 = true → terminal r = true ∧ completed_at r = completed_at r0).

(** The file is the snapshot of [base]. *)
Definition based (file : Tombstone) (base : list (json * EngagementRecord)) : Prop :=
  (file = Missing ∧ base = [])
  ∨ ∃ t s text, _records s = base ∧ text_of t s = Ok text ∧ file = Holds text.

Record durable (s : EngagementRegistry) (base : list (json * EngagementRecord)) : Prop := {
  du_base : based (disk s) base;
  du_wf_base : wf_records base;
  du_wf : wf_records (_records s);
  du_covers : ∀ e r, record_of s e = Some r → ∃ r0, dget base (JStr e) = Some r0 ∧ promises r0 r;
  du_settled : abandoned s = []
}.

(** Nobody is cancelled beyond what their call tolerates, and restarts can read
    the file.  Tokens are non-empty ASCII text. *)
Definition calm (ev : event) : Prop :=
  match ev with
  | Call env c =>
    tolerates c (cancels env) = true
    ∧ (creates c = true → str_true (token env 0) && is_ascii (token env 0) = true)
  | Reboot env => readable env = true ∧ cancels env = 0%nat
  | _ => True
  end.

Lemma promises_refl r : promises r r.
Proof. done. Qed.

Lemma progress_promises r0 r r' : promises r0 r → progress r r' → view r' = view r → promises r0 r'.
Proof.
  intros (Hv & Hi & Ht) Hp Hv'. split_and!; [congruence| |].
  - rewrite Hi. pose proof (pr_birth _ _ Hp) as Hb. unfold birth in Hb. unfold identity. congruence.
  - intros H0. destruct (Ht H0) as [Ht1 Hc]. destruct (pr_terminal _ _ Hp Ht1) as [Hs Hc'].
    unfold terminal. rewrite Hs, Hc'. done.
Qed.

Lemma sane_progress key r r' : sane key r → progress r r' → sane key r'.
Proof.
  intros [Hid Hn Hm Hst Htt Htk Htp Ha] Hp.
  pose proof (pr_birth _ _ Hp) as Hb. unfold birth in Hb. injection Hb as E1 _ _ _ E2 _ _ E3 _ E4 E5 _ E6.
  split; rewrite ?E1, ?E2, ?E3, ?E4, ?E5, ?E6; try done.
  - pose proof (pr_number _ _ Hp). lia.
  - destruct (pr_interaction _ _ Hp) as [<-|(ev & st & Hev & ->)]; [done|].
    unfold _pure_interaction_transition in Hev. repeat case_match; by simplify_eq.
Qed.

Lemma wf_put e r r' d :
  wf_records d → dget d (JStr e) = Some r → (∀ k, sane k r → sane k r') →
  wf_records (dset d (JStr e) r').
Proof.
  intros [Hd Hs] Hr Hr'. split; [by apply wf_dset|]. intros k r1 Hin.
  apply elem_dget in Hin; [|by apply wf_dset]. rewrite dget_dset in Hin.
  case_decide; [|by apply Hs, dget_elem]. simplify_eq. by apply Hr', Hs, dget_elem.
Qed.

Lemma based_saved t s text : text_of t s = Ok text → based (Holds text) (_records s).
Proof. intros Htext. right. by exists t, s, text. Qed.

(** A registry whose file was just written. *)
Lemma durable_saved t s :
  wf_records (_records s) → (∃ text, text_of t s = Ok text ∧ disk s = Holds text) →
  abandoned s = [] → durable s (_records s).
Proof.
  intros Hwf (text & Htext & Hd) Ha. split; [|done..|by eauto using promises_refl|done].
  rewrite Hd. by eapply based_saved.
Qed.

(** A registry whose memory changed but not its file. *)
Lemma durable_kept s base e r r' :
  durable s base → record_of s e = Some r → (∀ k, sane k r → sane k r') →
  (∀ r0, promises r0 r → promises r0 r') → durable (put e r' s) base.
Proof.
  intros [Hb Hwb Hw Hc Ha] Hr Hs Hp. split; [done|done|by eapply wf_put|  |done].
  intros e1 r1. rewrite record_put. case_decide; [|by apply Hc]. intros [= <-]. subst.
  destruct (Hc e r Hr) as (r0 & ? & ?). eauto.
Qed.

(** The limiter plays no part. *)
Lemma durable_same s s' base :
  durable s base → _records s' = _records s → disk s' = disk s → abandoned s' = abandoned s →
  durable s' base.
Proof.
  intros [Hb Hwb Hw Hc Ha] Hr Hd Hab. split; [by rewrite Hd|done|by rewrite Hr| |by rewrite Hab].
  intros e r. unfold record_of. rewrite Hr. apply Hc.
Qed.

(** ** Lineage *)

(** [r'] is the later state of a record of memory or file, for a field that no
    step lowers. *)
Definition known (s : EngagementRegistry) (base : list (json * EngagementRecord)) (e : string)
    (r : EngagementRecord) : Prop :=
  record_of s e = Some r ∨ dget base (JStr e) = Some r.

Definition older (r r' : EngagementRecord) : Prop :=
  next_question_number r ≤ next_question_number r' ∧ summary_revision r ≤ summary_revision r'.

Definition lineage (s : EngagementRegistry) base (s' : EngagementRegistry) base' (new : string → Prop) : Prop :=
  ∀ e r', known s' base' e r' → new e ∨ ∃ r, known s base e r ∧ older r r'.

Lemma older_refl r : older r r.
Proof. by split. Qed.

Lemma progress_older r r' : progress r r' → older r r'.
Proof. intros Hp. split; [apply (pr_number _ _ Hp)|apply (pr_revision _ _ Hp)]. Qed.

Lemma lineage_memory s base s' base' new :
  (∀ e r', record_of s' e = Some r' → new e ∨ ∃ r, known s base e r ∧ older r r') →
  base' = base ∨ base' = _records s' → lineage s base s' base' new.
Proof.
  intros Hm Hb e r' [Hr|Hr]; [by apply Hm|]. destruct Hb as [->| ->]; [|by apply Hm].
  right. exists r'. split; [by right|apply older_refl].
Qed.

Lemma lineage_put s base s' base' e r r' new :
  record_of s e = Some r → older r r' → (∀ e1, record_of s' e1 = record_of (put e r' s) e1) →
  base' = base ∨ base' = _records s' → lineage s base s' base' new.
Proof.
  intros Hr Ho Hs' Hb. apply lineage_memory; [|done]. intros e1 r1. rewrite Hs', record_put.
  case_decide; [intros [= <-]; subst; right; exists r; split; [by left|done]|].
  intros Hr1. right. exists r1. split; [by left|apply older_refl].
Qed.

Lemma lineage_same s base s' new :
  _records s' = _records s → lineage s base s' base new.
Proof.
  intros E. apply lineage_memory; [|by left]. intros e r Hr. right. exists r.
  split; [left; unfold record_of in *; congruence|apply older_refl].
Qed.

(** ** Steps *)

Lemma call_durable env c s base o s' new :
  creates c = false → tolerates c (cancels env) = true → durable s base →
  run_call env c s = (o, s') →
  ∃ base', durable s' base' ∧ lineage s base s' base' new
    ∧ (base' = base ∨ base' = _records s').
Proof.
  intros Hc Ht Hd E. destruct (run_call_spec _ _ _ _ _ Hc E) as [He _]. rewrite Ht in He.
  destruct He as [|r r' text Hr Hp Htext|r r' _ Hr Hp Hv|r r' b l Hno]; [| | |done].
  - exists base. split_and!; [done|by apply lineage_same|by left].
  - eexists. split_and!; [|by eapply (lineage_put _ _ _ _ _ r r'); [done|by apply progress_older|done|right]|by right].
    apply (durable_saved (now env)); [|by exists text|by destruct Hd].
    apply (wf_put _ r); [by destruct Hd|done|]. intros k Hk. by eapply sane_progress.
  - exists base. split_and!; [|by eapply (lineage_put _ _ _ _ _ r r'); [done|by apply progress_older|done|left]|by left].
    apply (durable_same (put (target env c) r' s)); [|done..].
    eapply durable_kept; [done..| |].
    + intros k Hk. by eapply sane_progress.
    + intros r0 H0. by eapply progress_promises.
Qed.

Lemma sane_new env c rec topic :
  created_record env c = Some (rec, topic) →
  str_true (token env 0) && is_ascii (token env 0) = true →
  sane (JStr (uuid env)) rec.
Proof.
  intros Hc Htok. destruct c; try done. injection Hc as <- <-. split; cbn.
  - by eauto.
  - done.
  - unfold json_or. cbn. by destruct (str_true permission_mode) eqn:E; rewrite ?E.
  - unfold json_or. cbn. unfold str_true. by case_bool_decide; subst.
  - unfold json_or. cbn. unfold str_true. by case_bool_decide; subst.
  - done.
  - by destruct topic_id.
  - by exists plugin_artifacts.
Qed.

Lemma wf_insert d e rec :
  wf_records d → sane (JStr e) rec → wf_records (dset d (JStr e) rec).
Proof.
  intros [Hd Hs] Hr. split; [by apply wf_dset|]. intros k r1 Hin.
  apply elem_dget in Hin; [|by apply wf_dset]. rewrite dget_dset in Hin.
  case_decide; [by simplify_eq|by apply Hs, dget_elem].
Qed.

Lemma create_durable env c rec topic s base o s' :
  created_record env c = Some (rec, topic) → record_of s (uuid env) = None →
  str_true (token env 0) && is_ascii (token env 0) = true → durable s base →
  run_call env c s = (o, s') →
  ∃ base', durable s' base' ∧ lineage s base s' base' (λ e, e = uuid env).
Proof.
  intros Hc Hn Htok Hd E. pose proof (create_spec _ _ _ _ _ _ _ Hc Hn E) as Hs.
  pose proof (sane_new _ _ _ _ Hc Htok) as Hsane.
  assert (∀ v, _records ((forget_topic topic s) <| disk := v |>) = _records s) as Hf by by destruct topic.
  assert (_records (insert_record env rec topic s) = dset (_records s) (JStr (uuid env)) rec) as Hi
    by by destruct topic.
  assert (wf_records (_records (insert_record env rec topic s))) as Hwi.
  { rewrite Hi. apply wf_insert; [by destruct Hd|done]. }
  assert (∀ e r, dget (_records (insert_record env rec topic s)) (JStr e) = Some r →
    e = uuid env ∨ ∃ r0, known s base e r0 ∧ older r0 r) as Hl.
  { intros e r. rewrite Hi, dget_dset. case_decide as He; [injection He as ->; by left|].
    intros Hr. right. exists r. split; [by left|apply older_refl]. }
  inversion Hs as [text ? Htext Ho|x Ho|text Hu Htext Ho|text Htext Ho]; clear Hs.
  - exists (_records ((insert_record env rec topic s) <| disk := Holds text |>)). split.
    + apply (durable_saved (now env) ((insert_record env rec topic s) <| disk := Holds text |>));
        [done|by exists text|]. by destruct topic, Hd.
    + by apply lineage_memory; [|right].
  - exists base. split; [|apply lineage_same; by destruct topic].
    by apply (durable_same s); [|destruct topic..].
  - exists (_records (insert_record env rec topic s)). split.
    + destruct Hd as [Hb Hwb Hw Hcov Ha]. split; [|done|by rewrite Hf| |by destruct topic].
      * by eapply based_saved.
      * intros e r Hr. unfold record_of in Hr. rewrite Hf in Hr. exists r. split; [|done].
        rewrite Hi, dget_dset_ne; [done|]. intros [= ->]. unfold record_of in Hn. congruence.
    + intros e r [Hr|Hr]; [|by apply Hl]. unfold record_of in Hr. rewrite Hf in Hr.
      right. exists r. split; [by left|apply older_refl].
  - exists (_records s). split.
    + rewrite <-(Hf (Holds text)). apply (durable_saved (now env)).
      * rewrite Hf. by destruct Hd.
      * exists text. split; [|done]. by destruct topic.
      * by destruct topic, Hd.
    + apply lineage_memory; [|right; by rewrite Hf]. intros e r Hr. unfold record_of in Hr. rewrite Hf in Hr.
      right. exists r. split; [by left|apply older_refl].
Qed.

Lemma restarted_promises r : promises r (restarted r).
Proof.
  split_and!; [done|done|]. intros Ht. by rewrite terminal_restarted.
Qed.

Lemma kept_lookup t d e r :
  wf_dict d → dget (dmap restarted (kept t d)) (JStr e) = Some r ↔
  ∃ r0, dget d (JStr e) = Some r0 ∧ gone t r0 = false ∧ r = restarted r0.
Proof.
  intros Hd. rewrite dget_dmap, fmap_Some. split.
  - intros (r0 & Hr0 & ->). apply dget_filter in Hr0 as [? ?]; [|done]. eauto.
  - intros (r0 & Hr0 & Hg & ->). exists r0. split; [|done]. by apply dget_filter.
Qed.

Section steps.
Context `{PyText}.

(** A restart of a durable registry. *)
Lemma reboot_durable env s base o s' :
  readable env = true → cancels env = 0%nat → durable s base → happens (Reboot env) s = (o, s') →
  o = Ok RNone ∧ (∃ base', durable s' base' ∧ (base' = base ∨ base' = _records s'))
  ∧ ((base = [] ∧ _records s' = [])
     ∨ ∃ t, ∀ e r, record_of s' e = Some r ↔
         ∃ r0, dget base (JStr e) = Some r0 ∧ gone t r0 = false ∧ r = restarted r0).
Proof.
  intros Hread Hcan Hd E. cbn in E. unfold reply_with, mbind, pym_bind in E.
  set (l := mkLimiter _ _ _ _) in E.
  destruct (du_base _ _ Hd) as [[Hdisk ->]|(t & s0 & text & <- & Htext & Hdisk)]; rewrite Hdisk in E.
  - injection E as <- <-. split_and!; [done| |by left].
    exists []. split; [|by left]. split; [by left|by destruct Hd| |done|done].
    split; [apply wf_nil|by intros ? ? ?%not_elem_of_nil].
  - pose proof (du_wf_base _ _ Hd) as Hwf.
    destruct (restart_keeps_engagements env s0 t text l Hwf Htext Hread Hcan)
      as (s1 & El & Hr & Hdk & Ha & _).
    rewrite El in E. injection E as <- <-.
    assert (∀ e r, record_of s1 e = Some r ↔
      ∃ r0, dget (_records s0) (JStr e) = Some r0 ∧ gone t r0 = false ∧ r = restarted r0) as Hk.
    { intros e r. unfold record_of. rewrite Hr. apply kept_lookup, Hwf. }
    assert (wf_records (_records s1)) as Hwf1 by (rewrite Hr; by apply restarted_wf, kept_wf).
    split_and!; [done| |right; by exists t].
    destruct Hdk as [Hdk|Hdk].
    + exists (_records s0). split; [|by left]. split; [|done..| |done].
      * rewrite Hdk. by eapply based_saved.
      * intros e r (r0 & ? & _ & ->)%Hk. eauto using restarted_promises.
    + exists (_records s1). split; [|by right]. by eapply durable_saved.
Qed.

Definition mentions_new (ev : event) (e : string) : Prop :=
  match ev with Call env c => creates c = true ∧ e = uuid env | _ => False end.

Lemma assign_durable s base e f :
  durable s base →
  (∀ r k, sane k r → sane k (f r)) → (∀ r0 r, promises r0 r → promises r0 (f r)) →
  (∀ r, older r (f r)) →
  durable (assign e f s) base ∧ ∀ new, lineage s base (assign e f s) base new.
Proof.
  intros Hd Hs Hp Ho. unfold assign. destruct (record_of s e) as [r|] eqn:Hr.
  - split; [by eapply durable_kept; eauto|]. intros new.
    by eapply (lineage_put _ _ _ _ e r (f r)); [..|left].
  - split; [done|]. intros new. by apply lineage_same.
Qed.

Lemma event_durable h ev s base o s' :
  legal h ev s → calm ev → durable s base → happens ev s = (o, s') →
  ∃ base', durable s' base' ∧ lineage s base s' base' (mentions_new ev)
    ∧ (match ev with Call _ c => creates c | _ => true end = false → base' = base ∨ base' = _records s').
Proof.
  intros Hl Hc Hd E. destruct ev as [env c|e p|e key v|i|i|cs|env].
  - destruct Hc as [Ht Htok]. destruct (creates c) eqn:Hcr.
    + destruct (Hl Hcr) as [_ Hn].
      destruct (created_record env c) as [[rec topic]|] eqn:Hrec; [|by destruct c].
      destruct (create_durable _ _ _ _ _ _ _ _ Hrec Hn (Htok eq_refl) Hd E) as (b & ? & Hlin).
      exists b. split_and!; [done| |done]. intros e r Hk. destruct (Hlin e r Hk) as [->|?]; [left|by right].
      done.
    + destruct (call_durable _ _ _ _ _ _ (mentions_new (Call env c)) Hcr Ht Hd E) as (b & ? & ? & ?).
      by exists b.
  - injection E as _ <-. exists base.
    destruct (assign_durable s base e (λ r, r <| permit := Some p |>) Hd) as [? ?]; [by intros ? ? []; split|done|done|].
    by split_and!.
  - injection E as _ <-. exists base.
    destruct (assign_durable s base e (λ r, r <| origin ::= λ o, dset o key v |>) Hd) as [? ?];
      [by intros ? ? []; split|done|done|]. by split_and!.
  - injection E as _ <-. rewrite (du_settled _ _ Hd). exists base.
    split_and!; [done|by apply lineage_same|by left].
  - injection E as _ <-. exists base. split_and!; [|by apply lineage_same|by left].
    apply (durable_same s); try done. cbn. rewrite (du_settled _ _ Hd). done.
  - injection E as _ <-. exists base. split_and!; [by apply (durable_same s)|by apply lineage_same|by left].
  - destruct Hc as [Hread Hcan].
    destruct (reboot_durable _ _ _ _ _ Hread Hcan Hd E) as (_ & (b & Hb & Hor) & Hk).
    exists b. split_and!; [done| |done]. apply lineage_memory; [|done].
    intros e r Hr. destruct Hk as [[_ Hk]|[t Hk]]; [unfold record_of in Hr; by rewrite Hk in Hr|].
    apply Hk in Hr as (r0 & ? & _ & ->). right. exists r0. split; [by right|done].
Qed.

Abbreviation past := (list (event * outcome reply)).

(** A history from the first start of the program, all calm. *)
Definition calm_history (l : SpecialistLimiter) (h : past) (s : EngagementRegistry) : Prop :=
  history (fresh_registry Missing l) h s ∧ Forall (λ x, calm x.1) h.

Lemma first_durable l : durable (fresh_registry Missing l) [].
Proof.
  assert (wf_records []) as Hwf by (split; [apply wf_nil|by intros ? ? ?%not_elem_of_nil]).
  by split; [left| | | |].
Qed.

Lemma calm_durable l h s : calm_history l h s → ∃ base, durable s base.
Proof.
  intros [Hh Hc]. induction Hh as [|h s1 ev o s2 Hh IH Hl E]; [eauto using first_durable|].
  apply Forall_app in Hc as [Hc Hev]. apply Forall_cons in Hev as [Hev _]. destruct (IH Hc) as [b Hb].
  destruct (event_durable _ _ _ _ _ _ Hl Hev Hb E) as (b' & ? & _). eauto.
Qed.


(** ** Counters *)

Definition number_issued (e : string) (x : event * outcome reply) : option Z :=
  match x with
  | (Call _ (AllocateNumber e'), Ok (RInt (Some n))) => if bool_decide (e' = e) then Some n else None
  | _ => None
  end.

Definition revision_issued (e : string) (x : event * outcome reply) : option Z :=
  match x with
  | (Call _ (AllocateRevision e'), Ok (RInt (Some n))) => if bool_decide (e' = e) then Some n else None
  | _ => None
  end.

Definition numbers (e : string) (h : past) : list Z := omap (number_issued e) h.
Definition revisions (e : string) (h : past) : list Z := omap (revision_issued e) h.

(** A counter an allocation reads and advances. *)
Record counter (field : EngagementRecord → Z) (issued : string → event * outcome reply → option Z) := {
  ct_older : ∀ r r', older r r' → field r ≤ field r';
  ct_mentioned : ∀ e ev o n, issued e (ev, o) = Some n →
    ∃ env c, ev = Call env c ∧ creates c = false ∧ target env c = e;
  ct_issue : ∀ e ev o n s s', issued e (ev, o) = Some n → happens ev s = (o, s') →
    ∃ r r', record_of s e = Some r ∧ field r = n ∧ record_of s' e = Some r' ∧ field r' = n + 1
      ∧ ∃ t text, text_of t s' = Ok text ∧ disk s' = Holds text
}.

(** An allocation that answers has advanced the counter in memory and file. *)
Definition issues (e : string) (s : EngagementRegistry) (field : EngagementRecord → Z)
    (a : option Z) (s' : EngagementRegistry) : Prop :=
  ∀ n, a = Some n → ∃ r r', record_of s e = Some r ∧ field r = n
    ∧ record_of s' e = Some r' ∧ field r' = n + 1
    ∧ ∃ t text, text_of t s' = Ok text ∧ disk s' = Holds text.

Lemma allocation_issues env e s r f g field :
  record_of s e = Some r → field (f r) = field r + 1 →
  wp (modify (assign e f) ;;; commit_strict env (assign e g) ;;; mret (Some (field r)))
    (issues e s field) (λ _ _, True) s.
Proof.
  intros Hr Hf. wp_step. apply wp_modify. rewrite (assign_put _ _ r) by done. wp_step.
  apply wp_shield; [|done]. intros torn _. apply wp_write_or_rollback; [|done|done].
  intros text Htext. split; [|done]. apply wp_ret. intros n [= <-]. exists r, (f r). split_and!; [done..| |done|].
  - change (record_of (put e (f r) s) e = Some (f r)). rewrite record_put. by case_decide.
  - by exists (now env), text.
Qed.

Lemma issues_reply e s field m o s' n :
  wp m (issues e s field) (λ _ _, True) s → reply_with RInt m s = (o, s') → o = Ok (RInt (Some n)) →
  issues e s field (Some n) s'.
Proof.
  intros Hw E ->. unfold wp in Hw. unfold reply_with, mbind, pym_bind in E.
  destruct (m s) as [[a|x] t]; [|done]. by injection E as -> ->.
Qed.

Lemma number_counter : counter next_question_number number_issued.
Proof.
  split.
  - by intros r r' [? _].
  - intros e [env c| | | | | |] o n; cbn; try done. destruct c; try done.
    destruct o as [[| |[]| |]|]; try done. case_bool_decide; [|done]. intros _. eauto.
  - intros e [env c| | | | | |] o n s s'; cbn [number_issued happens]; try done. destruct c; try done.
    destruct o as [[| |[k|]| |]|]; try done. case_bool_decide; [|done]. intros [= ->] E. subst.
    refine (issues_reply e s next_question_number _ _ _ n _ E eq_refl n eq_refl).
    apply wp_with_record; [done|]. intros r Hr. by apply allocation_issues.
Qed.

Lemma revision_counter : counter summary_revision revision_issued.
Proof.
  split.
  - by intros r r' [_ ?].
  - intros e [env c| | | | | |] o n; cbn; try done. destruct c; try done.
    destruct o as [[| |[]| |]|]; try done. case_bool_decide; [|done]. intros _. eauto.
  - intros e [env c| | | | | |] o n s s'; cbn [revision_issued happens]; try done. destruct c; try done.
    destruct o as [[| |[k|]| |]|]; try done. case_bool_decide; [|done]. intros [= ->] E. subst.
    refine (issues_reply e s summary_revision _ _ _ n _ E eq_refl n eq_refl).
    apply wp_with_record; [done|]. intros r Hr. by apply allocation_issues.
Qed.

(** Every number issued so far lies below the counter, in memory and in the file. *)
Definition below (field : EngagementRecord → Z) (h : past) (s : EngagementRegistry) base
    (issued : string → event * outcome reply → option Z) : Prop :=
  ∀ e n, n ∈ omap (issued e) h → e ∈ mentioned h ∧ ∀ r, known s base e r → n < field r.

Lemma omap_snoc {A B} (f : A → option B) l x :
  omap f (l ++ [x]) = omap f l ++ match f x with Some y => [y] | None => [] end.
Proof. induction l as [|y l IH]; cbn; [by destruct (f x)|]. destruct (f y); cbn; by rewrite IH. Qed.

Lemma sorted_snoc (l : list Z) n :
  StronglySorted Z.lt l → (∀ m, m ∈ l → m < n) → StronglySorted Z.lt (l ++ [n]).
Proof.
  induction 1 as [|m l Hs IH Hm]; intros Hn; cbn; constructor.
  - constructor.
  - constructor.
  - apply IH. intros k Hk. apply Hn. by right.
  - apply Forall_app. split; [done|]. apply Forall_singleton, Hn. left.
Qed.

Lemma mentioned_snoc h ev o :
  mentioned (h ++ [(ev, o)]) = mentioned h ++ match ev with Call env c => [target env c] | _ => [] end.
Proof. unfold mentioned. rewrite omap_snoc. by destruct ev. Qed.

(** An allocation has just written the file. *)
Lemma issued_base field issued ev o s1 s2 base :
  counter field issued → durable s2 base → happens ev s1 = (o, s2) →
  ∃ b, durable s2 b ∧ (∀ e r, known s2 b e r → known s2 base e r)
    ∧ ∀ e n, issued e (ev, o) = Some n → ∀ r, known s2 b e r → n < field r.
Proof.
  intros Hct Hd E.
  destruct (match ev with Call env c => issued (target env c) (ev, o) | _ => None end) as [n|] eqn:Hi.
  - destruct ev as [env c| | | | | |]; try done.
    destruct (ct_issue _ _ Hct _ _ _ _ _ _ Hi E) as (_ & r' & _ & _ & Hr' & Hf & t & Htext).
    exists (_records s2). split; [|split].
    + apply (durable_saved t); [|done|]; by destruct Hd.
    + intros e r [Hr|Hr]; by left.
    + intros e n' Hn' r Hr.
      destruct (ct_mentioned _ _ Hct _ _ _ _ Hn') as (env' & c' & [= <- <-] & _ & <-).
      assert (record_of s2 (target env c) = Some r) as Hr2 by by destruct Hr.
      rewrite Hr' in Hr2. injection Hr2 as <-. rewrite Hi in Hn'. injection Hn' as <-. lia.
  - exists base. split; [done|]. split; [done|]. intros e n Hn.
    destruct (ct_mentioned _ _ Hct _ _ _ _ Hn) as (env & c & -> & _ & <-). congruence.
Qed.

Lemma counter_increases field issued l h s e :
  counter field issued → calm_history l h s →
  StronglySorted Z.lt (omap (issued e) h) ∧ ∃ base, durable s base ∧ below field h s base issued.
Proof.
  intros Hct [Hh Hc]. induction Hh as [|h s1 ev o s2 Hh IH Hl E].
  { split; [constructor|]. exists []. split; [by apply first_durable|]. by intros ? ? ?%not_elem_of_nil. }
  apply Forall_app in Hc as [Hc Hev]. apply Forall_cons in Hev as [Hev _]. cbn in Hev.
  destruct (IH Hc) as (Hs & base & Hb & Hbelow).
  destruct (event_durable _ _ _ _ _ _ Hl Hev Hb E) as (base' & Hb' & Hlin & Hbase).
  assert (∀ e n, n ∈ omap (issued e) h → e ∈ mentioned (h ++ [(ev, o)])
    ∧ ∀ r, known s2 base' e r → n < field r) as Hold.
  { intros e1 n Hn. destruct (Hbelow e1 n Hn) as [Hm Hlt]. split.
    { rewrite mentioned_snoc. apply elem_of_app. by left. }
    intros r Hr. destruct (Hlin e1 r Hr) as [Hnew|(r0 & Hr0 & Ho)].
    - destruct ev; try done. destruct Hnew as [Hcr ->]. by destruct (Hl Hcr).
    - specialize (Hlt r0 Hr0). pose proof (ct_older _ _ Hct _ _ Ho). lia. }
  assert (∀ e n, issued e (ev, o) = Some n →
    (∀ m, m ∈ omap (issued e) h → m < n) ∧ e ∈ mentioned (h ++ [(ev, o)])) as Hnew.
  { intros e1 n Hi. destruct (ct_issue _ _ Hct _ _ _ _ _ _ Hi E) as (r & r' & Hr & <- & _).
    split.
    - intros m Hm. by apply (Hbelow e1 m Hm); left.
    - destruct (ct_mentioned _ _ Hct _ _ _ _ Hi) as (env & c & -> & _ & <-).
      rewrite mentioned_snoc. apply elem_of_app. right. left. }
  split.
  { rewrite omap_snoc. destruct (issued e (ev, o)) as [n|] eqn:Hi; [|by rewrite app_nil_r].
    apply sorted_snoc; [done|]. by apply Hnew. }
  assert (∃ b, durable s2 b ∧ (∀ e r, known s2 b e r → known s2 base' e r)
    ∧ ∀ e n, issued e (ev, o) = Some n → ∀ r, known s2 b e r → n < field r) as (b & Hd & Hk & Hi).
  { by eapply issued_base. }
  exists b. split; [done|]. intros e1 n. rewrite omap_snoc, elem_of_app. intros [Hn|Hn].
  - destruct (Hold e1 n Hn) as [Hm Hlt]. split; [done|]. intros r Hr. by apply Hlt, Hk.
  - destruct (issued e1 (ev, o)) as [n'|] eqn:E1; [|by apply not_elem_of_nil in Hn].
    apply list_elem_of_singleton in Hn as ->. split; [by eapply proj2, Hnew|]. by apply Hi.
Qed.

(** C35: No two questions of an engagement get the same number, and no two summary
    updates the same revision: over any calm history since the first start, with
    restarts, failing writes and cancelled callers, the numbers that allocations
    return for an engagement are strictly increasing, and so are the revisions. *)
Theorem numbers_never_reused l h s e :
  calm_history l h s →
  StronglySorted Z.lt (numbers e h) ∧ StronglySorted Z.lt (revisions e h).
Proof.
  intros Hh. split.
  - by apply (counter_increases _ _ l h s e number_counter).
  - by apply (counter_increases _ _ l h s e revision_counter).
Qed.
End steps.

(** ** A concrete history *)

#[local] Existing Instance no_text.

Abbreviation restarted_story :=
  (story ++ [Reboot (fine 9 ""); Call (fine 10 "") (AllocateNumber "a")]).

Lemma story_calm : calm_history two_slots (play restarted_story boot).1 (after restarted_story boot).
Proof.
  split; [apply play_history, story_legal; by repeat constructor|].
  apply play_forall. repeat (constructor; [done|]). constructor.
Qed.


Lemma numbers_never_reused_witness :
  numbers "a" (play restarted_story boot).1 = [1; 2; 3]
  ∧ StronglySorted Z.lt (numbers "a" (play restarted_story boot).1).
Proof.
  split; [by vm_compute|].
  exact (proj1 (numbers_never_reused two_slots _ _ "a" story_calm)).
Defined.
