(* ===== verification/EngagementSweep.v ===== *)
(** * The engagement registry: the idle sweep

    [sweep_idle_and_suspend]: the daily scan that suspends the sessions of engagements
    nobody used for a day and reminds of those nobody used for longer.  It awaits the
    driver and the bus between its registry calls; what other tasks do meanwhile is
    a list of events per engagement, part of the plan.  The sweep works on the ids
    that [create] makes, which are strings. *)

From S2P Require Import Prelude PyDict Json JsonOps VoiceResult SpecialistLimits Engagement EngagementRegistry EngagementCalls EngagementEffects EngagementHistory EngagementScenario EngagementSafety.
#[local] Open Scope Z_scope.

Definition _IDLE_REMINDER_DAYS_SPECIALIST : Z := 3.
Definition _IDLE_REMINDER_DAYS_EXECUTOR : Z := 7.
Definition _IDLE_REMINDER_REFIRE_DAYS : Z := 7.
Definition _SESSION_SUSPEND_IDLE_S : Z := 86400.

(** What the driver answers. *)
Record Driver := mkDriver {
  is_alive : EngagementRecord → bool;
  get_session_id : EngagementRecord → option string
}.

(** What happens around the sweep of one engagement. *)
Record Plan := mkPlan {
  persist_env : Env;
  idle_env : Env;
  remind_env : Env;
  cancel_result : outcome unit;       (** of [driver.cancel] *)
  notify_result : outcome unit;       (** of [bus.notify] *)
  on_cancel : list event;             (** other tasks, while the driver is awaited *)
  on_notify : list event              (** and the bus *)
}.

Section sweep.
Context `{PyText} (driver_ : Driver) (has_bus : bool) (now_ : Z) (plan : string → Plan).

(** The other tasks run. *)
Definition others (evs : list event) : PyM EngagementRegistry unit := λ s,
  (Ok tt, foldl (λ s ev, (happens ev s).2) s evs).

(** [try: m  except Exception: log] *)
Definition logged (m : PyM EngagementRegistry unit) : PyM EngagementRegistry unit :=
  try_except m (λ e, if is_exception e then Some (mret tt) else None).

Definition idle_seconds (rec : EngagementRecord) : Z := now_ - last_user_turn_ts rec.

Definition suspendable (rec : EngagementRecord) : bool :=
  bool_decide (driver rec = JStr "in_casa") && bool_decide (status rec = JStr "active")
  && (seconds _SESSION_SUSPEND_IDLE_S <? idle_seconds rec) && is_alive driver_ rec.

Definition suspend (e : string) : PyM EngagementRegistry unit :=
  with_record e tt (λ rec,
    if suspendable rec then
      let session_id := get_session_id driver_ rec in
      logged (others (on_cancel (plan e)) ;;; lift (cancel_result (plan e))) ;;;
      match session_id with
      | Some sid => logged (persist_session_id (persist_env (plan e)) e sid)
      | None => mret tt
      end ;;;
      mark_idle (idle_env (plan e)) e
    else mret tt).

Definition reminder_due (idle_s : Z) (rec : EngagementRecord) : bool :=
  let threshold_s := seconds ((if bool_decide (kind rec = JStr "specialist")
    then _IDLE_REMINDER_DAYS_SPECIALIST else _IDLE_REMINDER_DAYS_EXECUTOR) * 86400) in
  (threshold_s <? idle_s)
  && ((last_idle_reminder_ts rec =? 0)
      || (seconds (_IDLE_REMINDER_REFIRE_DAYS * 86400) <? now_ - last_idle_reminder_ts rec)).

Definition remind (e : string) (idle_s : Z) : PyM EngagementRegistry unit :=
  with_record e tt (λ rec,
    if reminder_due idle_s rec then
      (if has_bus then logged (others (on_notify (plan e)) ;;; lift (notify_result (plan e)))
       else mret tt) ;;;
      update_last_idle_reminder (remind_env (plan e)) e now_
    else mret tt).

(** The body of the loop. *)
Definition sweep_one (e : string) : PyM EngagementRegistry unit :=
  with_record e tt (λ rec,
    suspend e ;;;
    remind e (idle_seconds rec)).

Definition sweep_idle_and_suspend : PyM EngagementRegistry unit :=
  let* s := get in
  for_each (omap (λ r, match id_ r with JStr e => Some e | _ => None end) (active_and_idle s)) sweep_one.

(** ** Nobody is revived *)

(** The engagement ended the way [r0] did. *)
Definition ended_as (e : string) (r0 : EngagementRecord) (s : EngagementRegistry) : Prop :=
  ∃ r, record_of s e = Some r ∧ terminal r = true ∧ status r = status r0 ∧ completed_at r = completed_at r0.

(** Events of other tasks: any but creations, with the permits they come with, and
    restarts. *)
Definition ordinary (ev : event) : Prop :=
  match ev with
  | Call _ c => creates c = false
  | Note _ key _ => key ≠ "_origin_clearance"
  | Reboot _ | GivePermit _ _ => False
  | _ => True
  end.

Lemma ordinary_legal ev s : ordinary ev → legal [] ev s ∧ ∀ o, reboots (ev, o) = false.
Proof. destruct ev; cbn; try done. by intros ->. Qed.

Lemma event_ended ev s o s' e r0 :
  ordinary ev → happens ev s = (o, s') → ended_as e r0 s → ended_as e r0 s'.
Proof.
  intros Ho E (r & Hr & Ht & Hs & Hc). destruct (ordinary_legal ev s Ho) as [Hl Hb].
  destruct (event_record [] ev s o s' e r Hl E (Hb o) Hr) as (r' & Hr' & Hm).
  destruct (moves_terminal _ _ Hm Ht) as (Ht' & Hs' & Hc').
  exists r'. split_and!; congruence.
Qed.

Lemma others_ended evs e r0 R s :
  Forall ordinary evs → ended_as e r0 s → wp (others evs) (λ _, ended_as e r0) R s.
Proof.
  unfold wp, others. revert s. induction evs as [|ev evs IH]; intros s; [done|].
  intros [Hev Hevs]%Forall_cons He. cbn. apply IH; [done|].
  eapply event_ended; [done|apply surjective_pairing|done].
Qed.

Lemma call_ended {A} env c (f : A → reply) m e r0 s :
  creates c = false → run_call env c = reply_with f m → ended_as e r0 s →
  wp m (λ _, ended_as e r0) (λ _, ended_as e r0) s.
Proof.
  intros Hc Hm He. pose proof (event_ended (Call env c) s _ _ e r0 Hc (surjective_pairing _) He) as H'.
  cbn [happens] in H'. rewrite Hm in H'. unfold reply_with, mbind, pym_bind in H'. unfold wp.
  by destruct (m s) as [[] ?].
Qed.

Lemma logged_ended m e r0 s :
  wp m (λ _, ended_as e r0) (λ _, ended_as e r0) s →
  wp (logged m) (λ _, ended_as e r0) (λ _, ended_as e r0) s.
Proof.
  intros Hm. apply wp_try_except. eapply wp_mono; [exact Hm|done|].
  intros x s' Hs. destruct (is_exception x); [by apply wp_ret|done].
Qed.

Lemma remind_ended e e0 r0 idle_s s :
  Forall ordinary (on_notify (plan e)) → ended_as e0 r0 s →
  wp (remind e idle_s) (λ _, ended_as e0 r0) (λ _, ended_as e0 r0) s.
Proof.
  intros Hord He. apply wp_with_record; [done|]. intros r Hr.
  destruct (reminder_due idle_s r); [|by apply wp_ret]. wp_step.
  eapply (wp_mono _ (λ _, ended_as e0 r0) _ (λ _, ended_as e0 r0)); [| |done].
  - destruct has_bus; [|by apply wp_ret]. apply logged_ended. wp_step.
    eapply wp_mono; [by apply (others_ended _ e0 r0 (λ _ _, False))| |done].
    intros [] s1 He1. by apply wp_lift.
  - intros [] s1 He1. by apply (call_ended (remind_env (plan e)) (IdleReminder e now_) (λ _, RNone)).
Qed.

(** The idle sweep revives nobody: when an engagement is suspended and, while
    the driver is awaited, other tasks end it, then however the sweep goes on, with
    whatever failures and other tasks, it stays ended, with the status and the
    completion time of its ending. *)
Theorem sweep_revives_nobody e s r r1 o s' :
  record_of s e = Some r → suspendable r = true →
  Forall ordinary (on_cancel (plan e)) → Forall ordinary (on_notify (plan e)) →
  record_of (others (on_cancel (plan e)) s).2 e = Some r1 → terminal r1 = true →
  sweep_one e s = (o, s') →
  ∃ r', record_of s' e = Some r' ∧ status r' = status r1 ∧ completed_at r' = completed_at r1.
Proof.
  intros Hr Hsus Hoc Hon Hr1 Ht1 E.
  enough (wp (sweep_one e) (λ _, ended_as e r1) (λ _, ended_as e r1) s) as Hw.
  { pose proof (wp_run _ _ _ _ Hw _ _ E) as Hrun. unfold ended_as in Hrun.
    destruct o; destruct Hrun as (r' & ? & _ & ? & ?); eauto. }
  apply wp_with_record; [congruence|]. intros r0 Hr0. simplify_eq. wp_step.
  eapply (wp_mono _ (λ _, ended_as e r1) _ (λ _, ended_as e r1));
    [|intros [] s1 He; by apply remind_ended|done].
  apply wp_with_record; [congruence|]. intros r0 Hr0'. simplify_eq. rewrite Hsus. cbv zeta.
  assert (ended_as e r1 (others (on_cancel (plan e)) s).2) as He by by exists r1.
  wp_step. eapply (wp_mono _ (λ _, ended_as e r1) _ (λ _, ended_as e r1)); [| |done].
  - apply logged_ended. wp_step. unfold wp at 1. unfold others in *. cbn in He. by apply wp_lift.
  - intros [] s1 He1. wp_step.
    eapply (wp_mono _ (λ _, ended_as e r1) _ (λ _, ended_as e r1)); [| |done].
    + destruct (get_session_id driver_ _) as [sid|]; [|by apply wp_ret]. apply logged_ended.
      by apply (call_ended (persist_env (plan e)) (PersistSession e sid) (λ _, RNone)).
    + intros [] s2 He2. by apply (call_ended (idle_env (plan e)) (MarkIdle e) (λ _, RNone)).
Qed.
End sweep.

(** ** A concrete sweep *)

#[local] Existing Instance no_text.

Definition late : Z := seconds (3 * 86400).

(** While the driver is stopped, the operator cancels the engagement. *)
Definition overtaken : Plan :=
  mkPlan (fine 4 "") (fine 5 "") (fine 6 "") (Ok tt) (Ok tt)
    [Call (fine 7 "") (TryTerminal "a" "cancelled" None "" "" None true None)] [].

Definition alive : Driver := mkDriver (λ _, true) (λ _, Some "session").

Definition plans (_ : string) : Plan := overtaken.

Lemma overtaken_ordinary : Forall ordinary (on_cancel (plans "a")).
Proof. constructor; [done|constructor]. Qed.

Lemma quiet_ordinary : Forall ordinary (on_notify (plans "a")).
Proof. constructor. Qed.

Lemma sweep_revives_nobody_witness :
  ∃ r', record_of (sweep_one alive false late plans "a" (after story boot)).2 "a" = Some r'
    ∧ status r' = JStr "cancelled".
Proof.
  assert (∃ r, record_of (after story boot) "a" = Some r ∧ suspendable alive late r = true)
    as (r & Hr & Hs)
    by (eexists; split; [vm_compute; reflexivity|vm_compute; reflexivity]).
  assert (∃ r1, record_of (others (on_cancel (plans "a")) (after story boot)).2 "a" = Some r1
    ∧ terminal r1 = true ∧ status r1 = JStr "cancelled") as (r1 & Hr1 & Ht1 & Hs1)
    by (eexists; split; [vm_compute; reflexivity|split; vm_compute; reflexivity]).
  pose proof (sweep_revives_nobody alive false late plans "a" (after story boot) r r1
    (sweep_one alive false late plans "a" (after story boot)).1
    (sweep_one alive false late plans "a" (after story boot)).2
    Hr Hs overtaken_ordinary quiet_ordinary Hr1 Ht1) as H.
  destruct (sweep_one alive false late plans "a" (after story boot)) as [o s'].
  destruct (H eq_refl) as (r' & Hr' & Hst & _).
  exists r'. split; [exact Hr'|]. rewrite Hst. exact Hs1.
Defined.
