(* ===== verification/EngagementExamples.v ===== *)
(** * The engagement registry: where its promises end

    Concrete runs: a second cancellation tears a strict call; a best-effort write
    that was cancelled can later overwrite a strict one; a creation that fails takes
    the topic of an earlier engagement with it; one malformed row stops every later
    write; and a file that does not decode stops the start. *)

From S2P Require Import Prelude PyDict Json JsonOps VoiceResult SpecialistLimits Engagement EngagementRegistry EngagementCalls EngagementEffects EngagementHistory EngagementScenario EngagementReload EngagementDurable.
#[local] Open Scope Z_scope.
#[local] Existing Instance no_text.

(** A call whose caller is cancelled twice. *)
Definition twice (n : Z) : Env :=
  mkEnv (seconds n) "" (λ _, "secret") true true 2 true true true.

(** And once. *)
Definition once (n : Z) : Env :=
  mkEnv (seconds n) "" (λ _, "secret") true true 1 true true true.

Definition full : Env := mkEnv (seconds 9) "b" (λ _, "secret") false true 0 true true true.

Definition ended (s : EngagementRegistry) (e : string) : bool :=
  match record_of s e with Some r => terminal r | None => false end.

(** The second cancellation of a strict ending: the record is terminal in memory,
    so nobody can end it any more; the file says it is active; and the slot it
    holds is not released. *)
Example second_cancellation_tears :
  let s := after (story ++ [Call (twice 9) (TryTerminal "a" "completed" None "" "" None true None)]) boot in
  let s' := after [Lose 0; Reboot (fine 10 "")] s in
  ended s "a" = true ∧ in_flight (limiter s) = 1 ∧ ended s' "a" = false
  ∧ (happens (Call (fine 11 "") (TryTerminal "a" "completed" None "" "" None true None)) s).1 = Ok (RBool false).
Proof. by vm_compute. Qed.

(** A cancelled [mark_idle] whose write reaches the file after a later strict one:
    the next restart issues question number 3 again. *)
Example late_write_reuses_number :
  numbers "a" (play (story ++ [Call (once 9) (MarkIdle "a"); Call (fine 10 "") (AllocateNumber "a");
    Land 0; Reboot (fine 11 ""); Call (fine 12 "") (AllocateNumber "a")]) boot).1 = [1; 2; 3; 3].
Proof. by vm_compute. Qed.

(** A failed creation in the topic of a live engagement unbinds that topic. *)
Example failed_creation_forgets_topic :
  let s := after story boot in
  let '(o, s') := happens (Call full (engage 7)) s in
  o = Raise OSError ∧ is_Some (by_topic_id 7 s) ∧ by_topic_id 7 s' = None ∧ is_Some (record_of s' "a").
Proof. vm_compute. repeat split; eauto. Qed.

(** A terminal row whose [completed_at] is text loads, and then no write succeeds,
    not even a best-effort one. *)
Definition poisoned : Tombstone :=
  Holds (JList [JObj [("id", JStr "x"); ("kind", JStr "executor"); ("role_or_type", JStr "c");
    ("driver", JStr "claude_code"); ("status", JStr "error"); ("started_at", JFloat 0);
    ("last_user_turn_ts", JFloat 0); ("completed_at", JStr "2026-01-01"); ("auth_token", JStr "t")]]).

Example poisoned_row_stops_writes :
  let s := after [Reboot (fine 1 "")] (fresh_registry poisoned two_slots) in
  is_Some (record_of s "x")
  ∧ (happens (Call (fine 2 "y") (engage 8)) s).1 = Raise TypeError
  ∧ (happens (Call (fine 3 "") (IdleReminder "x" 0)) s).1 = Raise TypeError.
Proof. vm_compute. repeat split; eauto. Qed.

(** A file that is not UTF-8 is not truncated: [load] raises. *)
Example undecodable_file_raises :
  (happens (Reboot (fine 1 "")) (fresh_registry NotUtf8 two_slots)).1 = Raise ValueError.
Proof. done. Qed.
