(* ===== verification/Bus.v ===== *)
(** * The message bus

    [bus.py]: priority queues per agent, a consumer task per queue, a dispatch task
    per message, and request futures.

    Messages, queues, futures and tasks are shared objects, so each kind lives in a
    store and references are indices.  A [Request] is a suspended call of [request]:
    the message it sent, its future, and how the caller left it.  The event loop is
    the set of tasks: a consumer takes one message per step; a dispatch task is
    created, started (which calls the handler) and ended; in between anything else
    may run.  [task.cancel()] only leaves a request behind: a task that was never
    started then ends without entering its coroutine, a consumer ends at its
    [queue.get()], and a handler gets [CancelledError] at its next [await], which it
    may let through or not.

    A message belongs to one call of [send], [notify] or [request], which creates it
    with a fresh id; a handler returns a message of its own making.  The timestamp
    and the trusted origin of a message are never read by the bus, and the [cid] of
    the log records is left out. *)

From stdpp Require Import gmap.
From S2P Require Import Prelude PyDict Json.
#[local] Open Scope Z_scope.

(** ** Data *)

Inductive MessageType := REQUEST | RESPONSE | NOTIFICATION | CHANNEL_IN | CHANNEL_OUT | SCHEDULED.
#[export] Instance message_type_eq_dec : EqDecision MessageType.
Proof. solve_decision. Defined.

Record BusMessage := mkMessage {
  type_ : MessageType;
  source : string;
  target : string;
  content : json;
  id_ : string;
  reply_to : string;
  channel : string;
  context : list (string * json);
  priority : Z;
  cancelled : bool
}.
#[export] Instance message_eta : Eta BusMessage := λ m,
  mkMessage (type_ m) (source m) (target m) (content m) (id_ m) (reply_to m) (channel m)
    (context m) (priority m) (cancelled m).

(** [asyncio.PriorityQueue]: entries [(priority, seq, message)] in the order they
    will be taken. *)
Record PriorityQueue := mkQueue { entries : list (Z * Z * nat); unfinished_tasks : Z }.
#[export] Instance queue_eta : Eta PriorityQueue := λ q, mkQueue (entries q) (unfinished_tasks q).

Definition entry_lt (a b : Z * Z * nat) : bool :=
  (a.1.1 <? b.1.1) || ((a.1.1 =? b.1.1) && (a.1.2 <? b.1.2)).

Fixpoint insert_entry (a : Z * Z * nat) (l : list (Z * Z * nat)) : list (Z * Z * nat) :=
  match l with
  | [] => [a]
  | b :: l' => if entry_lt a b then a :: l else b :: insert_entry a l'
  end.

Definition put (a : Z * Z * nat) (q : PriorityQueue) : PriorityQueue :=
  q <| entries ::= insert_entry a |> <| unfinished_tasks ::= λ n, n + 1 |>.

Inductive Future :=
  | Pending
  | Result (r : BusMessage)
  | Failed (e : exn)
  | FutureCancelled.

Inductive departure := Answered (r : BusMessage) | Refused (e : exn) | TimedOut | Gone.

Record Request := mkRequest {
  about : nat;                    (** its message *)
  future : Future;
  caller : option departure       (** [None] while the caller waits *)
}.
#[export] Instance bus_request_eta : Eta Request := λ r, mkRequest (about r) (future r) (caller r).

Inductive job := Consumer (queue : option nat) | Dispatch (queue msg : nat).
Inductive phase := Created | Running | Finished.
#[export] Instance phase_eq_dec : EqDecision phase.
Proof. solve_decision. Defined.

Record Task := mkTask {
  agent : string;
  work : job;
  phase_ : phase;
  cancel_requested : bool
}.
#[export] Instance task_eta : Eta Task := λ t, mkTask (agent t) (work t) (phase_ t) (cancel_requested t).

Record MessageBus := mkBus {
  messages : list BusMessage;
  queue_objects : list PriorityQueue;
  requests : list Request;
  tasks : list Task;
  queues : gmap string nat;
  pending : gmap string nat;                  (** message id to request *)
  handlers : gmap string (option nat);
  _dispatch_tasks : gmap string nat;
  _loop_tasks : gmap string nat;
  _dispatch_by_agent : gmap string (gset nat);
  _shutting_down : bool;
  _log : list nat;
  _seq : Z;
  max_log_size : nat;
  drawn : nat                                 (** identifiers [uuid4] has drawn *)
}.
#[export] Instance bus_eta : Eta MessageBus := λ s,
  mkBus (messages s) (queue_objects s) (requests s) (tasks s) (queues s) (pending s) (handlers s)
    (_dispatch_tasks s) (_loop_tasks s) (_dispatch_by_agent s) (_shutting_down s) (_log s) (_seq s)
    (max_log_size s) (drawn s).

Definition new_bus (max_log : nat) : MessageBus :=
  mkBus [] [] [] [] ∅ ∅ ∅ ∅ ∅ ∅ false [] 0 max_log 0.

(** ** Futures, tasks and identifiers *)

Definition is_done (f : Future) : bool := match f with Pending => false | _ => true end.
Definition finished (t : Task) : bool := bool_decide (phase_ t = Finished).

(** [if not fut.done(): fut.set_result(...)], and the same for exceptions and
    cancellation. *)
Definition complete (f : Future) (r : Request) : Request :=
  if is_done (future r) then r else r <| future := f |>.
Definition set_future (i : nat) (f : Future) (s : MessageBus) : MessageBus :=
  s <| requests ::= alter (complete f) i |>.

(** [if not task.done(): task.cancel()] *)
Definition cancel_task (t : Task) : Task :=
  if finished t then t else t <| cancel_requested := true |>.
Definition cancel (t : nat) (s : MessageBus) : MessageBus := s <| tasks ::= alter cancel_task t |>.
Definition cancel_all (ts : list nat) (s : MessageBus) : MessageBus := foldr cancel s ts.

Definition finish (t : nat) (s : MessageBus) : MessageBus :=
  s <| tasks ::= alter (λ k, k <| phase_ := Finished |>) t |>.

(** [queue.task_done()]; [None] is [ValueError]: called too many times. *)
Definition task_done (q : nat) (s : MessageBus) : option MessageBus :=
  match queue_objects s !! q with
  | Some qo =>
    if unfinished_tasks qo <=? 0 then None
    else Some (s <| queue_objects ::= alter (λ qo, qo <| unfinished_tasks ::= λ n, n - 1 |>) q |>)
  | None => None
  end.

Definition create_task (t : Task) (s : MessageBus) : MessageBus := s <| tasks ::= λ l, l ++ [t] |>.

Section bus.
Context (uuids : nat → string).

(** [str(uuid.uuid4())] *)
Definition uuid4 (s : MessageBus) : string * MessageBus := (uuids (drawn s), s <| drawn ::= S |>).

(** ** Registration *)

Definition register (name : string) (handler : option nat) (s : MessageBus) : MessageBus :=
  let s := match queues s !! name with
           | Some _ => s
           | None => s <| queues ::= <[name := length (queue_objects s)]> |>
                       <| queue_objects ::= λ l, l ++ [mkQueue [] 0] |>
           end in
  s <| handlers ::= <[name := handler]> |>.

Definition start_agent_loop (name : string) (s : MessageBus) : nat * MessageBus :=
  let spawn :=
    (length (tasks s),
     create_task (mkTask name (Consumer None) Created false)
       (s <| _loop_tasks ::= <[name := length (tasks s)]> |>)) in
  match _loop_tasks s !! name with
  | Some t =>
    match tasks s !! t with
    | Some k => if finished k then spawn else (t, s)
    | None => spawn
    end
  | None => spawn
  end.

(** The answer to a request nobody will handle any more. *)
Definition error_reply (u content_ : string) (msg : BusMessage) : BusMessage :=
  mkMessage RESPONSE (target msg) (source msg) (JStr content_) u (id_ msg) "" [] 1 false.

(** [fut = self.pending.pop(msg.id, None); if fut is not None and not fut.done():
    fut.set_result(BusMessage(...))] *)
Definition answer_cancelled (msg : BusMessage) (s : MessageBus) : MessageBus :=
  match pending s !! id_ msg with
  | None => s
  | Some i =>
    let s := s <| pending ::= delete (id_ msg) |> in
    match requests s !! i with
    | Some r =>
      if is_done (future r) then s
      else
        let '(u, s) := uuid4 s in
        set_future i (Result (error_reply u ("handler error: cancelled: " +:+ id_ msg) msg)) s
    | None => s
    end
  end.

(** The loop over what is still queued. *)
Definition drain (es : list (Z * Z * nat)) (s : MessageBus) : MessageBus :=
  foldl (λ s e, match messages s !! e.2 with Some msg => answer_cancelled msg s | None => s end) s es.

Definition unregister (name : string) (s : MessageBus) : option nat * MessageBus :=
  let task := _loop_tasks s !! name in
  let s := s <| _loop_tasks ::= delete name |> in
  let s := match task with Some t => cancel t s | None => s end in
  let dispatches := elements (default ∅ (_dispatch_by_agent s !! name)) in
  let s := cancel_all dispatches (s <| _dispatch_by_agent ::= delete name |>) in
  let s := match queues s !! name with
           | Some q =>
             let es := match queue_objects s !! q with Some qo => entries qo | None => [] end in
             drain es (s <| queues ::= delete name |>
                         <| queue_objects ::= alter (λ qo, qo <| entries := [] |>) q |>)
           | None => s
           end in
  (task, s <| handlers ::= delete name |>).

(** [unregister_and_wait], up to the [gather]: the tasks it then waits for. *)
Definition unregister_and_wait (name : string) (s : MessageBus) : list nat * MessageBus :=
  let dispatches := elements (default ∅ (_dispatch_by_agent s !! name)) in
  let '(task, s') := unregister name s in
  (match task with Some t => [t] | None => [] end ++ dispatches, s').

Definition dispatch_tasks_for (name : string) (s : MessageBus) : list nat :=
  elements (default ∅ (_dispatch_by_agent s !! name)).

Definition agent_loop_tasks (s : MessageBus) : list nat := (map_to_list (_loop_tasks s)).*2.

(** ** Shutdown *)

Definition begin_shutdown (s : MessageBus) : MessageBus := s <| _shutting_down := true |>.

Definition fail_pending (s : MessageBus) : MessageBus :=
  let s := foldr (λ i s, set_future i (Failed BusShutdownError) s) s (map_to_list (pending s)).*2 in
  s <| pending := ∅ |>.

(** ** Sending *)

(** [deque(maxlen=n).append(m)] *)
Definition log_append (n m : nat) (l : list nat) : list nat :=
  drop (S (length l) - n) (l ++ [m]).

Definition send_checked (m : nat) (s : MessageBus) : string * MessageBus :=
  match messages s !! m with
  | None => ("no_target", s)
  | Some msg =>
    match queues s !! target msg with
    | None => ("no_target", s)
    | Some q =>
      ("accepted",
       s <| _log ::= log_append (max_log_size s) m |>
         <| _seq := _seq s + 1 |>
         <| queue_objects ::= alter (put (priority msg, _seq s + 1, m)) q |>)
    end
  end.

Definition send (m : nat) (s : MessageBus) : MessageBus := (send_checked m s).2.

Definition set_type (ty : MessageType) (m : nat) (s : MessageBus) : MessageBus :=
  s <| messages ::= alter (λ msg, msg <| type_ := ty |>) m |>.

Definition notify (m : nat) (s : MessageBus) : MessageBus := send m (set_type NOTIFICATION m s).

(** [request] until its caller waits; the answer is the request's index. *)
Definition request (m : nat) : PyM MessageBus nat :=
  let* s := get in
  raise_when (_shutting_down s) BusShutdownError ;;;
  modify (set_type REQUEST m) ;;;
  let i := length (requests s) in
  modify (λ s, s <| requests ::= λ l, l ++ [mkRequest m Pending None] |>) ;;;
  modify (λ s, match messages s !! m with
               | Some msg => s <| pending ::= <[id_ msg := i]> |>
               | None => s
               end) ;;;
  modify (send m) ;;;
  mret i.

(** How the caller of [request] goes on: its future is done, ... *)
Definition caller_resumes (i : nat) (s : MessageBus) : MessageBus :=
  s <| requests ::= alter (λ r,
    match caller r, future r with
    | None, Result x => r <| caller := Some (Answered x) |>
    | None, Failed e => r <| caller := Some (Refused e) |>
    | _, _ => r
    end) i |>.

(** ... or the timeout of [wait_for] is over, ... *)
Definition caller_leaves (d : departure) (i : nat) (msg : BusMessage) (s : MessageBus) : MessageBus :=
  s <| requests ::= alter (λ r, complete FutureCancelled r <| caller := Some d |>) i |>
    <| pending ::= delete (id_ msg) |>.

Definition waiting (i : nat) (s : MessageBus) : option (nat * BusMessage) :=
  match requests s !! i with
  | Some r =>
    match caller r, messages s !! about r with
    | None, Some msg => Some (about r, msg)
    | _, _ => None
    end
  | None => None
  end.

Definition caller_times_out (i : nat) (s : MessageBus) : MessageBus :=
  match waiting i s with
  | Some (_, msg) => caller_leaves TimedOut i msg s
  | None => s
  end.

(** ... or it is cancelled. *)
Definition caller_cancelled (i : nat) (s : MessageBus) : MessageBus :=
  match waiting i s with
  | Some (m, msg) =>
    let s := caller_leaves Gone i msg s in
    match _dispatch_tasks s !! id_ msg with
    | Some t => cancel t s
    | None => s <| messages ::= alter (λ msg, msg <| cancelled := true |>) m |>
    end
  | None => s
  end.

Definition respond (original_id : string) (response : BusMessage) (s : MessageBus) : MessageBus :=
  match pending s !! original_id with
  | Some i => set_future i (Result response) (s <| pending ::= delete original_id |>)
  | None => s
  end.

(** ** The consumer *)

(** The first step of [run_agent_loop]: a [KeyError] ends the task. *)
Definition consumer_start (t : nat) (k : Task) (s : MessageBus) : MessageBus :=
  if cancel_requested k then finish t s
  else match queues s !! agent k with
       | Some q => s <| tasks ::= alter (λ k, k <| work := Consumer (Some q) |> <| phase_ := Running |>) t |>
       | None => finish t s
       end.

Definition spawn_dispatch (agent_name : string) (q m : nat) (msg : BusMessage) (s : MessageBus) : MessageBus :=
  let t := length (tasks s) in
  let s := create_task (mkTask agent_name (Dispatch q m) Created false) s in
  let s := if bool_decide (type_ msg = REQUEST) then s <| _dispatch_tasks ::= <[id_ msg := t]> |> else s in
  s <| _dispatch_by_agent ::= λ d, <[agent_name := {[t]} ∪ default ∅ (d !! agent_name)]> d |>.

(** One round of its loop. *)
Definition consumer_take (t q : nat) (k : Task) (s : MessageBus) : MessageBus :=
  if cancel_requested k then finish t s
  else match queue_objects s !! q with
       | Some qo =>
         match entries qo with
         | (_, m) :: es =>
           let s := s <| queue_objects ::= alter (λ qo, qo <| entries := es |>) q |> in
           match messages s !! m with
           | Some msg =>
             if cancelled msg then default (finish t s) (task_done q s)
             else spawn_dispatch (agent k) q m msg s
           | None => s
           end
         | [] => s
         end
       | None => s
       end.

Definition consumer_step (t : nat) (s : MessageBus) : MessageBus :=
  match tasks s !! t with
  | Some k =>
    match work k, phase_ k with
    | Consumer _, Created => consumer_start t k s
    | Consumer (Some q), Running => consumer_take t q k s
    | _, _ => s
    end
  | None => s
  end.

(** ** Dispatch *)

(** [finally] *)
Definition dispatch_finally (t q : nat) (msg : BusMessage) (s : MessageBus) : MessageBus :=
  let s := if bool_decide (type_ msg = REQUEST) then s <| _dispatch_tasks ::= delete (id_ msg) |> else s in
  finish t (default s (task_done q s)).

(** The task begins.  If it was cancelled before, its coroutine is never entered. *)
Definition dispatch_start (t : nat) (s : MessageBus) : MessageBus :=
  match tasks s !! t with
  | Some k =>
    match work k, phase_ k with
    | Dispatch q m, Created =>
      if cancel_requested k then finish t s
      else match handlers s !! agent k, messages s !! m with
           | Some (Some _), _ => s <| tasks ::= alter (λ k, k <| phase_ := Running |>) t |>
           | _, Some msg => dispatch_finally t q msg s
           | _, None => s
           end
    | _, _ => s
    end
  | None => s
  end.

(** How the handler ended. *)
Inductive handled := Returned (result : option BusMessage) | Raised | CancelRaised.

Definition dispatch_result (h : handled) (msg : BusMessage) (s : MessageBus) : MessageBus :=
  match h with
  | Returned (Some result) =>
    if bool_decide (type_ msg = REQUEST)
    then respond (id_ msg) (result <| reply_to := id_ msg |> <| type_ := RESPONSE |>) s
    else s
  | Returned None =>
    if bool_decide (type_ msg = REQUEST ∧ is_Some (pending s !! id_ msg)) then
      let '(u, s) := uuid4 s in
      respond (id_ msg)
        (mkMessage RESPONSE (target msg) (source msg) (JStr "") u (id_ msg) (channel msg) (context msg) 1 false) s
    else s
  | CancelRaised => answer_cancelled msg s
  | Raised =>
    if bool_decide (type_ msg = REQUEST) then
      let '(u, s) := uuid4 s in
      respond (id_ msg) (error_reply u ("handler error: " +:+ id_ msg) msg) s
    else s
  end.

Definition dispatch_end (t : nat) (h : handled) (s : MessageBus) : MessageBus :=
  match tasks s !! t with
  | Some k =>
    match work k, phase_ k with
    | Dispatch q m, Running =>
      match messages s !! m with
      | Some msg => dispatch_finally t q msg (dispatch_result h msg s)
      | None => s
      end
    | _, _ => s
    end
  | None => s
  end.

(** [task.add_done_callback(tracked.discard)], once the task is done. *)
Definition discard (t : nat) (s : MessageBus) : MessageBus :=
  match tasks s !! t with
  | Some k =>
    if finished k then s <| _dispatch_by_agent ::= alter (λ ts, ts ∖ {[t]}) (agent k) |> else s
  | None => s
  end.

(** [get_log]: [items[-last_n:]] is all of them for zero. *)
Definition get_log (last_n : nat) (s : MessageBus) : list nat :=
  match last_n with
  | O => _log s
  | _ => drop (length (_log s) - last_n) (_log s)
  end.

(** ** Histories *)

(** The arguments of [BusMessage(...)], its id apart. *)
Record Draft := mkDraft {
  d_type : MessageType;
  d_source : string;
  d_target : string;
  d_content : json;
  d_channel : string;
  d_context : list (string * json);
  d_priority : Z
}.

Definition new_message (d : Draft) (s : MessageBus) : nat * MessageBus :=
  let '(u, s) := uuid4 s in
  (length (messages s),
   s <| messages ::= λ l, l ++ [mkMessage (d_type d) (d_source d) (d_target d) (d_content d) u ""
                                 (d_channel d) (d_context d) (d_priority d) false] |>).

Inductive event :=
  | Register (name : string) (handler : option nat)
  | StartLoop (name : string)
  | Unregister (name : string)
  | BeginShutdown
  | FailPending
  | Send (d : Draft)
  | Notify (d : Draft)
  | Ask (d : Draft)                  (** [request] *)
  | Resumes (i : nat)                (** the caller of request [i] *)
  | TimesOut (i : nat)
  | CallerCancelled (i : nat)
  | Consume (t : nat)                (** a step of a task *)
  | Begin (t : nat)
  | End (t : nat) (h : handled)
  | Discard (t : nat).

Definition happens (ev : event) (s : MessageBus) : MessageBus :=
  match ev with
  | Register name h => register name h s
  | StartLoop name => (start_agent_loop name s).2
  | Unregister name => (unregister name s).2
  | BeginShutdown => begin_shutdown s
  | FailPending => fail_pending s
  | Send d => let '(m, s) := new_message d s in send m s
  | Notify d => let '(m, s) := new_message d s in notify m s
  | Ask d => let '(m, s) := new_message d s in (request m s).2
  | Resumes i => caller_resumes i s
  | TimesOut i => caller_times_out i s
  | CallerCancelled i => caller_cancelled i s
  | Consume t => consumer_step t s
  | Begin t => dispatch_start t s
  | End t h => dispatch_end t h s
  | Discard t => discard t s
  end.

Definition run (evs : list event) (s : MessageBus) : MessageBus := foldl (λ s ev, happens ev s) s evs.
End bus.
