(* ===== verification/BusInvariants.v ===== *)
(** * The message bus: invariants

    What holds of every reachable bus: identifiers are unique, pending futures
    belong to the request of their key, a message is in one place, every task that
    runs can be reached by whoever may cancel it, and a message whose handling was
    called off never begins to be handled. *)

From stdpp Require Import gmap.
From S2P Require Import Prelude PyDict Json Bus.
#[local] Open Scope nat_scope.

(** ** Lookups *)

Lemma alter_inv {A} (f : A → A) (i j : nat) (l : list A) y :
  alter f i l !! j = Some y → ∃ x, l !! j = Some x ∧ y = if decide (i = j) then f x else x.
Proof. rewrite list_lookup_alter. case_decide; [|by eauto]. subst. destruct (l !! j); naive_solver. Qed.

Lemma alter_some {A} (f : A → A) (i j : nat) (l : list A) x :
  l !! j = Some x → alter f i l !! j = Some (if decide (i = j) then f x else x).
Proof. intros H. rewrite list_lookup_alter. case_decide; subst; by rewrite H. Qed.

Lemma snoc_inv {A} (l : list A) x (i : nat) y :
  (l ++ [x]) !! i = Some y → l !! i = Some y ∨ (i = length l ∧ y = x).
Proof. rewrite lookup_snoc_Some. naive_solver. Qed.

Lemma snoc_some {A} (l : list A) x (i : nat) y : l !! i = Some y → (l ++ [x]) !! i = Some y.
Proof. intros. by apply lookup_app_l_Some. Qed.

Lemma snoc_last {A} (l : list A) x : (l ++ [x]) !! length l = Some x.
Proof. rewrite lookup_snoc_Some. auto. Qed.

Lemma elem_of_insert_entry a b l : a ∈ insert_entry b l ↔ a = b ∨ a ∈ l.
Proof.
  induction l as [|c l IH]; cbn; [by rewrite list_elem_of_singleton, elem_of_nil; naive_solver|].
  case_match; rewrite ?elem_of_cons, ?IH; naive_solver.
Qed.

Lemma insert_entry_permutation b l : insert_entry b l ≡ₚ b :: l.
Proof.
  induction l as [|c l IH]; cbn; [done|]. case_match; [done|]. rewrite IH. apply Permutation_swap.
Qed.

(** ** Places *)

(** What is queued in each queue object. *)
Definition lanes (s : MessageBus) : list (list (Z * Z * nat)) := entries <$> queue_objects s.

Definition queued (s : MessageBus) (m : nat) : Prop :=
  ∃ q es, lanes s !! q = Some es ∧ m ∈ es.*2.

(** What of a message never changes once it is sent. *)
Definition core (s : MessageBus) : list (string * MessageType * string) :=
  (λ x, (id_ x, type_ x, target x)) <$> messages s.

Lemma core_of s m msg : messages s !! m = Some msg → core s !! m = Some (id_ msg, type_ msg, target msg).
Proof. intros H. unfold core. by rewrite list_lookup_fmap, H. Qed.

Lemma of_core s m c : core s !! m = Some c →
  ∃ msg, messages s !! m = Some msg ∧ c = (id_ msg, type_ msg, target msg).
Proof. unfold core. rewrite list_lookup_fmap, fmap_Some. naive_solver. Qed.

(** Task [t] is the dispatch of message [m]. *)
Definition dispatches (s : MessageBus) (t : nat) (k : Task) (m : nat) : Prop :=
  tasks s !! t = Some k ∧ ∃ q, work k = Dispatch q m.

(** Its handler is at work. *)
Definition handling (s : MessageBus) (m : nat) : Prop :=
  ∃ t k, dispatches s t k m ∧ phase_ k = Running.

(** The handling of [m] was called off: it will not begin, and if it has begun, it
    has been asked to stop. *)
Record spent (s : MessageBus) (m : nat) : Prop := {
  sp_known : m < length (messages s);
  sp_flagged : ∀ msg, messages s !! m = Some msg → queued s m → cancelled msg = true;
  sp_cancelled : ∀ t k, dispatches s t k m → phase_ k ≠ Finished → cancel_requested k = true
}.

Implicit Types uuids : nat → string.
Implicit Types s : MessageBus.

(** ** What settling a request changes *)

(** [x] is an answer to the request that sent [m]. *)
Definition answers s (m : nat) (x : BusMessage) : Prop :=
  ∀ msg, messages s !! m = Some msg → reply_to x = id_ msg ∧ type_ x = RESPONSE.

Record request_step s (r r' : Request) : Prop := {
  rs_about : about r' = about r;
  rs_future : future r' = future r ∨ (future r = Pending ∧ future r' ≠ Pending
    ∧ ∀ x, future r' = Result x → answers s (about r) x);
  rs_caller : caller r' = caller r ∨ (caller r = None ∧
    ∀ x, caller r' = Some (Answered x) → future r' = Result x)
}.

Lemma request_step_refl s r : request_step s r r.
Proof. constructor; auto. Qed.

Definition settled s (R : list Request) (P : gmap string nat) (D : nat) : MessageBus :=
  s <| requests := R |> <| pending := P |> <| drawn := D |>.

(** Some requests move on, some leave [pending], and identifiers are drawn. *)
Definition settles s s' : Prop :=
  ∃ R P D, s' = settled s R P D ∧ drawn s <= D ∧ P ⊆ pending s
    ∧ Forall2 (request_step s) (requests s) R.

Lemma settles_refl s : settles s s.
Proof.
  exists (requests s), (pending s), (drawn s). split_and!; [by destruct s|done|done|].
  apply Forall_Forall2_diag, Forall_forall. intros. apply request_step_refl.
Qed.

Lemma request_step_trans s s1 r r1 r2 :
  messages s1 = messages s → request_step s r r1 → request_step s1 r1 r2 → request_step s r r2.
Proof.
  intros Hm [Ha Hf Hc] [Ha' Hf' Hc']. constructor; [congruence| |].
  - destruct Hf' as [->|(Hp & Hn & Hx)]; [done|]. right.
    destruct Hf as [E|(? & ? & ?)]; [|by congruence]. rewrite <-E. split_and!; [done..|].
    intros x Hr. specialize (Hx x Hr). unfold answers in *. by rewrite <-Hm, <-Ha.
  - destruct Hc as [E|(Hn & Hx)]; [rewrite <-E; done|].
    destruct Hc' as [E'|(Hn' & Hx')]; [|right; split; [done|exact Hx']]. right. split; [done|].
    intros x Hr. rewrite E' in Hr. specialize (Hx x Hr).
    destruct Hf' as [->|(? & ? & _)]; congruence.
Qed.

Lemma settles_trans s s1 s2 : settles s s1 → settles s1 s2 → settles s s2.
Proof.
  intros (R & P & D & -> & Hd & Hp & Hr) (R' & P' & D' & -> & Hd' & Hp' & Hr').
  exists R', P', D'. split_and!; [done|change (D <= D') in Hd'; lia|by etrans|].
  eapply Forall2_trans; [|exact Hr|exact Hr']. intros x y z Hxy Hyz.
  by eapply request_step_trans; [|exact Hxy|exact Hyz].
Qed.

Lemma Forall2_alter (f : Request → Request) s i l :
  (∀ r, l !! i = Some r → request_step s r (f r)) → Forall2 (request_step s) l (alter f i l).
Proof.
  intros Hf. apply Forall2_same_length_lookup_2; [by rewrite length_alter|].
  intros j x y Hx Hy. rewrite list_lookup_alter in Hy. case_decide; subst.
  - rewrite Hx in Hy. injection Hy as <-. by apply Hf.
  - rewrite Hx in Hy. injection Hy as <-. apply request_step_refl.
Qed.

(** The steps of one request. *)
Lemma complete_step s r f :
  f ≠ Pending → (∀ x, f = Result x → answers s (about r) x) → request_step s r (complete f r).
Proof.
  intros Hf Hx. unfold complete. destruct r as [a fu c]. destruct fu; cbn; [|apply request_step_refl..].
  constructor; cbn; auto.
Qed.

Lemma settles_alter s i f P D :
  drawn s <= D → P ⊆ pending s →
  (∀ r, requests s !! i = Some r → request_step s r (f r)) →
  settles s (settled s (alter f i (requests s)) P D).
Proof. intros ? ? ?. eexists _, _, _. split_and!; [done..|]. by apply Forall2_alter. Qed.

Definition pending_ok s : Prop := ∀ key i, pending s !! key = Some i →
  ∃ r msg, requests s !! i = Some r ∧ messages s !! about r = Some msg ∧ id_ msg = key.

Lemma pending_ok_settles s s' : pending_ok s → settles s s' → pending_ok s'.
Proof.
  intros Hok (R & P & D & -> & _ & HP & HR) key i Hi.
  change (P !! key = Some i) in Hi.
  destruct (Hok key i) as (r & msg & Hr & Hm & Hid); [by eapply lookup_weaken|].
  destruct (Forall2_lookup_l _ _ _ _ _ HR Hr) as (r' & Hr' & Hs).
  exists r', msg. change (R !! i = Some r' ∧ messages s !! about r' = Some msg ∧ id_ msg = key).
  by rewrite (rs_about _ _ _ Hs).
Qed.

Lemma respond_settles key x s :
  pending_ok s → reply_to x = key → type_ x = RESPONSE → settles s (respond key x s).
Proof.
  intros Hok Hx Ht. unfold respond. destruct (pending s !! key) as [i|] eqn:Hi; [|apply settles_refl].
  destruct (Hok _ _ Hi) as (r & msg & Hr & Hm & Hid).
  apply (settles_alter s i (complete (Result x)) (delete key (pending s)) (drawn s));
    [done|apply delete_subseteq|].
  intros r' Hr'. simplify_eq. apply complete_step; [done|]. intros x' [= <-] msg' Hm'. by simplify_eq.
Qed.

Lemma draw_settles uuids s : settles s (uuid4 uuids s).2.
Proof.
  exists (requests s), (pending s), (S (drawn s)). split_and!; [by destruct s|apply Nat.le_succ_diag_r|done|].
  apply Forall_Forall2_diag, Forall_forall. intros. apply request_step_refl.
Qed.

Lemma answer_cancelled_settles uuids msg s : pending_ok s → settles s (answer_cancelled uuids msg s).
Proof.
  intros Hok. unfold answer_cancelled. destruct (pending s !! id_ msg) as [i|] eqn:Hi; [|apply settles_refl].
  destruct (Hok _ _ Hi) as (r & m & Hr & Hm & Hid).
  change (requests (s <| pending ::= delete (id_ msg) |>)) with (requests s). rewrite Hr.
  assert (∀ f D, drawn s <= D → (∀ r, requests s !! i = Some r → request_step s r (f r)) →
    settles s (settled s (alter f i (requests s)) (delete (id_ msg) (pending s)) D)) as Hset.
  { intros f D HD Hf. apply settles_alter; [done|apply delete_subseteq|done]. }
  destruct (is_done (future r)) eqn:Hd.
  - exists (requests s), (delete (id_ msg) (pending s)), (drawn s).
    split_and!; [by destruct s|done|apply delete_subseteq|].
    apply Forall_Forall2_diag, Forall_forall. intros. apply request_step_refl.
  - apply (Hset (complete (Result (error_reply (uuids (drawn s)) _ msg))) (S (drawn s))); [lia|].
    intros r' Hr'. simplify_eq. apply complete_step; [done|]. intros x [= <-] m' Hm'. by simplify_eq.
Qed.

Lemma drain_settles uuids es s : pending_ok s → settles s (drain uuids es s).
Proof.
  revert s. induction es as [|e es IH]; intros s Hok; cbn; [apply settles_refl|].
  assert (settles s (match messages s !! e.2 with Some msg => answer_cancelled uuids msg s | None => s end)) as Hs.
  { case_match; [by apply answer_cancelled_settles|apply settles_refl]. }
  eapply settles_trans; [exact Hs|]. by apply IH, (pending_ok_settles s).
Qed.

Lemma fail_pending_settles s : settles s (fail_pending s).
Proof.
  unfold fail_pending. generalize ((map_to_list (pending s)).*2). intros l.
  assert (∃ R, foldr (λ i s, set_future i (Failed BusShutdownError) s) s l
    = settled s R (pending s) (drawn s) ∧ Forall2 (request_step s) (requests s) R) as (R & -> & HR).
  { induction l as [|i l (R & IH & HR)]; cbn.
    - exists (requests s). split; [destruct s; reflexivity|].
      apply Forall_Forall2_diag, Forall_forall. intros. apply request_step_refl.
    - rewrite IH. exists (alter (complete (Failed BusShutdownError)) i R). split; [done|].
      eapply Forall2_trans; [|exact HR|].
      + intros x y z. by apply request_step_trans.
      + apply Forall2_alter. intros. by apply complete_step. }
  exists R, ∅, (drawn s). split_and!; [reflexivity|apply Nat.le_refl|apply map_empty_subseteq|exact HR].
Qed.

Lemma caller_resumes_settles i s : settles s (caller_resumes i s).
Proof.
  apply (settles_alter s i _ (pending s) (drawn s)); [done|done|]. intros r Hr.
  destruct r as [a f c]. destruct c, f; try apply request_step_refl; constructor; cbn; auto.
  - right. split; [done|]. naive_solver.
  - right. split; [done|]. naive_solver.
Qed.

Lemma waiting_inv i s m msg :
  waiting i s = Some (m, msg) →
  ∃ r, requests s !! i = Some r ∧ caller r = None ∧ about r = m ∧ messages s !! m = Some msg.
Proof. unfold waiting. intros H. repeat case_match; naive_solver. Qed.

Lemma caller_leaves_settles d i m msg s :
  (∀ x, d ≠ Answered x) → waiting i s = Some (m, msg) → settles s (caller_leaves d i msg s).
Proof.
  intros Hd (r & Hr & Hc & <- & Hm)%waiting_inv.
  change (caller_leaves d i msg s) with (settled s
    (alter (λ r, complete FutureCancelled r <| caller := Some d |>) i (requests s))
    (delete (id_ msg) (pending s)) (drawn s)).
  apply settles_alter; [done|apply delete_subseteq|].
  intros r' Hr'. simplify_eq. destruct r as [a f c]. cbn in Hc. subst c.
  destruct f; constructor; cbn; auto; try (right; naive_solver).
Qed.

Lemma dispatch_result_settles uuids h msg s : pending_ok s → settles s (dispatch_result uuids h msg s).
Proof.
  intros Hok. assert (∀ key x, reply_to x = key → type_ x = RESPONSE →
    settles s (respond key x (uuid4 uuids s).2)) as Hdraw.
  { intros. eapply settles_trans; [apply draw_settles|]. apply respond_settles; [|done..].
    exact (pending_ok_settles _ _ Hok (draw_settles uuids s)). }
  destruct h as [[x|]| |]; cbn.
  - case_bool_decide; [by apply respond_settles|apply settles_refl].
  - case_bool_decide; [by apply Hdraw|apply settles_refl].
  - case_bool_decide; [by apply Hdraw|apply settles_refl].
  - by apply answer_cancelled_settles.
Qed.

(** ** Well-formed buses *)

Definition tracked s (name : string) (t : nat) : Prop :=
  ∃ ts, _dispatch_by_agent s !! name = Some ts ∧ t ∈ ts.

Record tasks_ok s : Prop := {
  to_queue : ∀ q es m, lanes s !! q = Some es → m ∈ es.*2 →
    ∃ key ty name, core s !! m = Some (key, ty, name) ∧ queues s !! name = Some q;
  to_fresh : ∀ q es, lanes s !! q = Some es → NoDup (es.*2);
  to_inj : ∀ a b q, queues s !! a = Some q → queues s !! b = Some q → a = b;
  to_bound : ∀ a q, queues s !! a = Some q → q < length (lanes s);
  to_apart : ∀ t k m, dispatches s t k m → ¬ queued s m;
  to_one : ∀ t t' k k' m, dispatches s t k m → dispatches s t' k' m → t = t';
  to_dispatch : ∀ t k m, dispatches s t k m → ∃ key ty, core s !! m = Some (key, ty, agent k)
    ∧ (phase_ k ≠ Finished → (ty = REQUEST → _dispatch_tasks s !! key = Some t)
         ∧ (cancel_requested k = true ∨ tracked s (agent k) t));
  to_table : ∀ key t, _dispatch_tasks s !! key = Some t →
    ∃ k m ty name, dispatches s t k m ∧ core s !! m = Some (key, ty, name);
  to_consumer : ∀ t k w, tasks s !! t = Some k → work k = Consumer w → phase_ k ≠ Finished →
    cancel_requested k = true ∨ _loop_tasks s !! agent k = Some t
}.

(** What may happen to a task that exists. *)
Record task_step (k k' : Task) : Prop := {
  ts_agent : agent k' = agent k;
  ts_dispatch : ∀ q m, work k' = Dispatch q m ↔ work k = Dispatch q m;
  ts_finished : phase_ k = Finished → phase_ k' = Finished;
  ts_cancel : cancel_requested k = true → cancel_requested k' = true;
  ts_created : phase_ k' = Created → phase_ k = Created;
  ts_running : phase_ k' = Running → phase_ k = Running ∨ phase_ k = Created ∧ cancel_requested k = false
}.

#[export] Instance task_step_preorder : PreOrder task_step.
Proof.
  split; [by constructor; auto|]. intros x y z [? ? ? Hc Hcr Hr] [? ? ? ? ? Hr']. constructor; [congruence| |auto..|].
  - intros. etrans; eauto.
  - intros [?|[? ?]]%Hr'; [auto|]. right. split; [auto|]. destruct (cancel_requested x); naive_solver.
Qed.

Lemma dispatches_back s s' t k' m :
  Forall2 task_step (tasks s) (tasks s') → dispatches s' t k' m →
  ∃ k, dispatches s t k m ∧ task_step k k'.
Proof.
  intros HF [Ht [q Hq]]. destruct (Forall2_lookup_r _ _ _ _ _ HF Ht) as (k & Hk & Hs).
  exists k. split; [|done]. split; [done|]. exists q. by apply (ts_dispatch _ _ Hs).
Qed.

Lemma dispatches_forth s s' t k m :
  Forall2 task_step (tasks s) (tasks s') → dispatches s t k m →
  ∃ k', dispatches s' t k' m ∧ task_step k k'.
Proof.
  intros HF [Ht [q Hq]]. destruct (Forall2_lookup_l _ _ _ _ _ HF Ht) as (k' & Hk & Hs).
  exists k'. split; [|done]. split; [done|]. exists q. by apply (ts_dispatch _ _ Hs).
Qed.

Definition ended s t : Prop := ∀ k, tasks s !! t = Some k → phase_ k = Finished.

(** Steps that create no task and move no message. *)
Record quiet s s' : Prop := {
  qu_core : core s' = core s;
  qu_lanes : lanes s' = lanes s;
  qu_queues : queues s' = queues s;
  qu_loops : _loop_tasks s' = _loop_tasks s;
  qu_tasks : Forall2 task_step (tasks s) (tasks s');
  qu_table : ∀ key t, _dispatch_tasks s' !! key = Some t → _dispatch_tasks s !! key = Some t;
  qu_kept : ∀ key t, _dispatch_tasks s !! key = Some t → _dispatch_tasks s' !! key = Some t ∨ ended s' t;
  qu_tracked : ∀ a t, tracked s a t → tracked s' a t ∨ ended s' t
}.

Lemma tasks_ok_quiet s s' : tasks_ok s → quiet s s' → tasks_ok s'.
Proof.
  intros [H1 H2 H3 H4 H5 H6 H7 H8 H9] [Ec El Eq Elo Ft Htab Hkept Htr].
  constructor; rewrite ?Ec, ?El, ?Eq, ?Elo; try done.
  - intros t k' m (k & Hk & _)%(dispatches_back s); [|done]. unfold queued. rewrite El. by eapply H5.
  - intros t t' k k' m (? & ? & _)%(dispatches_back s) (? & ? & _)%(dispatches_back s); eauto.
  - intros t k' m Hd. destruct (dispatches_back _ _ _ _ _ Ft Hd) as (k & Hk & [Ha _ Hf Hc _ _]).
    destruct (H7 _ _ _ Hk) as (key & ty & Hm & Hun). exists key, ty. rewrite Ha. split; [done|].
    intros Hp. destruct Hun as [Hd1 Hd2]; [naive_solver|]. destruct Hd as [Ht' _]. split.
    + intros Hty. destruct (Hkept key t (Hd1 Hty)) as [?|He]; [done|]. by apply He in Ht'.
    + destruct Hd2 as [?|Hd2]; [auto|]. destruct (Htr _ _ Hd2) as [?|He]; [auto|]. by apply He in Ht'.
  - intros key t Hk. apply Htab, H8 in Hk as (k & m & ty & name & Hd & Hm).
    destruct (dispatches_forth _ _ _ _ _ Ft Hd) as (k' & ? & _). eauto 7.
  - intros t k' w Hk' Hw Hp. destruct (Forall2_lookup_r _ _ _ _ _ Ft Hk') as (k & Hk & [Ha Hd Hf Hc _ _]).
    destruct (work k) as [w0|q m] eqn:Hwk; [|by rewrite (proj2 (Hd q m) eq_refl) in Hw].
    destruct (H9 t k w0) as [?|?]; [done|done|naive_solver|auto|]. right. by rewrite Ha.
Qed.

Record requests_ok uuids s : Prop := {
  ro_ids : ∀ m c, core s !! m = Some c → ∃ n, n < drawn s ∧ c.1.1 = uuids n;
  ro_inj : ∀ m m' c c', core s !! m = Some c → core s !! m' = Some c' → c.1.1 = c'.1.1 → m = m';
  ro_about : ∀ i r, requests s !! i = Some r → ∃ key name, core s !! about r = Some (key, REQUEST, name);
  ro_once : ∀ i j r r', requests s !! i = Some r → requests s !! j = Some r' → about r = about r' → i = j;
  ro_pending : pending_ok s;
  ro_answers : ∀ i r x, requests s !! i = Some r →
    future r = Result x ∨ caller r = Some (Answered x) → answers s (about r) x
}.

Lemma answers_core s s' m x : core s' = core s → answers s m x → answers s' m x.
Proof.
  intros E H msg Hm%core_of. rewrite E in Hm. apply of_core in Hm as (msg' & Hm & Ec).
  injection Ec as -> _ _. by apply H.
Qed.

Lemma requests_ok_frame uuids s s' :
  core s' = core s → requests s' = requests s → pending s' = pending s → drawn s' = drawn s →
  requests_ok uuids s → requests_ok uuids s'.
Proof.
  intros Ec Er Ep Ed [H1 H2 H3 H4 H5 H6]. constructor; rewrite ?Ec, ?Er, ?Ed; try done.
  - intros key i Hi. rewrite Ep in Hi. destruct (H5 _ _ Hi) as (r & msg & Hr & Hm & Hk).
    apply core_of in Hm. rewrite <-Ec in Hm. apply of_core in Hm as (msg' & Hm' & E).
    exists r, msg'. rewrite Er. injection E as E _ _. by rewrite <-E.
  - intros i r x Hr Hx. eapply answers_core; [done|]. by eapply H6.
Qed.

Lemma requests_ok_settles uuids s s' : requests_ok uuids s → settles s s' → requests_ok uuids s'.
Proof.
  intros [H1 H2 H3 H4 H5 H6] Hs. pose proof (pending_ok_settles _ _ H5 Hs) as H5'.
  destruct Hs as (R & P & D & -> & HD & HP & HR). constructor; try done.
  - intros m c Hm. destruct (H1 m c Hm) as (n & Hn & ?). exists n. split; [|done].
    change (n < D). lia.
  - intros i r' Hr'. destruct (Forall2_lookup_r _ _ _ _ _ HR Hr') as (r & Hr & Hst).
    rewrite (rs_about _ _ _ Hst). by apply (H3 i).
  - intros i j r1 r2 Hr1 Hr2. destruct (Forall2_lookup_r _ _ _ _ _ HR Hr1) as (r & Hr & Hst).
    destruct (Forall2_lookup_r _ _ _ _ _ HR Hr2) as (r' & Hr' & Hst').
    rewrite (rs_about _ _ _ Hst), (rs_about _ _ _ Hst'). by apply H4.
  - intros i r' x Hr'. destruct (Forall2_lookup_r _ _ _ _ _ HR Hr') as (r & Hr & [Ha Hf Hc]).
    rewrite Ha. assert (∀ x, future r' = Result x → answers s (about r) x) as Hfut.
    { intros x' Hx. destruct Hf as [E|(_ & _ & Hf)]; [|by apply Hf].
      eapply H6; [done|]. left. congruence. }
    intros [Hx|Hx]; [by apply Hfut|]. destruct Hc as [E|[_ Hc]]; [|by apply Hfut, Hc].
    eapply H6; [done|]. right. congruence.
Qed.

(** ** Quiet steps *)

Lemma Forall2_task_alter t f l :
  (∀ k, l !! t = Some k → task_step k (f k)) → Forall2 task_step l (alter f t l).
Proof.
  intros Hf. apply Forall2_same_length_lookup_2; [by rewrite length_alter|].
  intros j x y Hx Hy. rewrite list_lookup_alter in Hy. case_decide; subst; rewrite Hx in Hy;
    injection Hy as <-; [by apply Hf|done].
Qed.

Lemma ended_step s s' t : Forall2 task_step (tasks s) (tasks s') → ended s t → ended s' t.
Proof.
  intros HF He k' Hk'. destruct (Forall2_lookup_r _ _ _ _ _ HF Hk') as (k & Hk & Hs).
  by apply (ts_finished _ _ Hs), He.
Qed.

Lemma quiet_bus_trans s s1 s2 : quiet s s1 → quiet s1 s2 → quiet s s2.
Proof.
  intros [? ? ? ? ? Ht Hk Hr] [? ? ? ? ? Ht' Hk' Hr']. constructor; try congruence.
  - by etrans.
  - auto.
  - intros key t Hd. destruct (Hk _ _ Hd) as [Hd'|He]; [by apply Hk'|]. right. by eapply ended_step.
  - intros a t Hd. destruct (Hr _ _ Hd) as [Hd'|He]; [by apply Hr'|]. right. by eapply ended_step.
Qed.

Lemma quiet_tasks s T : Forall2 task_step (tasks s) T → quiet s (s <| tasks := T |>).
Proof. intros. constructor; auto. Qed.

Lemma quiet_bus_refl s : quiet s s.
Proof. constructor; auto. done. Qed.

Lemma quiet_settles s s' : settles s s' → quiet s s'.
Proof. intros (R & P & D & -> & _). constructor; auto. change (Forall2 task_step (tasks s) (tasks s)). done. Qed.

Lemma quiet_alter t f s :
  (∀ k, tasks s !! t = Some k → task_step k (f k)) → quiet s (s <| tasks ::= alter f t |>).
Proof. intros. by apply quiet_tasks, Forall2_task_alter. Qed.

Lemma finish_task_step k : task_step k (k <| phase_ := Finished |>).
Proof. by constructor. Qed.

Lemma cancel_task_step k : task_step k (cancel_task k).
Proof. unfold cancel_task. case_match; [done|]. constructor; auto. Qed.

Lemma quiet_finish t s : quiet s (finish t s).
Proof. apply quiet_alter. intros. apply finish_task_step. Qed.

Lemma quiet_cancel t s : quiet s (cancel t s).
Proof. apply quiet_alter. intros. apply cancel_task_step. Qed.

Lemma fmap_alter_same {A B} (g : A → B) (f : A → A) (i : nat) (l : list A) :
  (∀ x, g (f x) = g x) → g <$> alter f i l = g <$> l.
Proof.
  intros Hg. apply list_eq. intros j. rewrite !list_lookup_fmap, list_lookup_alter.
  case_decide; [|done]. subst. destruct (l !! j); cbn; by rewrite ?Hg.
Qed.

Lemma task_done_same q s s' : task_done q s = Some s' →
  ∃ Q, s' = s <| queue_objects := Q |> ∧ entries <$> Q = lanes s.
Proof.
  unfold task_done. intros H. repeat case_match; simplify_eq. eexists. split; [done|].
  by apply fmap_alter_same.
Qed.

Lemma task_done_frame q s : ∃ Q, default s (task_done q s) = s <| queue_objects := Q |> ∧ entries <$> Q = lanes s.
Proof.
  destruct (task_done q s) as [s'|] eqn:E; [by apply task_done_same in E|].
  exists (queue_objects s). by destruct s.
Qed.

Lemma quiet_finally uuids t q k m msg s :
  tasks_ok s → requests_ok uuids s → dispatches s t k m → messages s !! m = Some msg →
  quiet s (dispatch_finally t q msg s).
Proof.
  intros Ht Hr Hd Hm. unfold dispatch_finally. set (s1 := if bool_decide _ then _ else _).
  assert (quiet s (finish t s1)) as Hq.
  { assert (∃ T, s1 = s <| _dispatch_tasks := T |> ∧ ∀ key, T !! key = _dispatch_tasks s !! key
      ∨ (T !! key = None ∧ key = id_ msg)) as (T & -> & HT).
    { subst s1. case_bool_decide.
      - exists (delete (id_ msg) (_dispatch_tasks s)). split; [done|]. intros key.
        destruct (decide (key = id_ msg)) as [->|]; [right; by rewrite lookup_delete_eq|left; by rewrite lookup_delete_ne].
      - exists (_dispatch_tasks s). split; [by destruct s|by left]. }
    assert (Forall2 task_step (tasks s) (alter (λ k, k <| phase_ := Finished |>) t (tasks s))) as HF.
    { apply Forall2_task_alter. intros. apply finish_task_step. }
    constructor; auto.
    - intros key t' Hk. change (T !! key = Some t') in Hk. destruct (HT key) as [E|[E _]]; congruence.
    - intros key t' Hk. destruct (HT key) as [E|[_ ->]]; [left; change (T !! key = Some t'); congruence|right].
      destruct (to_table _ Ht _ _ Hk) as (k' & m' & ty & name & Hd' & Hm').
      assert (m' = m) as -> by exact (ro_inj _ _ Hr _ _ _ _ Hm' (core_of _ _ _ Hm) eq_refl).
      rewrite (to_one _ Ht _ _ _ _ _ Hd' Hd). intros k2 Hk2.
      change (alter (λ k, k <| phase_ := Finished |>) t (tasks s) !! t = Some k2) in Hk2.
      apply alter_inv in Hk2 as (x & _ & ->). by rewrite decide_True. }
  eapply quiet_bus_trans; [exact Hq|]. destruct (task_done_frame q s1) as (Q & -> & HQ).
  constructor; auto. change (Forall2 task_step (tasks (finish t s1)) (tasks (finish t s1))). done.
Qed.

(** [spent] is kept by quiet steps that start nothing it holds back. *)
Lemma spent_quiet s s' m :
  quiet s s' → (∀ x msg', messages s' !! x = Some msg' → ∃ msg, messages s !! x = Some msg ∧ (cancelled msg = true → cancelled msg' = true)) →
  spent s m → spent s' m.
Proof.
  intros [Ec El _ _ Ft _ _ _] Hm [H1 H2 H3]. constructor.
  - apply (f_equal length) in Ec. unfold core in Ec. rewrite !length_fmap in Ec. lia.
  - intros msg' Hmsg Hq. destruct (Hm _ _ Hmsg) as (msg & Hmm & Hc). apply Hc, (H2 msg Hmm).
    unfold queued. by rewrite <-El.
  - intros t k' Hd Hp. destruct (dispatches_back _ _ _ _ _ Ft Hd) as (k & Hk & [_ _ Hf Hc _ _]).
    apply Hc, (H3 t k Hk). naive_solver.
Qed.

(** A call of [request] whose caller was cancelled left its message spent, and only
    such messages are flagged. *)
Record calls_ok s : Prop := {
  co_gone : ∀ i r, requests s !! i = Some r → caller r = Some Gone → spent s (about r);
  co_flag : ∀ m msg, messages s !! m = Some msg → cancelled msg = true →
    ∃ i r, requests s !! i = Some r ∧ about r = m ∧ caller r = Some Gone
}.

Definition consumers_ok s : Prop := ∀ t k q,
  tasks s !! t = Some k → work k = Consumer (Some q) → phase_ k = Running → cancel_requested k = false →
  queues s !! agent k = Some q.

Record bus_ok uuids s : Prop := {
  ok_requests : requests_ok uuids s;
  ok_tasks : tasks_ok s;
  ok_calls : calls_ok s;
  ok_consumers : consumers_ok s
}.
