(* ===== verification/BusReach.v ===== *)
(** * The message bus: every event keeps the bus well formed

    One lemma per event, and their sum for histories. *)

From stdpp Require Import gmap.
From S2P Require Import Prelude PyDict Json Bus BusInvariants.
#[local] Open Scope nat_scope.

Implicit Types uuids : nat → string.
Implicit Types s : MessageBus.

Definition callers s : list (option departure) := caller <$> requests s.

Lemma callers_set_future i f s : callers (set_future i f s) = callers s.
Proof.
  change (caller <$> alter (complete f) i (requests s) = caller <$> requests s).
  apply fmap_alter_same. intros r. unfold complete. by case_match.
Qed.

Lemma callers_respond key x s : callers (respond key x s) = callers s.
Proof. unfold respond. case_match; [|done]. by etrans; [apply callers_set_future|]. Qed.

Lemma callers_answer_cancelled uuids msg s : callers (answer_cancelled uuids msg s) = callers s.
Proof.
  unfold answer_cancelled. destruct (pending s !! id_ msg) as [i|]; [|done]. cbn [uuid4].
  case_match; [|done]. case_match; [done|]. by etrans; [apply callers_set_future|].
Qed.

Lemma callers_drain uuids es s : callers (drain uuids es s) = callers s.
Proof.
  revert s. induction es as [|e es IH]; intros s; [done|]. cbn.
  etrans; [apply IH|]. case_match; [apply callers_answer_cancelled|done].
Qed.

Lemma callers_fail_pending s : callers (fail_pending s) = callers s.
Proof.
  unfold fail_pending. set (l := (map_to_list (pending s)).*2). clearbody l.
  change (callers (foldr (λ i s, set_future i (Failed BusShutdownError) s) s l) = callers s).
  induction l as [|i l IH]; [done|]. cbn. by rewrite callers_set_future.
Qed.

Lemma callers_dispatch_result uuids h msg s : callers (dispatch_result uuids h msg s) = callers s.
Proof.
  destruct h as [[x|]| |]; cbn; try case_bool_decide; try done.
  - apply callers_respond.
  - by etrans; [apply callers_respond|].
  - by etrans; [apply callers_respond|].
  - apply callers_answer_cancelled.
Qed.

(** No caller is newly gone. *)
Definition none_gone s s' : Prop := ∀ i r', requests s' !! i = Some r' → caller r' = Some Gone →
  ∃ r, requests s !! i = Some r ∧ caller r = Some Gone.

Lemma none_gone_callers s s' : callers s' = callers s → none_gone s s'.
Proof.
  intros E i r' Hr Hc. assert (callers s' !! i = Some (Some Gone)) as H.
  { unfold callers. by rewrite list_lookup_fmap, Hr, <-Hc. }
  rewrite E in H. unfold callers in H. rewrite list_lookup_fmap, fmap_Some in H. naive_solver.
Qed.

(** What a step that only settles requests and moves tasks must show. *)
Record moves s s' : Prop := {
  mv_quiet : quiet s s';
  mv_settles : ∃ s1, settles s s1 ∧ requests s' = requests s1 ∧ pending s' = pending s1 ∧ drawn s' = drawn s1;
  mv_messages : messages s' = messages s;
  mv_gone : none_gone s s';
  mv_consumers : ∀ t k' q, tasks s' !! t = Some k' → work k' = Consumer (Some q) → phase_ k' = Running →
    cancel_requested k' = false →
    (∃ k, tasks s !! t = Some k ∧ work k = Consumer (Some q) ∧ phase_ k = Running)
    ∨ queues s !! agent k' = Some q
}.

Lemma bus_ok_moves uuids s s' : bus_ok uuids s → moves s s' → bus_ok uuids s'.
Proof.
  intros [Hr Ht Hc Hk] [Hq (s1 & Hs & E1 & E2 & E3) Em Hg Hcons]. constructor.
  - eapply (requests_ok_frame uuids s1); [|done..|by eapply requests_ok_settles].
    rewrite (qu_core _ _ Hq). symmetry. apply (qu_core _ _ (quiet_settles _ _ Hs)).
  - by eapply tasks_ok_quiet.
  - assert (∀ m, spent s m → spent s' m) as Hsp.
    { intros m. apply spent_quiet; [done|]. rewrite Em. eauto. }
    assert (∀ i r', requests s' !! i = Some r' → ∃ r, requests s !! i = Some r ∧ about r' = about r
      ∧ (caller r = Some Gone → caller r' = Some Gone)) as Hback.
    { rewrite E1. destruct Hs as (R & P & D & -> & _ & _ & HR). intros i r' Hr'.
      destruct (Forall2_lookup_r _ _ _ _ _ HR Hr') as (r & Hr0 & [Ha _ Hcl]).
      exists r. split_and!; [done..|]. destruct Hcl as [->|[? _]]; congruence. }
    constructor.
    + intros i r' Hr' Hgone. destruct (Hg _ _ Hr' Hgone) as (r & Hr0 & Hgone').
      destruct (Hback _ _ Hr') as (r2 & Hr2 & -> & _). simplify_eq. by eapply Hsp, (co_gone _ Hc).
    + rewrite Em. intros m msg Hm Hf. destruct (co_flag _ Hc m msg Hm Hf) as (i & r & Hr0 & Ha & Hgone).
      rewrite E1. destruct Hs as (R & P & D & -> & _ & _ & HR).
      destruct (Forall2_lookup_l _ _ _ _ _ HR Hr0) as (r' & Hr' & [Ha' _ Hcl]).
      exists i, r'. split_and!; [done|congruence|]. destruct Hcl as [->|[? _]]; congruence.
  - intros t k' q Hk' Hw Hp Hcan. rewrite (qu_queues _ _ Hq).
    destruct (Hcons _ _ _ Hk' Hw Hp Hcan) as [(k & Hk0 & Hw0 & Hp0)|?]; [|done].
    destruct (Forall2_lookup_l _ _ _ _ _ (qu_tasks _ _ Hq) Hk0) as (k2 & Hk2 & [Ha _ _ Hcc _ _]). simplify_eq.
    rewrite Ha. apply (Hk t k q Hk0 Hw0 Hp0). destruct (cancel_requested k); naive_solver.
Qed.

(** Steps of requests alone. *)
Lemma moves_settles s s' : settles s s' → none_gone s s' → moves s s'.
Proof.
  intros Hs Hg. constructor; [by apply quiet_settles|by exists s'| |done|];
    destruct Hs as (R & P & D & -> & _); eauto.
Qed.

(** Steps of one task. *)
Lemma moves_alter s t f :
  (∀ k, tasks s !! t = Some k → task_step k (f k)
     ∧ ∀ q, work (f k) = Consumer (Some q) → phase_ (f k) = Running → cancel_requested (f k) = false →
         (work k = Consumer (Some q) ∧ phase_ k = Running) ∨ queues s !! agent k = Some q) →
  moves s (s <| tasks ::= alter f t |>).
Proof.
  intros Hf. constructor; [|by exists s; split; [apply settles_refl|]|done|by intros i r; eauto|].
  - apply quiet_alter. intros k Hk. by apply Hf.
  - intros t' k' q Hk' Hw Hp Hc. change (alter f t (tasks s) !! t' = Some k') in Hk'.
    apply alter_inv in Hk' as (k & Hk & ->). case_decide; [|eauto]. subst t'.
    destruct (Hf k Hk) as [[Ha _ _ _ _ _] Hq]. destruct (Hq q Hw Hp Hc) as [[? ?]|?]; [eauto|].
    right. by rewrite Ha.
Qed.

Lemma moves_finish t s : moves s (finish t s).
Proof. apply moves_alter. intros k _. split; [apply finish_task_step|done]. Qed.

Lemma moves_cancel t s : moves s (cancel t s).
Proof.
  apply moves_alter. intros k _. split; [apply cancel_task_step|].
  unfold cancel_task. case_match; intros q ? ? ?; [by left|done].
Qed.

Lemma moves_refl s : moves s s.
Proof. constructor; [apply quiet_bus_refl|by exists s; split; [apply settles_refl|]|done|by intros i r; eauto|eauto]. Qed.

(** Steps that touch nothing the invariant reads. *)
Record unread s s' : Prop := {
  ur_messages : messages s' = messages s;
  ur_objects : queue_objects s' = queue_objects s;
  ur_requests : requests s' = requests s;
  ur_tasks : tasks s' = tasks s;
  ur_queues : queues s' = queues s;
  ur_pending : pending s' = pending s;
  ur_table : _dispatch_tasks s' = _dispatch_tasks s;
  ur_loops : _loop_tasks s' = _loop_tasks s;
  ur_tracked : _dispatch_by_agent s' = _dispatch_by_agent s;
  ur_drawn : drawn s' = drawn s
}.

Lemma moves_unread s s' : unread s s' → moves s s'.
Proof.
  intros [Em Eo Er Et Eq Ep Ed El Eb Edr]. constructor.
  - unfold core, lanes. constructor; unfold core, lanes, tracked; rewrite ?Em, ?Eo, ?Eq, ?El, ?Et, ?Ed, ?Eb; auto. done.
  - exists s. split; [apply settles_refl|done].
  - done.
  - intros i r. rewrite Er. eauto.
  - intros t k q. rewrite Et. eauto.
Qed.

(** ** Events that create nothing *)

Lemma moves_fail_pending s : moves s (fail_pending s).
Proof. apply moves_settles; [apply fail_pending_settles|apply none_gone_callers, callers_fail_pending]. Qed.

Lemma moves_resumes i s : moves s (caller_resumes i s).
Proof.
  apply moves_settles; [apply caller_resumes_settles|]. intros j r' Hr' Hg.
  apply alter_inv in Hr' as (r & Hr & ->). case_decide; [|eauto].
  exists r. split; [done|]. destruct r as [a f [c|]]; destruct f; done.
Qed.

Lemma moves_times_out i s : moves s (caller_times_out i s).
Proof.
  unfold caller_times_out. destruct (waiting i s) as [[m msg]|] eqn:Hw; [|apply moves_refl].
  apply moves_settles; [by eapply caller_leaves_settles|]. intros j r' Hr' Hg.
  apply alter_inv in Hr' as (r & Hr & ->). case_decide; [|eauto].
  exists r. split; [done|]. destruct r as [a f c]; destruct f; done.
Qed.

Lemma moves_begin t s k :
  tasks s !! t = Some k → (∃ q m, work k = Dispatch q m) → phase_ k = Created →
  cancel_requested k = false →
  moves s (s <| tasks ::= alter (λ k, k <| phase_ := Running |>) t |>).
Proof.
  intros Hk (q & m & Hw) Hp Hcan. apply moves_alter. intros k' Hk'. simplify_eq. split.
  - constructor; try done; [congruence|by right].
  - intros q'. change (work k = Consumer (Some q') → phase_ (k <| phase_ := Running |>) = Running →
      cancel_requested k = false → work k = Consumer (Some q') ∧ phase_ k = Running ∨ queues s !! agent k = Some q').
    congruence.
Qed.

Lemma moves_consumer_start t k w s :
  tasks s !! t = Some k → work k = Consumer w → phase_ k = Created → moves s (consumer_start t k s).
Proof.
  intros Hk Hw Hp. unfold consumer_start. destruct (cancel_requested k) eqn:Hcan; [apply moves_finish|].
  destruct (queues s !! agent k) as [q|] eqn:Hq; [|apply moves_finish].
  apply moves_alter. intros k' Hk'. simplify_eq. split.
  - constructor; try done; [|congruence|by right]. intros q' m. rewrite Hw. done.
  - intros q' [= <-] _ _. by right.
Qed.

Lemma moves_discard t s : moves s (discard t s).
Proof.
  unfold discard. destruct (tasks s !! t) as [k|] eqn:Hk; [|apply moves_refl].
  destruct (finished k) eqn:Hf; [|apply moves_refl]. apply bool_decide_eq_true in Hf.
  constructor; [|by exists s; split; [apply settles_refl|]|done|by intros i r; eauto|by eauto].
  constructor; auto; [change (Forall2 task_step (tasks s) (tasks s)); done|].
  intros a t' (ts & Hts & Hin). destruct (decide (t' = t)) as [->|Hne].
  { right. intros k' Hk'. change (tasks s !! t = Some k') in Hk'. by simplify_eq. }
  left. destruct (decide (a = agent k)) as [->|Ha].
  - exists (ts ∖ {[t]}). split; [|set_solver].
    change (alter (λ ts, ts ∖ {[t]}) (agent k) (_dispatch_by_agent s) !! agent k = Some (ts ∖ {[t]})).
    by rewrite lookup_alter_eq, Hts.
  - exists ts. split; [|done].
    change (alter (λ ts, ts ∖ {[t]}) (agent k) (_dispatch_by_agent s) !! a = Some ts).
    by rewrite lookup_alter_ne by congruence.
Qed.

Lemma moves_finally uuids t q m k msg s :
  bus_ok uuids s → dispatches s t k m → messages s !! m = Some msg →
  moves s (dispatch_finally t q msg s).
Proof.
  intros [Hr Ht _ _] Hd Hm.
  assert (∃ T Q, dispatch_finally t q msg s = finish t (s <| _dispatch_tasks := T |> <| queue_objects := Q |>)) as (T & Q & E).
  { unfold dispatch_finally. case_bool_decide.
    - destruct (task_done_frame q (s <| _dispatch_tasks ::= delete (id_ msg) |>)) as (Q & -> & _).
      by exists (delete (id_ msg) (_dispatch_tasks s)), Q.
    - destruct (task_done_frame q s) as (Q & -> & _). by exists (_dispatch_tasks s), Q. }
  constructor; [by eapply quiet_finally| | | |]; rewrite E.
  - exists s. split; [apply settles_refl|done].
  - done.
  - intros i r Hr' Hg. by exists r.
  - intros t' k' q' Hk' Hw Hp Hc. left.
    change (alter (λ k, k <| phase_ := Finished |>) t (tasks s) !! t' = Some k') in Hk'.
    apply alter_inv in Hk' as (k0 & Hk0 & ->). case_decide; [by subst; discriminate Hp|eauto].
Qed.

Lemma moves_trans s s1 s2 : moves s s1 → moves s1 s2 → moves s s2.
Proof.
  intros [Hq (x & Hs & E1 & E2 & E3) Em Hg Hc] [Hq' (x' & Hs' & E1' & E2' & E3') Em' Hg' Hc'].
  constructor; [by eapply quiet_bus_trans| |congruence| |].
  - exists (settled s (requests x') (pending x') (drawn x')). split; [|done].
    eapply settles_trans; [exact Hs|]. destruct Hs' as (R & P & D & -> & HD & HP & HR).
    destruct Hs as (R0 & P0 & D0 & -> & _).
    exists R, P, D. split; [done|]. change (D0 <= D ∧ P ⊆ P0 ∧ Forall2 (request_step (settled s R0 P0 D0)) R0 R).
    rewrite E3 in HD. rewrite E2 in HP. rewrite E1 in HR. split_and!; [done..|].
    eapply Forall2_impl; [exact HR|]. intros r r' [Ha Hf Hcl]. constructor; [done| |done].
    destruct Hf as [?|(? & ? & Hx)]; [by left|right]. split_and!; [done..|]. intros y Hy msg Hm.
    apply (Hx y Hy). by rewrite Em.
  - intros i r' Hr Hgone. destruct (Hg' _ _ Hr Hgone) as (r1 & Hr1 & Hg1). by apply (Hg i r1).
  - intros t k2 q Hk2 Hw Hp Hcan. rewrite <-(qu_queues _ _ Hq).
    destruct (Hc' _ _ _ Hk2 Hw Hp Hcan) as [(k1 & Hk1 & Hw1 & Hp1)|?]; [|by right].
    destruct (Forall2_lookup_l _ _ _ _ _ (qu_tasks _ _ Hq') Hk1) as (k & Hk & [Ha _ _ Hcc _ _]). simplify_eq.
    destruct (Hc _ _ _ Hk1 Hw1 Hp1) as [?|Hqq].
    + destruct (cancel_requested k1); naive_solver.
    + by left.
    + right. by rewrite (qu_queues _ _ Hq), Ha.
Qed.

Lemma moves_dispatch_end uuids t h s : bus_ok uuids s → moves s (dispatch_end uuids t h s).
Proof.
  intros Hok. unfold dispatch_end. destruct (tasks s !! t) as [k|] eqn:Hk; [|apply moves_refl].
  destruct (work k) as [w|q m] eqn:Hw; [apply moves_refl|]. destruct (phase_ k); try apply moves_refl.
  destruct (messages s !! m) as [msg|] eqn:Hm; [|apply moves_refl].
  pose proof (dispatch_result_settles uuids h msg s (ro_pending _ _ (ok_requests _ _ Hok))) as Hs.
  assert (moves s (dispatch_result uuids h msg s)) as Hmv.
  { apply moves_settles; [done|]. apply none_gone_callers, callers_dispatch_result. }
  eapply moves_trans; [exact Hmv|]. eapply (moves_finally uuids _ _ m k).
  - by eapply bus_ok_moves.
  - destruct Hs as (R & P & D & -> & _). split; eauto.
  - destruct Hs as (R & P & D & -> & _). done.
Qed.

Lemma moves_dispatch_start uuids t s : bus_ok uuids s → moves s (dispatch_start t s).
Proof.
  intros Hok. unfold dispatch_start. destruct (tasks s !! t) as [k|] eqn:Hk; [|apply moves_refl].
  destruct (work k) as [w|q m] eqn:Hw; [apply moves_refl|]. destruct (phase_ k) eqn:Hp; try apply moves_refl.
  destruct (cancel_requested k) eqn:Hcan; [apply moves_finish|].
  assert (moves s (s <| tasks ::= alter (λ k, k <| phase_ := Running |>) t |>)) by (eapply moves_begin; eauto).
  assert (∀ msg, messages s !! m = Some msg → moves s (dispatch_finally t q msg s)) as Hfin.
  { intros msg Hm. eapply (moves_finally uuids _ _ m k); [done| |done]. split; eauto. }
  destruct (handlers s !! agent k) as [[h|]|]; [done| |]; destruct (messages s !! m) eqn:?; auto using moves_refl.
Qed.

(** ** A cancelled caller *)

Lemma quiet_flag m s : quiet s (s <| messages ::= alter (λ msg, msg <| cancelled := true |>) m |>).
Proof.
  constructor; auto; [|change (Forall2 task_step (tasks s) (tasks s)); done].
  by apply fmap_alter_same.
Qed.

(** What it leaves behind: its message is spent, in either branch. *)
Lemma called_off uuids i m msg s :
  bus_ok uuids s → waiting i s = Some (m, msg) → spent (caller_cancelled i s) m.
Proof.
  intros [Hr Ht _ _] Hw. unfold caller_cancelled. rewrite Hw.
  destruct (waiting_inv _ _ _ _ Hw) as (r & Hri & Hc & Ha & Hm).
  destruct (ro_about _ _ Hr i r Hri) as (key & name & Hcore). rewrite Ha in Hcore.
  pose proof (core_of _ _ _ Hm) as Hcm. rewrite Hcm in Hcore. injection Hcore as <- Hty <-.
  set (s1 := caller_leaves Gone i msg s).
  assert (∀ t k, dispatches s t k m → phase_ k ≠ Finished → _dispatch_tasks s !! id_ msg = Some t) as Htab.
  { intros t k Hd Hp. destruct (to_dispatch _ Ht _ _ _ Hd) as (key & ty & Hck & Hun).
    rewrite Hcm in Hck. injection Hck as <- <- _. by apply Hun. }
  pose proof (lookup_lt_Some _ _ _ Hm) as Hlen.
  destruct (_dispatch_tasks s1 !! id_ msg) as [t|] eqn:Hd; change (_dispatch_tasks s !! id_ msg) with (_dispatch_tasks s1 !! id_ msg) in *.
  - destruct (to_table _ Ht _ _ Hd) as (k & m' & ty & name & Hdis & Hcore').
    assert (m' = m) as -> by exact (ro_inj _ _ Hr _ _ _ _ Hcore' Hcm eq_refl).
    constructor; [done| |].
    + intros msg' _ Hq. destruct (to_apart _ Ht _ _ _ Hdis). exact Hq.
    + intros t' k' [Hk' Hq'] Hp. change (alter cancel_task t (tasks s) !! t' = Some k') in Hk'.
      apply alter_inv in Hk' as (k0 & Hk0 & ->). case_decide.
      * unfold cancel_task in *. destruct (finished k0) eqn:Hf; [|done].
        by apply bool_decide_eq_true in Hf.
      * assert (dispatches s t' k0 m) as Hd0 by by split. by destruct (to_one _ Ht _ _ _ _ _ Hdis Hd0).
  - constructor.
    + change (m < length (alter (λ msg, msg <| cancelled := true |>) m (messages s))). by rewrite length_alter.
    + intros msg' Hm' _. change (alter (λ msg, msg <| cancelled := true |>) m (messages s) !! m = Some msg') in Hm'.
      apply alter_inv in Hm' as (x & _ & ->). by rewrite decide_True.
    + intros t k Hdis Hp. specialize (Htab t k Hdis Hp). congruence.
Qed.

Lemma caller_cancelled_quiet i s :
  quiet s (caller_cancelled i s) ∧ messages (caller_cancelled i s) = messages s
  ∨ quiet s (caller_cancelled i s) ∧ ∃ m msg, waiting i s = Some (m, msg) ∧
      messages (caller_cancelled i s) = alter (λ msg, msg <| cancelled := true |>) m (messages s).
Proof.
  unfold caller_cancelled. destruct (waiting i s) as [[m msg]|] eqn:Hw; [|left; split; [apply quiet_bus_refl|done]].
  assert (quiet s (caller_leaves Gone i msg s)) as Hq by by eapply quiet_settles, caller_leaves_settles.
  case_match.
  - left. split; [|done]. eapply quiet_bus_trans; [exact Hq|apply quiet_cancel].
  - right. split; [|eauto]. eapply quiet_bus_trans; [exact Hq|apply quiet_flag].
Qed.

Lemma bus_ok_caller_cancelled uuids i s : bus_ok uuids s → bus_ok uuids (caller_cancelled i s).
Proof.
  intros Hok. destruct (waiting i s) as [[m msg]|] eqn:Hw; [|by unfold caller_cancelled; rewrite Hw].
  pose proof (called_off _ _ _ _ _ Hok Hw) as Hspent. destruct Hok as [Hr Ht Hc Hk].
  destruct (waiting_inv _ _ _ _ Hw) as (r & Hri & Hcr & Ha & Hm).
  assert (quiet s (caller_cancelled i s)) as Hq by (destruct (caller_cancelled_quiet i s) as [[]|[]]; done).
  assert (settles s (caller_leaves Gone i msg s)) as Hs by by eapply caller_leaves_settles.
  assert (requests (caller_cancelled i s) = requests (caller_leaves Gone i msg s)
    ∧ pending (caller_cancelled i s) = pending (caller_leaves Gone i msg s)
    ∧ drawn (caller_cancelled i s) = drawn (caller_leaves Gone i msg s)) as (Er & Ep & Ed).
  { unfold caller_cancelled. rewrite Hw. by case_match. }
  assert (∀ m msg', messages (caller_cancelled i s) !! m = Some msg' →
    ∃ msg0, messages s !! m = Some msg0 ∧ (cancelled msg0 = true → cancelled msg' = true)) as Hmono.
  { intros m0 msg' Hm'. destruct (caller_cancelled_quiet i s) as [[_ E]|(_ & m1 & msg1 & _ & E)]; rewrite E in Hm'; [eauto|].
    apply alter_inv in Hm' as (x & Hx & ->). exists x. split; [done|]. by case_decide. }
  constructor.
  - eapply (requests_ok_frame uuids (caller_leaves Gone i msg s)); [|done..|by eapply requests_ok_settles].
    rewrite (qu_core _ _ Hq). symmetry. apply (qu_core _ _ (quiet_settles _ _ Hs)).
  - by eapply tasks_ok_quiet.
  - constructor; rewrite Er.
    + intros j r' Hj Hg. apply alter_inv in Hj as (r0 & Hr0 & ->).
      assert (∀ x, about (complete FutureCancelled x <| caller := Some Gone |>) = about x) as Habout.
      { by intros [? [] ?]. }
      case_decide; [subst j; simplify_eq; by rewrite Habout|].
      eapply spent_quiet; [done|done|]. by eapply (co_gone _ Hc).
    + intros m0 msg' Hm' Hf.
      assert ((∃ msg0, messages s !! m0 = Some msg0 ∧ cancelled msg0 = true) ∨ m0 = m) as [(msg0 & Hm0 & Hf0)| ->].
      { destruct (caller_cancelled_quiet i s) as [[_ E]|(_ & m1 & msg1 & Hw1 & E)]; rewrite E in Hm'; [eauto|].
        simplify_eq. apply alter_inv in Hm' as (x & Hx & ->). case_decide; [by right|eauto]. }
      * destruct (co_flag _ Hc _ _ Hm0 Hf0) as (j & r0 & Hj & Ha0 & Hg0). exists j, r0. split; [|done].
        etrans; [apply (alter_some _ _ _ _ _ Hj)|]. case_decide; [congruence|done].
      * eexists i, _. split; [apply (alter_some _ _ _ _ _ Hri)|]. rewrite decide_True by done.
        destruct r as [a [] c]; done.
  - intros t k' q Hk' Hw' Hp Hcan. rewrite (qu_queues _ _ Hq).
    assert (∃ k0, tasks s !! t = Some k0 ∧ work k0 = work k' ∧ phase_ k0 = phase_ k' ∧ agent k0 = agent k'
      ∧ cancel_requested k0 = false) as (k0 & Hk0 & E1 & E2 & E3 & E4).
    { unfold caller_cancelled in Hk'. rewrite Hw in Hk'. case_match; [|by exists k'].
      apply alter_inv in Hk' as (k0 & Hk0 & ->). exists k0. case_decide; [|done].
      unfold cancel_task in *. case_match; done. }
    rewrite <-E3. eapply Hk; [done|congruence..].
Qed.
