(* ===== verification/BusEvents.v ===== *)
(** * The message bus: events that create or move something

    Registration, consumer tasks, posting a message, taking one from a queue, and
    eviction. *)

From stdpp Require Import gmap.
From S2P Require Import Prelude PyDict Json Bus BusInvariants BusReach.
#[local] Open Scope nat_scope.

Implicit Types s : MessageBus.
Implicit Types uuids : nat → string.

(** ** Shorter queues *)

Definition shorter (l l' : list (list (Z * Z * nat))) : Prop :=
  Forall2 (λ es es', sublist es' es) l l'.

Lemma sublist_map {A B} (f : A → B) l l' : sublist l l' → sublist (f <$> l) (f <$> l').
Proof. induction 1; cbn; by constructor. Qed.

Lemma shorter_queued s s' m : shorter (lanes s) (lanes s') → queued s' m → queued s m.
Proof.
  intros HF (q & es' & Hq & Hm). destruct (Forall2_lookup_r _ _ _ _ _ HF Hq) as (es & Hes & Hsub).
  exists q, es. split; [done|]. apply list_elem_of_fmap in Hm as (e & -> & He).
  apply list_elem_of_fmap. exists e. split; [done|]. by eapply elem_of_sublist.
Qed.

Lemma tasks_ok_shorter s Q :
  tasks_ok s → shorter (lanes s) (entries <$> Q) → tasks_ok (s <| queue_objects := Q |>).
Proof.
  intros [H1 H2 H3 H4 H5 H6 H7 H8 H9] HF. set (s' := s <| queue_objects := Q |>).
  change (shorter (lanes s) (lanes s')) in HF. constructor; try done.
  - intros q es' m Hq Hm. destruct (Forall2_lookup_r _ _ _ _ _ HF Hq) as (es & Hes & Hsub).
    apply (H1 q es m Hes). apply list_elem_of_fmap in Hm as (e & -> & He).
    apply list_elem_of_fmap. exists e. split; [done|]. by eapply elem_of_sublist.
  - intros q es' Hq. destruct (Forall2_lookup_r _ _ _ _ _ HF Hq) as (es & Hes & Hsub).
    eapply sublist_NoDup; [by apply (H2 q es)|]. by apply sublist_map.
  - intros a q Hq. rewrite <-(Forall2_length _ _ _ HF). by apply (H4 a).
  - intros t k m Hd Hq. apply (H5 t k m Hd). by eapply shorter_queued.
Qed.

Lemma bus_ok_shorter uuids s Q :
  bus_ok uuids s → shorter (lanes s) (entries <$> Q) → bus_ok uuids (s <| queue_objects := Q |>).
Proof.
  intros [Hr Ht Hc Hk] HF. constructor; [|by apply tasks_ok_shorter| |done].
  - by eapply (requests_ok_frame uuids s).
  - destruct Hc as [H1 H2]. constructor; [|done]. intros i r Hr' Hg.
    destruct (H1 i r Hr' Hg) as [Ha Hb Hd]. constructor; [done| |done].
    intros msg Hm Hq. apply (Hb msg Hm). eapply (shorter_queued s (s <| queue_objects := Q |>)); done.
Qed.

Lemma shorter_refl l : shorter l l.
Proof. apply Forall_Forall2_diag, Forall_forall. done. Qed.

Lemma shorter_alter q es l :
  (∀ es0, (entries <$> l) !! q = Some es0 → sublist es es0) →
  shorter (entries <$> l) (entries <$> alter (λ qo, qo <| entries := es |>) q l).
Proof.
  intros H. apply Forall2_same_length_lookup_2; [by rewrite !length_fmap, length_alter|].
  intros j x y Hx Hy. rewrite list_lookup_fmap, list_lookup_alter in Hy. case_decide.
  - subst j. rewrite list_lookup_fmap in Hx. destruct (l !! q) as [qo|] eqn:E; [|done].
    cbn in Hx, Hy. injection Hx as <-. injection Hy as <-. apply H. by rewrite list_lookup_fmap, E.
  - rewrite <-list_lookup_fmap, Hx in Hy. by injection Hy as <-.
Qed.

(** ** A consumer takes a message *)

Lemma bus_ok_spawn uuids s name q m msg :
  bus_ok uuids s → messages s !! m = Some msg → target msg = name →
  ¬ queued s m → (∀ t k, ¬ dispatches s t k m) →
  (∀ i r, requests s !! i = Some r → caller r = Some Gone → about r ≠ m) →
  bus_ok uuids (spawn_dispatch name q m msg s).
Proof.
  intros [Hr Ht Hc Hk] Hm Hn Hnq Hnd Hns.
  set (s' := spawn_dispatch name q m msg s). set (t := length (tasks s)).
  assert (∃ T, s' = s <| tasks := tasks s ++ [mkTask name (Dispatch q m) Created false] |>
      <| _dispatch_tasks := T |> <| _dispatch_by_agent := <[name := {[t]} ∪ default ∅ (_dispatch_by_agent s !! name)]> (_dispatch_by_agent s) |>
    ∧ T = (if bool_decide (type_ msg = REQUEST) then <[id_ msg := t]> (_dispatch_tasks s) else _dispatch_tasks s))
    as (T & Es & ET).
  { eexists. split; [|done]. unfold s', spawn_dispatch. by case_bool_decide. }
  clearbody s'.
  assert (∀ t' k' m', dispatches s' t' k' m' → dispatches s t' k' m' ∨
    t' = t ∧ m' = m ∧ k' = mkTask name (Dispatch q m) Created false) as Hback.
  { intros t' k' m' [Hk' [q' Hq']]. rewrite Es in Hk'. apply snoc_inv in Hk' as [?|[-> ->]]; [left; split; eauto|].
    right. split_and!; [done| |done]. by injection Hq'. }
  assert (∀ t' k' m', dispatches s t' k' m' → dispatches s' t' k' m') as Hforth.
  { intros t' k' m' [Hk' ?]. split; [|done]. rewrite Es. by apply snoc_some. }
  assert (dispatches s' t (mkTask name (Dispatch q m) Created false) m) as Hnew.
  { split; [|by eexists]. rewrite Es. apply snoc_last. }
  pose proof (core_of _ _ _ Hm) as Hcm.
  assert (core s' = core s ∧ lanes s' = lanes s ∧ queues s' = queues s ∧ _loop_tasks s' = _loop_tasks s
    ∧ messages s' = messages s ∧ requests s' = requests s) as (Ec & El & Eq & Elo & Em & Er) by by rewrite Es.
  constructor.
  - apply (requests_ok_frame uuids s); by rewrite ?Es.
  - destruct Ht as [H1 H2 H3 H4 H5 H6 H7 H8 H9]. constructor; rewrite ?Ec, ?El, ?Eq, ?Elo; try done.
    + intros t' k' m' [Hd|(-> & -> & _)]%Hback; unfold queued; rewrite El; [by eapply H5|done].
    + intros t1 t2 k1 k2 m' [Hd1|(E1 & Em1 & _)]%Hback [Hd2|(E2 & Em2 & _)]%Hback.
      * by eapply H6.
      * rewrite Em2 in Hd1. by destruct (Hnd _ _ Hd1).
      * rewrite Em1 in Hd2. by destruct (Hnd _ _ Hd2).
      * congruence.
    + intros t' k' m' [Hd|(-> & -> & ->)]%Hback.
      * destruct (H7 _ _ _ Hd) as (key & ty & Hck & Hun). exists key, ty. split; [done|].
        intros Hp. destruct (Hun Hp) as [Hun1 Hun2]. split.
        -- intros Hty. rewrite Es. change (T !! key = Some t'). rewrite ET. case_bool_decide; [|by apply Hun1].
           rewrite lookup_insert_ne; [by apply Hun1|]. intros <-.
           assert (m' = m) as -> by exact (ro_inj _ _ Hr _ _ _ _ Hck Hcm eq_refl). by destruct (Hnd _ _ Hd).
        -- destruct Hun2 as [?|(ts & Hts & Hin)]; [auto|]. right. rewrite Es.
           destruct (decide (agent k' = name)) as [E|Hne].
           ++ exists ({[t]} ∪ ts). split; [|set_solver]. rewrite E in Hts |- *.
              etrans; [apply lookup_insert_eq|]. by rewrite Hts.
           ++ exists ts. split; [|done]. etrans; [by apply lookup_insert_ne|done].
      * exists (id_ msg), (type_ msg). cbn [agent phase_]. rewrite <-Hn. split; [done|]. intros _. split.
        -- intros Hty. rewrite Es. change (T !! id_ msg = Some t). rewrite ET, bool_decide_true by done.
           apply lookup_insert_eq.
        -- right. rewrite Es, Hn. eexists. split; [apply lookup_insert_eq|set_solver].
    + intros key t' Hkey. rewrite Es in Hkey. change (T !! key = Some t') in Hkey.
      assert ((_dispatch_tasks s !! key = Some t') ∨ (key = id_ msg ∧ t' = t)) as [Hold|[-> ->]].
      { rewrite ET in Hkey. case_bool_decide; [|by left].
        destruct (decide (key = id_ msg)) as [->|]; [rewrite lookup_insert_eq in Hkey; right; by injection Hkey|].
        left. by rewrite lookup_insert_ne in Hkey. }
      * destruct (H8 _ _ Hold) as (k0 & m0 & ty & nm & Hd & Hck). eauto 8.
      * eexists _, m, _, _. split; [exact Hnew|exact Hcm].
    + intros t' k' w Hk' Hw' Hp. rewrite Es in Hk'. apply snoc_inv in Hk' as [?|[-> ->]]; [by eapply H9|done].
  - destruct Hc as [C1 C2]. constructor; rewrite Er, ?Em; [|done].
    intros i r Hri Hg. destruct (C1 i r Hri Hg) as [Ha Hb Hd]. constructor; rewrite ?Em.
    + done.
    + intros msg' Hm' Hq. apply Hb; [done|]. unfold queued in *. by rewrite El in Hq.
    + intros t' k' [Hd'|(-> & E & ->)]%Hback Hp; [by eapply Hd|]. by destruct (Hns i r Hri Hg).
  - intros t' k' q' Hk' Hw' Hp' Hc'. rewrite Eq. rewrite Es in Hk'. apply snoc_inv in Hk' as [?|[-> ->]]; [|done].
    by eapply Hk.
Qed.

Lemma bus_ok_consumer_step uuids t s : bus_ok uuids s → bus_ok uuids (consumer_step t s).
Proof.
  intros Hok. unfold consumer_step. destruct (tasks s !! t) as [k|] eqn:Hk; [|done].
  destruct (work k) as [w|q m] eqn:Hw; [|by destruct (phase_ k)].
  destruct (phase_ k) eqn:Hp; [| |by destruct w].
  { assert (moves s (consumer_start t k s)) by by eapply moves_consumer_start.
    destruct w; by eapply bus_ok_moves. }
  destruct w as [q|]; [|done]. unfold consumer_take.
  destruct (cancel_requested k) eqn:Hcan; [eapply bus_ok_moves; [done|apply moves_finish]|].
  destruct (queue_objects s !! q) as [qo|] eqn:Hq; [|done].
  destruct (entries qo) as [|[p m] es] eqn:He; [done|].
  assert (lanes s !! q = Some ((p, m) :: es)) as Hlane.
  { unfold lanes. by rewrite list_lookup_fmap, Hq, <-He. }
  assert (queued s m) as Hqm by (exists q, ((p, m) :: es); split; [done|by left]).
  set (s1 := s <| queue_objects ::= _ |>).
  assert (lanes s1 = entries <$> alter (λ qo, qo <| entries := es |>) q (queue_objects s)) as El by done.
  assert (shorter (lanes s) (lanes s1)) as Hsh.
  { rewrite El. apply shorter_alter. intros es0 He0. change (lanes s !! q = Some es0) in He0.
    simplify_eq. by apply sublist_cons. }
  assert (bus_ok uuids s1) as Hok1 by by apply bus_ok_shorter.
  change (messages s1) with (messages s).
  destruct (messages s !! m) as [msg|] eqn:Hm; [|done].
  destruct Hok as [Hr Ht Hc Hcons].
  destruct (cancelled msg) eqn:Hf.
  { destruct (task_done q s1) as [s2|] eqn:Hd; cbn.
    - apply task_done_same in Hd as (Q & -> & HQ). apply bus_ok_shorter; [done|]. rewrite HQ. apply shorter_refl.
    - eapply bus_ok_moves; [done|apply moves_finish]. }
  destruct (to_queue _ Ht _ _ m Hlane) as (key & ty & name & Hcore & Hname); [by left|].
  pose proof (core_of _ _ _ Hm) as Hcm. rewrite Hcore in Hcm. injection Hcm as -> -> ->.
  pose proof (to_inj _ Ht _ _ _ Hname (Hcons t k q Hk Hw Hp Hcan)) as Hagent.
  apply bus_ok_spawn; [done|done|done| | |].
  - intros (q' & es' & Hq' & Hin). destruct (Forall2_lookup_r _ _ _ _ _ Hsh Hq') as (es0 & Hes0 & Hsub).
    assert (q' = q) as ->.
    { destruct (to_queue _ Ht _ _ m Hes0) as (? & ? & ? & Hcore' & Hname').
      - apply list_elem_of_fmap in Hin as (e & -> & Hin). apply list_elem_of_fmap. exists e. split; [done|].
        by eapply elem_of_sublist.
      - rewrite Hcore in Hcore'. simplify_eq. congruence. }
    rewrite El, list_lookup_fmap, list_lookup_alter_eq, Hq in Hq'. injection Hq' as <-.
    pose proof (to_fresh _ Ht _ _ Hlane) as Hnd. apply NoDup_cons in Hnd as [Hnd _]. done.
  - intros t' k' Hd. by apply (to_apart _ Ht t' k' m).
  - intros i r Hri Hg Ha. pose proof (co_gone _ Hc i r Hri Hg) as Hs. rewrite Ha in Hs.
    by rewrite (sp_flagged _ _ Hs msg Hm Hqm) in Hf.
Qed.

(** ** Registration and consumers *)

Lemma bus_ok_register uuids name h s : bus_ok uuids s → bus_ok uuids (register name h s).
Proof.
  intros Hok. unfold register. destruct (queues s !! name) as [q|] eqn:Hq.
  { by apply (bus_ok_moves uuids s), moves_unread. }
  destruct Hok as [Hr Ht [C1 C2] Hk].
  set (s' := (_ <| handlers ::= _ |>)).
  assert (lanes s' = lanes s ++ [[]]) as El.
  { exact (fmap_app entries (queue_objects s) [mkQueue [] 0]). }
  assert (queues s' = <[name := length (lanes s)]> (queues s)) as Eq.
  { unfold s', lanes. by rewrite length_fmap. }
  assert (tasks s' = tasks s ∧ core s' = core s ∧ messages s' = messages s ∧ requests s' = requests s
    ∧ _dispatch_tasks s' = _dispatch_tasks s ∧ _dispatch_by_agent s' = _dispatch_by_agent s
    ∧ _loop_tasks s' = _loop_tasks s ∧ pending s' = pending s ∧ drawn s' = drawn s)
    as (Et & Ec & Em & Er & Ed & Eb & Elo & Ep & Edr) by done.
  clearbody s'.
  assert (∀ m, queued s' m → queued s m) as Hqd.
  { intros m (q & es & Hl & Hin). rewrite El in Hl. apply snoc_inv in Hl as [Hl|[_ ->]]; [by exists q, es|].
    by apply not_elem_of_nil in Hin. }
  assert (∀ a q, queues s !! a = Some q → queues s' !! a = Some q) as Hold.
  { intros a q Ha. rewrite Eq, lookup_insert_ne; [done|congruence]. }
  assert (∀ t k m, dispatches s' t k m → dispatches s t k m) as Hd by (unfold dispatches; by rewrite Et).
  constructor.
  - by apply (requests_ok_frame uuids s).
  - destruct Ht as [H1 H2 H3 H4 H5 H6 H7 H8 H9]. constructor; rewrite ?Ec, ?Et, ?Ed, ?Elo; try done.
    + intros q es m Hl Hin. rewrite El in Hl. apply snoc_inv in Hl as [Hl|[_ ->]]; [|by apply not_elem_of_nil in Hin].
      destruct (H1 q es m Hl Hin) as (key & ty & a & ? & ?). eauto 7.
    + intros q es Hl. rewrite El in Hl. apply snoc_inv in Hl as [Hl|[_ ->]]; [by eapply H2|constructor].
    + intros a b q. rewrite Eq, !lookup_insert. repeat case_decide; subst; intros Ha Hb; simplify_eq; try done.
      * by apply H4, Nat.lt_irrefl in Hb.
      * by apply H4, Nat.lt_irrefl in Ha.
      * by eapply H3.
    + intros a q. rewrite Eq, El, length_app, lookup_insert. cbn. case_decide; intros Ha; [simplify_eq; lia|].
      apply H4 in Ha. lia.
    + intros t k m Hdm Hqm. by eapply H5; [apply Hd|apply Hqd].
    + intros t t' k k' m Hd1 Hd2. eauto.
    + intros t k m Hdm. unfold tracked. rewrite Eb. by apply (H7 t k m), Hd.
    + intros key t Hkey. unfold dispatches. rewrite Et. by apply H8.
  - constructor; rewrite ?Er, ?Em; [|done]. intros i r Hri Hg. destruct (C1 i r Hri Hg) as [Ha Hb Hc].
    constructor; rewrite ?Em; [done|eauto|]. intros t k Hdm. by apply Hc with t, Hd.
  - intros t k q. rewrite Et. intros Hkt Hw Hp Hc. by apply Hold, (Hk t k q).
Qed.

Lemma bus_ok_new_consumer uuids name s :
  bus_ok uuids s →
  (∀ t k w, tasks s !! t = Some k → work k = Consumer w → agent k = name → phase_ k ≠ Finished →
     cancel_requested k = true) →
  bus_ok uuids (create_task (mkTask name (Consumer None) Created false)
    (s <| _loop_tasks ::= <[name := length (tasks s)]> |>)).
Proof.
  intros [Hr Ht [C1 C2] Hc] Hnone. set (s' := create_task _ _).
  assert (∀ t k, tasks s' !! t = Some k →
    tasks s !! t = Some k ∨ k = mkTask name (Consumer None) Created false ∧ t = length (tasks s)) as Hback.
  { intros t k H1. apply snoc_inv in H1. naive_solver. }
  assert (∀ t k m, dispatches s' t k m → dispatches s t k m) as Hd.
  { intros t k m [H1 [q Hq]]. apply Hback in H1 as [?|[-> _]]; [by split; eauto|done]. }
  constructor.
  - by apply (requests_ok_frame uuids s).
  - destruct Ht as [H1 H2 H3 H4 H5 H6 H7 H8 H9]. constructor; try done.
    + intros t k m Hdm. by apply (H5 t k), Hd.
    + intros t t' k k' m Hd1 Hd2. eauto.
    + intros t k m Hdm. by apply (H7 t k m), Hd.
    + intros key t Hkey. destruct (H8 key t Hkey) as (k & m & ty & nm & [Hk Hq] & Hcm).
      exists k, m, ty, nm. split; [|done]. split; [by apply snoc_some|done].
    + intros t k w Hk Hw Hp. apply Hback in Hk as [Hk|[-> ->]]; [|right; apply lookup_insert_eq].
      destruct (H9 t k w Hk Hw Hp) as [?|Hl]; [auto|].
      destruct (decide (agent k = name)) as [E|]; [left; by eapply Hnone|right].
      etrans; [by apply lookup_insert_ne|done].
  - constructor; [|done]. intros i r Hri Hg. destruct (C1 i r Hri Hg) as [Ha Hb Hs].
    constructor; [done..|]. intros t k Hdm. by apply Hs with t, Hd.
  - intros t k q Hk Hw Hp Hcan. apply Hback in Hk as [Hk|[-> _]]; [|done]. by apply (Hc t k q).
Qed.

Lemma bus_ok_start_loop uuids name s : bus_ok uuids s → bus_ok uuids (start_agent_loop name s).2.
Proof.
  intros Hok. assert (∀ t k w, tasks s !! t = Some k → work k = Consumer w → agent k = name →
    phase_ k ≠ Finished → cancel_requested k = true ∨ _loop_tasks s !! name = Some t) as Hloop.
  { intros t k w Hk Hw <-. exact (to_consumer _ (ok_tasks _ _ Hok) t k w Hk Hw). }
  unfold start_agent_loop. destruct (_loop_tasks s !! name) as [t0|] eqn:Hl.
  2: { apply bus_ok_new_consumer; [done|]. intros t k w Hk Hw Ha Hp.
       by destruct (Hloop t k w Hk Hw Ha Hp). }
  destruct (tasks s !! t0) as [k0|] eqn:Hk0; [destruct (finished k0) eqn:Hf; [|done]|];
    apply bus_ok_new_consumer; try done; intros t k w Hk Hw Ha Hp;
    destruct (Hloop t k w Hk Hw Ha Hp) as [?|[= ->]]; try done.
  - simplify_eq. by apply bool_decide_eq_true in Hf.
  - congruence.
Qed.

(** ** Posting a message *)

Record posts uuids (msg : BusMessage) s s' : Prop := {
  po_messages : messages s' = messages s ++ [msg];
  po_id : id_ msg = uuids (drawn s) ∧ drawn s' = S (drawn s);
  po_fresh : cancelled msg = false;
  po_tasks : tasks s' = tasks s;
  po_queues : queues s' = queues s;
  po_table : _dispatch_tasks s' = _dispatch_tasks s;
  po_loops : _loop_tasks s' = _loop_tasks s;
  po_tracked : _dispatch_by_agent s' = _dispatch_by_agent s;
  po_lanes : lanes s' = lanes s ∨ ∃ q e, queues s !! target msg = Some q
    ∧ e.2 = length (messages s) ∧ lanes s' = alter (insert_entry e) q (lanes s);
  po_requests : requests s' = requests s ∧ pending s' = pending s
    ∨ type_ msg = REQUEST ∧ requests s' = requests s ++ [mkRequest (length (messages s)) Pending None]
      ∧ pending s' = <[id_ msg := length (requests s)]> (pending s)
}.

Section posts.
Context (uuids : nat → string) `{!Inj (=) (=) uuids} (msg : BusMessage) (s s' : MessageBus).
Context (Hok : bus_ok uuids s) (Hp : posts uuids msg s s').

Let new := length (messages s).

Lemma core_post : core s' = core s ++ [(id_ msg, type_ msg, target msg)].
Proof. unfold core. rewrite (po_messages _ _ _ _ Hp). exact (fmap_app _ (messages s) [msg]). Qed.

Lemma core_old m c : core s !! m = Some c → core s' !! m = Some c ∧ m ≠ new.
Proof.
  intros Hm. rewrite core_post. split; [by apply snoc_some|]. apply lookup_lt_Some in Hm.
  unfold core in Hm. rewrite length_fmap in Hm. unfold new. lia.
Qed.

Lemma core_new : core s' !! new = Some (id_ msg, type_ msg, target msg).
Proof.
  rewrite core_post. replace new with (length (core s)); [apply snoc_last|].
  unfold core. apply length_fmap.
Qed.

Lemma core_back m c : core s' !! m = Some c →
  core s !! m = Some c ∨ m = new ∧ c = (id_ msg, type_ msg, target msg).
Proof.
  rewrite core_post. intros [?|[-> ->]]%snoc_inv; [by left|right]. split; [|done].
  unfold core. apply length_fmap.
Qed.

Lemma lanes_post q es' : lanes s' !! q = Some es' →
  lanes s !! q = Some es' ∨ (queues s !! target msg = Some q ∧
    ∃ es e, lanes s !! q = Some es ∧ e.2 = new ∧ es' ≡ₚ e :: es).
Proof.
  intros Hq. destruct (po_lanes _ _ _ _ Hp) as [El|(q0 & e & Hn & He & El)]; rewrite El in Hq; [by left|]. 
  apply alter_inv in Hq as (es & Hes & ->). case_decide; [subst q0|by left]. right. split; [done|]. exists es, e.
  split_and!; [done..|apply insert_entry_permutation].
Qed.

Lemma queued_post m : queued s' m → queued s m ∨ m = new.
Proof.
  intros (q & es' & Hq & Hin). destruct (lanes_post _ _ Hq) as [Hl|(_ & es & e & Hl & He & Hperm)].
  - left. by exists q, es'.
  - rewrite Hperm in Hin. cbn in Hin. apply elem_of_cons in Hin as [->|Hin]; [by right|left]. by exists q, es.
Qed.

Lemma queued_known m : queued s m → m ≠ new.
Proof.
  intros (q & es & Hq & Hin). destruct (to_queue _ (ok_tasks _ _ Hok) _ _ _ Hq Hin) as (? & ? & ? & Hm & _).
  apply (core_old _ _ Hm).
Qed.

Lemma dispatches_post t k m : dispatches s' t k m → dispatches s t k m ∧ m ≠ new.
Proof.
  unfold dispatches. rewrite (po_tasks _ _ _ _ Hp). intros Hd. split; [done|].
  destruct (to_dispatch _ (ok_tasks _ _ Hok) t k m Hd) as (? & ? & Hm & _). apply (core_old _ _ Hm).
Qed.

Lemma spent_post m : spent s m → spent s' m.
Proof.
  intros [Ha Hb Hc]. constructor.
  - rewrite (po_messages _ _ _ _ Hp), length_app. cbn. lia.
  - intros msg' Hm Hq. rewrite (po_messages _ _ _ _ Hp) in Hm.
    apply snoc_inv in Hm as [Hm|[-> _]]; [|lia].
    apply queued_post in Hq as [Hq| ->]; [by apply Hb|unfold new in Ha; lia].
  - intros t k Hd. apply dispatches_post in Hd as [Hd _]. by apply (Hc t k).
Qed.

Lemma requests_post i r : requests s' !! i = Some r →
  requests s !! i = Some r ∨ type_ msg = REQUEST ∧ i = length (requests s) ∧ r = mkRequest new Pending None.
Proof.
  intros Hr. destruct (po_requests _ _ _ _ Hp) as [[E _]|(Hty & E & _)]; rewrite E in Hr; [by left|].
  apply snoc_inv in Hr as [?|[-> ->]]; auto.
Qed.

Lemma requests_ok_post : requests_ok uuids s'.
Proof.
  destruct Hok as [[H1 H2 H3 H4 H5 H6] _ _ _]. destruct (po_id _ _ _ _ Hp) as [Hid Hdr].
  assert (∀ i r, requests s !! i = Some r → requests s' !! i = Some r) as Hkeep.
  { intros i r Hr. destruct (po_requests _ _ _ _ Hp) as [[E _]|(_ & E & _)]; rewrite E; [done|by apply snoc_some]. }
  assert (∀ m x, messages s !! m = Some x → messages s' !! m = Some x) as Hmsg.
  { intros m x Hm. rewrite (po_messages _ _ _ _ Hp). by apply snoc_some. }
  constructor.
  - rewrite Hdr. intros m c [Hc|[-> ->]]%core_back; [|exists (drawn s); split; [lia|done]].
    destruct (H1 m c Hc) as (n & Hn & E). exists n. split; [lia|done].
  - assert (∀ m c, core s !! m = Some c → c.1.1 ≠ id_ msg) as Hne.
    { intros m c Hc E. destruct (H1 m c Hc) as (n & Hn & E'). rewrite E, Hid in E'. apply (inj uuids) in E'. lia. }
    intros m m' c c' [Hc|[-> ->]]%core_back [Hc'|[E ->]]%core_back; intros He; [by eapply H2| | |by rewrite E].
    + by destruct (Hne _ _ Hc).
    + by destruct (Hne _ _ Hc').
  - intros i r [Hr|(Hty & -> & ->)]%requests_post.
    + destruct (H3 i r Hr) as (key & name & Hc). exists key, name. by apply core_old.
    + exists (id_ msg), (target msg). rewrite <-Hty. apply core_new.
  - assert (∀ i r, requests s !! i = Some r → about r ≠ new ∧ i ≠ length (requests s)) as Hne.
    { intros i r Hr. destruct (H3 i r Hr) as (key & name & Hc). split; [by eapply core_old|].
      apply lookup_lt_Some in Hr. lia. }
    intros i j r r' [Hr|(_ & -> & ->)]%requests_post [Hr'|(_ & E & ->)]%requests_post Ha; [by eapply H4| | |by rewrite E].
    + by destruct (Hne _ _ Hr).
    + by destruct (Hne _ _ Hr').
  - intros key i Hi.
    assert (pending s !! key = Some i ∨ type_ msg = REQUEST ∧ key = id_ msg ∧ i = length (requests s)
      ∧ requests s' = requests s ++ [mkRequest new Pending None]) as [Hold|(Hty & -> & -> & E)].
    { destruct (po_requests _ _ _ _ Hp) as [[_ E]|(Hty & Er & E)]; rewrite E in Hi; [by left|].
      destruct (decide (key = id_ msg)) as [->|]; [|left; by rewrite lookup_insert_ne in Hi].
      rewrite lookup_insert_eq in Hi. injection Hi as <-. by right. }
    + destruct (H5 key i Hold) as (r & x & Hr & Hm & Hk). exists r, x. auto.
    + exists (mkRequest new Pending None), msg. rewrite E, (po_messages _ _ _ _ Hp).
      split_and!; [apply snoc_last|apply snoc_last|done].
  - intros i r x [Hr|(_ & -> & ->)]%requests_post; [|by intros [|]].
    intros Hx msg' Hm. eapply H6; [done|done|]. rewrite (po_messages _ _ _ _ Hp) in Hm.
    apply snoc_inv in Hm as [?|[E _]]; [done|]. destruct (H3 i r Hr) as (? & ? & Hc).
    apply core_old in Hc as [_ Hc]. by destruct Hc.
Qed.

Lemma tasks_ok_post : tasks_ok s'.
Proof.
  destruct Hok as [_ [H1 H2 H3 H4 H5 H6 H7 H8 H9] _ _].
  constructor; rewrite ?(po_tasks _ _ _ _ Hp), ?(po_queues _ _ _ _ Hp), ?(po_table _ _ _ _ Hp), ?(po_loops _ _ _ _ Hp); try done.
  - intros q es' m Hq Hin. destruct (lanes_post _ _ Hq) as [Hl|(Hname & es & e & Hl & He & Hperm)].
    + destruct (H1 q es' m Hl Hin) as (key & ty & a & Hc & ?). exists key, ty, a. split; [by apply core_old|done].
    + rewrite Hperm in Hin. cbn in Hin. apply elem_of_cons in Hin as [->|Hin].
      * exists (id_ msg), (type_ msg), (target msg). rewrite He. split; [apply core_new|done].
      * destruct (H1 q es m Hl Hin) as (key & ty & a & Hc & ?). exists key, ty, a. split; [by apply core_old|done].
  - intros q es' Hq. destruct (lanes_post _ _ Hq) as [Hl|(Hname & es & e & Hl & He & Hperm)]; [by eapply H2|].
    rewrite Hperm. cbn. apply NoDup_cons. split; [|by eapply H2]. rewrite He. intros Hin.
    by apply (queued_known new); [exists q, es|].
  - intros a q Hq. apply H4 in Hq. destruct (po_lanes _ _ _ _ Hp) as [->|(q0 & e & _ & _ & ->)]; [done|].
    by rewrite length_alter.
  - intros t k m [Hd Hn]%dispatches_post [Hq|E]%queued_post; [by eapply H5|done].
  - intros t t' k k' m [Hd _]%dispatches_post [Hd' _]%dispatches_post. eauto.
  - intros t k m [Hd _]%dispatches_post. destruct (H7 t k m Hd) as (key & ty & Hc & Hun).
    exists key, ty. split; [by apply core_old|]. unfold tracked. by rewrite (po_tracked _ _ _ _ Hp).
  - intros key t Hkey. destruct (H8 key t Hkey) as (k & m & ty & nm & Hd & Hc). exists k, m, ty, nm.
    unfold dispatches. rewrite (po_tasks _ _ _ _ Hp). split; [done|by apply core_old].
Qed.

Lemma bus_ok_post : bus_ok uuids s'.
Proof.
  constructor; [apply requests_ok_post|apply tasks_ok_post| |].
  - destruct Hok as [_ _ [C1 C2] _]. constructor.
    + intros i r [Hr|(_ & _ & ->)]%requests_post; [|done]. intros Hg. by eapply spent_post, C1.
    + intros m msg'. rewrite (po_messages _ _ _ _ Hp). intros [Hm|[-> ->]]%snoc_inv Hf.
      * destruct (C2 m msg' Hm Hf) as (i & r & Hr & ?). exists i, r. split; [|done].
        destruct (po_requests _ _ _ _ Hp) as [[E _]|(_ & E & _)]; rewrite E; [done|by apply snoc_some].
      * by rewrite (po_fresh _ _ _ _ Hp) in Hf.
  - destruct Hok as [_ _ _ Hc]. intros t k q. rewrite (po_tasks _ _ _ _ Hp), (po_queues _ _ _ _ Hp). apply Hc.
Qed.
End posts.

(** ** Eviction *)

Definition to_cancel (name : string) s : list nat :=
  (match _loop_tasks s !! name with Some t => [t] | None => [] end)
  ++ elements (default ∅ (_dispatch_by_agent s !! name)).

Definition cancel_list (ts : list nat) (l : list Task) : list Task := foldr (alter cancel_task) l ts.

Lemma cancel_task_idem k : cancel_task (cancel_task k) = cancel_task k.
Proof. destruct k as [a w [] c]; done. Qed.

Definition cancel_if (b : bool) (k : Task) : Task := if b then cancel_task k else k.

Lemma cancel_list_lookup ts l t :
  cancel_list ts l !! t = cancel_if (bool_decide (t ∈ ts)) <$> l !! t.
Proof.
  induction ts as [|t0 ts IH]; [cbn|change (cancel_list (t0 :: ts) l) with (alter cancel_task t0 (cancel_list ts l))].
  - rewrite bool_decide_false by apply not_elem_of_nil. by destruct (l !! t).
  - destruct (decide (t0 = t)) as [->|Heq];
      [rewrite list_lookup_alter_eq, IH|rewrite list_lookup_alter_ne, IH by done];
      (destruct (l !! t) as [k|]; [|done]); cbn.
    + f_equal.
      rewrite (bool_decide_true (t ∈ t :: ts)) by (by left). cbn. unfold cancel_if.
      case_bool_decide; [apply cancel_task_idem|done].
    + do 2 f_equal.
      apply bool_decide_ext. rewrite elem_of_cons. naive_solver.
Qed.

Lemma cancel_all_list ts s : cancel_all ts s = s <| tasks := cancel_list ts (tasks s) |>.
Proof.
  induction ts as [|t ts IH]; [by destruct s|].
  change (cancel_all (t :: ts) s) with (cancel t (cancel_all ts s)). by rewrite IH.
Qed.

Definition queue_of (name : string) s : list (Z * Z * nat) :=
  match queues s !! name with
  | Some q => default [] (lanes s !! q)
  | None => []
  end.

(** What an eviction does before it answers what is queued. *)
Record evicts (name : string) s s0 : Prop := {
  ev_messages : messages s0 = messages s;
  ev_requests : requests s0 = requests s;
  ev_pending : pending s0 = pending s;
  ev_drawn : drawn s0 = drawn s;
  ev_table : _dispatch_tasks s0 = _dispatch_tasks s;
  ev_queues : queues s0 = delete name (queues s);
  ev_loops : _loop_tasks s0 = delete name (_loop_tasks s);
  ev_tracked : _dispatch_by_agent s0 = delete name (_dispatch_by_agent s);
  ev_tasks : ∀ t, tasks s0 !! t = cancel_if (bool_decide (t ∈ to_cancel name s)) <$> tasks s !! t;
  ev_lanes : lanes s0 = match queues s !! name with Some q => alter (λ _, []) q (lanes s) | None => lanes s end
}.

Lemma unregister_spec uuids name s : ∃ s0, evicts name s s0 ∧
  (unregister uuids name s).2 = (drain uuids (queue_of name s) s0) <| handlers ::= delete name |>.
Proof.
  set (ts := elements (default ∅ (_dispatch_by_agent s !! name))).
  set (T := match _loop_tasks s !! name with Some t => alter cancel_task t (tasks s) | None => tasks s end).
  set (s1 := s <| _loop_tasks ::= delete name |> <| _dispatch_by_agent ::= delete name |>
               <| tasks := cancel_list ts T |>).
  assert (∀ t, cancel_list ts T !! t = cancel_if (bool_decide (t ∈ to_cancel name s)) <$> tasks s !! t) as HT.
  { intros t. unfold T, to_cancel. fold ts. rewrite <-cancel_list_lookup.
    destruct (_loop_tasks s !! name) as [t0|]; [|done].
    change (cancel_list ([t0] ++ ts) (tasks s)) with (alter cancel_task t0 (cancel_list ts (tasks s))).
    rewrite cancel_list_lookup.
    destruct (decide (t0 = t)) as [->|Heq]; [|by rewrite !list_lookup_alter_ne, cancel_list_lookup by done].
    rewrite !list_lookup_alter_eq, cancel_list_lookup. destruct (tasks s !! t) as [k|]; [|done]. cbn. f_equal.
    unfold cancel_if. case_bool_decide; [by rewrite !cancel_task_idem|done]. }
  assert ((unregister uuids name s).2 = match queues s !! name with
    | Some q => drain uuids (queue_of name s) (s1 <| queues ::= delete name |>
                   <| queue_objects ::= alter (λ qo, qo <| entries := [] |>) q |>)
    | None => s1 end <| handlers ::= delete name |>) as ->.
  { unfold unregister, queue_of, lanes. rewrite cancel_all_list. unfold s1, T.
    destruct (_loop_tasks s !! name) as [t0|]; cbn [snd];
      match goal with |- context [queues ?x !! name] => change (queues x !! name) with (queues s !! name) end;
      (destruct (queues s !! name) as [q|]; [|done]); rewrite list_lookup_fmap;
      match goal with |- context [queue_objects ?x !! q] => change (queue_objects x !! q) with (queue_objects s !! q) end;
      by destruct (queue_objects s !! q). }
  destruct (queues s !! name) as [q|] eqn:Hq.
  - eexists. split; [|done]. constructor; try done. rewrite Hq.
    change (entries <$> alter (λ qo, qo <| entries := [] |>) q (queue_objects s) = alter (λ _, []) q (lanes s)).
    apply list_eq. intros j. unfold lanes. rewrite list_lookup_fmap. destruct (decide (q = j)) as [->|].
    + rewrite !list_lookup_alter_eq, list_lookup_fmap. by destruct (queue_objects s !! j).
    + by rewrite !list_lookup_alter_ne, list_lookup_fmap by done.
  - exists s1. unfold queue_of. rewrite Hq. split; [|done]. constructor; try done; [symmetry; by apply delete_id|by rewrite Hq].
Qed.

Section evict.
Context (uuids : nat → string) (name : string) (s s0 : MessageBus).
Context (Hok : bus_ok uuids s) (He : evicts name s s0).

Lemma evict_core : core s0 = core s.
Proof. unfold core. by rewrite (ev_messages _ _ _ He). Qed.

Lemma evict_back t k' : tasks s0 !! t = Some k' → ∃ k, tasks s !! t = Some k
  ∧ k' = cancel_if (bool_decide (t ∈ to_cancel name s)) k ∧ task_step k k'.
Proof.
  rewrite (ev_tasks _ _ _ He), fmap_Some. intros (k & Hk & ->). exists k. split_and!; [done..|].
  unfold cancel_if. case_match; [apply cancel_task_step|done].
Qed.

Lemma evict_dispatches_back t k' m : dispatches s0 t k' m → ∃ k, dispatches s t k m ∧ task_step k k'.
Proof.
  intros [Hk' [q Hq]]. destruct (evict_back _ _ Hk') as (k & Hk & _ & Hs). exists k. split; [|done].
  split; [done|]. exists q. by apply (ts_dispatch _ _ Hs).
Qed.

(** Every task of the agent is asked to stop. *)
Lemma evict_cancels t k' : tasks s0 !! t = Some k' → agent k' = name → phase_ k' ≠ Finished →
  cancel_requested k' = true ∧ (t ∈ to_cancel name s ∨ ∃ k, tasks s !! t = Some k ∧ cancel_requested k = true).
Proof.
  intros Hk' Ha Hp. destruct (evict_back _ _ Hk') as (k & Hk & E & [Hag Hd Hf Hc _ _]).
  assert (phase_ k ≠ Finished) as Hpk by naive_solver.
  assert (cancel_requested k = true ∨ t ∈ to_cancel name s) as [Hcan|Hin].
  { rewrite <-Ha, Hag. unfold to_cancel. destruct (work k) as [w|q m] eqn:Hw.
    - destruct (to_consumer _ (ok_tasks _ _ Hok) t k w Hk Hw Hpk) as [?|Hl]; [by left|right].
      rewrite Hl. by left.
    - destruct (to_dispatch _ (ok_tasks _ _ Hok) t k m) as (key & ty & _ & Hun); [by split; eauto|].
      destruct (Hun Hpk) as [_ [?|(ts & Hts & Hin)]]; [by left|right]. apply elem_of_app. right.
      rewrite Hts. by apply elem_of_elements. }
  - split; [by apply Hc|eauto].
  - split; [|by left]. rewrite E, bool_decide_true by done. cbn. unfold cancel_task, finished.
    by rewrite bool_decide_false.
Qed.

Lemma evict_lane q es : lanes s0 !! q = Some es →
  es = [] ∨ lanes s !! q = Some es ∧ queues s !! name ≠ Some q.
Proof.
  rewrite (ev_lanes _ _ _ He). destruct (queues s !! name) as [q0|]; [|by right].
  intros (x & Hx & ->)%alter_inv. case_decide; [by left|right]. split; [done|congruence].
Qed.

Lemma evict_queued m : queued s0 m → queued s m ∧ ∃ key ty a, core s !! m = Some (key, ty, a) ∧ a ≠ name.
Proof.
  intros (q & es & Hq & Hin). destruct (evict_lane _ _ Hq) as [->|[Hl Hne]]; [by apply not_elem_of_nil in Hin|].
  split; [by exists q, es|]. destruct (to_queue _ (ok_tasks _ _ Hok) _ _ _ Hl Hin) as (key & ty & a & Hc & Ha).
  exists key, ty, a. split; [done|congruence].
Qed.

Lemma evict_spent m : spent s m → spent s0 m.
Proof.
  intros [Ha Hb Hc]. constructor; rewrite ?(ev_messages _ _ _ He); [done| |].
  - intros msg Hm [Hq _]%evict_queued. by apply Hb.
  - intros t k' (k & Hd & [_ _ Hf Hcc _ _])%evict_dispatches_back Hp. apply Hcc, (Hc t k Hd). naive_solver.
Qed.

Lemma tasks_ok_evict : tasks_ok s0.
Proof.
  destruct Hok as [_ [H1 H2 H3 H4 H5 H6 H7 H8 H9] _ _].
  constructor; rewrite ?evict_core, ?(ev_queues _ _ _ He), ?(ev_table _ _ _ He).
  - intros q es m Hq Hin. destruct (evict_lane _ _ Hq) as [->|[Hl Hne]]; [by apply not_elem_of_nil in Hin|].
    destruct (H1 _ _ _ Hl Hin) as (key & ty & a & Hc & Ha). exists key, ty, a. split; [done|].
    rewrite lookup_delete_ne; [done|congruence].
  - intros q es Hq. destruct (evict_lane _ _ Hq) as [->|[Hl Hne]]; [constructor|by eapply H2].
  - intros a b q [_ Ha]%lookup_delete_Some [_ Hb]%lookup_delete_Some. by eapply H3.
  - intros a q [_ Ha]%lookup_delete_Some. apply H4 in Ha. rewrite (ev_lanes _ _ _ He).
    case_match; by rewrite ?length_alter.
  - intros t k' m (k & Hd & _)%evict_dispatches_back [Hq _]%evict_queued. by eapply H5.
  - intros t t' k k' m (k1 & Hd1 & _)%evict_dispatches_back (k2 & Hd2 & _)%evict_dispatches_back. eauto.
  - intros t k' m Hd'. destruct (evict_dispatches_back _ _ _ Hd') as (k & Hd & [Ha _ Hf Hc _ _]).
    destruct (H7 _ _ _ Hd) as (key & ty & Hcm & Hun). exists key, ty. rewrite Ha. split; [done|].
    intros Hp. destruct Hun as [Hu1 Hu2]; [naive_solver|]. split; [done|].
    destruct (decide (agent k = name)) as [E|Hne].
    + left. eapply evict_cancels; [apply Hd'|congruence|done].
    + destruct Hu2 as [?|(ts & Hts & Hin)]; [auto|]. right. exists ts. split; [|done].
      by rewrite (ev_tracked _ _ _ He), lookup_delete_ne.
  - intros key t Hkey. destruct (H8 key t Hkey) as (k & m & ty & nm & [Hk [q Hw]] & Hcm).
    exists (cancel_if (bool_decide (t ∈ to_cancel name s)) k), m, ty, nm. split; [|done]. split.
    + by rewrite (ev_tasks _ _ _ He), Hk.
    + exists q. unfold cancel_if, cancel_task. by repeat case_match.
  - intros t k' w Hk' Hw Hp. destruct (decide (agent k' = name)) as [E|Hne].
    + left. by eapply evict_cancels.
    + destruct (evict_back _ _ Hk') as (k & Hk & _ & [Ha Hd Hf Hc _ _]).
      destruct (work k) as [w0|q m] eqn:Hwk; [|by rewrite (proj2 (Hd q m) eq_refl) in Hw].
      destruct (H9 t k w0 Hk Hwk) as [?|Hl]; [naive_solver|auto|]. right.
      rewrite (ev_loops _ _ _ He), lookup_delete_ne by done. by rewrite Ha.
Qed.

Lemma bus_ok_evict : bus_ok uuids s0.
Proof.
  constructor; [|apply tasks_ok_evict| |].
  - eapply requests_ok_frame; [apply evict_core|by destruct He..|apply Hok].
  - destruct Hok as [_ _ [C1 C2] _]. constructor; rewrite (ev_requests _ _ _ He), ?(ev_messages _ _ _ He); [|done].
    intros i r Hr Hg. by eapply evict_spent, C1.
  - intros t k' q Hk' Hw Hp Hcan. destruct (decide (agent k' = name)) as [E|Hne].
    { destruct (evict_cancels _ _ Hk' E) as [? _]; congruence. }
    destruct (evict_back _ _ Hk') as (k & Hk & E & [Ha _ _ Hc _ _]).
    rewrite (ev_queues _ _ _ He), lookup_delete_ne, Ha by done.
    assert (work k = work k' ∧ phase_ k = phase_ k') as [Ew Ep].
    { rewrite E. unfold cancel_if, cancel_task. by repeat case_match. }
    apply (ok_consumers _ _ Hok t k q Hk); [congruence..|]. destruct (cancel_requested k); naive_solver.
Qed.
End evict.

Lemma bus_ok_unregister uuids name s : bus_ok uuids s → bus_ok uuids (unregister uuids name s).2.
Proof.
  intros Hok. destruct (unregister_spec uuids name s) as (s0 & He & ->).
  pose proof (bus_ok_evict uuids name s s0 Hok He) as Hok0.
  apply (bus_ok_moves uuids (drain uuids (queue_of name s) s0)); [|by apply moves_unread].
  apply (bus_ok_moves uuids s0); [done|]. apply moves_settles.
  - apply drain_settles, Hok0.
  - apply none_gone_callers, callers_drain.
Qed.

(** ** Histories *)

Definition sent (d : Draft) uuids s : BusMessage :=
  mkMessage (d_type d) (d_source d) (d_target d) (d_content d) (uuids (drawn s)) ""
    (d_channel d) (d_context d) (d_priority d) false.

Lemma alter_last {A} (f : A → A) l x : alter f (length l) (l ++ [x]) = l ++ [f x].
Proof.
  apply list_eq. intros i. destruct (decide (length l = i)) as [<-|Hne].
  - by rewrite list_lookup_alter_eq, !snoc_last.
  - rewrite list_lookup_alter_ne by done. destruct (decide (i < length l)).
    + by rewrite !lookup_app_l.
    + rewrite !lookup_ge_None_2; [done|rewrite length_app; cbn; lia..].
Qed.

(** Where [send] leaves the bus. *)
Lemma send_spec m msg s : messages s !! m = Some msg →
  ∃ Q L n, send m s = s <| _log := L |> <| _seq := n |> <| queue_objects := Q |>
    ∧ entries <$> Q = match queues s !! target msg with
        | Some q => alter (insert_entry (priority msg, _seq s + 1, m)%Z) q (lanes s)
        | None => lanes s
        end.
Proof.
  intros Hm. unfold send, send_checked. rewrite Hm. destruct (queues s !! target msg) as [q|]; cbn [snd].
  - eexists _, _, _. split; [done|]. apply list_eq. intros j. unfold lanes. rewrite list_lookup_fmap.
    destruct (decide (q = j)) as [->|].
    + rewrite !list_lookup_alter_eq, list_lookup_fmap.
      change (queue_objects (s <| _log ::= _ |> <| _seq := _ |>)) with (queue_objects s).
      by destruct (queue_objects s !! j).
    + rewrite !list_lookup_alter_ne by done. by rewrite list_lookup_fmap.
  - exists (queue_objects s), (_log s), (_seq s). split; [by destruct s|done].
Qed.

(** A message posted on [s1], which is [s] with the message in the store. *)
Lemma send_posts uuids msg s s1 :
  messages s1 = messages s ++ [msg] → id_ msg = uuids (drawn s) → drawn s1 = S (drawn s) → cancelled msg = false →
  tasks s1 = tasks s → queues s1 = queues s → _dispatch_tasks s1 = _dispatch_tasks s →
  _loop_tasks s1 = _loop_tasks s → _dispatch_by_agent s1 = _dispatch_by_agent s → lanes s1 = lanes s →
  (requests s1 = requests s ∧ pending s1 = pending s
    ∨ type_ msg = REQUEST ∧ requests s1 = requests s ++ [mkRequest (length (messages s)) Pending None]
      ∧ pending s1 = <[id_ msg := length (requests s)]> (pending s)) →
  posts uuids msg s (send (length (messages s)) s1).
Proof.
  intros Em Hid Hd Hc Et Eq Ed El Eb Ela Er.
  assert (messages s1 !! length (messages s) = Some msg) as Hm by (rewrite Em; apply snoc_last).
  destruct (send_spec _ _ _ Hm) as (Q & L & n & -> & HQ). constructor; try done.
  rewrite Eq, Ela in HQ. destruct (queues s !! target msg) as [q|]; [right|by left].
  eexists q, _. split; [done|]. split; [|exact HQ]. done.
Qed.

(** [request] while the bus is up: the future is filed, then the message sent. *)
Definition filed (m : nat) (key : string) s : MessageBus :=
  (set_type REQUEST m s) <| requests ::= λ l, l ++ [mkRequest m Pending None] |>
    <| pending ::= <[key := length (requests s)]> |>.

Lemma request_up m msg s : _shutting_down s = false → messages s !! m = Some msg →
  request m s = (Ok (length (requests s)), send m (filed m (id_ msg) s)).
Proof.
  intros Hup Hm. unfold request, mbind, pym_bind, get, raise_when. rewrite Hup.
  cbn [modify mret pym_ret].
  match goal with |- context [match messages ?x !! m with _ => _ end] =>
    assert (messages x !! m = Some (msg <| type_ := REQUEST |>)) as -> end; [|done].
  etrans; [exact (list_lookup_alter_eq _ _ _)|]. by rewrite Hm.
Qed.

Lemma request_down m s : _shutting_down s = true → request m s = (Raise BusShutdownError, s).
Proof. intros Hd. unfold request, mbind, pym_bind, get, raise_when. by rewrite Hd. Qed.

Definition with_message uuids (d : Draft) s : MessageBus := (new_message uuids d s).2.

Lemma with_message_last uuids d s : messages (with_message uuids d s) !! length (messages s) = Some (sent d uuids s).
Proof. apply snoc_last. Qed.

Lemma happens_posts uuids ev d s :
  ev = Send d ∨ ev = Notify d ∨ ev = Ask d → ∃ msg, posts uuids msg s (happens uuids ev s).
Proof.
  intros [->|[->| ->]].
  - exists (sent d uuids s). apply (send_posts uuids (sent d uuids s) s (with_message uuids d s)); try done; by left.
  - exists ((sent d uuids s) <| type_ := NOTIFICATION |>).
    apply (send_posts uuids _ s (set_type NOTIFICATION (length (messages s)) (with_message uuids d s))); try done; [|by left].
    exact (alter_last _ (messages s) (sent d uuids s)).
  - change (happens uuids (Ask d) s) with (request (length (messages s)) (with_message uuids d s)).2.
    destruct (_shutting_down s) eqn:Hdown.
    + exists (sent d uuids s). rewrite request_down by done. constructor; try done; by left.
    + exists ((sent d uuids s) <| type_ := REQUEST |>).
      rewrite (request_up _ _ (with_message uuids d s) Hdown (with_message_last uuids d s)).
      apply (send_posts uuids _ s (filed (length (messages s)) (uuids (drawn s)) (with_message uuids d s))); try done; [|by right].
      exact (alter_last _ (messages s) (sent d uuids s)).
Qed.

Lemma bus_ok_happens uuids `{!Inj (=) (=) uuids} ev s : bus_ok uuids s → bus_ok uuids (happens uuids ev s).
Proof.
  intros Hok. destruct ev as [name h|name|name| | |d|d|d|i|i|i|t|t|t h|t].
  6-8: match goal with |- bus_ok _ (happens _ ?ev _) =>
      destruct (happens_posts uuids ev d s) as [msg Hp]; [by auto|exact (bus_ok_post uuids msg s _ Hok Hp)] end.
  - by apply bus_ok_register.
  - by apply bus_ok_start_loop.
  - by apply bus_ok_unregister.
  - by apply (bus_ok_moves uuids s), moves_unread.
  - by apply (bus_ok_moves uuids s), moves_fail_pending.
  - by apply (bus_ok_moves uuids s), moves_resumes.
  - by apply (bus_ok_moves uuids s), moves_times_out.
  - by apply bus_ok_caller_cancelled.
  - by apply bus_ok_consumer_step.
  - by apply (bus_ok_moves uuids s), (moves_dispatch_start uuids).
  - by apply (bus_ok_moves uuids s), moves_dispatch_end.
  - by apply (bus_ok_moves uuids s), moves_discard.
Qed.

Lemma bus_ok_new uuids n : bus_ok uuids (new_bus n).
Proof.
  constructor; [constructor|constructor|constructor|]; repeat intro;
    repeat match goal with
    | H : core (new_bus n) !! _ = _ |- _ => discriminate H
    | H : lanes (new_bus n) !! _ = _ |- _ => discriminate H
    | H : ∅ !! _ = _ |- _ => by rewrite lookup_empty in H
    | H : dispatches (new_bus n) _ _ _ |- _ => destruct H as [H _]; discriminate H
    | H : _ !! _ = Some _ |- _ => discriminate H
    end; try done.
Qed.

Lemma bus_ok_run uuids `{!Inj (=) (=) uuids} evs s : bus_ok uuids s → bus_ok uuids (run uuids evs s).
Proof.
  revert s. induction evs as [|ev evs IH]; intros s Hok; [done|]. cbn. by apply IH, bus_ok_happens.
Qed.
