(* ===== verification/BusScenario.v ===== *)
(** * The message bus: a scenario

    Concrete histories for the witnesses, and the three lapses after which a caller
    waits out its timeout. *)

From stdpp Require Import gmap.
From S2P Require Import Prelude PyDict Json Bus.
#[local] Open Scope nat_scope.

(** Distinct identifiers. *)
Fixpoint ticks (n : nat) : string := match n with O => "" | S n => String (Ascii.ascii_of_nat 120) (ticks n) end.

#[export] Instance ticks_inj : Inj (=) (=) ticks.
Proof. intros n. induction n as [|n IH]; intros [|m] E; try done. injection E as E. f_equal. by apply IH. Qed.

Definition ask : Draft := mkDraft CHANNEL_IN "voice" "butler" (JStr "hello") "voice" [] 1%Z.

(** A butler with one request at work and one queued. *)
Definition busy : list event :=
  [Register "butler" (Some 0); StartLoop "butler"; Consume 0; Ask ask; Ask ask; Consume 0; Begin 1].

Definition at_work : MessageBus := run ticks busy (new_bus 10).

(** The second caller hangs up. *)
Definition hung_up : MessageBus := run ticks (busy ++ [CallerCancelled 1]) (new_bus 10).

(** The first caller is answered. *)
Definition answered : MessageBus := run ticks (busy ++ [End 1 (Returned None); Resumes 0]) (new_bus 10).

Lemma at_work_run : at_work = run ticks busy (new_bus 10).
Proof. unfold at_work. reflexivity. Qed.
Lemma hung_up_run : hung_up = run ticks (busy ++ [CallerCancelled 1]) (new_bus 10).
Proof. unfold hung_up. reflexivity. Qed.
Lemma answered_run : answered = run ticks (busy ++ [End 1 (Returned None); Resumes 0]) (new_bus 10).
Proof. unfold answered. reflexivity. Qed.

Definition future_of (evs : list event) (i : nat) : option Future :=
  future <$> requests (run ticks evs (new_bus 10)) !! i.

(** The handler answers, and the caller has its answer. *)
Example answered_in_time :
  (caller <$> requests (run ticks (busy ++ [End 1 (Returned None); Resumes 0]) (new_bus 10)) !! 0)
  = Some (Some (Answered (mkMessage RESPONSE "butler" "voice" (JStr "") (ticks 2) (ticks 0) "voice" [] 1%Z false))).
Proof. by vm_compute. Qed.

(** An eviction reaches a dispatch between its creation and its first step: the
    coroutine is never entered, so nobody answers. *)
Example cancelled_before_it_began :
  future_of [Register "butler" (Some 0); StartLoop "butler"; Consume 0; Ask ask; Consume 0;
             Unregister "butler"; Begin 1; Discard 1] 0 = Some Pending.
Proof. by vm_compute. Qed.

(** One step later the eviction answers. *)
Example cancelled_after_it_began :
  (is_done <$> future_of [Register "butler" (Some 0); StartLoop "butler"; Consume 0; Ask ask; Consume 0;
             Begin 1; Unregister "butler"; End 1 CancelRaised] 0) = Some true.
Proof. by vm_compute. Qed.

(** A request to a name nobody registered is dropped, and its caller waits. *)
Example unknown_target : future_of [Ask ask] 0 = Some Pending.
Proof. by vm_compute. Qed.

(** An agent registered without a handler answers nothing. *)
Example no_handler :
  future_of [Register "butler" None; StartLoop "butler"; Consume 0; Ask ask; Consume 0; Begin 1] 0 = Some Pending.
Proof. by vm_compute. Qed.
