(* ===== verification/BusProperties.v ===== *)
(** * The message bus: what it promises

    Work that was called off never begins; the answer a caller gets is the answer to
    its own request; and a request is answered however its handler ends, unless its
    dispatch was cancelled before it began, found no handler, or was never queued. *)

From stdpp Require Import gmap.
From S2P Require Import Prelude PyDict Json Bus BusInvariants BusReach BusEvents BusScenario.
#[local] Open Scope nat_scope.

Implicit Types s : MessageBus.
Implicit Types uuids : nat → string.

(** ** Nothing called off begins *)

Record follows s s' : Prop := {
  fo_spent : ∀ m, spent s m → spent s' m;
  fo_tasks : ∀ t k', tasks s' !! t = Some k' → phase_ k' = Created ∨ ∃ k, tasks s !! t = Some k ∧ task_step k k'
}.

Lemma follows_moves s s' : moves s s' → follows s s'.
Proof.
  intros [Hq _ Em _ _]. constructor.
  - intros m. apply spent_quiet; [done|]. rewrite Em. eauto.
  - intros t k' Hk'. right. destruct (Forall2_lookup_r _ _ _ _ _ (qu_tasks _ _ Hq) Hk') as (k & ? & ?). eauto.
Qed.

Lemma follows_caller_cancelled uuids i s : bus_ok uuids s → follows s (caller_cancelled i s).
Proof.
  intros Hok. assert (quiet s (caller_cancelled i s)) as Hq by (destruct (caller_cancelled_quiet i s) as [[]|[]]; done).
  constructor.
  - intros m. apply spent_quiet; [done|]. intros x msg' Hx.
    destruct (caller_cancelled_quiet i s) as [[_ E]|(_ & m1 & msg1 & _ & E)]; rewrite E in Hx; [eauto|].
    apply alter_inv in Hx as (y & Hy & ->). exists y. split; [done|]. by case_decide.
  - intros t k' Hk'. right. destruct (Forall2_lookup_r _ _ _ _ _ (qu_tasks _ _ Hq) Hk') as (k & ? & ?). eauto.
Qed.

Lemma follows_post uuids msg s s' : bus_ok uuids s → posts uuids msg s s' → follows s s'.
Proof.
  intros Hok Hp. constructor; [by intros m; eapply spent_post|].
  intros t k'. rewrite (po_tasks _ _ _ _ Hp). right. by exists k'.
Qed.

Lemma follows_same_tasks s s' :
  messages s' = messages s → (∀ m, queued s' m → queued s m) →
  (∀ t k, tasks s' !! t = Some k → tasks s !! t = Some k ∨ phase_ k = Created ∧ ∃ w, work k = Consumer w) →
  follows s s'.
Proof.
  intros Em Hq Ht. constructor.
  - intros m [Ha Hb Hc]. constructor; rewrite ?Em; [done|eauto|]. intros t k [Hk [q Hw]].
    apply Ht in Hk as [Hk|[_ [w Hw']]]; [apply (Hc t k); by split; eauto|congruence].
  - intros t k Hk. apply Ht in Hk as [?|[? _]]; [right|by left]. by exists k.
Qed.

Lemma follows_register name h s : follows s (register name h s).
Proof.
  unfold register. destruct (queues s !! name) eqn:Hq; [by apply follows_moves, moves_unread|].
  apply follows_same_tasks; [done| |by left].
  intros m (q & es & Hl & Hin).
  assert (lanes s ++ [[]] = entries <$> (queue_objects s ++ [mkQueue [] 0])) as El by by rewrite fmap_app.
  change ((entries <$> (queue_objects s ++ [mkQueue [] 0])) !! q = Some es) in Hl. rewrite <-El in Hl.
  apply snoc_inv in Hl as [?|[_ ->]]; [by exists q, es|by apply not_elem_of_nil in Hin].
Qed.

Lemma follows_start_loop name s : follows s (start_agent_loop name s).2.
Proof.
  assert (follows s (create_task (mkTask name (Consumer None) Created false)
    (s <| _loop_tasks ::= <[name := length (tasks s)]> |>))) as Hnew.
  { apply follows_same_tasks; [done|done|]. intros t k Hk.
    apply snoc_inv in Hk as [?|[_ ->]]; [by left|right]. split; [done|by eexists]. }
  assert (follows s s) by (apply follows_moves, moves_refl).
  unfold start_agent_loop. by repeat case_match.
Qed.

Lemma follows_unregister uuids name s : bus_ok uuids s → follows s (unregister uuids name s).2.
Proof.
  intros Hok. destruct (unregister_spec uuids name s) as (s0 & He & ->).
  destruct (drain_settles uuids (queue_of name s) s0) as (R & P & D & -> & _).
  { apply (bus_ok_evict uuids name s s0 Hok He). }
  constructor.
  - intros m Hs. apply (evict_spent uuids name s s0 Hok He) in Hs as [Ha Hb Hc]. by constructor.
  - intros t k' Hk'. right. destruct (evict_back name s s0 He t k' Hk') as (k & ? & _ & ?). eauto.
Qed.

Lemma follows_consumer_step uuids t s : bus_ok uuids s → follows s (consumer_step t s).
Proof.
  intros Hok. assert (follows s s) as Hrefl by (apply follows_moves, moves_refl).
  unfold consumer_step. destruct (tasks s !! t) as [k|] eqn:Hk; [|done].
  destruct (work k) as [w|q m] eqn:Hw; [|by destruct (phase_ k)].
  destruct (phase_ k) eqn:Hp; [| |by destruct w].
  { assert (follows s (consumer_start t k s)) by by eapply follows_moves, moves_consumer_start.
    by destruct w. }
  destruct w as [q|]; [|done]. unfold consumer_take.
  destruct (cancel_requested k); [apply follows_moves, moves_finish|].
  destruct (queue_objects s !! q) as [qo|] eqn:Hq; [|done].
  destruct (entries qo) as [|[p m] es] eqn:He; [done|].
  assert (lanes s !! q = Some ((p, m) :: es)) as Hlane.
  { unfold lanes. by rewrite list_lookup_fmap, Hq, <-He. }
  assert (queued s m) as Hqm by (exists q, ((p, m) :: es); split; [done|by left]).
  set (s1 := s <| queue_objects ::= _ |>). change (messages s1) with (messages s).
  assert (shorter (lanes s) (lanes s1)) as Hsh.
  { apply shorter_alter. intros es0 He0. change (lanes s !! q = Some es0) in He0.
    simplify_eq. by apply sublist_cons. }
  assert (∀ Q, shorter (lanes s) (entries <$> Q) → follows s (s <| queue_objects := Q |>)) as Hpop.
  { intros Q HQ. apply follows_same_tasks; [done| |by left]. intros x.
    by apply (shorter_queued s (s <| queue_objects := Q |>)). }
  destruct (messages s !! m) as [msg|] eqn:Hm; [|by apply Hpop].
  destruct (cancelled msg) eqn:Hf.
  - destruct (task_done q s1) as [s2|] eqn:Hd; cbn.
    + apply task_done_same in Hd as (Q & -> & HQ). apply (Hpop Q). by rewrite HQ.
    + constructor.
      * intros x Hx. apply (fo_spent s s1 (Hpop _ Hsh)) in Hx. revert Hx. apply spent_quiet; [exact (quiet_finish t s1)|by eauto].
      * intros t' k' Hk'. right. apply alter_inv in Hk' as (k0 & Hk0 & ->). exists k0. split; [done|].
        case_decide; [apply finish_task_step|done].
  - pose proof (fo_spent s s1 (Hpop _ Hsh)) as Hsp. unfold spawn_dispatch. case_bool_decide; constructor.
    2, 4: intros t' k' Hk'; apply snoc_inv in Hk' as [?|[_ ->]]; [right; by exists k'|by left].
    all: intros x Hx; destruct (Hsp x Hx) as [Ha Hb Hc]; constructor; [done|done|];
      intros t' k' [Hk' [q' Hw']] Hp'; apply snoc_inv in Hk' as [Hk'|[_ ->]];
      [apply (Hc t' k'); [by split; eauto|done]|injection Hw' as _ ->];
      by rewrite (sp_flagged _ _ Hx msg Hm Hqm) in Hf.
Qed.

Lemma follows_happens uuids `{!Inj (=) (=) uuids} ev s : bus_ok uuids s → follows s (happens uuids ev s).
Proof.
  intros Hok. destruct ev as [name h|name|name| | |d|d|d|i|i|i|t|t|t h|t].
  6-8: match goal with |- follows _ (happens _ ?ev _) =>
      destruct (happens_posts uuids ev d s) as [msg Hp]; [by auto|by eapply follows_post] end.
  - apply follows_register.
  - apply follows_start_loop.
  - by apply follows_unregister.
  - by apply follows_moves, moves_unread.
  - by apply follows_moves, moves_fail_pending.
  - by apply follows_moves, moves_resumes.
  - by apply follows_moves, moves_times_out.
  - by eapply follows_caller_cancelled.
  - by eapply follows_consumer_step.
  - by apply follows_moves, (moves_dispatch_start uuids).
  - by apply follows_moves, moves_dispatch_end.
  - apply follows_moves, moves_discard.
Qed.

Lemma spent_begins uuids `{!Inj (=) (=) uuids} ev s m :
  bus_ok uuids s → spent s m → handling (happens uuids ev s) m → handling s m.
Proof.
  intros Hok Hs (t & k' & [Hk' [q Hw]] & Hp).
  destruct (fo_tasks _ _ (follows_happens uuids ev s Hok) t k' Hk') as [Hc|(k & Hk & Hst)]; [congruence|].
  assert (dispatches s t k m) as Hd by (split; [done|exists q; by apply (ts_dispatch _ _ Hst)]).
  destruct (ts_running _ _ Hst Hp) as [Hr|[Hc Hn]]; [by exists t, k|].
  rewrite (sp_cancelled _ _ Hs t k Hd) in Hn; congruence.
Qed.

Lemma spent_run uuids `{!Inj (=) (=) uuids} evs s m :
  bus_ok uuids s → spent s m →
  spent (run uuids evs s) m ∧ (handling (run uuids evs s) m → handling s m).
Proof.
  revert s. induction evs as [|ev evs IH]; intros s Hok Hs; [done|].
  destruct (IH (happens uuids ev s)) as [IH1 IH2].
  - by apply bus_ok_happens.
  - by apply (follows_happens uuids ev s Hok).
  - split; [exact IH1|]. intros Hh. eapply spent_begins; eauto.
Qed.

(** ** Work that was called off: the two ways *)

(** C38: When the caller of a request is cancelled, the work it asked for stops: every
    handler at work on it has been asked to stop, and if none had begun, none ever
    will, whatever happens on the bus afterwards. *)
Theorem gone_callers_get_no_work uuids `{!Inj (=) (=) uuids} n evs evs' s i r :
  s = run uuids evs (new_bus n) →
  requests s !! i = Some r → caller r = Some Gone →
  (∀ t k, dispatches s t k (about r) → phase_ k ≠ Finished → cancel_requested k = true)
  ∧ (handling (run uuids evs' s) (about r) → handling s (about r)).
Proof.
  intros -> Hr Hg. pose proof (bus_ok_run uuids evs _ (bus_ok_new uuids n)) as Hok.
  pose proof (co_gone _ (ok_calls _ _ Hok) _ _ Hr Hg) as Hs.
  split; [apply (sp_cancelled _ _ Hs)|by apply spent_run].
Qed.

(** Evicting an agent ends its work: its queue and handler are gone; every task it
    had that was not cancelled before is among those [unregister_and_wait] waits for,
    and all are asked to stop; and no message sent to it before ever begins to be
    handled afterwards, even if the name is registered again. *)
Theorem evicted_agents_do_no_work uuids `{!Inj (=) (=) uuids} n evs evs' s name :
  s = run uuids evs (new_bus n) →
  let '(waited, s') := unregister_and_wait uuids name s in
  queues s' !! name = None ∧ handlers s' !! name = None
  ∧ (∀ t k, tasks s' !! t = Some k → agent k = name → phase_ k ≠ Finished →
       cancel_requested k = true
       ∧ (t ∈ waited ∨ ∃ k0, tasks s !! t = Some k0 ∧ cancel_requested k0 = true))
  ∧ ∀ m msg, messages s !! m = Some msg → target msg = name →
      handling (run uuids evs' s') m → handling s m.
Proof.
  intros ->. pose proof (bus_ok_run uuids evs _ (bus_ok_new uuids n)) as Hok.
  set (s := run uuids evs (new_bus n)) in *. clearbody s.
  assert (unregister_and_wait uuids name s = (to_cancel name s, (unregister uuids name s).2)) as -> by done.
  pose proof (bus_ok_unregister uuids name s Hok) as Hok'.
  destruct (unregister_spec uuids name s) as (s0 & He & E).
  destruct (drain_settles uuids (queue_of name s) s0) as (R & P & D & Ed & _).
  { apply (bus_ok_evict uuids name s s0 Hok He). }
  rewrite E, Ed in *. split_and!.
  - change (queues s0 !! name = None). rewrite (ev_queues _ _ _ He). apply lookup_delete_eq.
  - apply lookup_delete_eq.
  - intros t k Hk Ha Hp. by apply (evict_cancels uuids name s s0 Hok He t k).
  - intros m msg Hm Hname Hh. set (s' := _ <| handlers ::= _ |>) in *.
    pose proof (core_of _ _ _ Hm) as Hcm.
    assert (∀ t k, dispatches s0 t k m → agent k = name) as Hagent.
    { intros t k (k0 & Hd & Hst)%(evict_dispatches_back name s s0 He).
      destruct (to_dispatch _ (ok_tasks _ _ Hok) _ _ _ Hd) as (key & ty & Hc & _).
      rewrite Hcm in Hc. injection Hc as _ _ Hc. by rewrite (ts_agent _ _ Hst), <-Hc, Hname. }
    assert (spent s' m) as Hspent.
    { constructor.
      - change (m < length (messages s0)). rewrite (ev_messages _ _ _ He). by eapply lookup_lt_Some.
      - intros msg' _ Hq. apply (evict_queued uuids name s s0 Hok He) in Hq as [_ (key & ty & a & Hc & Hne)].
        rewrite Hcm in Hc. by injection Hc as _ _ <-.
      - intros t k Hd Hp. destruct Hd as [Hk Hw].
        apply (evict_cancels uuids name s s0 Hok He t k); [done| |done]. by apply (Hagent t k). }
    apply (spent_run uuids evs' s' m Hok' Hspent) in Hh as (t & k & Hd & Hp).
    destruct Hd as [Hk' [q Hw']]. destruct (evict_back name s s0 He t k Hk') as (k1 & Hk1 & Ek & Hst).
    exists t, k1. split; [split; [done|exists q; by apply (ts_dispatch _ _ Hst)]|].
    rewrite Ek in Hp. revert Hp. unfold cancel_if, cancel_task. by repeat case_match.
Qed.

(** The answer a caller gets is the answer to its own request. *)
Theorem answers_match_requests uuids `{!Inj (=) (=) uuids} n evs s i r msg x :
  s = run uuids evs (new_bus n) →
  requests s !! i = Some r → messages s !! about r = Some msg → caller r = Some (Answered x) →
  reply_to x = id_ msg ∧ type_ x = RESPONSE.
Proof.
  intros -> Hr Hm Hc. pose proof (bus_ok_run uuids evs _ (bus_ok_new uuids n)) as Hok.
  eapply (ro_answers _ _ (ok_requests _ _ Hok)); [exact Hr|by right|exact Hm].
Qed.

(** ** Witnesses *)

Lemma gone_callers_get_no_work_witness :
  ¬ handling (run ticks [Consume 0; Begin 2] hung_up) 1.
Proof.
  assert (∃ r, requests hung_up !! 1 = Some r
    ∧ about r = 1 ∧ caller r = Some Gone) as (r & Hr & Ha & Hc).
  { eexists. split; [vm_compute; reflexivity|split; vm_compute; reflexivity]. }
  pose proof (gone_callers_get_no_work ticks 10 (busy ++ [CallerCancelled 1]) [Consume 0; Begin 2]
    hung_up 1 r hung_up_run Hr Hc) as [_ H].
  rewrite Ha in H. intros Hh. apply H in Hh as (t & k & [Hk [q Hw]] & Hp). clear H Hr.
  destruct t as [|[|t]]; vm_compute in Hk; [|by injection Hk as <-|done].
  injection Hk as <-. discriminate Hw.
Defined.

Lemma evicted_agents_do_no_work_witness :
  ¬ handling (run ticks [Register "butler" (Some 1); StartLoop "butler"; Consume 2; Consume 2; Begin 3]
    (unregister_and_wait ticks "butler" at_work).2) 1.
Proof.
  pose proof (evicted_agents_do_no_work ticks 10 busy
    [Register "butler" (Some 1); StartLoop "butler"; Consume 2; Consume 2; Begin 3] at_work "butler" at_work_run) as H.
  destruct (unregister_and_wait ticks "butler" at_work) as [waited s'].
  destruct H as (_ & _ & _ & H). cbn [snd].
  assert (∃ msg, messages at_work !! 1 = Some msg ∧ target msg = "butler") as (msg & Hm & Ht).
  { eexists. split; vm_compute; reflexivity. }
  intros Hh. apply (H 1 msg Hm Ht) in Hh as (t & k & [Hk [q Hw]] & Hp). clear H Hm.
  destruct t as [|[|t]]; vm_compute in Hk; [|by injection Hk as <-|done].
  injection Hk as <-. discriminate Hw.
Defined.

Lemma answers_match_requests_witness :
  ∃ x, reply_to x = ticks 0 ∧ type_ x = RESPONSE.
Proof.
  assert (∃ r msg x, requests answered !! 0 = Some r
    ∧ messages answered !! about r = Some msg
    ∧ caller r = Some (Answered x) ∧ id_ msg = ticks 0) as (r & msg & x & Hr & Hm & Hc & Hid).
  { eexists _, _, _. split; [vm_compute; reflexivity|split; [vm_compute; reflexivity|split; vm_compute; reflexivity]]. }
  exists x. rewrite <-Hid.
  exact (answers_match_requests ticks 10 (busy ++ [End 1 (Returned None); Resumes 0])
    answered 0 r msg x answered_run Hr Hm Hc).
Defined.
