(* ===== verification/BusLiveness.v ===== *)
(** * The message bus: requests get answered

    A request whose caller waits is owned: its message is queued, or a task will
    handle it; however that task ends, and when the agent is evicted, the caller's
    future is resolved.  Three things break this, and they are excluded here and
    shown in [BusScenario.v]: a request to an unknown name, a dispatch that finds no handler,
    and a dispatch cancelled before its first step. *)

From stdpp Require Import gmap.
From S2P Require Import Prelude PyDict Json Bus BusInvariants BusReach BusEvents BusScenario.
#[local] Open Scope nat_scope.

Implicit Types s : MessageBus.
Implicit Types uuids : nat → string.

(** ** Closed requests *)

(** Request [i] no longer waits for an answer. *)
Definition closed s (i : nat) : Prop := ∀ r, requests s !! i = Some r → future r ≠ Pending ∨ caller r ≠ None.

Lemma closed_settles s s' i : settles s s' → closed s i → closed s' i.
Proof.
  intros (R & P & D & -> & _ & _ & HR) Hc r' Hr'. change (R !! i = Some r') in Hr'.
  destruct (Forall2_lookup_r _ _ _ _ _ HR Hr') as (r & Hr & [_ Hf Hcl]). destruct (Hc r Hr) as [H|H].
  - left. destruct Hf as [->|(? & ? & _)]; done.
  - right. destruct Hcl as [->|[? _]]; done.
Qed.

(** An entry leaves [pending] only when its request is closed. *)
Definition drops s s' : Prop := ∀ key i, pending s !! key = Some i → pending s' !! key = Some i ∨ closed s' i.

Lemma drops_refl s : drops s s.
Proof. intros key i ?. by left. Qed.

Lemma drops_trans s s1 s2 : drops s s1 → settles s1 s2 → drops s1 s2 → drops s s2.
Proof.
  intros H1 Hs H2 key i Hi. destruct (H1 key i Hi) as [Hi1|Hc]; [by apply H2|right].
  by eapply closed_settles.
Qed.

Lemma closed_set i f s : f ≠ Pending → closed (set_future i f s) i.
Proof.
  intros Hf r Hr. change (alter (complete f) i (requests s) !! i = Some r) in Hr.
  apply alter_inv in Hr as (x & _ & ->). rewrite decide_True by done. left. unfold complete.
  destruct (future x) eqn:E; cbn; rewrite ?E; done.
Qed.

Lemma drops_delete s s' key i :
  pending s !! key = Some i → pending s' = delete key (pending s) → closed s' i → drops s s'.
Proof.
  intros Hi E Hc key' j Hj. destruct (decide (key' = key)) as [->|]; [right; by simplify_eq|left].
  by rewrite E, lookup_delete_ne.
Qed.

Lemma respond_closes key x s i : pending s !! key = Some i → closed (respond key x s) i.
Proof. intros Hi. unfold respond. rewrite Hi. by apply closed_set. Qed.

Lemma drops_respond key x s : drops s (respond key x s).
Proof.
  destruct (pending s !! key) as [i|] eqn:Hi; [|unfold respond; rewrite Hi; apply drops_refl].
  apply (drops_delete _ _ key i); [done| |by apply respond_closes]. unfold respond. by rewrite Hi.
Qed.

Lemma cancelled_closes uuids msg s i : pending s !! id_ msg = Some i → closed (answer_cancelled uuids msg s) i.
Proof.
  intros Hi. unfold answer_cancelled. rewrite Hi. cbn [uuid4].
  change (requests (s <| pending ::= delete (id_ msg) |>)) with (requests s).
  destruct (requests s !! i) as [r|] eqn:Hr.
  - destruct (is_done (future r)) eqn:Hd; [|by apply closed_set].
    intros r' Hr'. change (requests s !! i = Some r') in Hr'. rewrite Hr in Hr'. injection Hr' as <-.
      left. by destruct (future r).
  - intros r' Hr'. change (requests s !! i = Some r') in Hr'. congruence.
Qed.

Lemma drops_cancelled uuids msg s : drops s (answer_cancelled uuids msg s).
Proof.
  destruct (pending s !! id_ msg) as [i|] eqn:Hi; [|unfold answer_cancelled; rewrite Hi; apply drops_refl].
  apply (drops_delete _ _ (id_ msg) i); [done| |by apply cancelled_closes].
  unfold answer_cancelled. rewrite Hi. cbn [uuid4]. by repeat case_match.
Qed.

Lemma drain_drops uuids es s : pending_ok s → drops s (drain uuids es s).
Proof.
  revert s. induction es as [|e es IH]; intros s Hok; [apply drops_refl|].
  cbn. set (s1 := match messages s !! e.2 with Some _ => _ | None => _ end).
  assert (settles s s1) as Hs by (unfold s1; case_match; [by apply answer_cancelled_settles|apply settles_refl]).
  assert (drops s s1) as Hd by (unfold s1; case_match; [apply drops_cancelled|apply drops_refl]).
  pose proof (pending_ok_settles _ _ Hok Hs) as Hok1.
  eapply drops_trans; [exact Hd|by apply drain_settles|by apply IH].
Qed.

(** Every queued request whose future is filed is closed. *)
Lemma drain_closes uuids es s m msg i :
  pending_ok s → m ∈ es.*2 → messages s !! m = Some msg → pending s !! id_ msg = Some i →
  closed (drain uuids es s) i.
Proof.
  revert s. induction es as [|e es IH]; intros s Hok Hin Hm Hi; [by apply not_elem_of_nil in Hin|].
  cbn. set (s1 := match messages s !! e.2 with Some _ => _ | None => _ end).
  assert (settles s s1) as Hs by (unfold s1; case_match; [by apply answer_cancelled_settles|apply settles_refl]).
  pose proof (pending_ok_settles _ _ Hok Hs) as Hok1.
  assert (closed s1 i → closed (drain uuids es s1) i) as Hlater.
  { intros Hc. eapply closed_settles; [by apply drain_settles|done]. }
  cbn in Hin. apply elem_of_cons in Hin as [->|Hin].
  - apply Hlater. unfold s1. rewrite Hm. by apply cancelled_closes.
  - assert (drops s s1) as Hd by (unfold s1; case_match; [apply drops_cancelled|apply drops_refl]).
    destruct (Hd _ _ Hi) as [Hi1|Hc]; [|by apply Hlater].
    apply IH; [done|done| |done]. destruct Hs as (R & P & D & -> & _). exact Hm.
Qed.

Lemma result_closes uuids h msg s i :
  type_ msg = REQUEST → pending s !! id_ msg = Some i → closed (dispatch_result uuids h msg s) i.
Proof.
  intros Hty Hi. destruct h as [[x|]| |]; cbn.
  - rewrite bool_decide_true by done. by apply respond_closes.
  - rewrite bool_decide_true by eauto. by apply respond_closes.
  - rewrite bool_decide_true by done. by apply respond_closes.
  - by apply cancelled_closes.
Qed.

Lemma result_drops uuids h msg s : drops s (dispatch_result uuids h msg s).
Proof.
  destruct h as [[x|]| |]; cbn; try case_bool_decide; try apply drops_refl.
  - apply drops_respond.
  - intros key i Hi. by apply (drops_respond _ _ (s <| drawn ::= S |>)).
  - intros key i Hi. by apply (drops_respond _ _ (s <| drawn ::= S |>)).
  - apply drops_cancelled.
Qed.

Lemma fail_pending_drops s : drops s (fail_pending s).
Proof.
  intros key i Hi. right. unfold fail_pending.
  assert (i ∈ (map_to_list (pending s)).*2) as Hin.
  { apply list_elem_of_fmap. exists (key, i). split; [done|]. by apply elem_of_map_to_list. }
  set (l := (map_to_list (pending s)).*2) in *. clearbody l.
  change (closed (foldr (λ i s, set_future i (Failed BusShutdownError) s) s l) i).
  induction l as [|j l IH]; [by apply not_elem_of_nil in Hin|].
  apply elem_of_cons in Hin as [->|Hin]; [by apply closed_set|].
  specialize (IH Hin). intros r Hr. apply alter_inv in Hr as (x & Hx & ->).
  destruct (IH x Hx) as [H|H]; [left|right]; case_decide; try done;
    unfold complete; destruct (future x) eqn:E; cbn; rewrite ?E; done.
Qed.

Lemma leaves_drops uuids d i m msg s :
  requests_ok uuids s → waiting i s = Some (m, msg) → drops s (caller_leaves d i msg s).
Proof.
  intros Hok (r & Hr & Hc & Ha & Hm)%waiting_inv key j Hj.
  destruct (decide (key = id_ msg)) as [->|]; [|left; etrans; [by apply lookup_delete_ne|done]]. right.
  destruct (ro_pending _ _ Hok _ _ Hj) as (r' & msg' & Hr' & Hm' & Hid).
  assert (about r' = m) as Ham.
  { apply (ro_inj _ _ Hok _ _ _ _ (core_of _ _ _ Hm') (core_of _ _ _ Hm) Hid). }
  assert (j = i) as -> by (eapply (ro_once _ _ Hok); [done|done|congruence]).
  intros x Hx. apply alter_inv in Hx as (y & _ & ->). rewrite decide_True by done. right.
  unfold complete. by case_match.
Qed.

(** ** Owners *)

(** A task that will handle message [m]: it has begun, or may still begin. *)
Definition handles s (t : nat) (k : Task) (m : nat) : Prop :=
  dispatches s t k m ∧ (phase_ k = Running ∨ phase_ k = Created ∧ cancel_requested k = false).

Definition owned s (m : nat) : Prop := queued s m ∨ ∃ t k, handles s t k m.

(** The caller of request [i] waits for an answer that has not come. *)
Definition waits s (i : nat) (r : Request) : Prop :=
  requests s !! i = Some r ∧ caller r = None ∧ future r = Pending.

Definition served s : Prop := ∀ i r msg, waits s i r → messages s !! about r = Some msg →
  pending s !! id_ msg = Some i ∧ owned s (about r).

Lemma waits_closed s i r : waits s i r → ¬ closed s i.
Proof. intros (Hr & Hc & Hf) H. destruct (H r Hr); congruence. Qed.

Lemma waits_settles s s' i r : settles s s' → waits s' i r → ∃ r0, waits s i r0 ∧ about r0 = about r.
Proof.
  intros (R & P & D & -> & _ & _ & HR) (Hr & Hc & Hf). change (R !! i = Some r) in Hr.
  destruct (Forall2_lookup_r _ _ _ _ _ HR Hr) as (r0 & Hr0 & [Ha Hfu Hcl]). exists r0. split; [|done].
  split_and!; [done| |].
  - destruct Hcl as [<-|[? _]]; done.
  - destruct Hfu as [<-|(? & ? & _)]; done.
Qed.

(** Steps that settle requests. *)
Lemma served_settles s s' : settles s s' → drops s s' → served s → served s'.
Proof.
  intros Hs Hd Hsv i r msg Hw Hm. destruct (waits_settles _ _ _ _ Hs Hw) as (r0 & Hw0 & Ha).
  assert (messages s' = messages s ∧ queue_objects s' = queue_objects s ∧ tasks s' = tasks s) as (Em & Eq & Et)
    by by destruct Hs as (R & P & D & -> & _).
  rewrite Em, <-Ha in Hm. destruct (Hsv i r0 msg Hw0 Hm) as [Hp Ho]. rewrite <-Ha. split.
  - destruct (Hd _ _ Hp) as [?|Hc]; [done|]. by destruct (waits_closed _ _ _ Hw).
  - unfold owned, handles, dispatches, queued, lanes in *. by rewrite Eq, Et.
Qed.

(** Steps that leave requests alone and lose no owner of a waiting one. *)
Lemma served_frame s s' :
  core s' = core s → requests s' = requests s → pending s' = pending s →
  (∀ i r, waits s i r → owned s (about r) → owned s' (about r)) → served s → served s'.
Proof.
  intros Ec Er Ep Ho Hsv i r msg Hw Hm. unfold waits in Hw. rewrite Er in Hw.
  apply core_of in Hm. rewrite Ec in Hm. apply of_core in Hm as (msg0 & Hm & E). injection E as E _ _.
  rewrite Ep, E. destruct (Hsv i r msg0 Hw Hm). eauto.
Qed.

Lemma owned_tasks s s' m :
  (queued s m → queued s' m) → (∀ t k, handles s t k m → ∃ k', handles s' t k' m) →
  owned s m → owned s' m.
Proof. intros Hq Ht [?|(t & k & Hh)]; [left; auto|right]. destruct (Ht t k Hh). eauto. Qed.

Lemma handles_alter t f s t0 k m :
  (t0 = t → work (f k) = work k
    ∧ (phase_ k = Running ∨ phase_ k = Created ∧ cancel_requested k = false →
       phase_ (f k) = Running ∨ phase_ (f k) = Created ∧ cancel_requested (f k) = false)) →
  handles s t0 k m → ∃ k', handles (s <| tasks ::= alter f t |>) t0 k' m.
Proof.
  intros Hf [[Hk [q Hw]] Hp].
  pose proof (alter_some f t t0 (tasks s) k Hk) as Hk'. case_decide as E; [|exists k; by split; [split; eauto|]].
  destruct (Hf (eq_sym E)) as [Ew Hpf]. exists (f k). split; [|by apply Hpf]. split; [exact Hk'|]. exists q. congruence.
Qed.

(** The events that may strand a caller are excluded. *)
Definition prompt uuids (ev : event) s : Prop :=
  match ev with
  | Ask d => is_Some (queues s !! d_target d)
  | Unregister name => ∀ t k m, t ∈ to_cancel name s → dispatches s t k m → phase_ k ≠ Created
  | Begin t => ∀ k m, dispatches s t k m → is_Some (handlers s !! agent k ≫= id)
  | _ => True
  end.

Section prompt.
Context (uuids : nat → string) `{!Inj (=) (=) uuids}.

Lemma served_consume t s : bus_ok uuids s → served s → served (consumer_step t s).
Proof.
  intros Hok Hsv. unfold consumer_step. destruct (tasks s !! t) as [k|] eqn:Hk; [|done].
  destruct (work k) as [w|q m] eqn:Hw; [|by destruct (phase_ k)].
  assert (∀ f : Task → Task, served (s <| tasks ::= alter f t |>)) as Halter.
  { intros f. apply (served_frame s); try done. intros i r _. apply owned_tasks; [done|].
    intros t0 k0 Hh. apply (handles_alter t f s t0 k0); [|done]. intros ->. destruct Hh as [[Hk0 [q' Hw0]] _]. congruence. }
  destruct (phase_ k) eqn:Hp; [| |by destruct w].
  { assert (served (consumer_start t k s)).
    { unfold consumer_start. repeat case_match; apply Halter. }
    by destruct w. }
  destruct w as [q|]; [|done]. unfold consumer_take. destruct (cancel_requested k); [apply Halter|].
  destruct (queue_objects s !! q) as [qo|] eqn:Hq; [|done].
  destruct (entries qo) as [|[p m] es] eqn:He; [done|].
  assert (lanes s !! q = Some ((p, m) :: es)) as Hlane.
  { unfold lanes. by rewrite list_lookup_fmap, Hq, <-He. }
  set (s1 := s <| queue_objects ::= _ |>). change (messages s1) with (messages s).
  assert (∀ x, queued s x → x = m ∨ queued s1 x) as Hqd.
  { intros x (q' & es' & Hl & Hin). destruct (decide (q' = q)) as [->|Hne].
    - rewrite Hlane in Hl. injection Hl as <-. cbn in Hin. apply elem_of_cons in Hin as [?|Hin]; [by left|right].
      exists q, es. split; [|done]. unfold lanes. rewrite list_lookup_fmap.
      change (queue_objects s1) with (alter (λ qo, qo <| entries := es |>) q (queue_objects s)).
      by rewrite list_lookup_alter_eq, Hq.
    - right. exists q', es'. split; [|done]. unfold lanes in *. rewrite list_lookup_fmap in *.
      change (queue_objects s1) with (alter (λ qo, qo <| entries := es |>) q (queue_objects s)).
      by rewrite list_lookup_alter_ne. }
  destruct (to_queue _ (ok_tasks _ _ Hok) _ _ m Hlane) as (key & ty & name & Hcm & _); [by left|].
  apply of_core in Hcm as (msg & Hm & _). rewrite Hm.
  destruct (cancelled msg) eqn:Hf.
  - destruct (co_flag _ (ok_calls _ _ Hok) _ _ Hm Hf) as (j & rj & Hj & Haj & Hgone).
    assert (∀ s2, core s2 = core s → requests s2 = requests s → pending s2 = pending s →
      lanes s2 = lanes s1 → (∀ t0 k0 x, handles s t0 k0 x → ∃ k', handles s2 t0 k' x) → served s2) as Hdrop.
    { intros s2 Ec Er Ep El Ht. apply (served_frame s); try done. intros i r (Hr & Hc & _).
      apply owned_tasks; [|by intros; eapply Ht]. intros Hx. unfold queued. rewrite El.
      destruct (Hqd _ Hx) as [Em|?]; [|done].
      assert (i = j) as -> by (eapply (ro_once _ _ (ok_requests _ _ Hok)); [done|done|congruence]). congruence. }
    destruct (task_done q s1) as [s2|] eqn:Hd; cbn.
    + apply task_done_same in Hd as (Q & -> & HQ). apply Hdrop; try done. eauto.
    + apply Hdrop; try done. intros t0 k0 x Hh. apply (handles_alter t _ s1 t0 k0 x); [|done].
      intros ->. destruct Hh as [[Hk0 [q' Hw0]] _]. congruence.
  - assert (∀ s2, core s2 = core s → requests s2 = requests s → pending s2 = pending s →
      lanes s2 = lanes s1 → tasks s2 = tasks s ++ [mkTask (agent k) (Dispatch q m) Created false] → served s2) as Hspawn.
    { intros s2 Ec Er Ep El Et. apply (served_frame s); try done. intros i r _ [Hx|(t0 & k0 & Hh)].
      - destruct (Hqd _ Hx) as [->|Hx1]; [right|left; unfold queued; by rewrite El].
        exists (length (tasks s)), (mkTask (agent k) (Dispatch q m) Created false).
        split; [split; [rewrite Et; apply snoc_last|by eexists]|by right].
      - right. exists t0, k0. destruct Hh as [[Hk0 ?] ?]. split; [split|]; [|done|done]. rewrite Et. by apply snoc_some. }
    unfold spawn_dispatch. case_bool_decide; by apply Hspawn.
Qed.

Lemma served_unread s s' : unread s s' → served s → served s'.
Proof.
  intros [Em Eo Er Et _ Ep _ _ _ _]. apply served_frame; [unfold core; by rewrite Em|done|done|].
  intros i r _. unfold owned, handles, dispatches, queued, lanes. by rewrite Eo, Et.
Qed.

Lemma served_begin t s : served s → prompt uuids (Begin t) s → served (dispatch_start t s).
Proof.
  intros Hsv Hpr. unfold dispatch_start. destruct (tasks s !! t) as [k|] eqn:Hk; [|done].
  destruct (work k) as [w|q m] eqn:Hw; [done|]. destruct (phase_ k) eqn:Hp; try done.
  destruct (cancel_requested k) eqn:Hcan.
  - apply (served_frame s); try done. intros i r _. apply owned_tasks; [done|]. intros t0 k0 Hh.
    apply (handles_alter t _ s t0 k0 (about r)); [|done]. intros ->.
    destruct Hh as [[Hk0 _] Hph]. rewrite Hk in Hk0. injection Hk0 as <-. destruct Hph as [?|[_ ?]]; congruence.
  - assert (served (s <| tasks ::= alter (λ k, k <| phase_ := Running |>) t |>)).
    { apply (served_frame s); try done. intros i r _. apply owned_tasks; [done|]. intros t0 k0 Hh.
      apply (handles_alter t _ s t0 k0 (about r)); [|done]. intros _. split; [done|by left]. }
    destruct (Hpr k m) as [h Hh]; [split; eauto|]. destruct (handlers s !! agent k) as [[h'|]|]; done.
Qed.

(** However a handler ends, the request is closed. *)
Lemma served_end t h s : bus_ok uuids s → served s → served (dispatch_end uuids t h s).
Proof.
  intros Hok Hsv. unfold dispatch_end. destruct (tasks s !! t) as [k|] eqn:Hk; [|done].
  destruct (work k) as [w|q m] eqn:Hw; [done|]. destruct (phase_ k) eqn:Hp; try done.
  destruct (messages s !! m) as [msg|] eqn:Hm; [|done].
  pose proof (dispatch_result_settles uuids h msg s (ro_pending _ _ (ok_requests _ _ Hok))) as Hs.
  pose proof (served_settles _ _ Hs (result_drops uuids h msg s) Hsv) as Hsv1.
  assert (∀ i r, waits (dispatch_result uuids h msg s) i r → about r ≠ m) as Hne.
  { intros i r Hwt Ha. destruct (waits_settles _ _ _ _ Hs Hwt) as (r0 & Hw0 & Ha0). rewrite Ha in Ha0.
    assert (type_ msg = REQUEST) as Hty.
    { destruct (ro_about _ _ (ok_requests _ _ Hok) i r0 (proj1 Hw0)) as (key & name & Hc).
      rewrite Ha0 in Hc. apply core_of in Hm. rewrite Hm in Hc. by injection Hc as _ -> _. }
    destruct (Hsv i r0 msg Hw0) as [Hpi _]; [by rewrite Ha0|].
    by apply (waits_closed _ _ _ Hwt), result_closes. }
  destruct Hs as (R & P & D & E & _). rewrite E in *.
  assert (∃ T Q, dispatch_finally t q msg (settled s R P D) = finish t ((settled s R P D) <| _dispatch_tasks := T |> <| queue_objects := Q |>)
    ∧ entries <$> Q = lanes s) as (T & Q & -> & HQ).
  { unfold dispatch_finally. case_bool_decide.
    - destruct (task_done_frame q ((settled s R P D) <| _dispatch_tasks ::= delete (id_ msg) |>)) as (Q & -> & HQ).
      by exists (delete (id_ msg) (_dispatch_tasks s)), Q.
    - destruct (task_done_frame q (settled s R P D)) as (Q & -> & HQ). by exists (_dispatch_tasks s), Q. }
  apply (served_frame (settled s R P D)); try done. intros i r Hwt. apply owned_tasks.
  - intros Hq. unfold queued. change (lanes (finish t _)) with (entries <$> Q). by rewrite HQ.
  - intros t0 k0 Hh.
    apply (handles_alter t (λ k, k <| phase_ := Finished |>) ((settled s R P D) <| _dispatch_tasks := T |> <| queue_objects := Q |>)
      t0 k0 (about r)); [|done].
    intros ->. destruct Hh as [[Hk0 [q0 Hw0]] _]. change (tasks s !! t = Some k0) in Hk0.
    destruct (Hne i r Hwt). congruence.
Qed.

Lemma served_caller_cancelled i s : bus_ok uuids s → served s → served (caller_cancelled i s).
Proof.
  intros Hok Hsv. unfold caller_cancelled. destruct (waiting i s) as [[m msg]|] eqn:Hwt; [|done].
  assert (settles s (caller_leaves Gone i msg s)) as Hs by by eapply caller_leaves_settles.
  assert (served (caller_leaves Gone i msg s)) as Hsv1.
  { apply (served_settles s); [done|eapply leaves_drops; [apply Hok|done]|done]. }
  destruct (waiting_inv _ _ _ _ Hwt) as (ri & Hri & Hci & Hai & Hm).
  change (_dispatch_tasks (caller_leaves Gone i msg s)) with (_dispatch_tasks s).
  destruct (_dispatch_tasks s !! id_ msg) as [t|] eqn:Hd.
  - apply (served_frame (caller_leaves Gone i msg s)); try done. intros j r Hw. apply owned_tasks; [done|].
    intros t0 k0 Hh. apply (handles_alter t cancel_task (caller_leaves Gone i msg s) t0 k0 (about r)); [|done].
    intros ->. destruct Hh as [Hd0 _].
    destruct (to_table _ (ok_tasks _ _ Hok) _ _ Hd) as (k & m' & ty & nm & [Hk [q Hwk]] & Hcm).
    assert (m' = m) as -> by exact (ro_inj _ _ (ok_requests _ _ Hok) _ _ _ _ Hcm (core_of _ _ _ Hm) eq_refl).
    destruct Hd0 as [Hk0 [q0 Hw0]]. change (tasks s !! t = Some k0) in Hk0.
    assert (about r = m) as Har by congruence.
    destruct (waits_settles _ _ _ _ Hs Hw) as (r0 & Hw0' & Ha0).
    assert (j = i) as -> by (eapply (ro_once _ _ (ok_requests _ _ Hok)); [apply Hw0'|exact Hri|congruence]).
    destruct Hw as (Hr & Hc & _). apply alter_inv in Hr as (x & _ & ->). rewrite decide_True in Hc by done.
    unfold complete in Hc. by destruct (future _).
  - apply (served_frame (caller_leaves Gone i msg s)); try done.
    exact (qu_core _ _ (quiet_flag m (caller_leaves Gone i msg s))).
Qed.

Lemma served_unregister name s :
  bus_ok uuids s → served s → prompt uuids (Unregister name) s → served (unregister uuids name s).2.
Proof.
  intros Hok Hsv Hpr. destruct (unregister_spec uuids name s) as (s0 & He & ->).
  apply (served_unread (drain uuids (queue_of name s) s0)); [done|].
  pose proof (bus_ok_evict uuids name s s0 Hok He) as Hok0.
  pose proof (ro_pending _ _ (ok_requests _ _ Hok0)) as Hp0.
  pose proof (drain_settles uuids (queue_of name s) s0 Hp0) as Hs.
  intros i r msg Hw Hm. destruct (waits_settles _ _ _ _ Hs Hw) as (r0 & Hw0 & Ha0).
  assert (messages (drain uuids (queue_of name s) s0) = messages s ∧ lanes (drain uuids (queue_of name s) s0) = lanes s0
    ∧ tasks (drain uuids (queue_of name s) s0) = tasks s0) as (Em & El & Et).
  { destruct Hs as (R & P & D & -> & _). by rewrite <-(ev_messages _ _ _ He). }
  rewrite Em, <-Ha0 in Hm. unfold waits in Hw0. rewrite (ev_requests _ _ _ He) in Hw0.
  destruct (Hsv i r0 msg Hw0 Hm) as [Hpi Ho]. rewrite <-(ev_pending _ _ _ He) in Hpi. rewrite <-Ha0. split.
  { destruct (drain_drops uuids (queue_of name s) s0 Hp0 _ _ Hpi) as [?|Hc]; [done|].
    by destruct (waits_closed _ _ _ Hw). }
  unfold owned, handles, dispatches, queued. rewrite El, Et. destruct Ho as [(q & es & Hq & Hin)|(t & k & Hh)].
  - left. exists q, es. split; [|done]. rewrite (ev_lanes _ _ _ He).
    destruct (queues s !! name) as [q0|] eqn:Hq0; [|done]. destruct (decide (q0 = q)) as [->|]; [|by rewrite list_lookup_alter_ne].
    exfalso. apply (waits_closed _ _ _ Hw). eapply drain_closes; [done| | |exact Hpi].
    + unfold queue_of. by rewrite Hq0, Hq.
    + by rewrite (ev_messages _ _ _ He).
  - right. destruct Hh as [[Hk [q Hwk]] Hph].
    pose proof (ev_tasks _ _ _ He t) as Ht. rewrite Hk in Ht.
    exists t, (cancel_if (bool_decide (t ∈ to_cancel name s)) k). split; [split; [exact Ht|]|].
    + exists q. unfold cancel_if, cancel_task. by repeat case_match.
    + case_bool_decide as Hin; [|done]. destruct Hph as [Hrun|[Hcr _]].
      * left. unfold cancel_if, cancel_task. by case_match.
      * destruct (Hpr t k (about r0) Hin); [split; eauto|done].
Qed.

Lemma served_old s s' :
  (∃ N, messages s' = messages s ++ N) → requests s' = requests s → pending s' = pending s →
  (∀ m, queued s m → queued s' m) → (∀ t k m, handles s t k m → ∃ k', handles s' t k' m) →
  bus_ok uuids s → served s → served s'.
Proof.
  intros [N Em] Er Ep Hq Ht Hok Hsv i r msg Hw Hm. unfold waits in Hw. rewrite Er in Hw.
  destruct (ro_about _ _ (ok_requests _ _ Hok) i r (proj1 Hw)) as (key & name & Hc).
  apply of_core in Hc as (msg0 & Hm0 & _).
  assert (msg = msg0) as ->.
  { rewrite Em, lookup_app_l in Hm by (by eapply lookup_lt_Some). congruence. }
  destruct (Hsv i r msg0 Hw Hm0) as [Hp Ho]. split; [by rewrite Ep|].
  revert Ho. apply owned_tasks; [apply Hq|intros; by eapply Ht].
Qed.

Lemma handles_snoc s T k0 t k m : tasks T = tasks s ++ [k0] → handles s t k m → ∃ k', handles T t k' m.
Proof. intros E [[Hk ?] ?]. exists k. split; [split|]; [|done|done]. rewrite E. by apply snoc_some. Qed.

Lemma served_register name h s : bus_ok uuids s → served s → served (register name h s).
Proof.
  intros Hok Hsv. unfold register. destruct (queues s !! name); [by apply (served_unread s)|].
  apply (served_old s); try done.
  - exists []. by rewrite app_nil_r.
  - intros m (q & es & Hq & Hin). exists q, es. split; [|done].
    change ((entries <$> (queue_objects s ++ [mkQueue [] 0])) !! q = Some es). rewrite fmap_app. by apply lookup_app_l_Some.
  - eauto.
Qed.

Lemma served_start_loop name s : bus_ok uuids s → served s → served (start_agent_loop name s).2.
Proof.
  intros Hok Hsv.
  assert (served (create_task (mkTask name (Consumer None) Created false)
    (s <| _loop_tasks ::= <[name := length (tasks s)]> |>))).
  { apply (served_old s); try done; [by exists []; rewrite app_nil_r|].
    intros t k m. by eapply handles_snoc. }
  unfold start_agent_loop. by repeat case_match.
Qed.

Lemma send_queues m msg s :
  messages s !! m = Some msg → (∀ x, queued s x → queued (send m s) x)
  ∧ (∀ q, queues s !! target msg = Some q → q < length (lanes s) → queued (send m s) m).
Proof.
  intros Hm. destruct (send_spec _ _ _ Hm) as (Q & L & n & -> & HQ). unfold queued.
  change (lanes (s <| _log := L |> <| _seq := n |> <| queue_objects := Q |>)) with (entries <$> Q). split.
  - intros x (q & es & Hq & Hin). destruct (queues s !! target msg) as [q0|].
    + exists q. eexists. rewrite HQ. split; [apply (alter_some _ _ _ _ _ Hq)|].
      case_decide; [|done]. rewrite insert_entry_permutation. by right.
    + exists q, es. by rewrite HQ.
  - intros q0 E Hlt. rewrite E in HQ. apply lookup_lt_is_Some in Hlt as [es Hes].
    exists q0. eexists. rewrite HQ. split; [apply (alter_some _ _ _ _ _ Hes)|].
    rewrite decide_True, insert_entry_permutation by done. by left.
Qed.

Lemma served_post m msg s s1 :
  messages s1 !! m = Some msg → (∃ N, messages s1 = messages s ++ N) → requests s1 = requests s →
  pending s1 = pending s → lanes s1 = lanes s → tasks s1 = tasks s →
  bus_ok uuids s → served s → served (send m s1).
Proof.
  intros Hm [N Em] Er Ep El Et Hok Hsv. pose proof (proj1 (send_queues _ _ _ Hm)) as Hq.
  destruct (send_spec _ _ _ Hm) as (Q & L & n & E & _). rewrite E in *. apply (served_old s); try done.
  - by exists N.
  - intros x Hx. apply Hq. unfold queued in *. by rewrite El.
  - intros t k x [[Hk ?] ?]. exists k. split; [split|]; [|done|done]. change (tasks s1 !! t = Some k). by rewrite Et.
Qed.

Lemma served_ask d s : bus_ok uuids s → served s → prompt uuids (Ask d) s → served (happens uuids (Ask d) s).
Proof.
  intros Hok Hsv Hpr. change (happens uuids (Ask d) s) with (request (length (messages s)) (with_message uuids d s)).2.
  destruct (_shutting_down s) eqn:Hdown.
  - rewrite request_down by done. apply (served_old s); try done; [by eexists|eauto].
  - rewrite (request_up _ _ (with_message uuids d s) Hdown (with_message_last uuids d s)).
    change (id_ (sent d uuids s)) with (uuids (drawn s)). cbn [snd].
    set (m := length (messages s)). set (s1 := filed m (uuids (drawn s)) (with_message uuids d s)).
    assert (messages s1 !! m = Some ((sent d uuids s) <| type_ := REQUEST |>)) as Hm.
    { etrans; [apply (f_equal (λ l, l !! m) (alter_last _ (messages s) (sent d uuids s)))|apply snoc_last]. }
    assert (messages s1 = messages s ++ [(sent d uuids s) <| type_ := REQUEST |>]) as Em.
    { exact (alter_last _ (messages s) (sent d uuids s)). }
    destruct (send_queues _ _ _ Hm) as [Hq1 Hq2].
    destruct (send_spec _ _ _ Hm) as (Q & L & n & E & _). rewrite E in *. clear E.
    set (s' := s1 <| _log := L |> <| _seq := n |> <| queue_objects := Q |>) in *.
    intros i r msg (Hr & Hc & Hf) Hmsg.
    change (messages s1 !! about r = Some msg) in Hmsg. rewrite Em in Hmsg.
    change ((requests s ++ [mkRequest m Pending None]) !! i = Some r) in Hr.
    change (pending s' !! id_ msg) with (<[uuids (drawn s) := length (requests s)]> (pending s) !! id_ msg).
    apply snoc_inv in Hr as [Hr|[-> ->]].
    + destruct (ro_about _ _ (ok_requests _ _ Hok) i r Hr) as (key & name & Hcr).
      pose proof Hcr as (msg0 & Hm0 & _)%of_core.
      assert (msg = msg0) as ->.
      { rewrite lookup_app_l in Hmsg by (by eapply lookup_lt_Some). congruence. }
      destruct (Hsv i r msg0) as [Hp Ho]; [done|done|].
      destruct (ro_ids _ _ (ok_requests _ _ Hok) _ _ (core_of _ _ _ Hm0)) as (k & Hk & Hid). cbn in Hid.
      rewrite lookup_insert_ne; [|rewrite Hid; intros Hx%(inj uuids); lia]. split; [done|].
      revert Ho. apply owned_tasks; [intros Hx; by apply Hq1|]. intros t k0 Hh. by exists k0.
    + cbn in Hmsg. unfold m in Hmsg. rewrite snoc_last in Hmsg. injection Hmsg as <-. split; [apply lookup_insert_eq|left].
      destruct Hpr as [q Hq]. apply (Hq2 q); [exact Hq|].
      exact (to_bound _ (ok_tasks _ _ Hok) _ _ Hq).
Qed.

Lemma served_happens ev s : bus_ok uuids s → served s → prompt uuids ev s → served (happens uuids ev s).
Proof.
  intros Hok Hsv Hpr. destruct ev as [name h|name|name| | |d|d|d|i|i|i|t|t|t h|t].
  - by apply served_register.
  - by apply served_start_loop.
  - by apply served_unregister.
  - by apply (served_unread s).
  - apply (served_settles s); [apply fail_pending_settles|apply fail_pending_drops|done].
  - apply (served_post _ (sent d uuids s) s (with_message uuids d s)); try done; [exact (with_message_last uuids d s)|by exists [sent d uuids s]].
  - apply (served_post _ ((sent d uuids s) <| type_ := NOTIFICATION |>) s
      (set_type NOTIFICATION (length (messages s)) (with_message uuids d s))); try done.
    + etrans; [apply (f_equal (λ l, l !! length (messages s)) (alter_last _ (messages s) (sent d uuids s)))|apply snoc_last].
    + eexists. exact (alter_last _ (messages s) (sent d uuids s)).
  - by apply served_ask.
  - apply (served_settles s); [apply caller_resumes_settles| |done]. intros key j Hj. by left.
  - unfold happens, caller_times_out. destruct (waiting i s) as [[m msg]|] eqn:Hw; [|done].
    apply (served_settles s); [by eapply caller_leaves_settles|eapply leaves_drops; [apply Hok|done]|done].
  - by apply served_caller_cancelled.
  - by apply served_consume.
  - by apply served_begin.
  - by apply served_end.
  - unfold happens, discard. destruct (tasks s !! t); [|done]. case_match; [|done].
    by apply (served_frame s).
Qed.
End prompt.

(** ** The theorem *)

Fixpoint prompt_run uuids (evs : list event) s : Prop :=
  match evs with
  | [] => True
  | ev :: evs' => prompt uuids ev s ∧ prompt_run uuids evs' (happens uuids ev s)
  end.

Lemma served_run uuids `{!Inj (=) (=) uuids} evs s :
  bus_ok uuids s → served s → prompt_run uuids evs s → served (run uuids evs s).
Proof.
  revert s. induction evs as [|ev evs IH]; intros s Hok Hsv Hpr; [done|]. destruct Hpr as [Hev Hpr].
  apply (IH (happens uuids ev s)); [by apply bus_ok_happens|by apply served_happens|done].
Qed.

(** Eviction closes what is queued for the agent. *)
Lemma unregister_closes uuids name s q es i r msg :
  bus_ok uuids s → queues s !! name = Some q → lanes s !! q = Some es → about r ∈ es.*2 →
  messages s !! about r = Some msg → pending s !! id_ msg = Some i →
  closed (unregister uuids name s).2 i.
Proof.
  intros Hok Hq Hes Hin Hm Hi. destruct (unregister_spec uuids name s) as (s0 & He & ->).
  pose proof (bus_ok_evict uuids name s s0 Hok He) as Hok0.
  assert (closed (drain uuids (queue_of name s) s0) i) as Hc; [|exact Hc].
  eapply drain_closes; [apply Hok0| | |].
  - unfold queue_of. by rewrite Hq, Hes.
  - by rewrite (ev_messages _ _ _ He).
  - by rewrite (ev_pending _ _ _ He).
Qed.

(** C7: Over any history without the three lapses, a caller that waits has somebody to
    answer it: its message is in the queue of its agent, uncancelled, and evicting the
    agent answers it; or a task handles it or is about to, and however the handler
    ends, by returning, by returning nothing, by raising or by being cancelled, the
    caller's future is resolved. *)
Theorem requests_are_answered uuids `{!Inj (=) (=) uuids} n evs s i r msg :
  prompt_run uuids evs (new_bus n) → s = run uuids evs (new_bus n) →
  waits s i r → messages s !! about r = Some msg →
  (∃ q es, queues s !! target msg = Some q ∧ lanes s !! q = Some es ∧ about r ∈ es.*2
     ∧ cancelled msg = false ∧ closed (unregister uuids (target msg) s).2 i)
  ∨ (∃ t k, handles s t k (about r) ∧ (phase_ k = Running → ∀ h, closed (dispatch_end uuids t h s) i)).
Proof.
  intros Hpr -> Hw Hm.
  pose proof (bus_ok_run uuids evs _ (bus_ok_new uuids n)) as Hok.
  assert (served (run uuids evs (new_bus n))) as Hsv.
  { apply (served_run uuids); [apply bus_ok_new| |done]. intros j r' m (Hr & _). discriminate Hr. }
  set (s := run uuids evs (new_bus n)) in *. clearbody s. clear Hpr.
  destruct (Hsv i r msg Hw Hm) as [Hi [(q & es & Hq & Hin)|(t & k & Hh)]].
  - left. destruct (to_queue _ (ok_tasks _ _ Hok) _ _ _ Hq Hin) as (key & ty & name & Hc & Hn).
    pose proof (core_of _ _ _ Hm) as Hcm. rewrite Hc in Hcm. injection Hcm as -> -> ->.
    exists q, es. split_and!; [done..| |by eapply unregister_closes].
    destruct (cancelled msg) eqn:Hf; [|done].
    destruct (co_flag _ (ok_calls _ _ Hok) _ _ Hm Hf) as (j & r' & Hj & Ha & Hg).
    destruct Hw as (Hr & Hcal & _).
    assert (j = i) as -> by by eapply (ro_once _ _ (ok_requests _ _ Hok)). congruence.
  - right. exists t, k. split; [done|]. intros Hp h. destruct Hh as [[Hk [q Hwk]] _].
    destruct (ro_about _ _ (ok_requests _ _ Hok) i r (proj1 Hw)) as (key & name & Hc).
    pose proof (core_of _ _ _ Hm) as Hcm. rewrite Hc in Hcm. injection Hcm as -> Hty ->.
    assert (closed (dispatch_result uuids h msg s) i) as Hcl by by apply result_closes.
    unfold dispatch_end. rewrite Hk, Hwk, Hp, Hm. unfold dispatch_finally.
    case_bool_decide; unfold task_done; repeat case_match; exact Hcl.
Qed.

(** The scenario is prompt. *)
Lemma busy_prompt : prompt_run ticks busy (new_bus 10).
Proof.
  unfold busy. cbn [prompt_run prompt].
  do 3 (split; [exact I|]). do 2 (split; [eexists; vm_compute; reflexivity|]). split; [exact I|split; [|exact I]].
  intros k m [Hk _]. vm_compute in Hk. injection Hk as <-. eexists. vm_compute. reflexivity.
Qed.

Lemma requests_are_answered_witness :
  ∃ t k, handles at_work t k 0 ∧ (phase_ k = Running → ∀ h, closed (dispatch_end ticks t h at_work) 0).
Proof.
  assert (∃ r msg, waits at_work 0 r ∧ messages at_work !! about r = Some msg ∧ about r = 0) as (r & msg & Hw & Hm & Ha).
  { eexists _, _. split; [split; [vm_compute; reflexivity|split; vm_compute; reflexivity]|].
    split; vm_compute; reflexivity. }
  destruct (requests_are_answered ticks 10 busy at_work 0 r msg busy_prompt at_work_run Hw Hm)
    as [(q & es & _ & Hes & Hin & _)|H]; [|by rewrite Ha in H].
  exfalso. rewrite Ha in Hin. clear - Hes Hin. destruct q as [|q]; vm_compute in Hes; [|done].
  injection Hes as <-. cbn in Hin. by apply list_elem_of_singleton in Hin.
Defined.
