(* ===== verification/Files.v ===== *)
(** * Files

    The part of the file system that the installation of specialists uses: a tree
    of regular files, by absolute path.  Directories are implied by the files in
    them.  A file holds text, or the document that [json.dumps] or [yaml.safe_dump]
    wrote there.

    Every system call is one effect, and [ahead] says how the next ones end: they
    succeed, they raise [OSError], or the process dies in them, which runs no
    handler.  A call that writes may have written some characters before it fails.
    What a completed call did is there afterwards, in the order of the calls. *)

From S2P Require Import Prelude PyStr PyDict Json.
From stdpp Require Import gmap.

Abbreviation path := (list string).

Inductive content :=
  | Text (s : string)
  | Doc (v : json)
  | Yaml (v : json).

Inductive ending := Goes | Fails (written : nat) | Dies (written : nat).

Record Fs := mkFs {
  tree : gmap path content;
  draws : nat;                      (** random names drawn *)
  ahead : list ending
}.
#[export] Instance fs_eta : Eta Fs := λ s, mkFs (tree s) (draws s) (ahead s).

Abbreviation FsM := (PyM Fs).

(** What Python's libraries compute: [json] and [yaml], the random part
    of the names that [mkstemp] and [uuid4] make, [sha256(...).hexdigest()] of text,
    and [checksum_json], the digest of a canonical JSON form. *)
Class Outside := {
  json_loads : string → option json;
  json_dumps : json → string;
  yaml_load : string → option json;
  yaml_dump : json → string;
  mkstemp_name : nat → string;
  uuid4_hex : nat → string;
  sha256_hex : string → string;
  checksum_json : json → string
}.

(** [except OSError: k] *)
Definition except_os {A} (m k : FsM A) : FsM A :=
  try_except m (λ e, match e with OSError => Some k | _ => None end).

(** [except Exception: k] *)
Definition except_any {A} (m k : FsM A) : FsM A :=
  try_except m (λ e, match e with PowerLoss | CancelledError => None | _ => Some k end).

(** [except BaseException: k; raise] *)
Definition on_failure {A} (m : FsM A) (k : FsM unit) : FsM A :=
  try_except m (λ e, match e with PowerLoss => None | _ => Some (k ;;; raise e) end).

(** ** System calls *)

Definition call (f : Fs → Fs) (part : nat → Fs → Fs) : FsM unit := λ s,
  match ahead s with
  | [] => (Ok tt, f s)
  | Goes :: q => (Ok tt, f (s <| ahead := q |>))
  | Fails n :: q => (Raise OSError, part n (s <| ahead := q |>))
  | Dies n :: q => (Raise PowerLoss, part n (s <| ahead := q |>))
  end.
Definition all_or_nothing (f : Fs → Fs) : FsM unit := call f (λ _ s, s).

Definition put (p : path) (c : content) (s : Fs) : Fs := s <| tree ::= <[p := c]> |>.
Definition remove_file (p : path) (s : Fs) : Fs := s <| tree ::= delete p |>.

Definition draw : FsM nat := λ s, (Ok (draws s), s <| draws ::= S |>).

(** [mkdir], [chmod], [fsync]: nothing that a reader of files sees. *)
Definition unseen : FsM unit := all_or_nothing (λ s, s).

(** [Path.is_file], [Path.exists] *)
Definition is_file (p : path) (s : Fs) : bool := bool_decide (is_Some (tree s !! p)).

Definition parent (p : path) : path := removelast p.

(** [os.listdir] *)
Definition listed (dir : path) (p : path) : option string :=
  match last p with
  | Some name => if bool_decide (p = dir ++ [name]) then Some name else None
  | None => None
  end.
Definition iterdir (dir : path) (s : Fs) : list string :=
  omap (λ e, listed dir e.1) (map_to_list (tree s)).

Definition unlink (p : path) : FsM unit :=
  let* s := get in raise_when (negb (is_file p s)) OSError ;;; all_or_nothing (remove_file p).
(** [unlink(missing_ok=True)] *)
Definition unlink_if_there (p : path) : FsM unit :=
  let* s := get in if is_file p s then all_or_nothing (remove_file p) else unseen.

(** [os.replace] *)
Definition replace (src dst : path) : FsM unit :=
  let* s := get in
  match tree s !! src with
  | None => raise OSError
  | Some c => all_or_nothing (λ s, put dst c (remove_file src s))
  end.

(** [open(p, O_CREAT | O_TRUNC)] *)
Definition truncate (p : path) : FsM unit := all_or_nothing (put p (Text "")).

Section outside.
Context `{Outside}.

(** [read_text] *)
Definition text_of (c : content) : string :=
  match c with Text s => s | Doc v => json_dumps v | Yaml v => yaml_dump v end.
(** [json.loads(read_text(...))], [None] for a [ValueError] *)
Definition parsed (c : content) : option json :=
  match c with Doc v => Some v | c => json_loads (text_of c) end.
(** [yaml.safe_load(read_text(...))], [None] for a [YAMLError] *)
Definition yaml_of (c : content) : option json :=
  match c with Yaml v => Some v | c => yaml_load (text_of c) end.

Definition read (p : path) : FsM content :=
  let* s := get in
  match tree s !! p with
  | None => raise OSError
  | Some c => unseen ;;; mret c
  end.

(** [yaml.safe_load(path.read_text())] *)
Definition read_yaml (p : path) : FsM json :=
  let* c := read p in
  match yaml_of c with Some v => mret v | None => raise YAMLError end.

(** [json.loads(path.read_text())] *)
Definition read_json (p : path) : FsM json :=
  let* c := read p in
  match parsed c with Some v => mret v | None => raise ValueError end.

(** Writing all of a text to an open file. *)
Definition write (p : path) (c : content) : FsM unit :=
  call (put p c) (λ n, put p (Text (String.substring 0 n (text_of c)))).

(** [Path.write_text]: in place. *)
Definition write_text (p : path) (c : content) : FsM unit := truncate p ;;; write p c.

(** [atomic_io.fsync_directory]: never raises. *)
Definition fsync_directory : FsM unit := except_os unseen (mret tt).

(** [atomic_io.atomic_write_text].  [mkstemp] makes a name that no file has. *)
Definition atomic_write_text (p : path) (c : content) : FsM unit :=
  let* n := draw in
  let tmp := parent p ++ ["." +:+ mkstemp_name n +:+ ".tmp"] in
  truncate tmp ;;;
  on_failure (unseen ;;; write tmp c ;;; unseen ;;; replace tmp p)
    (except_os (unlink tmp) (mret tt)) ;;;
  fsync_directory.
End outside.
