(* ===== verification/FilesLaws.v ===== *)
(** * Files: what a call leaves behind

    [agrees T s]: the visible files of [s] are those of the tree [T]; the names of
    temporary files start with a dot and are not looked at.  Each operation has one
    law, under any endings: it returns with its change made, or fails with the change
    or without it.  In a [quiet] world no ending is bad, and the laws say that the
    operations return. *)

From S2P Require Import Prelude PyStr PyDict Json Files.
From stdpp Require Import gmap.

Abbreviation Tree := (gmap path content).

Definition hidden (p : path) : bool :=
  match last p with Some n => String.prefix "." n | None => false end.

Lemma hidden_snoc d n : hidden (d ++ [n]) = String.prefix "." n.
Proof. unfold hidden. by rewrite last_snoc. Qed.

Lemma hidden_dot d n : hidden (d ++ ["." +:+ n]) = true.
Proof. rewrite hidden_snoc. by destruct n. Qed.

Lemma listed_spec dir p n : listed dir p = Some n ↔ p = dir ++ [n].
Proof.
  unfold listed. split.
  - destruct (last p) eqn:E; [|done]. case_bool_decide; [|done]. by intros [= <-].
  - intros ->. rewrite last_snoc. by rewrite bool_decide_true.
Qed.

Lemma elem_of_iterdir dir s n : n ∈ iterdir dir s ↔ is_Some (tree s !! (dir ++ [n])).
Proof.
  unfold iterdir. rewrite list_elem_of_omap. split.
  - intros ([p c] & Hin & Hl%listed_spec). cbn in Hl. subst p. apply elem_of_map_to_list in Hin. by exists c.
  - intros [c Hc]. exists (dir ++ [n], c). split; [by apply elem_of_map_to_list|].
    by apply listed_spec.
Qed.

Section world.
Context `{Outside} (quiet : bool).

Definition calm (s : Fs) : Prop := quiet = true → ahead s = [].
Definition agrees (T : Tree) (s : Fs) : Prop :=
  calm s ∧ ∀ p, hidden p = false → tree s !! p = T !! p.

(** How a system call fails. *)
Definition broken (e : exn) : Prop := quiet = false ∧ (e = OSError ∨ e = PowerLoss).

Lemma wp_syscall f part (Q : unit → Fs → Prop) R s :
  calm s →
  (∀ q, calm (s <| ahead := q |>) → Q tt (f (s <| ahead := q |>))) →
  (∀ n q e, broken e → R e (part n (s <| ahead := q |>))) →
  wp (call f part) Q R s.
Proof.
  intros Hc HQ HR. unfold wp, call. destruct (ahead s) as [|[|n|n] q] eqn:E.
  - specialize (HQ [] (λ _, eq_refl)). destruct s. cbn in E. by subst.
  - apply HQ. intros Hq. specialize (Hc Hq). congruence.
  - apply HR. split; [|by left]. apply not_true_is_false. intros Hq. specialize (Hc Hq). congruence.
  - apply HR. split; [|by right]. apply not_true_is_false. intros Hq. specialize (Hc Hq). congruence.
Qed.

Lemma agrees_ahead T s q : calm (s <| ahead := q |>) → agrees T s → agrees T (s <| ahead := q |>).
Proof. intros Hc [_ HT]. by split. Qed.

Lemma agrees_quiet T s q : quiet = false → agrees T s → agrees T (s <| ahead := q |>).
Proof. intros Hq [_ HT]. split; [|done]. unfold calm. by rewrite Hq. Qed.

Lemma agrees_put T s p c : agrees T s → agrees (<[p := c]> T) (put p c s).
Proof.
  intros [Hc HT]. split; [done|]. intros p' Hp. change (tree (put p c s)) with (<[p := c]> (tree s)).
  destruct (decide (p = p')) as [->|]; [by rewrite !lookup_insert_eq|].
  rewrite !lookup_insert_ne by done. by apply HT.
Qed.

Lemma agrees_put_hidden T s p c : hidden p = true → agrees T s → agrees T (put p c s).
Proof.
  intros Hh [Hc HT]. split; [done|]. intros p' Hp. change (tree (put p c s)) with (<[p := c]> (tree s)).
  rewrite lookup_insert_ne by congruence. by apply HT.
Qed.

Lemma agrees_remove T s p : agrees T s → agrees (delete p T) (remove_file p s).
Proof.
  intros [Hc HT]. split; [done|]. intros p' Hp. change (tree (remove_file p s)) with (delete p (tree s)).
  destruct (decide (p = p')) as [->|]; [by rewrite !lookup_delete_eq|].
  rewrite !lookup_delete_ne by done. by apply HT.
Qed.

Lemma agrees_remove_hidden T s p : hidden p = true → agrees T s → agrees T (remove_file p s).
Proof.
  intros Hh [Hc HT]. split; [done|]. intros p' Hp. change (tree (remove_file p s)) with (delete p (tree s)).
  rewrite lookup_delete_ne by congruence. by apply HT.
Qed.

(** An effect that is all or nothing. *)
Lemma wp_all_or_nothing f T T' s :
  (∀ s', agrees T s' → agrees T' (f s')) → agrees T s →
  wp (all_or_nothing f) (λ _, agrees T') (λ e s', broken e ∧ agrees T s') s.
Proof.
  intros Hf HT. apply wp_syscall; [apply HT|..].
  - intros q Hq. by apply Hf, agrees_ahead.
  - intros n q e He. split; [done|]. apply agrees_quiet; [apply He|done].
Qed.

Lemma wp_unseen T s : agrees T s → wp unseen (λ _, agrees T) (λ e s', broken e ∧ agrees T s') s.
Proof. by apply wp_all_or_nothing. Qed.

Lemma wp_draw T s : agrees T s → wp draw (λ _, agrees T) (λ _ _, False) s.
Proof. done. Qed.

Lemma wp_read T s p c :
  hidden p = false → T !! p = Some c → agrees T s →
  wp (read p) (λ c' s', c' = c ∧ agrees T s') (λ e s', broken e ∧ agrees T s') s.
Proof.
  intros Hp Hc HT. unfold read. apply wp_bind, wp_get. rewrite (proj2 HT) by done. rewrite Hc.
  apply wp_bind. eapply wp_mono; [by apply wp_unseen|done|done].
Qed.

Lemma wp_read_json T s p c v :
  hidden p = false → T !! p = Some c → parsed c = Some v → agrees T s →
  wp (read_json p) (λ v' s', v' = v ∧ agrees T s') (λ e s', broken e ∧ agrees T s') s.
Proof.
  intros Hp Hc Hv HT. unfold read_json. apply wp_bind.
  eapply wp_mono; [by eapply wp_read| |done]. intros ? s' [-> HT']. by rewrite Hv.
Qed.

(** Failures that are swallowed. *)
Lemma wp_except_os {A} (m k : FsM A) Q R s :
  wp m Q (λ e s', match e with OSError => wp k Q R s' | _ => R e s' end) s → wp (except_os m k) Q R s.
Proof.
  intros Hm. apply wp_try_except. eapply wp_mono; [exact Hm|done|]. by intros [].
Qed.

Lemma wp_except_any {A} (m k : FsM A) Q R s :
  wp m Q (λ e s', match e with PowerLoss | CancelledError => R e s' | _ => wp k Q R s' end) s →
  wp (except_any m k) Q R s.
Proof. intros Hm. apply wp_try_except. eapply wp_mono; [exact Hm|done|]. by intros []. Qed.

Lemma wp_on_failure {A} (m : FsM A) k Q R s :
  wp m Q (λ e s', match e with PowerLoss => R e s' | _ => wp (k ;;; raise e) Q R s' end) s →
  wp (on_failure m k) Q R s.
Proof. intros Hm. apply wp_try_except. eapply wp_mono; [exact Hm|done|]. by intros []. Qed.

Lemma wp_fsync_directory T s :
  agrees T s → wp fsync_directory (λ _, agrees T) (λ e s', quiet = false ∧ e = PowerLoss ∧ agrees T s') s.
Proof.
  intros HT. apply wp_except_os. eapply wp_mono; [by apply wp_unseen|done|].
  intros e s' [[Hq [-> | ->]] HT']; [by apply wp_ret|done].
Qed.

Lemma agrees_unlink T s p :
  hidden p = true ∨ (hidden p = false ∧ is_Some (T !! p)) → agrees T s →
  wp (unlink p) (λ _, agrees (if hidden p then T else delete p T))
    (λ e s', (broken e ∨ (hidden p = true ∧ e = OSError)) ∧ agrees T s') s.
Proof.
  intros Hp HT. unfold unlink. apply wp_bind, wp_get, wp_bind, wp_raise_when.
  - intros Hf. split; [|done]. destruct Hp as [Hh|[Hh Hs]]; [by right|exfalso].
    unfold is_file in Hf. rewrite (proj2 HT) in Hf by done.
    by rewrite (bool_decide_eq_true_2 _ Hs) in Hf.
  - intros _. eapply wp_mono; [apply (wp_all_or_nothing _ T (if hidden p then T else delete p T)); [|done]|done|].
    + intros s' HT'. destruct (hidden p) eqn:Hh; [by apply agrees_remove_hidden|by apply agrees_remove].
    + intros e s' [He HT']. split; [by left|exact HT'].
Qed.

Lemma wp_unlink T s p :
  hidden p = false → is_Some (T !! p) → agrees T s →
  wp (unlink p) (λ _, agrees (delete p T)) (λ e s', broken e ∧ agrees T s') s.
Proof.
  intros Hh Hs HT. pose proof (agrees_unlink T s p (or_intror (conj Hh Hs)) HT) as Hu.
  rewrite Hh in Hu. eapply wp_mono; [exact Hu|done|]. intros e s' [[?|[? _]] ?]; done.
Qed.

Lemma wp_unlink_if_there T s p :
  hidden p = false → agrees T s →
  wp (unlink_if_there p) (λ _, agrees (delete p T)) (λ e s', broken e ∧ agrees T s') s.
Proof.
  intros Hh HT. unfold unlink_if_there. apply wp_bind, wp_get. unfold is_file.
  rewrite (proj2 HT) by done. case_bool_decide as Hs.
  - apply wp_all_or_nothing; [|done]. intros s'. apply agrees_remove.
  - rewrite delete_id by (by apply eq_None_not_Some). by apply wp_unseen.
Qed.

(** Moving a visible file. *)
Lemma wp_replace T s src dst c :
  hidden src = false → T !! src = Some c → agrees T s →
  wp (replace src dst) (λ _, agrees (<[dst := c]> (delete src T))) (λ e s', broken e ∧ agrees T s') s.
Proof.
  intros Hs Hc HT. unfold replace. apply wp_bind, wp_get. rewrite (proj2 HT) by done. rewrite Hc.
  apply wp_all_or_nothing; [|done]. intros s' HT'. by apply agrees_put, agrees_remove.
Qed.

(** What a failed write leaves: nothing, or some text. *)
Lemma wp_write_file T s p c :
  agrees T s →
  wp (write p c) (λ _, agrees (<[p := c]> T)) (λ e s', broken e ∧ ∃ t, agrees (<[p := Text t]> T) s') s.
Proof.
  intros HT. apply wp_syscall; [apply HT|..].
  - intros q Hq. by apply agrees_put, agrees_ahead.
  - intros n q e He. split; [done|]. eexists. apply agrees_put, agrees_quiet; [apply He|done].
Qed.

Lemma wp_write_text T s p c :
  agrees T s →
  wp (write_text p c) (λ _, agrees (<[p := c]> T))
    (λ e s', broken e ∧ (agrees T s' ∨ ∃ t, agrees (<[p := Text t]> T) s')) s.
Proof.
  intros HT. apply wp_bind. eapply wp_mono.
  - apply (wp_all_or_nothing _ T (<[p := Text ""]> T)); [|done]. intros s'. apply agrees_put.
  - intros ? s' HT'. eapply wp_mono; [apply wp_write_file, HT'|..].
    + intros ? s''. by rewrite insert_insert_eq.
    + intros e s'' [He [t Ht]]. rewrite insert_insert_eq in Ht. split; [exact He|]. right. by exists t.
  - intros e s' [He HT']. split; [done|by left].
Qed.

(** A file at a hidden name, which nobody else writes. *)
Definition staged (T : Tree) (tmp : path) (c : content) (s : Fs) : Prop :=
  agrees T s ∧ tree s !! tmp = Some c.

Lemma wp_replace_staged T s tmp dst c :
  hidden tmp = true → staged T tmp c s →
  wp (replace tmp dst) (λ _, agrees (<[dst := c]> T)) (λ e s', broken e ∧ agrees T s') s.
Proof.
  intros Hh [HT Hc]. unfold replace. apply wp_bind, wp_get. rewrite Hc.
  apply wp_all_or_nothing; [|done]. intros s' HT'. by apply agrees_put, agrees_remove_hidden.
Qed.

Lemma wp_staged_unseen T s tmp c :
  staged T tmp c s → wp unseen (λ _, staged T tmp c) (λ e s', broken e ∧ staged T tmp c s') s.
Proof.
  intros [HT Hc]. apply wp_syscall; [apply HT|..].
  - intros q Hq. split; [by apply agrees_ahead|done].
  - intros n q e He. split; [done|]. split; [apply agrees_quiet; [apply He|done]|done].
Qed.

Lemma wp_staged_write T s tmp c :
  hidden tmp = true → agrees T s →
  wp (write tmp c) (λ _, staged T tmp c) (λ e s', broken e ∧ agrees T s') s.
Proof.
  intros Hh HT. apply wp_syscall; [apply HT|..].
  - intros q Hq. split; [by apply agrees_put_hidden, agrees_ahead|apply lookup_insert_eq].
  - intros n q e He. split; [done|]. apply agrees_put_hidden, agrees_quiet; [done|apply He|done].
Qed.

Lemma cleanup T s tmp e0 (Q : unit → Fs → Prop) :
  hidden tmp = true → e0 = OSError → agrees T s → quiet = false →
  wp (except_os (unlink tmp) (mret tt) ;;; raise e0) Q (λ e s', broken e ∧ agrees T s') s.
Proof.
  intros Hh -> HT Hq. apply wp_bind, wp_except_os.
  pose proof (agrees_unlink T s tmp (or_introl Hh) HT) as Hu. rewrite Hh in Hu.
  assert (∀ s', agrees T s' → wp (raise OSError) Q (λ e s', broken e ∧ agrees T s') s') as Hr.
  { intros s' HT'. apply wp_raise. split; [|done]. split; [done|by left]. }
  eapply wp_mono; [exact Hu|intros ? s' HT'; by apply Hr|].
  intros e s' [[[_ [-> | ->]]|[_ ->]] HT']; [by apply wp_ret, Hr| |by apply wp_ret, Hr].
  split; [|done]. split; [done|by right].
Qed.

Lemma wp_atomic_write T s p c :
  agrees T s →
  wp (atomic_write_text p c) (λ _, agrees (<[p := c]> T))
    (λ e s', quiet = false ∧ ((e = OSError ∨ e = PowerLoss) ∧ agrees T s'
                              ∨ e = PowerLoss ∧ agrees (<[p := c]> T) s')) s.
Proof.
  intros HT. unfold atomic_write_text. apply wp_bind.
  unfold wp at 1, draw. cbn [fst snd]. set (s1 := s <| draws ::= S |>).
  assert (agrees T s1) as H1 by exact HT.
  set (tmp := parent p ++ _). assert (hidden tmp = true) as Hh by apply hidden_dot.
  clearbody s1 tmp. clear s HT. apply wp_bind.
  assert (∀ e s', broken e → agrees T s' → quiet = false ∧
    ((e = OSError ∨ e = PowerLoss) ∧ agrees T s' ∨ e = PowerLoss ∧ agrees (<[p:=c]> T) s')) as Hbr.
  { intros e s' [? ?] ?. split; [done|by left]. }
  eapply wp_mono; [apply (wp_all_or_nothing _ T T); [intros; by apply agrees_put_hidden|done]|
    |intros e s' [? ?]; by apply Hbr].
  intros ? s2 H2. apply wp_bind, wp_on_failure.
  assert (wp (unseen ;;; write tmp c ;;; unseen ;;; replace tmp p) (λ _, agrees (<[p := c]> T))
    (λ e s', broken e ∧ agrees T s') s2) as Hbody.
  { apply wp_bind. eapply wp_mono; [apply (wp_unseen _ _ H2)| |done]. intros ? s3 H3.
    apply wp_bind. eapply wp_mono; [apply (wp_staged_write _ _ _ _ Hh H3)| |done]. intros ? s4 H4.
    apply wp_bind. eapply wp_mono; [apply (wp_staged_unseen _ _ _ _ H4)| |intros e s5 [? [? _]]; done].
    intros ? s5 H5. apply (wp_replace_staged _ _ _ _ _ Hh H5). }
  eapply wp_mono; [exact Hbody|..].
  - intros ? s3 H3. eapply wp_mono; [apply (wp_fsync_directory _ _ H3)|done|].
    intros e s4 (Hq & -> & H4). split; [done|by right].
  - intros e s3 [[Hq [-> | ->]] H3].
    + eapply wp_mono; [exact (cleanup T s3 tmp OSError (λ _ _, False) Hh eq_refl H3 Hq)|intros [] ? Hf; done|intros e s' [? ?]; by apply Hbr].
    + apply Hbr; [|done]. split; [done|by right].
Qed.
End world.
