(* ===== verification/PluginRegistry.v ===== *)
(** * The plugin registry

    [plugin_registry.py]: the grammar of an entry, the validation of the document,
    loading and saving, the swap of the entries that one specialist owns, and the
    seeding of defaults.  A document is a dict; entries that the code tells apart
    with [id] are told apart by their position. *)

From S2P Require Import Prelude PyStr PyDict Json JsonOps Files.
From stdpp Require Import gmap.
#[local] Open Scope Z_scope.

Abbreviation row := (list (string * json)).

Definition REGISTRY_PATH : path := ["config"; "plugins"; "registry.json"].
Definition SCHEMA_VERSION : Z := 1.

(** ** Grammars *)

Definition lower_alnum (c : Ascii.ascii) : bool :=
  let n := Ascii.nat_of_ascii c in digit c || ((97 <=? n) && (n <=? 122))%nat.
Definition char_in (l : string) (c : Ascii.ascii) : bool :=
  existsb (λ d, bool_decide (c = d)) (String.list_ascii_of_string l).
Definition slug_char (c : Ascii.ascii) : bool := lower_alnum c || char_in "-" c.
Definition repo_char (c : Ascii.ascii) : bool :=
  let n := Ascii.nat_of_ascii c in lower_alnum c || ((65 <=? n) && (n <=? 90))%nat || char_in "_.-" c.

(** [P{lo,hi}] before something that is not in [P], and [P+]: what is left. *)
Definition run (P : Ascii.ascii → bool) (lo hi : nat) (s : string) : option string :=
  let '(a, b) := span P s in
  if ((lo <=? String.length a) && (String.length a <=? hi))%nat then Some b else None.
Definition some_of (P : Ascii.ascii → bool) (s : string) : option string :=
  let '(a, b) := span P s in if str_true a then Some b else None.

(** [[a-z0-9][a-z0-9-]{0,n}] *)
Definition slug_upto (n : nat) (s : string) : option string :=
  match s with
  | String c s' => if lower_alnum c then run slug_char 0 n s' else None
  | EmptyString => None
  end.

Definition ends (o : option string) : bool := match o with Some s => at_end s | None => false end.

Definition TARGET_RE (s : string) : bool :=
  ends (default None (head (omap (λ kind,
    (λ r, match r with
          | String c r' => if lower_alnum c then Some (span (λ c, slug_char c || char_in "_" c) r').2 else None
          | EmptyString => None
          end) <$> after_prefix kind s) ["resident:"; "specialist:"; "executor:"]))).

Definition NAME_RE (s : string) : bool :=
  match s with
  | String c s' => lower_alnum c && at_end (span slug_char s').2
  | EmptyString => false
  end.

Definition REVISION_RE (s : string) : bool :=
  ends (after_prefix "git:" s ≫= run lower_hex 40 40)
  || ends (after_prefix "legacy-content:" s ≫= run lower_hex 64 64).

Definition _SOURCE_TYPES : list string := ["github"; "bundled"].

Definition _REPO_RE (s : string) : bool :=
  ends ((some_of repo_char s ≫= after_prefix "/") ≫= some_of repo_char).

Definition OWNED_NAME_RE (s : string) : bool :=
  ends ((slug_upto 31 s ≫= after_prefix ".") ≫= slug_upto 39).
Definition OWNER_RE (s : string) : bool := ends (after_prefix "specialist:" s ≫= slug_upto 31).

Definition owner_of (slug : string) : string := "specialist:" +:+ slug.

Definition scoped_name (slug manifest_name : string) : string := slug +:+ "." +:+ manifest_name.

(** [s.partition(".")] without the separator. *)
Definition partition_dot (s : string) : string * string :=
  let '(a, b) := span (λ c, negb (char_in "." c)) s in (a, default "" (after_prefix "." b)).

(** [entry_owner] *)
Definition entry_owner (entry : row) : option string :=
  match obj_get entry "owner" with
  | JStr o => if OWNER_RE o then Some o else None
  | _ => None
  end.

(** The filter of every owned entry: [isinstance(e, dict) and entry_owner(e) == ...]. *)
Definition owned_by (slug : string) (e : json) : bool :=
  match e with JObj e => bool_decide (entry_owner e = Some (owner_of slug)) | _ => false end.

(** ** Identity of an artifact *)

Definition normalize_repo (repo : string) : string := lower (strip repo).

(** [s.split("/")] *)
Fixpoint split_slash (s : string) (seg : string) : list string :=
  match s with
  | EmptyString => [string_rev seg]
  | String c s' =>
    if char_in "/" c then string_rev seg :: split_slash s' "" else split_slash s' (String c seg)
  end.

Definition normalize_subdir (subdir : string) : outcome string :=
  let s := strip subdir in
  if contains (String (Ascii.ascii_of_nat 92) "") s then Raise ValueError
  else
    let parts := filter (λ seg, seg ≠ "") (split_slash s "") in
    if existsb (λ seg, bool_decide (seg = "." ∨ seg = "..")) parts then Raise ValueError
    else Ok (String.concat "/" parts).

Record PluginIssue := mkIssue {
  is_name : string;
  is_target : option string;
  is_stage : string;
  is_reason : string;
  is_artifact : json;
  is_scoped : list string
}.

Record RegistryData := mkData {
  raw : row;
  entries : list row;
  entry_issues : list PluginIssue;
  valid : bool
}.
#[export] Instance data_eta : Eta RegistryData := λ d,
  mkData (raw d) (entries d) (entry_issues d) (valid d).

(** [owned_entries_for] *)
Definition owned_entries_for (slug : string) (data : RegistryData) : list row :=
  filter (λ e, entry_owner e = Some (owner_of slug)) (entries data).

(** [d.setdefault(k, v)] *)
Definition setdefault (d : row) (k : string) (v : json) : row :=
  match dget d k with Some _ => d | None => dset d k v end.

Definition is_str (v : json) (P : string → bool) : bool := match v with JStr s => P s | _ => false end.

Section outside.
Context `{Outside, PyText}.

(** [compute_artifact_id] *)
Definition compute_artifact_id (repo revision subdir name : string) : outcome string :=
  let* subdir := normalize_subdir subdir in
  Ok (sha256_hex (String.concat newline [normalize_repo repo; revision; subdir; name])).

(** ** An entry *)

(** The owned invariant of [_entry_error]. *)
Definition owned_ok (entry : row) (name owner : json) : bool :=
  match name, owner with
  | JStr name, JStr owner =>
    let '(slug_part, mname_part) := partition_dot name in
    OWNED_NAME_RE name && (String.length name <=? 72)%nat && OWNER_RE owner
    && bool_decide (owner = owner_of slug_part)
    && bool_decide (obj_get entry "manifest_name" = JStr mname_part)
    && bool_decide (obj_get entry "targets" = JList [JStr owner])
  | _, _ => false
  end.

(** The source, the version, the targets and the artifact id: the checks after the
    name. *)
Definition source_error (entry src : row) (name : string) : outcome (option string) :=
  let* ty := hashed (obj_get src "type") in
  if negb (is_str ty (λ t, bool_decide (t ∈ _SOURCE_TYPES))) then Ok (Some "bad_source_type")
  else
  match obj_get src "repo" with
  | JStr repo =>
    if negb (_REPO_RE repo) then Ok (Some "bad_repo")
    else if negb (is_str (obj_get src "ref") str_true) then Ok (Some "bad_ref")
    else
    match obj_get src "revision" with
    | JStr revision =>
      if negb (REVISION_RE revision) then Ok (Some "bad_revision")
      else
      match default (JStr "") (dget src "subdir") with
      | JStr subdir =>
        match normalize_subdir subdir with
        | Raise _ => Ok (Some "bad_subdir")
        | Ok _ =>
          if negb (is_str (obj_get entry "version") str_true) then Ok (Some "bad_version")
          else if negb (match obj_get entry "targets" with
                        | JList ts => forallb (λ t, is_str t TARGET_RE) ts
                        | _ => false
                        end) then Ok (Some "bad_targets")
          else
            let* expected := compute_artifact_id repo revision subdir name in
            if bool_decide (obj_get entry "artifact_id" = JStr expected) then Ok None
            else Ok (Some "artifact_id_mismatch")
        end
      | _ => Ok (Some "bad_subdir")
      end
    | _ => Ok (Some "bad_revision")
    end
  | _ => Ok (Some "bad_repo")
  end.

(** [_entry_error] *)
Definition _entry_error (entry : json) : outcome (option string) :=
  match entry with
  | JObj entry =>
    let name := obj_get entry "name" in
    let owner := obj_get entry "owner" in
    let rest :=
      match obj_get entry "source", name with
      | JObj src, JStr name => source_error entry src name
      | _, _ => Ok (Some "bad_source")
      end in
    match owner with
    | JNull => if is_str name NAME_RE then rest else Ok (Some "bad_name")
    | _ => if owned_ok entry name owner then rest else Ok (Some "owned_invariant")
    end
  | _ => Ok (Some "not_a_mapping")
  end.

(** [_own_targets] *)
Definition _own_targets (raw_entry : json) : list string :=
  match raw_entry with
  | JObj e =>
    match obj_get e "targets" with
    | JList ts => omap (λ t, match t with JStr t => if TARGET_RE t then Some t else None | _ => None end) ts
    | _ => []
    end
  | _ => []
  end.

(** ** The document *)

Definition invalid_entry (entry : json) : PluginIssue :=
  mkIssue
    match entry with JObj e => to_str (obj_get e "name") | _ => "?" end
    None "registry" "entry_invalid"
    match entry with JObj e => obj_get e "artifact_id" | _ => JNull end
    (_own_targets entry).

Definition entry_issue (reason : string) (target : option string) (e : row) : PluginIssue :=
  mkIssue (to_str (obj_get e "name")) target "registry" reason (obj_get e "artifact_id")
    (_own_targets (JObj e)).

(** The first loop: the entries without an error, and an issue for each other. *)
Fixpoint sift (plugins : list json) : outcome (list row * list PluginIssue) :=
  match plugins with
  | [] => Ok ([], [])
  | entry :: rest =>
    let* err := _entry_error entry in
    let* (es, iss) := sift rest in
    match err, entry with
    | None, JObj e => Ok (e :: es, iss)
    | _, _ => Ok (es, invalid_entry entry :: iss)
    end
  end.

(** [d.setdefault(k, []).append(x)] for a dict whose keys are compared by [eqb]. *)
Fixpoint group_add {K A} (eqb : K → K → bool) (k : K) (x : A) (d : list (K * list A)) : list (K * list A) :=
  match d with
  | [] => [(k, [x])]
  | (k', l) :: d' => if eqb k k' then (k', l ++ [x]) :: d' else (k', l) :: group_add eqb k x d'
  end.

(** The dict of lists that a loop of such calls builds. *)
Definition grouped {K A} (eqb : K → K → bool) (l : list (K * A)) : list (K * list A) :=
  foldl (λ d p, group_add eqb p.1 p.2 d) [] l.

Definition by_name (es : list row) : list (json * list row) :=
  grouped py_eq ((λ e, (obj_get e "name", e)) <$> es).

Definition duplicate_issues (es : list row) : list PluginIssue :=
  flat_map (λ g, if (1 <? length g.2)%nat then entry_issue "duplicate_name" None <$> g.2 else [])
    (by_name es).

(** An entry is kept when its group has no other. *)
Definition name_count (es : list row) (e : row) : nat :=
  length (filter (λ e', py_eq (obj_get e' "name") (obj_get e "name") = true) es).
Definition unique_names (es : list row) : list row := filter (λ e, name_count es e = 1%nat) es.

(** [e.get("manifest_name") or e["name"]] *)
Definition effective_name (e : row) : json := json_or (obj_get e "manifest_name") (obj_get e "name").
Definition targets_of (e : row) : list string := _own_targets (JObj e).

(** Each target of each entry, with the effective name and the position. *)
Definition runtime_keys (ie : nat * row) : outcome (list ((string * json) * (nat * row))) :=
  map_outcome (λ t, let* eff := hashed (effective_name ie.2) in Ok ((t, eff), ie)) (targets_of ie.2).
Definition rt_eqb (a b : string * json) : bool := bool_decide (a.1 = b.1) && py_eq a.2 b.2.

Definition is_owned (e : row) : bool := negb (bool_decide (obj_get e "owner" = JNull)).

(** The owned entries of a group that were not dropped yet. *)
Fixpoint drop_owned (t : string) (group : list (nat * row)) (dropped : list nat)
    : list nat * list PluginIssue :=
  match group with
  | [] => (dropped, [])
  | (i, e) :: rest =>
    if is_owned e && negb (bool_decide (i ∈ dropped)) then
      let '(d, iss) := drop_owned t rest (dropped ++ [i]) in
      (d, entry_issue "manifest_name_collision" (Some t) e :: iss)
    else drop_owned t rest dropped
  end.

Fixpoint drop_groups (by_rt : list ((string * json) * list (nat * row))) (dropped : list nat)
    : list nat * list PluginIssue :=
  match by_rt with
  | [] => (dropped, [])
  | (k, group) :: rest =>
    if (length group <=? 1)%nat then drop_groups rest dropped
    else
      let '(d, iss) := drop_owned k.1 group dropped in
      let '(d', iss') := drop_groups rest d in (d', iss ++ iss')
  end.

(** The uniqueness passes of [_validate_doc]. *)
Definition unique_runtime (ordered : list row) : outcome (list row * list PluginIssue) :=
  let numbered := imap (λ i e, (i, e)) ordered in
  let* keys := map_outcome runtime_keys numbered in
  let '(dropped, issues) := drop_groups (grouped rt_eqb (concat keys)) [] in
  Ok (snd <$> filter (λ ie, ie.1 ∉ dropped) numbered, issues).

Definition seeded_ok (seeded : json) : bool :=
  match seeded with
  | JList l => forallb (λ x, is_str x NAME_RE) l && bool_decide (NoDup l)
  | _ => false
  end.

(** [_validate_doc]: the document with its default set, and the triple. *)
Definition _validate_doc (raw : json) : outcome (json * (list row * list PluginIssue * bool)) :=
  match raw with
  | JObj doc =>
    if negb (py_eq (obj_get doc "schema_version") (JInt SCHEMA_VERSION)) then Ok (raw, ([], [], false))
    else
      let doc := setdefault doc "seeded_defaults" (JList []) in
      if negb (seeded_ok (obj_get doc "seeded_defaults")) then Ok (JObj doc, ([], [], false))
      else
      match obj_get doc "plugins" with
      | JList plugins =>
        let* (es, issues) := sift plugins in
        let ordered := unique_names es in
        let* (kept, collisions) := unique_runtime ordered in
        Ok (JObj doc, (kept, issues ++ duplicate_issues es ++ collisions, true))
      | _ => Ok (JObj doc, ([], [], false))
      end
  | _ => Ok (raw, ([], [], false))
  end.

Definition data_of (v : json * (list row * list PluginIssue * bool)) : RegistryData :=
  let '(doc, (es, issues, ok)) := v in
  mkData match doc with JObj d => d | _ => [] end es issues ok.

Definition empty_registry : row :=
  [("schema_version", JInt SCHEMA_VERSION); ("seeded_defaults", JList []); ("plugins", JList [])].

(** [load_registry] *)
Definition load_registry : FsM RegistryData :=
  let* s := get in
  if negb (is_file REGISTRY_PATH s) then mret (mkData empty_registry [] [] true)
  else
    let* doc := try_except (let* v := read_json REGISTRY_PATH in mret (Some v))
      (λ e, match e with OSError | ValueError => Some (mret None) | _ => None end) in
    match doc with
    | None => mret (mkData [] [] [] false)
    | Some v => let* r := lift (_validate_doc v) in mret (data_of r)
    end.

(** [save_registry] *)
Definition save_registry (doc : row) : FsM unit :=
  unseen ;;; atomic_write_text REGISTRY_PATH (Doc (JObj doc)).

(** [_revalidate] *)
Definition _revalidate (data : RegistryData) : outcome RegistryData :=
  let* r := _validate_doc (JObj (raw data)) in Ok (data_of r).

(** [plugins = raw.get("plugins")], and [[]] when that is not a list. *)
Definition plugins_of (doc : row) : list json :=
  match obj_get doc "plugins" with JList l => l | _ => [] end.

Definition owned_rows (slug : string) (plugins : list json) : list row :=
  omap (λ e, match e with JObj r => if owned_by slug e then Some r else None | _ => None end) plugins.
Definition not_owned (slug : string) (plugins : list json) : list json :=
  filter (λ e, owned_by slug e = false) plugins.

(** A successful swap clears the quarantine of the slug. *)
Definition clear_quarantine (slug : string) (doc : row) : row :=
  match obj_get doc "quarantined_bundles" with
  | JList q =>
    if existsb (py_eq (JStr slug)) q
    then dset doc "quarantined_bundles" (JList (filter (λ s, py_eq s (JStr slug) = false) q))
    else doc
  | _ => doc
  end.

(** The document a swap means to save. *)
Definition swapped (slug : string) (new_entries : list row) (doc : row) : row :=
  let doc := dset doc "plugins" (JList (not_owned slug (plugins_of doc) ++ (JObj <$> new_entries))) in
  let doc := clear_quarantine slug doc in
  setdefault (setdefault doc "schema_version" (JInt SCHEMA_VERSION)) "seeded_defaults" (JList []).

(** A new entry that an issue names, or that validation lost. *)
Definition swap_refused (new_entries : list row) (data : RegistryData) : outcome bool :=
  let* new_names := map_outcome (λ e, hashed (obj_get e "name")) new_entries in
  let surviving := (λ e, obj_get e "name") <$> entries data in
  Ok (existsb (λ i, existsb (py_eq (JStr (is_name i))) new_names) (entry_issues data)
      || existsb (λ n, negb (existsb (py_eq n) surviving)) new_names
      || negb (valid data)).

(** [apply_owned_swap] *)
Definition apply_owned_swap (slug : string) (new_entries : list row) : FsM (list row * RegistryData) :=
  let* data := load_registry in
  raise_when (negb (valid data)) ValueError ;;;
  let before_entries := owned_rows slug (plugins_of (raw data)) in
  let* data := lift (_revalidate (data <| raw := swapped slug new_entries (raw data) |>)) in
  let* bad := lift (swap_refused new_entries data) in
  raise_when bad ValueError ;;;
  save_registry (raw data) ;;;
  mret (before_entries, data).

(** ** Seeding *)

(** One default.  The document is a valid one, so that its list of seeded names is a
    list. *)
Definition seed_one (entry : json) (present : list json) (doc : row) (mutated : bool) : outcome (row * bool) :=
  match entry with
  | JObj e =>
    let name := obj_get e "name" in
    if negb (truthy name) then Ok (doc, mutated)
    else
      let* _ := hashed name in
      match obj_get doc "seeded_defaults", obj_get (setdefault doc "plugins" (JList [])) "plugins" with
      | JList seeded, JList l =>
        if existsb (py_eq name) present || existsb (py_eq name) seeded then Ok (doc, mutated)
        else
          let doc := dset doc "plugins" (JList (l ++ [entry])) in
          Ok (dset doc "seeded_defaults" (JList (seeded ++ [name])), true)
      | _, _ => Raise AttributeError
      end
  | _ => Raise AttributeError
  end.

Fixpoint seed_all (defaults present : list json) (doc : row) (mutated : bool) : outcome (row * bool) :=
  match defaults with
  | [] => Ok (doc, mutated)
  | e :: rest => let* (doc, mutated) := seed_one e present doc mutated in seed_all rest present doc mutated
  end.

(** [seed_defaults]: given the document of the defaults, if it can be read. *)
Definition seed_defaults (defaults : option json) (data : RegistryData) : outcome (RegistryData * bool) :=
  match defaults with
  | None => Ok (data, false)
  | Some (JObj d) =>
    let* plugins := json_iter (default (JList []) (dget (raw data) "plugins")) in
    let* present := map_outcome hashed
      (omap (λ e, match e with JObj e => Some (obj_get e "name") | _ => None end) plugins) in
    let doc := setdefault (raw data) "seeded_defaults" (JList []) in
    let* l := json_iter (default (JList []) (dget d "plugins")) in
    let* (doc, mutated) := seed_all l present doc false in
    let data := data <| raw := doc |> in
    if mutated : bool then let* data := _revalidate data in Ok (data, true) else Ok (data, false)
  | Some _ => Raise AttributeError
  end.
End outside.
