(* ===== verification/InstallConsent.v ===== *)
(** * The ledger of install approvals

    [specialist_install_consent.py]: the identity that an approval binds, and the
    file of approvals, which every operation reads afresh under one lock. *)

From S2P Require Import Prelude PyStr PyDict Json JsonOps Files.
From stdpp Require Import gmap.
#[local] Open Scope Z_scope.

Abbreviation row := (list (string * json)).

Definition ACKS_PATH : path := ["data"; "specialist_install_acks.json"].
Definition _SCHEMA_VERSION : Z := 1.

Section outside.
Context `{Outside}.

(** [install_consent_identity].  The values are those of a record, and need not be
    strings when they come from a journal. *)
Definition install_consent_identity (component_id version root_digest slug receipt_digest : json) : string :=
  let payload := [("component_id", component_id); ("version", version);
                  ("component_checksum", root_digest); ("slug", slug)] in
  checksum_json (JObj (if truthy receipt_digest
                       then payload ++ [("receipt_digest", receipt_digest)] else payload)).

Definition nonempty_str (v : json) : bool := match v with JStr s => str_true s | _ => false end.

(** One row of [_load]. *)
Definition load_row (ident : string) (rec : json) : option row :=
  match rec with
  | JObj r =>
    let receipt_digest := default (JStr "") (dget r "receipt_digest") in
    if forallb (λ k, nonempty_str (obj_get r k)) ["component_id"; "version"; "component_checksum"; "slug"]
       && match receipt_digest with JStr _ => true | _ => false end
       && bool_decide (install_consent_identity (obj_get r "component_id") (obj_get r "version")
            (obj_get r "component_checksum") (obj_get r "slug") receipt_digest = ident)
    then Some r else None
  | _ => None
  end.

(** Every row, or none when one of them fails. *)
Fixpoint load_rows (acks : row) : option (list (string * row)) :=
  match acks with
  | [] => Some []
  | (ident, rec) :: rest =>
    match load_row ident rec, load_rows rest with
    | Some r, Some out => Some ((ident, r) :: out)
    | _, _ => None
    end
  end.

Definition load_doc (raw : json) : list (string * row) :=
  match raw with
  | JObj doc =>
    if py_eq (obj_get doc "schema_version") (JInt _SCHEMA_VERSION) then
      match obj_get doc "acks" with JObj acks => default [] (load_rows acks) | _ => [] end
    else []
  | _ => []
  end.

(** [SpecialistInstallAckStore._load] *)
Definition _load : FsM (list (string * row)) :=
  try_except (let* raw := read_json ACKS_PATH in mret (load_doc raw))
    (λ e, match e with OSError | ValueError => Some (mret []) | _ => None end).

(** [SpecialistInstallAckStore._persist_locked] *)
Definition ledger_doc (candidate : list (string * row)) : json :=
  JObj [("schema_version", JInt _SCHEMA_VERSION);
        ("acks", JObj ((λ p, (p.1, JObj p.2)) <$> candidate))].
Definition _persist_locked (candidate : list (string * row)) : FsM unit :=
  unseen ;;; atomic_write_text ACKS_PATH (Doc (sort_keys (ledger_doc candidate))).

(** [SpecialistInstallAckStore.is_acked] *)
Definition is_acked (identity : string) : FsM bool :=
  let* acks := _load in mret (dhas acks identity).

(** [SpecialistInstallAckStore.record], at second [ts]. *)
Definition ack_record (component_id version component_checksum slug receipt_digest : string) (ts : Z) : row :=
  [("component_id", JStr component_id); ("version", JStr version);
   ("component_checksum", JStr component_checksum); ("slug", JStr slug); ("ts", JInt ts)]
  ++ (if str_true receipt_digest then [("receipt_digest", JStr receipt_digest)] else []).
Definition record (identity component_id version component_checksum slug receipt_digest : string) (ts : Z)
    : FsM unit :=
  let* acks := _load in
  _persist_locked (dset acks identity
    (ack_record component_id version component_checksum slug receipt_digest ts)).

(** [SpecialistInstallAckStore.revoke] *)
Definition revoke (identity : string) : FsM bool :=
  let* acks := _load in
  if negb (dhas acks identity) then mret false
  else _persist_locked (ddel acks identity) ;;; mret true.

Definition of_slug (slug : string) (p : string * row) : bool := py_eq (obj_get p.2 "slug") (JStr slug).

(** [SpecialistInstallAckStore.retire_slug] *)
Definition retire_slug (slug : string) : FsM (list row) :=
  let* acks := _load in
  let removed := dvals (filter (λ p, of_slug slug p = true) acks) in
  match removed with
  | [] => mret []
  | _ => _persist_locked (filter (λ p, of_slug slug p = false) acks) ;;; mret removed
  end.

(** [SpecialistInstallAckStore.snapshot_slug] *)
Definition snapshot_slug (slug : string) : FsM (list row) :=
  let* acks := _load in mret (dvals (filter (λ p, of_slug slug p = true) acks)).

(** The identity that [restore_records] computes of a record. *)
Definition record_identity (rec : row) : outcome string :=
  let* c := obj_item rec "component_id" in
  let* v := obj_item rec "version" in
  let* d := obj_item rec "component_checksum" in
  let* s := obj_item rec "slug" in
  Ok (install_consent_identity c v d s (default (JStr "") (dget rec "receipt_digest"))).

Fixpoint merge_records (records : list row) (candidate : list (string * row))
    : outcome (list (string * row)) :=
  match records with
  | [] => Ok candidate
  | rec :: rest =>
    let* identity := record_identity rec in merge_records rest (dset candidate identity rec)
  end.

(** [SpecialistInstallAckStore.restore_records] *)
Definition restore_records (records : list row) : FsM unit :=
  match records with
  | [] => mret tt
  | _ =>
    let* acks := _load in
    let* candidate := lift (merge_records records acks) in
    _persist_locked candidate
  end.

(** [prompt_specialist_install_consent]: what a tap on option [idx] records, before
    anything else happens. *)
Definition on_commit_sync (idx : Z) (component_id version root_digest slug receipt_digest : string) (ts : Z)
    : FsM unit :=
  if idx =? 0 then
    record (install_consent_identity (JStr component_id) (JStr version) (JStr root_digest) (JStr slug)
              (JStr receipt_digest))
      component_id version root_digest slug receipt_digest ts
  else mret tt.
End outside.
