(* ===== verification/BundleJournal.v ===== *)
(** * The journal of bundle operations

    [specialist_bundle_journal.py]: the file that records what an installation is about
    to change, the rollback that it makes possible, and the reconciliation at boot,
    which rolls back, prunes or quarantines what a dead process left. *)

From S2P Require Import Prelude PyStr PyDict Json JsonOps Files PluginRegistry InstallConsent.
From stdpp Require Import gmap sorting.
#[local] Open Scope Z_scope.

Definition OPS_DIR : path := ["config"; "specialists"; ".ops"].
Definition SPECIALISTS_DIR : path := ["config"; "specialists"].

(** The groups of a match of [JOURNAL_NAME_RE]: the slug. *)
Definition JOURNAL_NAME_RE (name : string) : option string :=
  match name with
  | String c s =>
    if lower_alnum c then
      let '(a, b) := span slug_char s in
      if (String.length a <=? 31)%nat
         && ends ((after_prefix "." b ≫= run lower_hex 32 32) ≫= after_prefix ".json")
      then Some (String c a) else None
    else None
  | EmptyString => None
  end.

Definition TUPLE_FILENAMES : list string :=
  ["active.yaml"; "desired.yaml"; "active.prior.yaml"; "owned-plugins.yaml";
   "owned-plugins.desired.yaml"; "owned-plugins.prior.yaml"; "active.yaml.rollback-tmp";
   "pending-receipt.json"].

(** What [before.tuple_files] holds: the text of a file, or that it was absent. *)
Abbreviation tuple_files := (list (string * option string)).

Definition json_of_files (files : tuple_files) : json :=
  JObj ((λ p, (p.1, json_of_opt_str p.2)) <$> files).

Record BundleTxn := mkTxn {
  journal_path : path;
  slug : string;
  before_entries : list row;
  before_tuple_files : tuple_files;
  ack_records : list row;
  removed_artifact_ids : list string;
  new_artifact_ids : list string
}.

Section outside.
Context `{Outside, PyText}.

(** [_fsync_write], of the JSON text of [payload] with sorted keys. *)
Definition _fsync_write (p : path) (payload : json) : FsM unit :=
  let* n := draw in
  let tmp := parent p ++ [default "" (last p) +:+ ".tmp-" +:+ uuid4_hex n] in
  on_failure
    (truncate tmp ;;; write tmp (Doc (sort_keys payload)) ;;; unseen ;;; replace tmp p)
    (except_os (unlink tmp) (mret tt)) ;;;
  unseen.

Definition begin_payload (op slug : string) (before_entries : list row) (before : tuple_files)
    (ack_records : list row) (receipt_digest consent_identity target_root : string) : json :=
  JObj [("schema_version", JInt SCHEMA_VERSION); ("op", JStr op); ("slug", JStr slug);
        ("state", JStr "in-progress");
        ("before", JObj [("registry_entries", JList (JObj <$> before_entries));
                         ("tuple_files", json_of_files before);
                         ("ack_records", JList (JObj <$> ack_records))]);
        ("receipt_digest", JStr receipt_digest); ("consent_identity", JStr consent_identity);
        ("target_root", JStr target_root); ("steps_done", JList [])].

(** [begin] *)
Definition begin (op slug : string) (before_entries : list row) (before : tuple_files)
    (ack_records : list row) (receipt_digest consent_identity target_root : string) : FsM path :=
  unseen ;;;
  let* n := draw in
  let p := OPS_DIR ++ [slug +:+ "." +:+ uuid4_hex n +:+ ".json"] in
  _fsync_write p (begin_payload op slug before_entries before ack_records
                    receipt_digest consent_identity target_root) ;;;
  mret p.

(** [mark_step] *)
Definition mark_step (journal_path : path) (step : string) : FsM unit :=
  let* payload := read_json journal_path in
  match payload with
  | JObj d =>
    match obj_get (setdefault d "steps_done" (JList [])) "steps_done" with
    | JList l => _fsync_write journal_path (JObj (dset d "steps_done" (JList (l ++ [JStr step]))))
    | _ => raise AttributeError
    end
  | _ => raise AttributeError
  end.

(** [complete] *)
Definition complete (journal_path : path) : FsM unit :=
  let* payload := read_json journal_path in
  match payload with
  | JObj d => _fsync_write journal_path (JObj (dset d "state" (JStr "complete"))) ;;; unlink journal_path
  | _ => raise TypeError
  end.

(** ** Rollback *)

Definition slug_dir (slug : string) : path := SPECIALISTS_DIR ++ [slug].

Definition restore_file (dir : path) (f : string * option string) : FsM unit :=
  match f.2 with
  | None => unlink_if_there (dir ++ [f.1])
  | Some text => unseen ;;; write_text (dir ++ [f.1]) (Text text)
  end.

(** The document that a rollback saves. *)
Definition rolled_back (slug : string) (before_entries : list row) (doc : row) : row :=
  dset doc "plugins" (JList (not_owned slug (plugins_of doc) ++ (JObj <$> before_entries))).

(** [BundleTxn.rollback_disk] *)
Definition rollback_disk (txn : BundleTxn) : FsM unit :=
  let* data := load_registry in
  raise_when (negb (valid data)) ValueError ;;;
  save_registry (rolled_back (slug txn) (before_entries txn) (raw data)) ;;;
  for_each (before_tuple_files txn) (restore_file (slug_dir (slug txn))) ;;;
  restore_records (ack_records txn).

(** ** Quarantine *)

(** [if s not in qlist: qlist.append(s)] *)
Definition flag (qlist : json) (s : string) : outcome json :=
  match qlist with
  | JList l => Ok (if existsb (py_eq (JStr s)) l then qlist else JList (l ++ [JStr s]))
  | JStr t => if contains s t then Ok qlist else Raise AttributeError
  | JObj d => if dhas d s then Ok qlist else Raise AttributeError
  | _ => Raise TypeError
  end.

Fixpoint flag_all (qlist : json) (slugs : list string) : outcome json :=
  match slugs with
  | [] => Ok qlist
  | s :: rest => let* q := flag qlist s in flag_all q rest
  end.

(** [raw["plugins"] = ...], when that is a list. *)
Definition keep_plugins (P : json → bool) (doc : row) : row :=
  match obj_get doc "plugins" with
  | JList l => dset doc "plugins" (JList (filter (λ e, P e = true) l))
  | _ => doc
  end.

(** Remove the owned entries that [P] does not keep, and flag their slugs. *)
Definition quarantined (P : json → bool) (slugs : list string) (doc : row) : outcome row :=
  let doc := setdefault (keep_plugins P doc) "quarantined_bundles" (JList []) in
  let* q := flag_all (obj_get doc "quarantined_bundles") slugs in
  Ok (dset doc "quarantined_bundles" q).

(** [quarantine] *)
Definition quarantine (slug : string) : FsM unit :=
  let* data := load_registry in
  if negb (valid data) then mret tt
  else
    let* doc := lift (quarantined (λ e, negb (owned_by slug e)) [slug] (raw data)) in
    save_registry doc.

Definition owner_in (e : json) : option string :=
  match e with JObj e => entry_owner e | _ => None end.

(** The slugs that own something: [owner.split(":", 1)[1]]. *)
Definition owning_slugs (doc : row) : list string :=
  sorted_strings (remove_dups (omap (λ e, owner_in e ≫= after_prefix "specialist:") (plugins_of doc))).

(** [quarantine_all] *)
Definition quarantine_all : FsM unit :=
  let* data := load_registry in
  if negb (valid data) then mret tt
  else
    let* doc := lift (quarantined (λ e, bool_decide (owner_in e = None)) (owning_slugs (raw data)) (raw data)) in
    save_registry doc.

(** ** Reconciliation *)

Definition is_dict (v : json) : bool := match v with JObj _ => true | _ => false end.
Definition opt_str (v : json) : bool := match v with JNull | JStr _ => true | _ => false end.

(** [_valid_payload]: the parts of a payload that passes. *)
Definition dicts (v : json) : option (list row) :=
  match v with
  | JList l => if forallb is_dict l then Some (omap (λ e, match e with JObj e => Some e | _ => None end) l)
               else None
  | _ => None
  end.
Definition files_of (v : json) : option tuple_files :=
  match v with
  | JObj d =>
    if forallb (λ p, bool_decide (p.1 ∈ TUPLE_FILENAMES) && opt_str p.2) d
    then Some ((λ p, (p.1, match p.2 with JStr s => Some s | _ => None end)) <$> d) else None
  | _ => None
  end.

Definition _valid_payload (payload : json) (slug : string)
    : option (string * (list row * tuple_files * list row)) :=
  match payload with
  | JObj p =>
    if py_eq (obj_get p "schema_version") (JInt SCHEMA_VERSION)
       && nonempty_str (obj_get p "op") && bool_decide (obj_get p "slug" = JStr slug)
       && opt_str (obj_get p "consent_identity") && opt_str (obj_get p "target_root")
    then
      match obj_get p "state", obj_get p "before" with
      | JStr state, JObj before =>
        if bool_decide (state ∈ ["in-progress"; "complete"]) then
          match dicts (obj_get before "registry_entries"), files_of (obj_get before "tuple_files"),
                dicts (obj_get before "ack_records") with
          | Some entries, Some files, Some acks => Some (state, (entries, files, acks))
          | _, _, _ => None
          end
        else None
      | _, _ => None
      end
    else None
  | _ => None
  end.

(** [_quarantine_rename] *)
Definition _quarantine_rename (p : path) : FsM unit :=
  replace p (parent p ++ [default "" (last p) +:+ ".quarantined"]).

(** What a boot reports: the slug, if there is one, and the action. *)
Abbreviation action := (option string * string)%type.

(** One journal. *)
Definition reconcile_one (name : string) : FsM action :=
  let p := OPS_DIR ++ [name] in
  match JOURNAL_NAME_RE name with
  | None =>
    except_any quarantine_all (mret tt) ;;;
    _quarantine_rename p ;;;
    mret (None, "quarantine_all")
  | Some slug =>
    let* payload := try_except (let* v := read_json p in mret (Some v))
      (λ e, match e with OSError | ValueError => Some (mret None) | _ => None end) in
    match payload ≫= (λ v, _valid_payload v slug) with
    | None =>
      except_any (quarantine slug) (mret tt) ;;;
      _quarantine_rename p ;;;
      mret (Some slug, "quarantine")
    | Some (state, (entries, files, acks)) =>
      if bool_decide (state = "complete") then unlink p ;;; mret (Some slug, "pruned_complete")
      else
        let txn := mkTxn p slug entries files acks [] [] in
        let* ok := except_any (rollback_disk txn ;;; mret true) (mret false) in
        if ok : bool then unlink p ;;; mret (Some slug, "rolled_back")
        else
          except_any (quarantine slug) (mret tt) ;;;
          _quarantine_rename p ;;;
          mret (Some slug, "quarantine")
    end
  end.

(** [name.endswith(".quarantined")] *)
Definition is_quarantined (name : string) : bool :=
  String.prefix (string_rev ".quarantined") (string_rev name).

Fixpoint reconcile_all (names : list string) : FsM (list action) :=
  match names with
  | [] => mret []
  | name :: rest =>
    if is_quarantined name then reconcile_all rest
    else
      let* a := reconcile_one name in
      let* actions := reconcile_all rest in
      mret (a :: actions)
  end.

(** [reconcile_boot], after its sweeps of old receipts and staging trees. *)
Definition reconcile_boot : FsM (list action) :=
  let* s := get in reconcile_all (sorted_strings (iterdir OPS_DIR s)).
End outside.
