(* ===== verification/InstanceBinding.v ===== *)
(** * Bindings and instance directories

    [personality_binding.py]: the record that binds a persona to a role, its digest
    and its verification; the tuple files of one instance (active, desired, prior) and
    their rotation; the sidecar that lists the plugins an instance owns; and the
    reconciliation of a resident's binding at boot. *)

From S2P Require Import Prelude PyStr PyDict Json JsonOps Files PluginRegistry.
From stdpp Require Import gmap sorting.
#[local] Open Scope Z_scope.

(** ** Schemas *)

(** [sha256:[0-9a-f]{64}] *)
Definition sha_text (s : string) : bool := ends (after_prefix "sha256:" s ≫= run lower_hex 64 64).

(** A decimal numeral without leading zeros. *)
Definition version_part (s : string) : option string :=
  let '(d, r) := span digit s in
  match d with
  | EmptyString => None
  | String c d' => if bool_decide (c = Ascii.ascii_of_nat 48) && str_true d' then None else Some r
  end.
Definition version_text (s : string) : bool :=
  ends ((((version_part s ≫= after_prefix ".") ≫= version_part) ≫= after_prefix ".") ≫= version_part).

(** Letters, digits, dots and dashes, from a letter or digit to a letter or digit. *)
Definition namespace_part (s : string) : option string :=
  let '(a, b) := span (λ c, slug_char c || char_in "." c) s in
  match a, string_rev a with
  | String x _, String y _ => if lower_alnum x && lower_alnum y then Some b else None
  | _, _ => None
  end.
Definition persona_id_text (s : string) : bool :=
  ends ((namespace_part s ≫= after_prefix "/") ≫= λ r,
    match r with
    | String c r' => if lower_alnum c then Some (span slug_char r').2 else None
    | EmptyString => None
    end).

Definition agent_id_text (s : string) : bool :=
  ends (after_prefix "resident:" s ≫= slug_upto 31) || ends (after_prefix "specialist:" s ≫= slug_upto 31).

Definition opt_text (v : json) : bool := match v with JNull | JStr _ => true | _ => false end.
Definition any_text (v : json) : bool := match v with JStr _ => true | _ => false end.
Definition text_where (P : string → bool) (v : json) : bool := match v with JStr s => P s | _ => false end.

(** An object with these properties, some of them required, and no others. *)
Definition object_schema (required : list string) (properties : list (string * (json → bool))) (raw : json) : bool :=
  match raw with
  | JObj d =>
    forallb (λ k, dhas d k) required
    && forallb (λ p, match dget properties p.1 with Some ok => ok p.2 | None => false end) d
  | _ => false
  end.

(** [defaults/schema/binding.v1.json] *)
Definition binding_schema (raw : json) : bool :=
  object_schema
    ["api_version"; "stable_agent_id"; "role_checksum"; "mode"; "persona_id"; "persona_version";
     "persona_checksum"; "compiler_schema_version"; "dependency_digests"; "effective_config_digest";
     "binding_digest"]
    [("api_version", λ v, bool_decide (v = JStr "casa.binding/v1"));
     ("stable_agent_id", text_where agent_id_text); ("role_checksum", text_where sha_text);
     ("mode", text_where (λ m, bool_decide (m ∈ ["image-default"; "component-default"; "override"])));
     ("persona_id", text_where persona_id_text); ("persona_version", text_where version_text);
     ("persona_checksum", text_where sha_text); ("compiler_schema_version", text_where str_true);
     ("dependency_digests", λ v, match v with JList l => forallb (text_where sha_text) l | _ => false end);
     ("effective_config_digest", text_where sha_text); ("binding_digest", text_where sha_text);
     ("image_default_root", opt_text); ("component_root", opt_text); ("override_source", opt_text)]
    raw
  && match raw with
     | JObj d =>
       let needs mode key := negb (bool_decide (obj_get d "mode" = JStr mode)) || dhas d key in
       needs "image-default" "image_default_root" && needs "component-default" "component_root"
       && needs "override" "override_source"
     | _ => false
     end.

(** [defaults/schema/instance-tuple.v1.json] *)
Definition tuple_schema (raw : json) : bool :=
  object_schema ["api_version"; "root"; "binding"; "config_snapshot"; "config_digest"]
    [("api_version", λ v, bool_decide (v = JStr "casa.instance-tuple/v1"));
     ("root", text_where str_true);
     ("binding", λ v, match v with JObj _ => true | _ => false end);
     ("config_snapshot", λ v, match v with JObj _ => true | _ => false end);
     ("config_digest", text_where sha_text)] raw.

(** ** Records *)

Record BindingRecord := mkBinding {
  stable_agent_id : string;
  role_checksum : string;
  mode : string;
  persona_id : string;
  persona_version : string;
  persona_checksum : string;
  compiler_schema_version : string;
  dependency_digests : list string;
  effective_config_digest : string;
  binding_digest : string;
  image_default_root : option string;
  component_root : option string;
  override_source : option string
}.
#[export] Instance binding_eq_dec : EqDecision BindingRecord.
Proof. solve_decision. Defined.

(** The root of a tuple that was loaded is a string. *)
Record InstanceTuple := mkTuple {
  root : option string;
  binding : BindingRecord;
  config_snapshot : row;
  config_digest : string
}.

(** [a == b] of two tuples. *)
Definition tuple_eqb (a b : InstanceTuple) : bool :=
  bool_decide (root a = root b) && bool_decide (binding a = binding b)
  && py_eq (JObj (config_snapshot a)) (JObj (config_snapshot b))
  && bool_decide (config_digest a = config_digest b).

(** What the code uses of a role and of a persona. *)
Record RoleSlot := mkRole {
  role_id : string;
  kind : string;
  slot : string;
  role_sum : string;                 (** [RoleSlot.checksum] *)
  normalized : row
}.
Record PersonaPack := mkPersona {
  pk_id : string;
  pk_version : string;
  pk_sum : string
}.

(** [row[k]] of a string field, read after the schema accepted the row. *)
Definition str_field (d : row) (k : string) : string :=
  match obj_get d k with JStr s => s | _ => "" end.
Definition opt_field (d : row) (k : string) : option string :=
  match obj_get d k with JStr s => Some s | _ => None end.
Definition strs_field (d : row) (k : string) : list string :=
  match obj_get d k with
  | JList l => omap (λ v, match v with JStr s => Some s | _ => None end) l
  | _ => []
  end.

Definition RENDERER_VERSION : string := "casa-persona-renderer/1.0.0".

Section outside.
Context `{Outside}.

(** [compute_binding_digest] *)
Definition compute_binding_digest (stable_agent_id role_checksum persona_id persona_version persona_checksum
    compiler_schema_version : string) (dependency_digests : list string) (effective_config_digest : string)
    : string :=
  checksum_json (JObj [("stable_agent_id", JStr stable_agent_id); ("role_checksum", JStr role_checksum);
    ("persona_id", JStr persona_id); ("persona_version", JStr persona_version);
    ("persona_checksum", JStr persona_checksum);
    ("compiler_schema_version", JStr compiler_schema_version);
    ("dependency_digests", JList (JStr <$> sorted_strings dependency_digests));
    ("effective_config_digest", JStr effective_config_digest)]).

Definition EMPTY_CONFIG_DIGEST : string := checksum_json (JObj []).

(** [_build] *)
Definition _build (role : RoleSlot) (persona : PersonaPack) (mode : string) (dependency_digests : list string)
    (effective_config_digest : string) (image_default_root component_root override_source : option string)
    : BindingRecord :=
  mkBinding (role_id role) (role_sum role) mode (pk_id persona) (pk_version persona) (pk_sum persona)
    RENDERER_VERSION (sorted_strings dependency_digests) effective_config_digest
    (compute_binding_digest (role_id role) (role_sum role) (pk_id persona) (pk_version persona) (pk_sum persona)
       RENDERER_VERSION dependency_digests effective_config_digest)
    image_default_root component_root override_source.

(** The three materializers. *)
Definition materialize_image_default_binding (role : RoleSlot) (persona : PersonaPack) (image_default_root : string)
    : outcome BindingRecord :=
  if bool_decide (kind role = "resident")
  then Ok (_build role persona "image-default" [] EMPTY_CONFIG_DIGEST (Some image_default_root) None None)
  else Raise ValueError.

Definition materialize_override_binding (role : RoleSlot) (persona : PersonaPack) (override_source : option string)
    (dependency_digests : list string) (effective_config_digest : string) : outcome BindingRecord :=
  if bool_decide (kind role ∈ ["resident"; "specialist"])
  then Ok (_build role persona "override" dependency_digests effective_config_digest None None override_source)
  else Raise ValueError.

Definition materialize_component_default_binding (role : RoleSlot) (persona : PersonaPack)
    (component_root : string) (dependency_digests : list string) (effective_config_digest : string)
    : outcome BindingRecord :=
  if bool_decide (kind role = "specialist")
  then Ok (_build role persona "component-default" dependency_digests effective_config_digest
             None (Some component_root) None)
  else Raise ValueError.

(** [_raw_from_binding] *)
Definition _raw_from_binding (r : BindingRecord) : row :=
  [("api_version", JStr "casa.binding/v1"); ("stable_agent_id", JStr (stable_agent_id r));
   ("role_checksum", JStr (role_checksum r)); ("mode", JStr (mode r)); ("persona_id", JStr (persona_id r));
   ("persona_version", JStr (persona_version r)); ("persona_checksum", JStr (persona_checksum r));
   ("compiler_schema_version", JStr (compiler_schema_version r));
   ("dependency_digests", JList (JStr <$> dependency_digests r));
   ("effective_config_digest", JStr (effective_config_digest r)); ("binding_digest", JStr (binding_digest r));
   ("image_default_root", json_of_opt_str (image_default_root r));
   ("component_root", json_of_opt_str (component_root r));
   ("override_source", json_of_opt_str (override_source r))].

(** The digest that the other fields of a record have. *)
Definition digest_of (r : BindingRecord) : string :=
  compute_binding_digest (stable_agent_id r) (role_checksum r) (persona_id r) (persona_version r)
    (persona_checksum r) (compiler_schema_version r) (dependency_digests r) (effective_config_digest r).

Definition binding_of (d : row) : BindingRecord :=
  mkBinding (str_field d "stable_agent_id") (str_field d "role_checksum") (str_field d "mode")
    (str_field d "persona_id") (str_field d "persona_version") (str_field d "persona_checksum")
    (str_field d "compiler_schema_version") (strs_field d "dependency_digests")
    (str_field d "effective_config_digest") (str_field d "binding_digest")
    (opt_field d "image_default_root") (opt_field d "component_root") (opt_field d "override_source").

(** [verify_binding_record] *)
Definition verify_binding_record (raw : json) : outcome BindingRecord :=
  match raw with
  | JObj d =>
    if negb (binding_schema raw) then Raise ValueError
    else
      let record := binding_of d in
      if bool_decide (binding_digest record = digest_of record) then Ok record else Raise ValueError
  | _ => Raise ValueError
  end.

(** [load_binding] *)
Definition load_binding (p : path) : FsM BindingRecord :=
  let* raw := read_yaml p in lift (verify_binding_record raw).

(** [path.with_suffix(path.suffix + s)] *)
Definition add_suffix (p : path) (s : string) : path := parent p ++ [default "" (last p) +:+ s].

(** The shared writer of bindings, tuples and sidecars: a temporary file beside the
    target, not synced, moved over it. *)
Definition replace_text (p : path) (c : content) : FsM unit :=
  unseen ;;;
  write_text (add_suffix p ".tmp") c ;;;
  unseen ;;;
  replace (add_suffix p ".tmp") p.

(** [atomic_write_binding] *)
Definition atomic_write_binding (p : path) (r : BindingRecord) : FsM unit :=
  replace_text p (Yaml (JObj (_raw_from_binding r))).

(** [verify_instance_tuple], of a row that the schema accepted. *)
Definition verify_instance_tuple (d : row) : outcome InstanceTuple :=
  let* b := verify_binding_record (obj_get d "binding") in
  let digest := str_field d "config_digest" in
  if negb (bool_decide (digest = effective_config_digest b)) then Raise ValueError
  else Ok (mkTuple (Some (str_field d "root")) b
             match obj_get d "config_snapshot" with JObj c => c | _ => [] end digest).

(** [_raw_from_tuple] *)
Definition _raw_from_tuple (t : InstanceTuple) : row :=
  [("api_version", JStr "casa.instance-tuple/v1"); ("root", json_of_opt_str (root t));
   ("binding", JObj (_raw_from_binding (binding t))); ("config_snapshot", JObj (config_snapshot t));
   ("config_digest", JStr (config_digest t))].

Definition tuple_of (raw : json) : outcome InstanceTuple :=
  match raw with
  | JObj d => if tuple_schema raw then verify_instance_tuple d else Raise ValidationError
  | _ => Raise ValidationError
  end.

(** [load_instance_tuple] *)
Definition load_instance_tuple (p : path) : FsM (option InstanceTuple) :=
  let* s := get in
  if negb (is_file p s) then mret None
  else
    let* raw := read_yaml p in
    let* t := lift (tuple_of raw) in
    mret (Some t).

(** [atomic_write_instance_tuple] *)
Definition atomic_write_instance_tuple (p : path) (t : InstanceTuple) : FsM unit :=
  replace_text p (Yaml (JObj (_raw_from_tuple t))).

(** ** [InstanceDir] *)

Section dir.
Context (dir : path).

Definition active_path : path := dir ++ ["active.yaml"].
Definition desired_path : path := dir ++ ["desired.yaml"].
Definition prior_path : path := dir ++ ["active.prior.yaml"].
Definition pending_path : path := dir ++ ["active.yaml.rollback-tmp"].
Definition error_path : path := dir ++ ["desired.error.yaml"].

(** [InstanceDir.active], [InstanceDir.desired], [InstanceDir.stage_desired] *)
Definition active : FsM (option InstanceTuple) := load_instance_tuple active_path.
Definition desired : FsM (option InstanceTuple) := load_instance_tuple desired_path.
Definition stage_desired (t : InstanceTuple) : FsM unit := atomic_write_instance_tuple desired_path t.

(** [InstanceDir._copy_to_temp], of the active file. *)
Definition _copy_to_temp : FsM unit :=
  let* c := read active_path in write_text pending_path c ;;; unseen.

(** The pending copy, if it can be loaded. *)
Definition pending_tuple : FsM (option InstanceTuple) :=
  try_except (load_instance_tuple pending_path)
    (λ e, match e with ValueError | OSError | YAMLError | ValidationError => Some (mret None) | _ => None end).

(** The branch of a commit whose candidate is active already. *)
Definition finish_commit (candidate : InstanceTuple) : FsM unit :=
  except_os
    (let* s := get in
     (if is_file pending_path s then
        let* p := pending_tuple in
        match p with
        | Some t => if tuple_eqb t candidate then unlink_if_there pending_path
                    else replace pending_path prior_path
        | None => unlink_if_there pending_path
        end
      else mret tt) ;;;
     unlink_if_there desired_path)
    (mret tt).

(** [InstanceDir.commit_desired_to_active] *)
Definition commit_desired_to_active : FsM InstanceTuple :=
  let* staged := load_instance_tuple desired_path in
  match staged with
  | None => raise ValueError
  | Some candidate =>
    let* current := load_instance_tuple active_path in
    if match current with Some a => tuple_eqb a candidate | None => false end then
      finish_commit candidate ;;; mret candidate
    else
      let* s := get in
      let copied := is_file active_path s in
      (if copied then _copy_to_temp else mret tt) ;;;
      on_failure (atomic_write_instance_tuple active_path candidate)
        (if copied then unlink_if_there pending_path else mret tt) ;;;
      (if copied then except_os (replace pending_path prior_path) (mret tt) else mret tt) ;;;
      except_os (unlink_if_there desired_path) (mret tt) ;;;
      mret candidate
  end.

(** [InstanceDir.discard_desired] *)
Definition discard_desired (reason : string) : FsM unit :=
  let* s := get in
  if negb (is_file desired_path s) then mret tt
  else
    let* raw := read_yaml desired_path in
    match json_or raw (JObj []) with
    | JObj payload =>
      write_text error_path (Yaml (JObj (dset payload "_error_reason" (JStr reason)))) ;;;
      unlink desired_path
    | _ => raise TypeError
    end.

(** ** The sidecar of owned plugins *)

Definition owned_plugins_desired_path : path := dir ++ ["owned-plugins.desired.yaml"].
Definition owned_plugins_path : path := dir ++ ["owned-plugins.yaml"].
Definition owned_plugins_prior_path : path := dir ++ ["owned-plugins.prior.yaml"].

(** [write_owned_plugins], [InstanceDir.stage_desired_owned_plugins] *)
Definition write_owned_plugins (p : path) (doc : json) : FsM unit := replace_text p (Yaml doc).
Definition stage_desired_owned_plugins (doc : json) : FsM unit :=
  write_owned_plugins owned_plugins_desired_path doc.

(** [InstanceDir.commit_owned_plugins_desired_to_active] *)
Definition commit_owned_plugins_desired_to_active : FsM unit :=
  let* s := get in
  if negb (is_file owned_plugins_desired_path s) then mret tt
  else if is_file owned_plugins_path s then
    let* d := read owned_plugins_desired_path in
    let* a := read owned_plugins_path in
    if bool_decide (text_of d = text_of a) then unlink owned_plugins_desired_path
    else
      let* a := read owned_plugins_path in
      write_text owned_plugins_prior_path a ;;;
      unseen ;;;
      replace owned_plugins_desired_path owned_plugins_path
  else replace owned_plugins_desired_path owned_plugins_path.
End dir.

Definition _ARTIFACT_ID_RE (s : string) : bool := ends (run lower_hex 64 64 s).

(** [_valid_owned_source] *)
Definition _valid_owned_source (source : json) : bool :=
  match source with
  | JObj d =>
    bool_decide (obj_get d "type" = JStr "github")
    && forallb (λ k, is_str (obj_get d k) str_true) ["repo"; "ref"; "revision"]
    && match default (JStr "") (dget d "subdir") with
       | JStr sub =>
         is_str (obj_get d "revision") REVISION_RE
         && match normalize_subdir sub with Ok _ => true | Raise _ => false end
       | _ => false
       end
  | _ => false
  end.

(** [read_owned_plugins] *)
Section text.
Context `{PyText}.

(** [_valid_owned_row] *)
Definition _valid_owned_row (v : json) : bool :=
  match v with
  | JObj d =>
    match obj_get d "name" with
    | JStr name =>
      OWNED_NAME_RE name && (String.length name <=? 72)%nat
      && _ARTIFACT_ID_RE (to_str (default (JStr "") (dget d "artifact_id")))
      && bool_decide (obj_get d "manifest_name" = JStr (partition_dot name).2)
      && any_text (default (JStr "") (dget d "version"))
      && _valid_owned_source (obj_get d "source")
    | _ => false
    end
  | _ => false
  end.

(** [_valid_owned_doc] *)
Definition _valid_owned_doc (v : json) : bool :=
  match v with
  | JObj d =>
    py_eq (obj_get d "schema_version") (JInt 1)
    && match obj_get d "component_source" with JObj _ => true | _ => false end
    && match obj_get d "plugins" with JList l => forallb _valid_owned_row l | _ => false end
  | _ => false
  end.

(** An unreadable or invalid sidecar raises [OwnedPluginsSidecarError], a
    [ValueError]. *)
Definition read_owned_plugins (p : path) : FsM (option json) :=
  let* s := get in
  if negb (is_file p s) then mret None
  else
    let* doc := try_except (read_yaml p)
      (λ e, match e with OSError | YAMLError => Some (raise ValueError) | _ => None end) in
    if _valid_owned_doc doc then mret (Some doc) else raise ValueError.
End text.

(** ** Personas that a role accepts *)

Definition IMAGE_DEFAULT_PERSONA_BY_SLOT : list (string * string) :=
  [("assistant", "casa/ellen@0.1.0"); ("butler", "casa/tina@0.1.0"); ("concierge", "casa/gary@0.1.0")].

(** [_semver_tuple] *)
Fixpoint split_dots (s seg : string) : list string :=
  match s with
  | EmptyString => [string_rev seg]
  | String c s' =>
    if char_in "." c then string_rev seg :: split_dots s' "" else split_dots s' (String c seg)
  end.
Definition _semver_tuple (value : string) : outcome (Z * Z * Z) :=
  match split_dots value "" with
  | [a; b; c] =>
    match py_int a, py_int b, py_int c with
    | Some a, Some b, Some c => Ok (a, b, c)
    | _, _, _ => Raise ValueError
    end
  | _ => Raise ValueError
  end.

Definition semver_le (a b : Z * Z * Z) : bool :=
  let '(a1, a2, a3) := a in let '(b1, b2, b3) := b in
  (a1 <? b1) || ((a1 =? b1) && ((a2 <? b2) || ((a2 =? b2) && (a3 <=? b3)))).

(** [\d+\.\d+\.\d+], and what is left. *)
Definition version_prefix (s : string) : option (string * string) :=
  let '(a, r) := span (λ c, digit c || char_in "." c) s in
  match split_dots a "" with
  | [x; y; z] => if str_true x && str_true y && str_true z then Some (a, r) else None
  | _ => None
  end.

Fixpoint skip_space (s : string) : string :=
  match s with String c s' => if py_space c then skip_space s' else s | EmptyString => "" end.

(** [_RANGE_RE.match]: the namespace, the slug pattern and the two bounds. *)
Definition _RANGE_RE (s : string) : option (string * string * string * string) :=
  let '(ns, r) := span (λ c, slug_char c || char_in "." c) s in
  match namespace_part s, after_prefix "/" r with
  | Some _, Some r =>
    match r with
    | String c r' =>
      if lower_alnum c || char_in "*" c then
        let '(sl, r'') := span slug_char r' in
        match after_prefix "@>=" r'' ≫= version_prefix with
        | Some (low, r3) =>
          match after_prefix "<" (skip_space r3) ≫= version_prefix with
          | Some (high, r4) => if at_end r4 then Some (ns, String c sl, low, high) else None
          | None => None
          end
        | None => None
        end
      else None
    | EmptyString => None
    end
  | _, _ => None
  end.

(** [pattern.partition("/")] *)
Definition partition_slash (s : string) : string * string :=
  let '(a, b) := span (λ c, negb (char_in "/" c)) s in (a, default "" (after_prefix "/" b)).

(** One entry of the list: does it accept the persona? *)
Definition entry_accepts (persona : PersonaPack) (entry : json) : outcome bool :=
  match entry with
  | JStr e =>
    if bool_decide (e = pk_id persona +:+ "@" +:+ pk_version persona) then Ok true
    else
      match _RANGE_RE e with
      | None => Ok false
      | Some (ns, slug_pattern, low, high) =>
        let '(pns, pslug) := partition_slash (pk_id persona) in
        if negb (bool_decide (ns = pns))
           || (negb (bool_decide (slug_pattern = "*")) && negb (bool_decide (slug_pattern = pslug)))
        then Ok false
        else
          let* lo := _semver_tuple low in
          let* hi := _semver_tuple high in
          let* v := _semver_tuple (pk_version persona) in
          Ok (semver_le lo v && negb (semver_le hi v))
      end
  | _ => Raise TypeError
  end.

Fixpoint some_accepts (persona : PersonaPack) (l : list json) : outcome bool :=
  match l with
  | [] => Ok false
  | e :: rest => let* ok := entry_accepts persona e in if ok : bool then Ok true else some_accepts persona rest
  end.

(** [check_persona_requirements] *)
Definition check_persona_requirements (role : row) (persona : PersonaPack) : outcome unit :=
  match json_or (default (JObj []) (dget role "persona")) (JObj []) with
  | JObj block =>
    if bool_decide (obj_get block "policy" = JStr "forbidden") then Ok tt
    else
      let* l := json_iter_or_empty (obj_get block "compatibility") in
      let* ok := some_accepts persona l in
      if ok : bool then Ok tt else Raise ValueError
  | _ => Raise AttributeError
  end.

(** ** Reconciliation of a resident at boot *)

Section reconcile.
(** The persona loaders and the compile check of the caller. *)
Context (image_default_persona_loader override_persona_loader : string → outcome PersonaPack).
Context (candidate_validator : option (PersonaPack → BindingRecord → outcome unit)).
Context (role : RoleSlot) (dir : path).

(** The persona of the candidate, its binding and its root. *)
Definition candidate_for (source_binding : option BindingRecord)
    : outcome (PersonaPack * BindingRecord * option string) :=
  match source_binding with
  | Some b =>
    if bool_decide (mode b = "override") then
      let* persona := override_persona_loader (persona_id b +:+ "@" +:+ persona_version b) in
      let* _ := fail_when (negb (bool_decide (pk_sum persona = persona_checksum b))) ValueError in
      let* cand := materialize_override_binding role persona (override_source b) [] EMPTY_CONFIG_DIGEST in
      Ok (persona, cand, override_source cand)
    else
      let* default_ref := match dget IMAGE_DEFAULT_PERSONA_BY_SLOT (slot role) with
                          | Some r => Ok r | None => Raise KeyError end in
      let* persona := image_default_persona_loader default_ref in
      let* cand := materialize_image_default_binding role persona default_ref in
      Ok (persona, cand, image_default_root cand)
  | None =>
    let* default_ref := match dget IMAGE_DEFAULT_PERSONA_BY_SLOT (slot role) with
                        | Some r => Ok r | None => Raise KeyError end in
    let* persona := image_default_persona_loader default_ref in
    let* cand := materialize_image_default_binding role persona default_ref in
    Ok (persona, cand, image_default_root cand)
  end.

(** [str(exc)], the reason of a discard. *)
Context (str_exc : exn → string).

(** The persona that the role tracks: a staged selection wins, then an override that is
    active. *)
Definition source_of (act staged : option InstanceTuple) : option BindingRecord :=
  match staged, act with
  | Some t, _ => Some (binding t)
  | None, Some a => if bool_decide (mode (binding a) = "override") then Some (binding a) else None
  | None, None => None
  end.

(** The end of the guarded block: the candidate is checked, staged and committed. *)
Definition promote (commit : bool) (persona : PersonaPack) (cand : BindingRecord) (root : option string)
    : FsM InstanceTuple :=
  let candidate_tuple := mkTuple root cand [] (effective_config_digest cand) in
  lift (check_persona_requirements (normalized role) persona) ;;;
  lift (match candidate_validator with Some check => check persona cand | None => Ok tt end) ;;;
  if negb commit then mret candidate_tuple
  else stage_desired dir candidate_tuple ;;; commit_desired_to_active dir.

(** The guarded block. *)
Definition reconcile_candidate (commit : bool) (act staged : option InstanceTuple) : FsM InstanceTuple :=
  let* c := lift (candidate_for (source_of act staged)) in
  let '(persona, cand, root) := c in
  match act with
  | Some a =>
    if bool_decide (binding_digest (binding a) = binding_digest cand) then
      (if match staged with Some _ => commit | None => false end
       then discard_desired dir "no-op: candidate matches the already-active binding" else mret tt) ;;;
      mret a
    else promote commit persona cand root
  | None => promote commit persona cand root
  end.

(** [reconcile_resident_binding] *)
Definition reconcile_resident_binding (commit : bool) : FsM InstanceTuple :=
  let* act := active dir in
  let* staged := desired dir in
  try_except (reconcile_candidate commit act staged)
    (λ e, match e with
          | ValueError | OSError =>
            Some ((if commit then discard_desired dir (str_exc e) else mret tt) ;;;
                  match act with Some a => mret a | None => raise ValueError end)
          | _ => None
          end).
End reconcile.
End outside.
