(* ===== verification/BundleOps.v ===== *)
(** * Bundle operations: an uninstall

    [specialist_install.py] and the tool [specialist_uninstall] of [tools.py]: the
    journaled removal of a specialist with the plugins that it owns, the compensation
    when the runtime does not follow, and the end of the journal. *)

From S2P Require Import Prelude PyStr PyDict Json JsonOps Files PluginRegistry InstallConsent BundleJournal.
From stdpp Require Import gmap sorting.
#[local] Open Scope Z_scope.

Definition AGENTS_SPECIALISTS_DIR : path := ["config"; "agents"; "specialists"].

(** [specialist_component.is_valid_slug] *)
Definition is_valid_slug (slug : string) : bool := bool_decide (slug_upto 31 slug = Some "").
(** [validate_specialist_slug] *)
Definition validate_specialist_slug (slug : string) : FsM unit :=
  raise_when (negb (is_valid_slug slug)) SpecialistInstallError.

(** [resolve_material_content_dir]: the directory that a link of [slug] with text
    [target] points at, if it is one of its own.  The tree of files has no other
    links, so that the resolved path is the path. *)
Definition resolve_material_content_dir (slug target : string) : option path :=
  if bool_decide (((after_prefix "." target ≫= after_prefix slug) ≫= after_prefix ".material-")
                    ≫= run lower_hex 32 32 = Some "")
  then Some (AGENTS_SPECIALISTS_DIR ++ [target]) else None.

(** [shutil.rmtree(dir, ignore_errors=True)] *)
Definition inside (dir p : path) : bool := bool_decide (dir `prefix_of` p).
Definition files_under (dir : path) (s : Fs) : list path :=
  filter (λ p, inside dir p = true) (map_to_list (tree s)).*1.
Definition rmtree (dir : path) : FsM unit :=
  let* s := get in
  for_each (files_under dir s) (λ p, except_os (all_or_nothing (remove_file p)) (mret tt)).

(** [dict.fromkeys] *)
Definition first_seen (l : list string) : list string :=
  foldl (λ acc x, if bool_decide (x ∈ acc) then acc else acc ++ [x]) [] l.

(** What the operational directory is: a directory, or a link with a target. *)
Inductive op_dir := RealDir | Link (target : string).

Section outside.
Context `{Outside, PyText}.

(** [_uninstall_core] *)
Definition _uninstall_core (op : op_dir) (slug : string) : FsM unit :=
  validate_specialist_slug slug ;;;
  match op with
  | RealDir => rmtree (AGENTS_SPECIALISTS_DIR ++ [slug])
  | Link target =>
    unseen ;;;
    match resolve_material_content_dir slug target with
    | Some content_dir => rmtree content_dir
    | None => mret tt
    end
  end ;;;
  rmtree (slug_dir slug).

(** [_tuple_files_snapshot] *)
Fixpoint snapshot (dir : path) (names : list string) : FsM tuple_files :=
  match names with
  | [] => mret []
  | name :: rest =>
    let* s := get in
    let* text := (if is_file (dir ++ [name]) s
                  then let* c := read (dir ++ [name]) in mret (Some (text_of c)) else mret None) in
    let* out := snapshot dir rest in
    mret ((name, text) :: out)
  end.
Definition _tuple_files_snapshot (dir : path) : FsM tuple_files :=
  snapshot dir (sorted_strings TUPLE_FILENAMES).

Definition artifact_ids (entries : list row) : list string :=
  first_seen (omap (λ e, match obj_get e "artifact_id" with JStr a => Some a | _ => None end) entries).

(** [uninstall_specialist], with [bundle=True].  A registry that cannot be read has no
    owned entries. *)
Definition uninstall_specialist (op : op_dir) (slug : string) : FsM BundleTxn :=
  validate_specialist_slug slug ;;;
  let* reg := load_registry in
  let before_owned := owned_entries_for slug reg in
  let* before_tuple_files := _tuple_files_snapshot (slug_dir slug) in
  let* ack_records := retire_slug slug in
  let* journal := on_failure (begin "uninstall" slug before_owned before_tuple_files ack_records "" "" "")
                    (restore_records ack_records) in
  on_failure
    (let* (before_entries, _) := apply_owned_swap slug [] in
     _uninstall_core op slug ;;;
     mark_step journal "committed" ;;;
     mret (mkTxn journal slug before_entries before_tuple_files ack_records
             (artifact_ids before_entries) []))
    (rollback_disk (mkTxn journal slug before_owned before_tuple_files ack_records [] []) ;;;
     complete journal).

(** [_bundle_compensate].  [again] is how the compensating sequence ends. *)
Definition _bundle_compensate (again : outcome unit) (txn : BundleTxn) : FsM bool :=
  let* ok := except_any (rollback_disk txn ;;; mret true) (mret false) in
  if ok : bool then except_any (lift again) (mret tt) ;;; complete (journal_path txn) ;;; mret true
  else mret false.

(** What the tool tells its caller. *)
Inductive tool_result :=
  | Refused                          (** a typed refusal, before any change *)
  | SequenceFailed (compensated : bool)
  | Uninstalled.

(** [except Exception: k; raise] *)
Definition on_exception {A} (m : FsM A) (k : FsM unit) : FsM A :=
  try_except m (λ e, match e with PowerLoss | CancelledError => None | _ => Some (k ;;; raise e) end).

(** [specialist_uninstall].  [seq] is what [_bundle_reload_and_verify] makes of the
    running agents: it raises, or says whether they follow. *)
Definition specialist_uninstall (seq : outcome bool) (again : outcome unit) (op : op_dir) (slug : string)
    : FsM tool_result :=
  let* txn := try_except (let* txn := uninstall_specialist op slug in mret (Some txn))
    (λ e, match e with SpecialistInstallError => Some (mret None) | _ => None end) in
  match txn with
  | None => mret Refused
  | Some txn =>
    let* ok := on_exception (lift seq) (_bundle_compensate again txn ;;; mret tt) in
    if ok : bool then complete (journal_path txn) ;;; mret Uninstalled
    else let* compensated := _bundle_compensate again txn in mret (SequenceFailed compensated)
  end.
End outside.
