(* ===== verification/BundleScenario.v ===== *)
(** * A specialist to uninstall

    A concrete installation: the plugin registry with an entry of each of two
    specialists and one of its own, the files of the specialist, and one approval.  The
    witnesses of the properties evaluate the operations on it. *)

From S2P Require Import Prelude PyStr PyDict Json JsonOps Files PluginRegistry InstallConsent BundleJournal InstanceBinding BundleOps.
From stdpp Require Import gmap.
#[local] Open Scope Z_scope.

(** Texts that nobody parses, and constant digests and names. *)
Definition demo_hex : string := "0123456789abcdef0123456789abcdef".
Definition demo_sum : string := "sha256:" +:+ demo_hex +:+ demo_hex.
Definition demo_outside : Outside := {|
  json_loads := λ _, None;
  json_dumps := λ _, "{}";
  yaml_load := λ _, None;
  yaml_dump := λ _, "{}";
  mkstemp_name := λ _, "tmp";
  uuid4_hex := λ _, demo_hex;
  sha256_hex := λ _, "5e";
  checksum_json := λ _, demo_sum
|}.
Definition demo_text : PyText := {|
  repr_text := λ _, "?";
  float_of_text := λ _, None;
  int_of_text := λ _, None
|}.

Definition demo_source : json :=
  JObj [("type", JStr "github"); ("repo", JStr "casa/plugins"); ("ref", JStr "main");
        ("revision", JStr ("git:" +:+ demo_hex +:+ "01234567"))].
Definition demo_owned : row :=
  [("name", JStr "finance.budget"); ("manifest_name", JStr "budget"); ("owner", JStr "specialist:finance");
   ("targets", JList [JStr "specialist:finance"]); ("source", demo_source); ("version", JStr "1.0");
   ("artifact_id", JStr "5e")].
Definition demo_travel : row :=
  [("name", JStr "travel.maps"); ("manifest_name", JStr "maps"); ("owner", JStr "specialist:travel");
   ("targets", JList [JStr "specialist:travel"]); ("source", demo_source); ("version", JStr "1.2");
   ("artifact_id", JStr "5e")].
Definition demo_other : row :=
  [("name", JStr "weather"); ("targets", JList [JStr "resident:assistant"]); ("source", demo_source);
   ("version", JStr "2.1"); ("artifact_id", JStr "5e")].
Definition demo_registry : row :=
  [("schema_version", JInt 1); ("seeded_defaults", JList []); ("plugins", JList [JObj demo_owned; JObj demo_travel; JObj demo_other])].

Definition demo_ack : row :=
  [("component_id", JStr "casa/finance"); ("version", JStr "1.0"); ("component_checksum", JStr "ab");
   ("slug", JStr "finance"); ("ts", JInt 7)].

Definition demo_tree : gmap path content :=
  list_to_map [
    (REGISTRY_PATH, Doc (JObj demo_registry));
    (ACKS_PATH, Doc (sort_keys (ledger_doc [(demo_sum, demo_ack)])));
    (slug_dir "finance" ++ ["active.yaml"], Text "root: 1");
    (slug_dir "finance" ++ ["notes.txt"], Text "kept by nobody");
    (AGENTS_SPECIALISTS_DIR ++ ["finance"; "agent.yaml"], Text "name: finance");
    (slug_dir "travel" ++ ["active.yaml"], Text "root: 2")].

(** The system calls go well [n] times, and then the process dies. *)
Definition dies_after (n : nat) : list ending := repeat Goes n ++ [Dies 0].

Definition demo_state (endings : list ending) : Fs := mkFs demo_tree 0 endings.

(** Two generations of an instance, the second one staged. *)
Definition demo_binding : BindingRecord :=
  mkBinding "specialist:finance" demo_sum "component-default" "casa/ellen" "0.1.0" demo_sum RENDERER_VERSION []
    demo_sum demo_sum None (Some "casa/finance@1.0") None.
Definition demo_tuple (root : string) : InstanceTuple := mkTuple (Some root) demo_binding [] demo_sum.
Definition demo_file (root : string) : content := Yaml (JObj (_raw_from_tuple (demo_tuple root))).
Definition demo_instance : gmap path content :=
  list_to_map [
    (active_path (slug_dir "finance"), demo_file "casa/finance@1.0");
    (desired_path (slug_dir "finance"), demo_file "casa/finance@1.1");
    (prior_path (slug_dir "finance"), demo_file "casa/finance@0.9")].
