(* ===== verification/RegistryLaws.v ===== *)
(** * The plugin registry: laws

    When validation raises, what it keeps and what it reports, and that the order of
    the keys of an entry does not matter. *)

From S2P Require Import Prelude PyStr PyDict Json JsonOps Files FilesLaws PluginRegistry.
From stdpp Require Import gmap.
#[local] Open Scope Z_scope.

(** ** Keys of a dict *)

(** What two hashable values are compared by. *)
Definition hash_key (v : json) : option string + option Z :=
  match v with JStr s => inl (Some s) | JNull => inl None | _ => inr (num_of v) end.

Definition hashable (v : json) : Prop := hashed v = Ok v.

Lemma hashed_ok v w : hashed v = Ok w → w = v ∧ hashable v.
Proof. destruct v; cbn; try done; intros [= <-]; done. Qed.

Lemma py_eq_hashable a b : hashable a → hashable b → py_eq a b = bool_decide (hash_key a = hash_key b).
Proof.
  unfold hashable. intros Ha Hb.
  destruct a, b; try discriminate Ha; try discriminate Hb; cbn [py_eq hash_key num_of]; symmetry;
    try (by apply bool_decide_eq_true_2); try (by apply bool_decide_eq_false_2).
  all: match goal with
       | |- bool_decide _ = bool_decide (?x = ?y) => destruct (decide (x = y)) as [->|]
       | |- bool_decide _ = (?x =? ?y) => destruct (Z.eqb_spec x y) as [->|]
       end; [by rewrite !bool_decide_eq_true_2|rewrite ?bool_decide_eq_false_2; congruence].
Qed.

(** ** Groups *)

Section groups.
Context {K A H : Type} `{EqDecision H} (eqb : K → K → bool) (h : K → H) (good : K → Prop).
Context (eqb_good : ∀ a b, good a → good b → eqb a b = bool_decide (h a = h b)).

Definition all_good (d : list (K * list A)) : Prop := Forall (λ g, good g.1) d.
Definition bag (d : list (K * list A)) (k : K) : list A := mjoin (filter (λ g, h g.1 = h k) d).*2.

Lemma bag_cons g d k : bag (g :: d) k = (if decide (h g.1 = h k) then g.2 else []) ++ bag d k.
Proof. unfold bag. rewrite filter_cons. by destruct (decide (h g.1 = h k)). Qed.

Lemma group_add_good k x d : good k → all_good d → all_good (group_add eqb k x d).
Proof.
  intros Hk. induction d as [|[k' l] d IH]; cbn; [by repeat constructor|].
  intros [Hk' Hd]%Forall_cons. destruct (eqb k k'); constructor; auto. by apply IH.
Qed.

Lemma bag_add k1 x d k :
  good k1 → all_good d →
  bag (group_add eqb k1 x d) k ≡ₚ (if decide (h k1 = h k) then [x] else []) ++ bag d k.
Proof.
  intros Hk1. induction d as [|[k0 l0] d IH]; intros Hd; [cbn [group_add]; by rewrite bag_cons|].
  apply Forall_cons in Hd as [Hk0 Hd]. cbn [group_add]. rewrite eqb_good by done. case_bool_decide as E.
  - rewrite !bag_cons. cbn. rewrite E. destruct (decide (h k0 = h k)); [|reflexivity].
    rewrite <-!app_assoc, (Permutation_app_comm l0 _). cbn. by rewrite (Permutation_app_comm _ l0).
  - rewrite !bag_cons, (IH Hd). cbn. by rewrite !(assoc_L (++)), (Permutation_app_comm (if decide (h k0 = h k) then l0 else [])).
Qed.

Lemma keys_add k x d :
  good k → all_good d →
  h <$> (group_add eqb k x d).*1 =
  (h <$> d.*1) ++ (if decide (h k ∈ h <$> d.*1) then [] else [h k]).
Proof.
  intros Hk. induction d as [|[k0 l0] d IH]; intros Hd; [done|].
  apply Forall_cons in Hd as [Hk0 Hd]. cbn [group_add]. rewrite eqb_good by done. case_bool_decide as E; csimpl.
  - rewrite decide_True; [by rewrite app_nil_r|]. rewrite E. by left.
  - rewrite (IH Hd). f_equal. f_equal. apply decide_ext. rewrite elem_of_cons. naive_solver.
Qed.

Definition regular (d : list (K * list A)) : Prop := all_good d ∧ NoDup (h <$> d.*1).

Lemma regular_add k x d : good k → regular d → regular (group_add eqb k x d).
Proof.
  intros Hk [Hd Hn]. split; [by apply group_add_good|]. rewrite keys_add by done. case_decide as E.
  - by rewrite app_nil_r.
  - apply NoDup_app. split_and!; [done| |apply NoDup_singleton]. intros y Hy ->%list_elem_of_singleton. done.
Qed.

Lemma fold_spec (l : list (K * A)) d :
  Forall (λ p, good p.1) l → regular d →
  let d' := foldl (λ d p, group_add eqb p.1 p.2 d) d l in
  regular d' ∧ ∀ k, bag d' k ≡ₚ bag d k ++ (filter (λ p, h p.1 = h k) l).*2.
Proof.
  revert d. induction l as [|[k1 x] l IH]; intros d Hl Hd; [split; [done|]; intros k; cbn; by rewrite app_nil_r|].
  cbv zeta. cbn [foldl fst snd].
  apply Forall_cons in Hl as [Hk1 Hl]. destruct (IH (group_add eqb k1 x d) Hl) as [Hr Hb]; [by apply regular_add|].
  split; [exact Hr|]. intros k. etrans; [apply Hb|]. rewrite (bag_add k1 x d k) by (done || apply Hd). rewrite filter_cons. cbn.
  case_decide; csimpl; [|done]. by rewrite Permutation_middle.
Qed.

(** All the values whose keys agree are in one group. *)
Lemma grouped_together (l : list (K * A)) p :
  Forall (λ p, good p.1) l → p ∈ l →
  ∃ g, g ∈ grouped eqb l ∧ h g.1 = h p.1 ∧ g.2 ≡ₚ (filter (λ q, h q.1 = h p.1) l).*2.
Proof.
  intros Hl Hp. destruct (fold_spec l [] Hl) as [[_ Hn] Hb].
  { split; [constructor|apply NoDup_nil_2]. }
  specialize (Hb p.1). cbn in Hb. unfold grouped. set (d := foldl _ _ _) in *.
  assert (p.2 ∈ bag d p.1) as Hin.
  { rewrite Hb. apply list_elem_of_fmap. exists p. split; [done|]. by apply list_elem_of_filter. }
  unfold bag in Hin. apply list_elem_of_join in Hin as (vs & Hx & Hvs).
  apply list_elem_of_fmap in Hvs as (g & -> & [Hg Hgd]%list_elem_of_filter).
  exists g. split_and!; [done|done|]. rewrite <-Hb. unfold bag.
  enough (filter (λ g', h g'.1 = h p.1) d = [g]) as -> by (cbn; by rewrite app_nil_r).
  rewrite <-Hg. clear -Hn Hgd. induction d as [|g0 d IH]; [by apply not_elem_of_nil in Hgd|].
  csimpl in *. apply NoDup_cons in Hn as [Hn0 Hn]. rewrite filter_cons.
  apply elem_of_cons in Hgd as [->|Hgd].
  - rewrite decide_True by done. f_equal. apply filter_none. intros g' Hg' E.
    apply Hn0. rewrite <-E. by do 2 apply list_elem_of_fmap_2.
  - rewrite decide_False; [by apply IH|]. intros E. apply Hn0. rewrite E. by do 2 apply list_elem_of_fmap_2.
Qed.

(** Every group is made of values of the list, under their own keys. *)
Lemma grouped_from (l : list (K * A)) g x :
  Forall (λ p, good p.1) l → g ∈ grouped eqb l → x ∈ g.2 → ∃ k, (k, x) ∈ l ∧ h k = h g.1.
Proof.
  intros Hl Hg Hx. destruct (fold_spec l [] Hl) as [_ Hb]; [split; [constructor|apply NoDup_nil_2]|].
  specialize (Hb g.1). unfold grouped in Hg.
  assert (x ∈ (filter (λ q, h q.1 = h g.1) l).*2) as Hin.
  { rewrite <-Hb. apply list_elem_of_join. exists g.2. split; [done|].
    apply list_elem_of_fmap. exists g. split; [done|]. by apply list_elem_of_filter. }
  apply list_elem_of_fmap in Hin as ([k x'] & -> & [E Hin]%list_elem_of_filter). by exists k.
Qed.
End groups.

Section laws.
Context `{Outside, PyText}.

(** ** Which documents validation accepts *)

Definition well_formed (v : json) : Prop := _entry_error v = Ok None.

Lemma well_formed_obj v : well_formed v → ∃ e, v = JObj e.
Proof. destruct v; try done. by eexists. Qed.

#[export] Instance well_formed_dec v : Decision (well_formed v).
Proof.
  unfold well_formed. destruct (_entry_error v) as [[err|]|e]; [right; congruence|left; done|right; congruence].
Defined.

Lemma sift_spec l es iss :
  sift l = Ok (es, iss) →
  JObj <$> es = filter well_formed l ∧
  ∀ v, v ∈ l → ¬ well_formed v → invalid_entry v ∈ iss.
Proof.
  revert es iss. induction l as [|v l IH]; intros es iss; cbn [sift].
  { intros [= <- <-]. split; [done|]. by intros v ?%not_elem_of_nil. }
  rewrite outcome_bind_ok. intros (err & Hv & E). rewrite outcome_bind_ok in E.
  destruct E as ([es' iss'] & Hl & E). destruct (IH _ _ Hl) as [IH1 IH2].
  assert (err ≠ None → (es, iss) = (es', invalid_entry v :: iss')) as Hbad.
  { intros Hn. destruct err; [|done]. by injection E as <- <-. }
  destruct err as [err|].
  - injection (Hbad ltac:(done)) as -> ->. split.
    + rewrite filter_cons_False; [done|]. unfold well_formed. congruence.
    + intros w [->|Hw]%elem_of_cons Hn; [by left|right; by apply IH2].
  - destruct (well_formed_obj v) as [e ->]; [exact Hv|]. injection E as <- <-. split.
    + rewrite filter_cons_True by done. cbn. by rewrite IH1.
    + intros w [->|Hw]%elem_of_cons Hn; [done|by apply IH2].
Qed.

Lemma sift_total l : Forall (λ v, is_Ok (_entry_error v)) l → ∃ r, sift l = Ok r.
Proof.
  induction l as [|v l IH]; [by eexists|]. intros [Hv Hl]%Forall_cons. cbn [sift].
  destruct (_entry_error v) as [err|]; [|done]. cbn. destruct (IH Hl) as [[es iss] ->]. cbn.
  destruct err, v; by eexists.
Qed.

(** What an entry without an error has. *)
Lemma source_ok entry src name :
  source_error entry src name = Ok None →
  ∃ ts, obj_get entry "targets" = JList (JStr <$> ts) ∧ Forall (λ t, TARGET_RE t = true) ts.
Proof.
  unfold source_error. rewrite outcome_bind_ok. intros (ty & _ & E).
  repeat (match type of E with
          | (if ?b then _ else _) = _ => destruct b eqn:?; [discriminate E|]
          | match ?x with _ => _ end = _ => destruct x eqn:?; try discriminate E
          end).
  match goal with
  | Ht : negb (match obj_get entry "targets" with _ => _ end) = false |- _ =>
    apply negb_false_iff in Ht; destruct (obj_get entry "targets") as [| | | | |ts|]; try discriminate Ht;
    clear -Ht; rename Ht into HT
  end.
  revert HT. induction ts as [|t ts IH]; [by exists []|]. cbn.
  intros [Ht Hts]%andb_true_iff. destruct (IH Hts) as (ts' & [= ->] & Hf).
  destruct t; try discriminate Ht. exists (s :: ts'). split; [done|]. by constructor.
Qed.

Definition entry_name (v : json) : string :=
  match v with JObj e => to_str (obj_get e "name") | _ => "?" end.

(** The parts of a well-formed entry. *)
Record entry_parts (e : row) : Prop := mkParts {
  ep_name : ∃ s, obj_get e "name" = JStr s;
  ep_targets : ∃ ts, obj_get e "targets" = JList (JStr <$> ts) ∧ targets_of e = ts;
  ep_owned : is_owned e = true → ∃ m o, obj_get e "manifest_name" = JStr m ∧
    obj_get e "owner" = JStr o ∧ OWNER_RE o = true ∧ targets_of e = [o]
}.

Lemma targets_of_all e ts :
  obj_get e "targets" = JList (JStr <$> ts) → Forall (λ t, TARGET_RE t = true) ts → targets_of e = ts.
Proof.
  intros E Hts. unfold targets_of, _own_targets. rewrite E. clear E.
  induction Hts as [|t ts Ht _ IH]; [done|]. cbn. rewrite Ht. cbn. by f_equal.
Qed.

Lemma well_formed_parts e : well_formed (JObj e) → entry_parts e.
Proof.
  unfold well_formed, _entry_error. intros E.
  assert (∃ s, obj_get e "name" = JStr s ∧
    ∃ src, source_error e src s = Ok None) as (s & Hs & src & Hsrc).
  { destruct (obj_get e "owner"); destruct (obj_get e "name"); destruct (obj_get e "source");
      cbn in E; try discriminate E;
      repeat match type of E with (if ?b then _ else _) = _ => destruct b; try discriminate E end; eauto. }
  destruct (source_ok _ _ _ Hsrc) as (ts & Hts & Hf). pose proof (targets_of_all e ts Hts Hf) as Hto.
  split; [by exists s|by exists ts|]. unfold is_owned. intros Ho%negb_true_iff%bool_decide_eq_false.
  assert (owned_ok e (obj_get e "name") (obj_get e "owner") = true) as Hok.
  { destruct (obj_get e "owner"); [done|..]; destruct (owned_ok _ _ _); done. }
  rewrite Hs in Hok. cbn in Hok. destruct (obj_get e "owner") as [| | | |o| |]; try done.
  destruct (partition_dot s) as [a m].
  repeat (apply andb_true_iff in Hok as [Hok ?]).
  repeat match goal with Hb : bool_decide _ = true |- _ => apply bool_decide_eq_true in Hb end.
  exists m, o. split_and!; try done. rewrite Hto.
  assert (JStr <$> ts = [JStr o]) as Ets by congruence.
  destruct ts as [|t [|t' ts]]; [done| |done]. cbn in Ets. congruence.
Qed.

Lemma name_hashable e : entry_parts e → hashable (obj_get e "name").
Proof. intros [[s ->] _ _]. done. Qed.

(** ** Names *)

Lemma count_by_key es e :
  Forall entry_parts es → entry_parts e →
  name_count es e = length (filter (λ e', hash_key (obj_get e' "name") = hash_key (obj_get e "name")) es).
Proof.
  intros Hes He. unfold name_count. f_equal. apply filter_agree. intros e' He'.
  rewrite Forall_forall in Hes. rewrite py_eq_hashable by (apply name_hashable; auto).
  by rewrite bool_decide_eq_true.
Qed.

Lemma unique_names_NoDup es :
  Forall entry_parts es → NoDup ((λ e, hash_key (obj_get e "name")) <$> unique_names es).
Proof.
  intros Hes. apply NoDup_by_count. intros y.
  destruct (filter (λ e, hash_key (obj_get e "name") = y) (unique_names es)) as [|e l] eqn:E; [cbn; lia|].
  assert (e ∈ filter (λ e, hash_key (obj_get e "name") = y) (unique_names es)) as [Hy Hin]%list_elem_of_filter
    by (rewrite E; left).
  apply list_elem_of_filter in Hin as [Hc Hin]. rewrite <-E.
  rewrite count_by_key in Hc by (rewrite ?Forall_forall in *; auto).
  rewrite <-Hc, <-Hy. apply sublist_length, filter_sublist, sublist_filter.
Qed.

Lemma duplicate_reported es e :
  Forall entry_parts es → e ∈ es → e ∉ unique_names es → entry_issue "duplicate_name" None e ∈ duplicate_issues es.
Proof.
  intros Hes He Hn.
  assert (entry_parts e) as Hp by (rewrite Forall_forall in Hes; auto).
  destruct (grouped_together py_eq hash_key hashable py_eq_hashable
    ((λ e, (obj_get e "name", e)) <$> es) (obj_get e "name", e)) as (g & Hg & Hk & Hperm).
  { apply Forall_fmap. eapply Forall_impl; [exact Hes|]. intros e' He'. by apply name_hashable. }
  { apply list_elem_of_fmap. by exists e. }
  cbn in Hk, Hperm.
  assert (g.2 ≡ₚ filter (λ e', hash_key (obj_get e' "name") = hash_key (obj_get e "name")) es) as Hg2.
  { rewrite Hperm. clear. induction es as [|x es IH]; [done|]. csimpl. rewrite !filter_cons. cbn.
    case_decide; csimpl; by rewrite IH. }
  assert (name_count es e ≠ 1%nat) as Hc.
  { intros Hc. apply Hn. by apply list_elem_of_filter. }
  rewrite count_by_key, <-Hg2 in Hc by done.
  assert (e ∈ g.2) as Hin by (rewrite Hg2; by apply list_elem_of_filter).
  unfold duplicate_issues, by_name. apply list_elem_of_In, in_flat_map. exists g. split; [by apply list_elem_of_In|].
  destruct g.2 as [|x l]; [by apply not_elem_of_nil in Hin|]. cbn in Hc.
  rewrite (proj2 (Nat.ltb_lt _ _)) by (cbn; lia). apply list_elem_of_In. by apply list_elem_of_fmap_2.
Qed.

(** ** Runtime names *)

Lemma effective_hashable e : entry_parts e → is_owned e = true → hashable (effective_name e).
Proof.
  intros [[s Hs] _ Ho] Ow. destruct (Ho Ow) as (m & o & Hm & _). unfold effective_name, json_or.
  rewrite Hm, Hs. by destruct (truthy (JStr m)).
Qed.

(** The positions that are dropped: each is an owned entry with an issue of its own. *)
Definition accounted (all : list (nat * row)) (dropped : list nat) (iss : list PluginIssue) : Prop :=
  ∀ i, i ∈ dropped → ∃ e t, (i, e) ∈ all ∧ entry_issue "manifest_name_collision" (Some t) e ∈ iss.

Lemma drop_owned_spec t group dropped d iss :
  drop_owned t group dropped = (d, iss) →
  dropped ⊆ d ∧ (∀ i e, (i, e) ∈ group → is_owned e = true → i ∈ d)
  ∧ (∀ i, i ∈ d → i ∈ dropped ∨ ∃ e, (i, e) ∈ group ∧ entry_issue "manifest_name_collision" (Some t) e ∈ iss).
Proof.
  revert dropped d iss. induction group as [|[i e] group IH]; intros dropped d iss; cbn [drop_owned].
  { intros [= <- <-]. split_and!; [done|by intros ? ? ?%not_elem_of_nil|by left]. }
  destruct (is_owned e && negb (bool_decide (i ∈ dropped))) eqn:Hb.
  - destruct (drop_owned t group (dropped ++ [i])) as [d' iss'] eqn:E. intros [= <- <-].
    destruct (IH _ _ _ E) as (H1 & H2 & H3). split_and!.
    + intros j Hj. apply H1, elem_of_app. by left.
    + intros j e' [[= -> ->]|Hin]%elem_of_cons Ho; [|by eapply H2].
      apply H1, elem_of_app. right. by apply list_elem_of_singleton.
    + intros j Hj. destruct (H3 j Hj) as [[?| ->%list_elem_of_singleton]%elem_of_app|(e' & ? & ?)]; [by left|..].
      * right. exists e. split; by left.
      * right. exists e'. split; by right.
  - intros E. destruct (IH _ _ _ E) as (H1 & H2 & H3). split_and!; [done|..].
    + intros j e' [[= -> ->]|Hin]%elem_of_cons Ho; [|by eapply H2].
      rewrite Ho in Hb. apply negb_false_iff, bool_decide_eq_true in Hb. by apply H1.
    + intros j Hj. destruct (H3 j Hj) as [?|(e' & ? & ?)]; [by left|right]. exists e'. split; [by right|done].
Qed.

Lemma drop_groups_spec groups dropped d iss :
  drop_groups groups dropped = (d, iss) →
  dropped ⊆ d
  ∧ (∀ g i e, g ∈ groups → (1 < length g.2)%nat → (i, e) ∈ g.2 → is_owned e = true → i ∈ d)
  ∧ (∀ i, i ∈ d → i ∈ dropped ∨
       ∃ g e, g ∈ groups ∧ (i, e) ∈ g.2 ∧ entry_issue "manifest_name_collision" (Some g.1.1) e ∈ iss).
Proof.
  revert dropped d iss. induction groups as [|[k g] groups IH]; intros dropped d iss; cbn [drop_groups].
  { intros [= <- <-]. split_and!; [done|by intros ? ? ? ?%not_elem_of_nil|by left]. }
  destruct (length g <=? 1)%nat eqn:Hl.
  - apply Nat.leb_le in Hl. intros E. destruct (IH _ _ _ E) as (H1 & H2 & H3). split_and!; [done|..].
    + intros g' i e [->|Hg]%elem_of_cons; [cbn; lia|by apply H2].
    + intros i Hi. destruct (H3 i Hi) as [?|(g' & e & ? & ? & ?)]; [by left|right].
      exists g', e. split_and!; [by right|done|done].
  - destruct (drop_owned k.1 g dropped) as [d1 iss1] eqn:E1.
    destruct (drop_groups groups d1) as [d2 iss2] eqn:E2. intros [= <- <-].
    destruct (drop_owned_spec _ _ _ _ _ E1) as (H1 & H2 & H3).
    destruct (IH _ _ _ E2) as (J1 & J2 & J3). split_and!.
    + by etrans.
    + intros g' i e [->|Hg]%elem_of_cons Hlen Hin Ho; [by eapply J1, H2|by eapply J2].
    + intros i Hi. destruct (J3 i Hi) as [Hd|(g' & e & ? & ? & ?)].
      * destruct (H3 i Hd) as [?|(e & ? & ?)]; [by left|right]. exists (k, g), e.
        split_and!; [by left|done|]. apply elem_of_app. by left.
      * right. exists g', e. split_and!; [by right|done|]. apply elem_of_app. by right.
Qed.

Lemma map_outcome_elem {A B} (f : A → outcome B) l ys :
  map_outcome f l = Ok ys → ∀ y, y ∈ ys ↔ ∃ x, x ∈ l ∧ f x = Ok y.
Proof.
  revert ys. induction l as [|x l IH]; intros ys; cbn.
  { intros [= <-] y. split; [by intros ?%not_elem_of_nil|]. by intros (x & ?%not_elem_of_nil & _). }
  rewrite outcome_bind_ok. intros (y0 & Hy0 & E). rewrite outcome_bind_ok in E.
  destruct E as (ys' & Hys' & [= <-]). intros y. rewrite elem_of_cons, (IH _ Hys'). split.
  - intros [->|(x' & ? & ?)]; [exists x; by split; [left|]|exists x'; by split; [right|]].
  - intros (x' & [->|?]%elem_of_cons & ?); [left; congruence|right; eauto].
Qed.

Lemma map_outcome_in {A B} (f : A → outcome B) l ys x :
  map_outcome f l = Ok ys → x ∈ l → ∃ y, f x = Ok y ∧ y ∈ ys.
Proof.
  revert ys. induction l as [|z l IH]; intros ys; [by intros _ ?%not_elem_of_nil|]. cbn.
  rewrite outcome_bind_ok. intros (y & Hy & E). rewrite outcome_bind_ok in E.
  destruct E as (ys' & Hys & [= <-]). intros [->|Hx]%elem_of_cons.
  - exists y. by split; [|left].
  - destruct (IH _ Hys Hx) as (y' & ? & ?). exists y'. by split; [|right].
Qed.

Definition rt_hash (k : string * json) : string * (option string + option Z) := (k.1, hash_key k.2).
Definition rt_good (k : string * json) : Prop := hashable k.2.
Lemma rt_eqb_good a b : rt_good a → rt_good b → rt_eqb a b = bool_decide (rt_hash a = rt_hash b).
Proof.
  intros Ha Hb. unfold rt_eqb, rt_hash. rewrite (py_eq_hashable a.2 b.2 Ha Hb).
  destruct a as [a1 a2], b as [b1 b2]. cbn. repeat case_bool_decide; try done; exfalso; naive_solver congruence.
Qed.

Lemma elem_of_numbered (l : list row) i e : (i, e) ∈ imap (λ i e, (i, e)) l ↔ l !! i = Some e.
Proof. rewrite elem_of_lookup_imap. split; [by intros (j & x & [= -> ->] & ?)|]. intros ?. by exists i, e. Qed.

Lemma numbered_snd {X} (l : list X) (f : nat → nat) : (imap (λ i e, (f i, e)) l).*2 = l.
Proof. revert f. induction l as [|x l IH]; intros f; [done|]. cbn. f_equal. apply (IH (f ∘ S)). Qed.

Lemma numbered_NoDup {X} (l : list X) : NoDup (imap (λ i e, (i, e)) l).*1.
Proof.
  assert (∀ i n, (imap (λ i e, (i, e)) l).*1 !! i = Some n → n = i) as Hi.
  { intros i n Hi. apply list_lookup_fmap_Some in Hi as (p & -> & Hp).
    apply list_lookup_imap_Some in Hp as (y & _ & ->). done. }
  apply NoDup_alt. intros i j n H1%Hi H2%Hi. congruence.
Qed.

(** The uniqueness pass on runtime names: it keeps a sublist, reports what it drops,
    and leaves no owned entry beside another of the same name for the same target. *)
Lemma unique_runtime_spec ordered kept issues :
  Forall entry_parts ordered → unique_runtime ordered = Ok (kept, issues) →
  sublist kept ordered
  ∧ (∀ i j e e' t, kept !! i = Some e → kept !! j = Some e' → i ≠ j → t ∈ targets_of e → t ∈ targets_of e' →
       hash_key (effective_name e) = hash_key (effective_name e') → is_owned e = false)
  ∧ (∀ e, e ∈ ordered → e ∈ kept ∨ ∃ t, entry_issue "manifest_name_collision" (Some t) e ∈ issues).
Proof.
  intros Hparts. unfold unique_runtime. set (numbered := imap (λ i e, (i, e)) ordered).
  rewrite outcome_bind_ok. intros (keys & Hkeys & E).
  destruct (drop_groups (grouped rt_eqb (concat keys)) []) as [dropped iss] eqn:Ed. injection E as <- <-.
  assert (∀ k ie, (k, ie) ∈ concat keys ↔ ie ∈ numbered ∧ k.1 ∈ targets_of ie.2 ∧
    k.2 = effective_name ie.2 ∧ rt_good k) as Hck.
  { intros k ie. rewrite list_elem_of_In, in_concat. split.
    - intros (ys & Hys & Hin). apply list_elem_of_In in Hys. apply list_elem_of_In in Hin.
      apply (map_outcome_elem _ _ _ Hkeys) in Hys as (ie' & Hie' & Hys).
      apply (map_outcome_elem _ _ _ Hys) in Hin as (t & Ht & Hk).
      rewrite outcome_bind_ok in Hk. destruct Hk as (eff & Heff & [= <- <-]).
      apply hashed_ok in Heff as [-> Hh]. done.
    - intros (Hie & Ht & Hk & Hg).
      destruct (map_outcome_in _ _ _ _ Hkeys Hie) as (ys & Hys & Hin).
      exists ys. rewrite <-!list_elem_of_In. split; [done|].
      apply (map_outcome_elem _ _ _ Hys). exists k.1. split; [done|].
      unfold rt_good in Hg. rewrite Hk in Hg. rewrite Hg. cbn. destruct k as [k1 k2]. cbn in *. congruence. }
  assert (Forall (λ p, rt_good p.1) (concat keys)) as Hgood.
  { apply Forall_forall. intros [k ie] Hin. apply Hck in Hin as (_ & _ & _ & Hg). exact Hg. }
  destruct (drop_groups_spec _ _ _ _ Ed) as (_ & Hd & Hrep).
  split_and!.
  - etrans; [apply fmap_sublist, sublist_filter|]. pose proof (numbered_snd ordered id) as Hs. cbn in Hs. subst numbered. by rewrite Hs.
  - intros i j e e' t Hi Hj Hij Ht Ht' Hh. destruct (is_owned e) eqn:Ho; [exfalso|done].
    assert (∀ i e, (snd <$> filter (λ ie, ie.1 ∉ dropped) numbered) !! i = Some e →
      ∃ n, (filter (λ ie, ie.1 ∉ dropped) numbered) !! i = Some (n, e)) as Hpos.
    { intros i0 e0 E0. apply list_lookup_fmap_Some in E0 as ([n e1] & -> & ?). by exists n. }
    destruct (Hpos _ _ Hi) as [n Hn], (Hpos _ _ Hj) as [n' Hn'].
    assert (n ≠ n') as Hnn.
    { intros ->. apply Hij. assert (NoDup (filter (λ ie, ie.1 ∉ dropped) numbered).*1) as Hnd.
      { eapply sublist_NoDup; [|apply fmap_sublist, sublist_filter]. apply numbered_NoDup. }
      eapply NoDup_lookup; [exact Hnd|by rewrite list_lookup_fmap, Hn|by rewrite list_lookup_fmap, Hn']. }
    apply list_elem_of_lookup_2, list_elem_of_filter in Hn as [Hnd Hin].
    apply list_elem_of_lookup_2, list_elem_of_filter in Hn' as [Hnd' Hin'].
    assert (entry_parts e) as Hp.
    { apply elem_of_numbered, list_elem_of_lookup_2 in Hin. rewrite Forall_forall in Hparts. auto. }
    pose proof (effective_hashable e Hp Ho) as Heff.
    assert (((t, effective_name e), (n, e)) ∈ concat keys) as Hk by by apply Hck.
    assert (hashable (effective_name e')) as Heff'.
    { unfold hashable in *. destruct (effective_name e'), (effective_name e); try done;
        destruct (hash_key _) eqn:Ehk in Hh; cbn in *; congruence. }
    assert (((t, effective_name e'), (n', e')) ∈ concat keys) as Hk' by by apply Hck.
    destruct (grouped_together rt_eqb rt_hash rt_good rt_eqb_good (concat keys) _ Hgood Hk) as (g & Hg & _ & Hperm).
    cbn in Hperm.
    assert ((n, e) ∈ g.2 ∧ (n', e') ∈ g.2) as [G1 G2].
    { assert (∀ k ie, (k, ie) ∈ concat keys → rt_hash k = rt_hash (t, effective_name e) → ie ∈ g.2) as Hg2.
      { intros k ie Hin0 Hk0. rewrite Hperm. apply list_elem_of_fmap. exists (k, ie). split; [done|].
        by apply list_elem_of_filter. }
      split; [by eapply Hg2|]. eapply Hg2; [exact Hk'|]. unfold rt_hash. cbn. by rewrite Hh. }
    apply Hnd, (Hd g n e); [done| |done|done].
    destruct g.2 as [|x [|y l]]; [by apply not_elem_of_nil in G1| |cbn; lia].
    apply list_elem_of_singleton in G1, G2. congruence.
  - intros e (i & Hi)%list_elem_of_lookup. destruct (decide (i ∈ dropped)) as [Hdr|Hdr].
    + right. destruct (Hrep i Hdr) as [?%not_elem_of_nil|(g & e' & Hg & Hin & Hiss)]; [done|].
      exists g.1.1. destruct (grouped_from rt_eqb rt_hash rt_good rt_eqb_good _ g _ Hgood Hg Hin) as (k & Hk & _).
      apply Hck in Hk as [Hnum _]. apply elem_of_numbered in Hnum. congruence.
    + left. apply list_elem_of_fmap. exists (i, e). split; [done|]. apply list_elem_of_filter.
      split; [done|]. by apply elem_of_numbered.
Qed.

(** ** The document *)

Record header_ok (d : row) (plugins : list json) : Prop := {
  ho_version : py_eq (obj_get d "schema_version") (JInt SCHEMA_VERSION) = true;
  ho_seeded : seeded_ok (obj_get d "seeded_defaults") = true;
  ho_plugins : obj_get d "plugins" = JList plugins
}.

Lemma dget_setdefault d k v k' : k' ≠ k → dget (setdefault d k v) k' = dget d k'.
Proof. intros Hk. unfold setdefault. destruct (dget d k); [done|]. by apply dget_dset_ne. Qed.

Lemma obj_get_setdefault d k v k' : k' ≠ k → obj_get (setdefault d k v) k' = obj_get d k'.
Proof. intros Hk. unfold obj_get. by rewrite dget_setdefault. Qed.

Lemma obj_get_dset d k v k' : obj_get (dset d k v) k' = if decide (k' = k) then v else obj_get d k'.
Proof. unfold obj_get. rewrite dget_dset. by case_decide. Qed.

Lemma setdefault_there d k v w : dget d k = Some w → setdefault d k v = d.
Proof. unfold setdefault. by intros ->. Qed.

(** What an accepted document is made of. *)
Lemma validate_inv raw doc es iss :
  _validate_doc raw = Ok (doc, (es, iss, true)) →
  ∃ d l es0 iss0 kept,
    raw = JObj d ∧ doc = JObj (setdefault d "seeded_defaults" (JList []))
    ∧ header_ok (setdefault d "seeded_defaults" (JList [])) l
    ∧ sift l = Ok (es0, iss0) ∧ unique_runtime (unique_names es0) = Ok (es, kept)
    ∧ iss = iss0 ++ duplicate_issues es0 ++ kept.
Proof.
  destruct raw as [| | | | | |d]; try done. cbn [_validate_doc].
  destruct (py_eq (obj_get d "schema_version") (JInt SCHEMA_VERSION)) eqn:Hv; cbn [negb]; [|done].
  set (d' := setdefault d _ _). destruct (seeded_ok (obj_get d' "seeded_defaults")) eqn:Hs; cbn [negb]; [|done].
  destruct (obj_get d' "plugins") as [| | | | |l|] eqn:Hp; try done.
  rewrite outcome_bind_ok. intros ([es0 iss0] & Hsift & E). rewrite outcome_bind_ok in E.
  destruct E as ([kept coll] & Hu & [= <- <- <-]).
  exists d, l, es0, iss0, coll. split_and!; try done. split; [|done|done].
  subst d'. by rewrite obj_get_setdefault.
Qed.

Lemma validate_header d l :
  header_ok d l →
  _validate_doc (JObj d) =
    (let* (es, issues) := sift l in
     let* (kept, collisions) := unique_runtime (unique_names es) in
     Ok (JObj d, (kept, issues ++ duplicate_issues es ++ collisions, true))).
Proof.
  intros [Hv Hs Hp]. assert (setdefault d "seeded_defaults" (JList []) = d) as Hsd.
  { unfold obj_get in Hs. destruct (dget d "seeded_defaults") eqn:E; [|done].
    by eapply setdefault_there. }
  cbn [_validate_doc]. rewrite Hv, Hsd, Hs, Hp. done.
Qed.

(** An entry on which validation does not raise, wherever it stands. *)
Definition tame (v : json) : Prop :=
  is_Ok (_entry_error v) ∧ ∀ e, v = JObj e → hashable (effective_name e).

Lemma runtime_keys_total ie : hashable (effective_name ie.2) → ∃ ks, runtime_keys ie = Ok ks.
Proof.
  intros Hh. unfold runtime_keys. rewrite Hh. eexists. by apply map_outcome_spec with (g := λ t, ((t, effective_name ie.2), ie)).
Qed.

Lemma map_outcome_total {A B} (f : A → outcome B) l : (∀ x, x ∈ l → ∃ y, f x = Ok y) → ∃ ys, map_outcome f l = Ok ys.
Proof.
  induction l as [|x l IH]; intros Hf; [by eexists|]. cbn. destruct (Hf x ltac:(left)) as [y ->]. cbn.
  destruct IH as [ys ->]; [|by eexists]. intros z Hz. apply Hf. by right.
Qed.

Lemma validate_tame d l :
  header_ok d l → Forall tame l → ∃ es iss, _validate_doc (JObj d) = Ok (JObj d, (es, iss, true)).
Proof.
  intros Hd Hl. rewrite (validate_header d l Hd).
  destruct (sift_total l) as [[es iss] Hs].
  { eapply Forall_impl; [exact Hl|]. by intros v [? _]. }
  rewrite Hs. cbn. unfold unique_runtime.
  destruct (map_outcome_total runtime_keys (imap (λ i e, (i, e)) (unique_names es))) as [keys Hk].
  { intros [i e] Hin. apply runtime_keys_total. cbn. apply elem_of_numbered, list_elem_of_lookup_2 in Hin.
    apply list_elem_of_filter in Hin as [_ Hin]. destruct (sift_spec _ _ _ Hs) as [E _].
    assert (JObj e ∈ filter well_formed l) as Hf by (rewrite <-E; by apply list_elem_of_fmap_2).
    apply list_elem_of_filter in Hf as [_ Hf]. rewrite Forall_forall in Hl. by apply (Hl _ Hf). }
  rewrite Hk. cbn. destruct (drop_groups _ _) as [dropped coll]. by do 2 eexists.
Qed.

(** ** The order of keys *)

Lemma truthy_sort v : truthy (sort_keys v) = truthy v.
Proof.
  destruct v as [| | | | |l|l]; try done; cbn; f_equal; apply bool_decide_ext.
  - by destruct l.
  - destruct l as [|[k v] l]; [done|]. split; [|done]. cbn. intros E.
    pose proof (insert_key_perm k (sort_keys v) (sort_pairs l)) as Hp. unfold sort_pairs in Hp. rewrite E in Hp.
    by apply Permutation_nil_cons in Hp.
Qed.

Lemma hashable_sort v : hashable v → sort_keys v = v.
Proof. by destruct v. Qed.

Lemma hashed_sort v : hashable (sort_keys v) ↔ hashable v.
Proof. by destruct v. Qed.

Lemma effective_sort e : effective_name (sorted_row e) = sort_keys (effective_name e).
Proof.
  unfold effective_name, json_or. rewrite !obj_get_sorted_row, truthy_sort.
  by destruct (truthy _).
Qed.

Lemma entry_owner_sort e : entry_owner (sorted_row e) = entry_owner e.
Proof. unfold entry_owner. rewrite obj_get_sorted_row. by destruct (obj_get e "owner"). Qed.

Lemma owned_by_sort slug v : owned_by slug (sort_keys v) = owned_by slug v.
Proof. destruct v as [| | | | | |e]; try done. rewrite sort_keys_obj. unfold owned_by. by rewrite entry_owner_sort. Qed.

Lemma sort_keys_is_str v P : is_str (sort_keys v) P = is_str v P.
Proof. by destruct v. Qed.

Lemma sort_str_eq v s : bool_decide (sort_keys v = JStr s) = bool_decide (v = JStr s).
Proof. apply bool_decide_ext, sort_keys_str. Qed.

Lemma sort_list_eq v o : bool_decide (sort_keys v = JList [JStr o]) = bool_decide (v = JList [JStr o]).
Proof.
  apply bool_decide_ext. destruct v as [| | | | |[|x [|y l]]|]; cbn; try (split; intros E; discriminate E).
  split; intros E; injection E as E.
  - apply (proj1 (sort_keys_str _ _)) in E. by rewrite E.
  - by rewrite E.
Qed.

Lemma owned_ok_sort e name owner :
  owned_ok (sorted_row e) (sort_keys name) (sort_keys owner) = owned_ok e name owner.
Proof.
  destruct name; try done. destruct owner; try done. cbn [sort_keys]. unfold owned_ok.
  destruct (partition_dot s) as [a m].
  by rewrite !obj_get_sorted_row, sort_str_eq, sort_list_eq.
Qed.

Lemma source_error_sort e src name :
  source_error (sorted_row e) (sorted_row src) name = source_error e src name.
Proof.
  unfold source_error. rewrite !obj_get_sorted_row, dget_sorted_row.
  destruct (obj_get src "type"); try done. cbn [sort_keys hashed mbind outcome_bind].
  destruct (negb _); [done|]. destruct (obj_get src "repo"); try done. cbn [sort_keys].
  destruct (negb _); [done|]. rewrite sort_keys_is_str. destruct (negb _); [done|].
  destruct (obj_get src "revision"); try done. cbn [sort_keys]. destruct (negb _); [done|].
  destruct (dget src "subdir") as [sub|]; cbn [fmap option_fmap option_map default from_option id].
  1: destruct sub; try done; cbn [sort_keys].
  all: destruct (normalize_subdir _); [|done]; rewrite sort_keys_is_str; destruct (negb (is_str _ _)); [done|].
  all: assert (∀ ts, forallb (λ t, is_str t TARGET_RE) (map sort_keys ts) = forallb (λ t, is_str t TARGET_RE) ts) as Hts
    by (intros ts; induction ts as [|t ts IH]; [done|]; cbn; by rewrite sort_keys_is_str, IH).
  all: destruct (obj_get e "targets"); try done; cbn [sort_keys]; rewrite ?Hts; destruct (negb _); [done|].
  all: destruct (compute_artifact_id _ _ _ _); [|done]; cbn [mbind outcome_bind]; by rewrite sort_str_eq.
Qed.

Lemma entry_error_sort v : _entry_error (sort_keys v) = _entry_error v.
Proof.
  destruct v as [| | | | | |e]; try done. rewrite sort_keys_obj. unfold _entry_error.
  rewrite !obj_get_sorted_row, owned_ok_sort, sort_keys_is_str.
  assert ((match sort_keys (obj_get e "source"), sort_keys (obj_get e "name") with
           | JObj src, JStr name => source_error (sorted_row e) src name
           | _, _ => Ok (Some "bad_source") end)
          = match obj_get e "source", obj_get e "name" with
            | JObj src, JStr name => source_error e src name
            | _, _ => Ok (Some "bad_source") end) as ->.
  { destruct (obj_get e "source") as [| | | | | |src]; try done. rewrite sort_keys_obj.
    destruct (obj_get e "name"); try done. apply source_error_sort. }
  by destruct (obj_get e "owner").
Qed.

Lemma tame_sort v : tame v → tame (sort_keys v).
Proof.
  intros [Hv Hh]. split; [by rewrite entry_error_sort|].
  intros e E. destruct v as [| | | | | |e']; try done. rewrite sort_keys_obj in E. injection E as <-.
  rewrite effective_sort. apply hashed_sort. by apply Hh.
Qed.

Lemma well_formed_tame e : well_formed (JObj e) → is_owned e = true → tame (JObj e).
Proof.
  intros Hw Ho. split; [by rewrite Hw|]. intros e' [= <-]. apply effective_hashable; [|done].
  by apply well_formed_parts.
Qed.
End laws.
