(* ===== verification/RegistryProperties.v ===== *)
(** * What the plugin registry guarantees

    Properties of [PluginRegistry]: what validation lets through and what it reports;
    and the swap of the entries of one owner, which publishes well-formed entries or
    changes nothing. *)

From S2P Require Import Prelude PyStr PyDict Json JsonOps Files FilesLaws PluginRegistry RegistryLaws InstallConsent BundleJournal BundleOps BundleScenario.
From stdpp Require Import gmap.
#[local] Open Scope Z_scope.

Section world.
Context `{Outside, PyText} (quiet : bool).
Abbreviation agrees := (agrees quiet).

(** ** Loading *)

(** What a loader that can read the file returns. *)
Definition registry_of (T : Tree) : outcome RegistryData :=
  match T !! REGISTRY_PATH with
  | None => Ok (mkData empty_registry [] [] true)
  | Some c =>
    match parsed c with
    | None => Ok (mkData [] [] [] false)
    | Some v => let* r := _validate_doc v in Ok (data_of r)
    end
  end.

Lemma wp_load_registry T s :
  agrees T s →
  wp load_registry
    (λ d s', agrees T s' ∧ (registry_of T = Ok d ∨ quiet = false ∧ valid d = false))
    (λ e s', agrees T s' ∧ (registry_of T = Raise e ∨ quiet = false ∧ e = PowerLoss)) s.
Proof.
  intros HT. unfold load_registry, registry_of. apply wp_bind, wp_get. unfold is_file.
  rewrite (proj2 HT) by done. destruct (T !! REGISTRY_PATH) as [c|] eqn:Hc.
  2: { rewrite bool_decide_false by (by intros [? ?]). apply wp_ret. split; [done|by left]. }
  rewrite bool_decide_true by done. cbn [negb]. apply wp_bind, wp_try_except, wp_bind.
  unfold read_json. apply wp_bind. eapply wp_mono; [by eapply (wp_read quiet T s)|..].
  - intros c' s' [-> HT']. destruct (parsed c) as [v|].
    + apply wp_ret, wp_ret, wp_bind, wp_lift.
      * intros r ->. cbn. split; [done|by left].
      * intros e ->. cbn. split; [done|by left].
    + apply wp_raise, wp_ret, wp_ret. split; [done|by left].
  - intros e s' [[Hq [-> | ->]] HT'].
    + apply wp_ret, wp_ret. split; [done|by right].
    + split; [done|by right].
Qed.

Lemma wp_save_registry T s doc :
  agrees T s →
  wp (save_registry doc) (λ _, agrees (<[REGISTRY_PATH := Doc (JObj doc)]> T))
    (λ e s', quiet = false ∧ ((e = OSError ∨ e = PowerLoss) ∧ agrees T s'
                              ∨ e = PowerLoss ∧ agrees (<[REGISTRY_PATH := Doc (JObj doc)]> T) s')) s.
Proof.
  intros HT. apply wp_bind. eapply wp_mono; [by apply wp_unseen|..].
  - intros ? s' HT'. by apply wp_atomic_write.
  - intros e s' [[Hq He] HT']. split; [done|by left].
Qed.

(** ** Validation *)

(** What validation keeps and what it reports. *)
Lemma validation_spec raw doc es iss :
  _validate_doc raw = Ok (doc, (es, iss, true)) →
  ∃ d l, doc = JObj d ∧ header_ok d l ∧ raw = JObj (match raw with JObj d0 => d0 | _ => [] end)
    ∧ sublist (JObj <$> es) l
    ∧ Forall (λ e, well_formed (JObj e)) es
    ∧ NoDup ((λ e, hash_key (obj_get e "name")) <$> es)
    ∧ (∀ i j e e' t, es !! i = Some e → es !! j = Some e' → i ≠ j →
         t ∈ targets_of e → t ∈ targets_of e' →
         hash_key (effective_name e) = hash_key (effective_name e') → is_owned e = false)
    ∧ (∀ v, v ∈ l → (∃ e, v = JObj e ∧ e ∈ es) ∨ ∃ i, i ∈ iss ∧ is_name i = entry_name v).
Proof.
  intros (d & l & es0 & iss0 & coll & -> & -> & Hh & Hs & Hu & ->)%validate_inv.
  destruct (sift_spec _ _ _ Hs) as [Hes0 Hinv].
  assert (Forall (λ e, well_formed (JObj e)) es0) as Hwf.
  { apply Forall_forall. intros e He. assert (JObj e ∈ filter well_formed l) as [? _]%list_elem_of_filter; [|done].
    rewrite <-Hes0. by apply list_elem_of_fmap_2. }
  assert (Forall entry_parts es0) as Hp by (eapply Forall_impl; [exact Hwf|]; apply well_formed_parts).
  assert (sublist (unique_names es0) es0) as Hsub by apply sublist_filter.
  assert (Forall entry_parts (unique_names es0)) as Hp' by (eapply Forall_sublist; [exact Hsub|done]).
  destruct (unique_runtime_spec _ _ _ Hp' Hu) as (Hsub' & Hrt & Hrep).
  eexists _, l. split_and!; [done|done|done|..|done|].
  - etrans; [apply fmap_sublist; etrans; [exact Hsub'|exact Hsub]|]. rewrite Hes0. apply sublist_filter.
  - eapply Forall_sublist; [|exact Hwf]. etrans; [exact Hsub'|exact Hsub].
  - eapply sublist_NoDup; [exact (unique_names_NoDup es0 Hp)|]. apply fmap_sublist, Hsub'.
  - intros v Hv. destruct (decide (well_formed v)) as [Hw|Hw].
    2: { right. exists (invalid_entry v). split; [|by destruct v]. apply elem_of_app. left. by apply Hinv. }
    destruct (well_formed_obj v Hw) as [e ->].
    assert (e ∈ es0) as He.
    { assert (JObj e ∈ JObj <$> es0) as (e' & [= ->] & ?)%list_elem_of_fmap; [|done].
      rewrite Hes0. by apply list_elem_of_filter. }
    destruct (decide (e ∈ unique_names es0)) as [Hun|Hun].
    + destruct (Hrep e Hun) as [?|[t Ht]]; [left; by exists e|right].
      exists (entry_issue "manifest_name_collision" (Some t) e). split; [|done].
      rewrite !elem_of_app. by do 2 right.
    + right. exists (entry_issue "duplicate_name" None e). split; [|done].
      rewrite !elem_of_app. right. left. by apply duplicate_reported.
Qed.

(** C39: Validation is sound and accounts for everything.  Of an accepted document it keeps,
    in order, well-formed entries with distinct names, among which an owned entry never
    shares a target and a runtime name with another; and every other plugin of the
    document has an issue that names it. *)
Theorem validation_sound raw doc es iss :
  _validate_doc raw = Ok (doc, (es, iss, true)) →
  ∃ d l, doc = JObj d ∧ header_ok d l ∧ raw = JObj (match raw with JObj d0 => d0 | _ => [] end)
    ∧ sublist (JObj <$> es) l
    ∧ Forall (λ e, well_formed (JObj e)) es
    ∧ NoDup ((λ e, hash_key (obj_get e "name")) <$> es)
    ∧ (∀ i j e e' t, es !! i = Some e → es !! j = Some e' → i ≠ j →
         t ∈ targets_of e → t ∈ targets_of e' →
         hash_key (effective_name e) = hash_key (effective_name e') → is_owned e = false)
    ∧ (∀ v, v ∈ l → (∃ e, v = JObj e ∧ e ∈ es) ∨ ∃ i, i ∈ iss ∧ is_name i = entry_name v).
Proof. apply validation_spec. Qed.

Lemma validate_again raw doc es iss :
  _validate_doc raw = Ok (doc, (es, iss, true)) → _validate_doc doc = Ok (doc, (es, iss, true)).
Proof.
  intros (d & l & es0 & iss0 & coll & -> & -> & Hh & Hs & Hu & ->)%validate_inv.
  rewrite (validate_header _ l Hh), Hs. cbn. by rewrite Hu.
Qed.

(** ** The swap of an owner's entries *)

Lemma plugins_of_dset d l : plugins_of (dset d "plugins" (JList l)) = l.
Proof. unfold plugins_of. by rewrite obj_get_dset. Qed.

Lemma plugins_of_other d k v : k ≠ "plugins" → plugins_of (dset d k v) = plugins_of d.
Proof. intros Hk. unfold plugins_of. by rewrite obj_get_dset, decide_False. Qed.

Lemma plugins_of_setdefault d k v : k ≠ "plugins" → plugins_of (setdefault d k v) = plugins_of d.
Proof. intros Hk. unfold plugins_of. by rewrite obj_get_setdefault. Qed.

Lemma swapped_plugins slug new d :
  plugins_of (swapped slug new d) = not_owned slug (plugins_of d) ++ (JObj <$> new).
Proof.
  unfold swapped. rewrite !plugins_of_setdefault by done. unfold clear_quarantine.
  destruct (obj_get _ "quarantined_bundles"); try apply plugins_of_dset.
  destruct (existsb _ _); [|apply plugins_of_dset]. rewrite plugins_of_other by done. apply plugins_of_dset.
Qed.

Lemma swapped_unquarantined slug new d q :
  obj_get (swapped slug new d) "quarantined_bundles" = JList q → JStr slug ∉ q.
Proof.
  unfold swapped. rewrite !obj_get_setdefault by done. set (d' := dset d "plugins" _).
  assert (obj_get d' "quarantined_bundles" = obj_get d "quarantined_bundles") as E' by (subst d'; by rewrite obj_get_dset).
  clearbody d'. unfold clear_quarantine. rewrite E'.
  destruct (obj_get d "quarantined_bundles") as [| | | | |l|] eqn:E;
    try (rewrite E'; done).
  destruct (existsb (py_eq (JStr slug)) l) eqn:Hx.
  - rewrite obj_get_dset. cbn. intros [= <-] [Hf _]%list_elem_of_filter. cbn in Hf. by rewrite bool_decide_true in Hf.
  - rewrite E'. intros [= <-] Hin. apply not_true_iff_false in Hx. apply Hx. apply existsb_exists.
    exists (JStr slug). split; [by apply list_elem_of_In|]. cbn. by apply bool_decide_eq_true.
Qed.

Lemma swap_accepts new raw doc es iss l :
  _validate_doc raw = Ok (doc, (es, iss, true)) → doc = JObj l → (JObj <$> new) ⊆ plugins_of l →
  swap_refused new (data_of (doc, (es, iss, true))) = Ok false → ∀ e, e ∈ new → e ∈ es.
Proof.
  intros (d & pl & Hd & [_ _ Hpl] & _ & _ & Hwf & _ & _ & Hall)%validation_spec -> Hnew Hsw e He.
  injection Hd as ->. unfold plugins_of in Hnew. rewrite Hpl in Hnew.
  destruct (Hall (JObj e)) as [(e' & [= ->] & ?)|(i & Hi & Hname)]; [|done|].
  { apply Hnew. by apply list_elem_of_fmap_2. }
  exfalso. unfold swap_refused in Hsw. rewrite outcome_bind_ok in Hsw. destruct Hsw as (names & Hnames & [= E]).
  assert (∃ n, n ∈ names ∧ hashed (obj_get e "name") = Ok n) as (n & Hn & Hh).
  { destruct (map_outcome_in _ _ _ _ Hnames He) as (n & ? & ?). by exists n. }
  apply hashed_ok in Hh as [-> Hh]. apply orb_false_iff in E as [E _]. apply orb_false_iff in E as [E1 E2].
  assert (∃ s, obj_get e "name" = JStr s) as [s Hs].
  { assert (negb (existsb (py_eq (obj_get e "name")) ((λ e, obj_get e "name") <$> es)) = false) as Hsv.
    { apply not_true_iff_false. intros Ht. apply not_true_iff_false in E2. apply E2, existsb_exists.
      eexists. split; [by apply list_elem_of_In|exact Ht]. }
    apply negb_false_iff, existsb_exists in Hsv as (n' & Hin & Heq).
    apply list_elem_of_In, list_elem_of_fmap in Hin as (e' & -> & He').
    rewrite Forall_forall in Hwf. destruct (well_formed_parts e' (Hwf _ He')) as [[s Hs] _ _].
    rewrite Hs, py_eq_hashable in Heq by done. apply bool_decide_eq_true in Heq.
    destruct (obj_get e "name"); cbn in Heq; try congruence. by eexists. }
  apply not_true_iff_false in E1. apply E1, existsb_exists. exists i. split; [by apply list_elem_of_In|].
  apply existsb_exists. exists (obj_get e "name"). split; [by apply list_elem_of_In|].
  rewrite Hname. unfold entry_name. rewrite Hs. cbn. by apply bool_decide_eq_true.
Qed.

(** What the file holds after a swap. *)
Record published (slug : string) (new : list row) (data : RegistryData) (T : Tree) (r : list row * RegistryData)
    : Prop := mkPublished {
  pb_tree : Tree := <[REGISTRY_PATH := Doc (JObj (PluginRegistry.raw r.2))]> T;
  pb_reload : registry_of pb_tree = Ok r.2;
  pb_valid : valid r.2 = true;
  pb_plugins : plugins_of (PluginRegistry.raw r.2) = not_owned slug (plugins_of (PluginRegistry.raw data)) ++ (JObj <$> new);
  pb_new : ∀ e, e ∈ new → e ∈ entries r.2 ∧ well_formed (JObj e);
  pb_flag : ∀ q, obj_get (PluginRegistry.raw r.2) "quarantined_bundles" = JList q → JStr slug ∉ q;
  pb_before : r.1 = owned_rows slug (plugins_of (PluginRegistry.raw data))
}.

(** A swap that nothing in the registry or in the new entries speaks against. *)
Definition swappable (slug : string) (new : list row) (T : Tree) : Prop :=
  ∃ data data', registry_of T = Ok data ∧ valid data = true
    ∧ _revalidate (data <| raw := swapped slug new (raw data) |>) = Ok data' ∧ swap_refused new data' = Ok false.

Lemma wp_apply_owned_swap T s slug new :
  agrees T s →
  wp (apply_owned_swap slug new)
    (λ r s', ∃ data, registry_of T = Ok data ∧ valid data = true ∧
      published slug new data T r ∧ agrees (<[REGISTRY_PATH := Doc (JObj (raw r.2))]> T) s')
    (λ e s', agrees T s' ∧ (swappable slug new T → quiet = false)
      ∨ e = PowerLoss ∧ quiet = false ∧ ∃ data r, registry_of T = Ok data ∧ published slug new data T r ∧
        agrees (<[REGISTRY_PATH := Doc (JObj (raw r.2))]> T) s') s.
Proof.
  intros HT.
  unfold apply_owned_swap. apply wp_bind. eapply wp_mono; [by apply wp_load_registry| |].
  2: { intros e s' [? He]. left. split; [done|]. intros (d & d' & Hd & _). destruct He as [He|[? _]]; congruence. }
  intros data s1 [H1 Hdata]. apply wp_bind, wp_raise_when.
  { intros Hv. left. split; [done|]. intros (d & d' & Hd & ? & _). destruct Hdata as [Hdata|[? _]]; [|done].
    rewrite Hdata in Hd. injection Hd as <-. by destruct (valid data). }
  intros Hvalid%negb_false_iff. destruct Hdata as [Hdata|[_ ?]]; [|congruence].
  apply wp_bind, wp_lift.
  2: { intros e He. left. split; [done|]. intros (d & d' & Hd & _ & Hd' & _). rewrite Hdata in Hd.
       injection Hd as <-. congruence. }
  intros data' Hre. apply wp_bind, wp_lift.
  2: { intros e He. left. split; [done|]. intros (d & d' & Hd & _ & Hd' & Hs). rewrite Hdata in Hd.
       injection Hd as <-. congruence. }
  intros bad Hbad. apply wp_bind, wp_raise_when.
  { intros ->. left. split; [done|]. intros (d & d' & Hd & _ & Hd' & Hs). rewrite Hdata in Hd.
    injection Hd as <-. congruence. }
  intros ->.
  assert (published slug new data T (owned_rows slug (plugins_of (raw data)), data')) as Hpub.
  { unfold _revalidate in Hre. rewrite outcome_bind_ok in Hre. destruct Hre as ([doc [[es iss] ok]] & Hv & [= <-]).
    assert (ok = true) as ->.
    { unfold swap_refused in Hbad. rewrite outcome_bind_ok in Hbad. destruct Hbad as (names & _ & [= E]).
      apply orb_false_iff in E as [_ E]. by apply negb_false_iff in E. }
    cbn [raw] in Hv. pose proof (validation_spec _ _ _ _ Hv) as (l & pl & -> & _ & _ & _ & Hwf & _).
    pose proof (validate_inv _ _ _ _ Hv) as (d & _ & _ & _ & _ & [= Ed] & [= El] & _). subst l d.
    change (update raw (λ _, swapped slug new (raw data)) data) with (data <| raw := swapped slug new (raw data) |>) in *.
    cbn [raw] in *.
    set (l := setdefault _ _ _) in *.
    assert (plugins_of l = not_owned slug (plugins_of (raw data)) ++ (JObj <$> new)) as Hl.
    { subst l. rewrite plugins_of_setdefault by done. apply swapped_plugins. }
    assert (∀ e, e ∈ new → e ∈ es) as Hnew.
    { eapply swap_accepts; [exact Hv|done| |exact Hbad]. rewrite Hl. apply list_subseteq_app_r. done. }
    split; cbn.
    - unfold registry_of. rewrite lookup_insert_eq. cbn [parsed]. by rewrite (validate_again _ _ _ _ Hv).
    - done.
    - done.
    - intros e He. split; [by apply Hnew|]. rewrite Forall_forall in Hwf. by apply Hwf, Hnew.
    - intros q Hq. change (obj_get l "quarantined_bundles" = JList q) in Hq. subst l. rewrite obj_get_setdefault in Hq by done. by eapply swapped_unquarantined.
    - done. }
  apply wp_bind. eapply wp_mono; [apply (wp_save_registry T s1 (raw data') H1)|..].
  - intros ? s2 H2. apply wp_ret. by exists data.
  - intros e s2 (Hq & [[_ H2]|[-> H2]]); [left; by split|right]. split_and!; [done|done|]. eauto.
Qed.
(** C8: The swap of an owner's entries is all or nothing, and never publishes a malformed
    one.  However its system calls end, the registry file is afterwards the one before, or
    the one in which the owner's entries are exactly the new ones, behind all the others
    unchanged and in their order; and it is that one when the call returns.  Then every
    new entry is well formed and survives validation, the quarantine of the owner is
    lifted, the call returns the entries it removed, and no other file has changed. *)
Theorem owned_swap_all_or_nothing T s slug new :
  agrees T s →
  match apply_owned_swap slug new s with
  | (Ok r, s') => ∃ data, registry_of T = Ok data ∧ valid data = true ∧
      published slug new data T r ∧ agrees (<[REGISTRY_PATH := Doc (JObj (raw r.2))]> T) s'
  | (Raise e, s') =>
      agrees T s' ∧ (swappable slug new T → quiet = false) ∨
      e = PowerLoss ∧ quiet = false ∧ ∃ data r, registry_of T = Ok data ∧ published slug new data T r ∧
        agrees (<[REGISTRY_PATH := Doc (JObj (raw r.2))]> T) s'
  end.
Proof. intros HT. exact (wp_apply_owned_swap T s slug new HT). Qed.
End world.

(** ** On the example *)

#[local] Existing Instance demo_outside.
#[local] Existing Instance demo_text.

(** A new version of an entry of [finance]. *)
Definition demo_new : row := dset demo_owned "version" (JStr "1.1").

Lemma demo_agreed quiet e : (quiet = true → e = []) → agrees quiet demo_tree (demo_state e).
Proof. intros He. by split. Qed.

(** One swap goes well; one is killed before it renames the new file. *)
Lemma owned_swap_all_or_nothing_witness :
  match apply_owned_swap "finance" [demo_new] (demo_state []) with
  | (Ok r, s') => ∃ data, registry_of demo_tree = Ok data ∧ published "finance" [demo_new] data demo_tree r
      ∧ agrees true (<[REGISTRY_PATH := Doc (JObj (raw r.2))]> demo_tree) s'
  | (Raise _, _) => False
  end
  ∧ match apply_owned_swap "finance" [demo_new] (demo_state (dies_after 5)) with
    | (Raise e, s') => e = PowerLoss ∧ agrees false demo_tree s'
    | (Ok _, _) => False
    end.
Proof.
  split.
  - pose proof (owned_swap_all_or_nothing true demo_tree (demo_state []) "finance" [demo_new]
      (demo_agreed true [] (λ _, eq_refl))) as Hw.
    assert (is_Ok (apply_owned_swap "finance" [demo_new] (demo_state [])).1) as Ho by (vm_compute; exact I).
    destruct (apply_owned_swap _ _ _) as [[r|e] s']; [|done]. destruct Hw as (data & ? & _ & ? & ?). by exists data.
  - pose proof (owned_swap_all_or_nothing false demo_tree (demo_state (dies_after 5)) "finance" [demo_new]
      (demo_agreed false _ ltac:(discriminate))) as Hw.
    assert ((apply_owned_swap "finance" [demo_new] (demo_state (dies_after 5))).1 = Raise PowerLoss
      ∧ tree (apply_owned_swap "finance" [demo_new] (demo_state (dies_after 5))).2 !! REGISTRY_PATH
        = Some (Doc (JObj demo_registry))) as [Ho Hr] by (split; vm_compute; reflexivity).
    destruct (apply_owned_swap _ _ _) as [[r|e] s']; [discriminate Ho|]. cbn [fst snd] in *.
    injection Ho as ->. split; [done|]. destruct Hw as [[Hw _]|(_ & _ & data & r & Hd & Hp & Hs)]; [done|exfalso].
    rewrite (proj2 Hs), lookup_insert_eq in Hr by done. injection Hr as Hr.
    pose proof (pb_plugins _ _ _ _ _ Hp) as Hpl. rewrite Hr in Hpl. vm_compute in Hd. injection Hd as <-.
    vm_compute in Hpl. discriminate Hpl.
Defined.

(** A document with a malformed entry, and two entries of one name. *)
Definition demo_faulty : row :=
  dset demo_registry "plugins"
    (JList [JObj demo_owned; JInt 3; JObj demo_other; JObj (dset demo_travel "version" JNull); JObj demo_other]).

Lemma validation_sound_witness :
  ∃ es iss, _validate_doc (JObj demo_faulty) = Ok (JObj demo_faulty, (es, iss, true))
    ∧ es = [demo_owned] ∧ is_name <$> iss = ["?"; "travel.maps"; "weather"; "weather"]
    ∧ Forall (λ e, well_formed (JObj e)) es
    ∧ (∀ v, v ∈ plugins_of demo_faulty → (∃ e, v = JObj e ∧ e ∈ es) ∨ ∃ i, i ∈ iss ∧ is_name i = entry_name v).
Proof.
  destruct (_validate_doc (JObj demo_faulty)) as [[doc [[es iss] ok]]|e] eqn:E; [|vm_compute in E; discriminate E].
  assert (doc = JObj demo_faulty ∧ es = [demo_owned] ∧ is_name <$> iss = ["?"; "travel.maps"; "weather"; "weather"]
    ∧ ok = true) as (-> & Hes & Hiss & ->)
    by (vm_compute in E; injection E as <- <- <- <-; split_and!; vm_compute; reflexivity).
  destruct (validation_sound _ _ _ _ E) as (d & l & [= <-] & Hh & _ & _ & Hwf & _ & _ & Hall).
  exists es, iss. split_and!; [done..|]. intros v Hv. apply Hall.
  destruct Hh as [_ _ Hp]. unfold plugins_of in Hv. by rewrite Hp in Hv.
Defined.
