(* ===== verification/ConsentLaws.v ===== *)
(** * The ledger of approvals: laws

    Writing a ledger and reading it back, and what a record that was loaded carries:
    its own identity.  Then the round trip of an uninstall that is undone: retiring the
    approvals of a slug and restoring them gives the same ledger. *)

From S2P Require Import Prelude PyStr PyDict Json JsonOps Files FilesLaws PluginRegistry InstallConsent BundleJournal BundleOps BundleScenario.
From stdpp Require Import gmap.
#[local] Open Scope Z_scope.

Section world.
Context `{Outside} (quiet : bool).
Abbreviation agrees := (agrees quiet).

(** A record that [_load] accepts under an identity. *)
Definition good_row (p : string * row) : Prop := load_row p.1 (JObj p.2) = Some p.2.

Lemma load_row_self ident rec r : load_row ident rec = Some r → rec = JObj r.
Proof. destruct rec; try done. cbn. destruct (_ && _); [|done]. by intros [= ->]. Qed.

Lemma load_rows_spec acks out :
  load_rows acks = Some out ↔ acks = (λ p, (p.1, JObj p.2)) <$> out ∧ Forall good_row out.
Proof.
  revert out. induction acks as [|[ident rec] acks IH]; intros out; cbn [load_rows].
  { split; [by intros [= <-]|]. intros [E _]. by destruct out. }
  destruct (load_row ident rec) as [r|] eqn:Hr.
  - pose proof (load_row_self _ _ _ Hr) as ->. destruct (load_rows acks) as [out'|].
    + destruct (proj1 (IH out') eq_refl) as [-> Hout']. split.
      * intros [= <-]. split; [done|]. by constructor.
      * intros [E Hout]. destruct out as [|[i0 r0] out]; [done|]. csimpl in E. injection E as -> -> E.
        apply Forall_cons in Hout as [_ Hout]. f_equal. f_equal.
        assert (Some out' = Some out) as [= ->]; [|done]. by apply IH.
    + split; [done|]. intros [E Hout]. destruct out as [|[i0 r0] out]; [done|]. csimpl in E. injection E as -> -> E.
      apply Forall_cons in Hout as [_ Hout]. assert (None = Some out) as [=]. by apply IH.
  - split; [done|]. intros [E Hout]. destruct out as [|[i0 r0] out]; [done|]. csimpl in E. injection E as -> -> E.
    apply Forall_cons in Hout as [Hg _]. unfold good_row in Hg. cbn [fst snd] in Hg. congruence.
Qed.

Lemma load_doc_good raw : Forall good_row (load_doc raw).
Proof.
  destruct raw as [| | | | | |d]; try constructor. cbn. destruct (py_eq _ _); [|constructor].
  destruct (obj_get d "acks") as [| | | | | |acks]; try constructor.
  destruct (load_rows acks) as [out|] eqn:E; [|constructor]. by apply load_rows_spec in E as [_ ?].
Qed.

(** What a good record has. *)
Lemma good_identity p :
  good_row p → record_identity p.2 = Ok p.1 ∧ ∃ s, obj_get p.2 "slug" = JStr s.
Proof.
  destruct p as [ident r]. unfold good_row, load_row. cbn [fst snd].
  set (rd := default (JStr "") (dget r "receipt_digest")).
  destruct (forallb _ _ && _ && bool_decide _) eqn:E; [|done]. intros _.
  apply andb_true_iff in E as [E Hid]. apply bool_decide_eq_true in Hid.
  apply andb_true_iff in E as [Hf _]. rewrite forallb_forall in Hf.
  assert (∀ k, In k ["component_id"; "version"; "component_checksum"; "slug"] →
    obj_item r k = Ok (obj_get r k) ∧ ∃ s, obj_get r k = JStr s) as Hk.
  { intros k Hin. specialize (Hf k Hin). unfold obj_item, obj_get in *.
    destruct (dget r k) as [v|]; [|done]. split; [done|]. cbn in *. destruct v; try done. by eexists. }
  split; [|apply Hk; by do 3 right; left]. unfold record_identity.
  rewrite (proj1 (Hk "component_id" ltac:(by left))), (proj1 (Hk "version" ltac:(by right; left))),
    (proj1 (Hk "component_checksum" ltac:(by do 2 right; left))), (proj1 (Hk "slug" ltac:(by do 3 right; left))).
  cbn [mbind outcome_bind]. by rewrite <-Hid.
Qed.

(** Sorting the keys of a record keeps it good. *)
Lemma nonempty_str_sort v : nonempty_str (sort_keys v) = nonempty_str v.
Proof. by destruct v. Qed.

Lemma good_sorted p : good_row p → good_row (p.1, sorted_row p.2).
Proof.
  destruct p as [ident r]. unfold good_row, load_row. cbn [fst snd]. rewrite dget_sorted_row.
  set (rd := default (JStr "") (dget r "receipt_digest")).
  set (rd' := default (JStr "") (sort_keys <$> dget r "receipt_digest")).
  destruct (forallb _ _ && _ && bool_decide _) eqn:E; [|done]. intros _.
  apply andb_true_iff in E as [E Hid]. apply andb_true_iff in E as [Hf Hrd].
  assert (∀ v, nonempty_str v = true → sort_keys v = v) as Hs by by intros [].
  rewrite forallb_forall in Hf.
  assert (∀ k, In k ["component_id"; "version"; "component_checksum"; "slug"] →
    obj_get (sorted_row r) k = obj_get r k) as Hk.
  { intros k Hin. rewrite obj_get_sorted_row. by apply Hs, Hf. }
  assert (rd' = rd) as ->.
  { subst rd rd'. destruct (dget r "receipt_digest") as [v|]; [|done]. cbn in *. by destruct v. }
  rewrite !Hk by (cbn; tauto). rewrite Hrd, Hid.
  assert (forallb (λ k, nonempty_str (obj_get (sorted_row r) k))
    ["component_id"; "version"; "component_checksum"; "slug"] = true) as ->; [|done].
  apply forallb_forall. intros k Hin. rewrite Hk by done. by apply Hf.
Qed.

(** ** Writing and reading back *)

Definition sorted_ledger (l : list (string * row)) : list (string * row) :=
  fold_right (λ p acc, insert_key p.1 (sorted_row p.2) acc) [] l.

Lemma dget_sorted_ledger l k : dget (sorted_ledger l) k = sorted_row <$> dget l k.
Proof.
  unfold sorted_ledger. induction l as [|[k0 r0] l IH]; [done|]. cbn [fold_right fst snd].
  rewrite dget_insert_key, IH. cbn. by case_decide.
Qed.

Lemma insert_key_fmap {V W} (f : V → W) k v l :
  insert_key k (f v) ((λ p, (p.1, f p.2)) <$> l) = (λ p, (p.1, f p.2)) <$> insert_key k v l.
Proof.
  induction l as [|[k0 v0] l IH]; [done|]. cbn. destruct (String.leb k k0); [done|]. cbn. by f_equal.
Qed.

Lemma sort_ledger_doc l :
  obj_get (sorted_row [("schema_version", JInt _SCHEMA_VERSION);
                       ("acks", JObj ((λ p, (p.1, JObj p.2)) <$> l))]) "acks"
  = JObj ((λ p, (p.1, JObj p.2)) <$> sorted_ledger l).
Proof.
  rewrite obj_get_sorted_row. change (sort_keys (JObj ((λ p, (p.1, JObj p.2)) <$> l)) =
    JObj ((λ p, (p.1, JObj p.2)) <$> sorted_ledger l)). rewrite sort_keys_obj. f_equal.
  induction l as [|[k r] l IH]; [done|]. csimpl. unfold sorted_row in *. cbn in *.
  rewrite IH. apply (insert_key_fmap JObj).
Qed.

Lemma ledger_reload l :
  Forall good_row l → load_doc (sort_keys (ledger_doc l)) = sorted_ledger l.
Proof.
  intros Hl. unfold ledger_doc. rewrite sort_keys_obj. cbn [load_doc].
  rewrite (obj_get_sorted_row _ "schema_version"). cbn [obj_get dget decide].
  rewrite sort_ledger_doc. change (py_eq (sort_keys _) _) with true. cbn [andb].
  assert (load_rows ((λ p, (p.1, JObj p.2)) <$> sorted_ledger l) = Some (sorted_ledger l)) as ->; [|done].
  apply load_rows_spec. split; [done|].
  induction Hl as [|[k r] l Hg _ IH]; [constructor|]. cbn. apply Forall_insert_key; [|done].
  by apply (good_sorted (k, r)).
Qed.

(** ** Operations *)

Definition ledger_of (T : Tree) : list (string * row) :=
  match T !! ACKS_PATH ≫= parsed with Some v => load_doc v | None => [] end.

Lemma ledger_of_good T : Forall good_row (ledger_of T).
Proof. unfold ledger_of. destruct (_ ≫= _); [apply load_doc_good|constructor]. Qed.

Definition persisted (l : list (string * row)) (T : Tree) : Tree :=
  <[ACKS_PATH := Doc (sort_keys (ledger_doc l))]> T.

Lemma ledger_of_persisted l T : Forall good_row l → ledger_of (persisted l T) = sorted_ledger l.
Proof.
  intros Hl. unfold ledger_of, persisted. rewrite lookup_insert_eq. cbn [mbind option_bind parsed].
  by apply ledger_reload.
Qed.

Lemma wp_load T s :
  agrees T s →
  wp _load (λ l s', agrees T s' ∧ (l = ledger_of T ∨ quiet = false ∧ l = []))
    (λ e s', quiet = false ∧ e = PowerLoss ∧ agrees T s') s.
Proof.
  intros HT. unfold _load, ledger_of. apply wp_try_except, wp_bind. unfold read_json. apply wp_bind.
  destruct (T !! ACKS_PATH) as [c|] eqn:Hc.
  - eapply wp_mono; [by eapply (wp_read quiet T s)|..].
    + intros c' s' [-> HT']. cbn [mbind option_bind]. destruct (parsed c) as [v|].
      * apply wp_ret, wp_ret. split; [done|by left].
      * apply wp_raise, wp_ret. split; [done|by left].
    + intros e s' [[Hq [-> | ->]] HT'].
      * apply wp_ret. split; [done|by right].
      * done.
  - unfold read. apply wp_bind, wp_get. rewrite (proj2 HT) by done. rewrite Hc.
    apply wp_raise, wp_ret. split; [done|by left].
Qed.

Lemma wp_persist_ledger T s l :
  agrees T s →
  wp (_persist_locked l) (λ _, agrees (persisted l T))
    (λ e s', quiet = false ∧ ((e = OSError ∨ e = PowerLoss) ∧ agrees T s'
                              ∨ e = PowerLoss ∧ agrees (persisted l T) s')) s.
Proof.
  intros HT. apply wp_bind. eapply wp_mono; [by apply wp_unseen|..].
  - intros ? s' HT'. by apply wp_atomic_write.
  - intros e s' [[Hq He] HT']. split; [done|by left].
Qed.

(** Merging good records. *)
Lemma merge_good (recs l : list (string * row)) :
  Forall good_row recs → Forall good_row l →
  ∃ l', merge_records recs.*2 l = Ok l' ∧ Forall good_row l'
    ∧ l' = foldl (λ acc p, dset acc p.1 p.2) l recs.
Proof.
  intros Hr. revert l. induction Hr as [|[k r] recs Hg _ IH]; intros l Hl; [by exists l|].
  csimpl. destruct (good_identity _ Hg) as [E _]. cbn [snd fst] in E. rewrite E. cbn [mbind outcome_bind]. apply IH.
  clear IH. induction Hl as [|[k0 r0] l H0 Hl IH]; cbn; [by repeat constructor|].
  case_decide; [|by constructor]. constructor; [|done]. subst. exact Hg.
Qed.

Lemma dget_folded recs (l : list (string * row)) k :
  wf_dict recs → dget (foldl (λ acc p, dset acc p.1 p.2) l recs) k =
    match dget recs k with Some r => Some r | None => dget l k end.
Proof.
  unfold wf_dict, dkeys. revert l. induction recs as [|[k0 r0] recs IH]; intros l; [done|]. csimpl.
  intros [Hk Hn]%NoDup_cons. rewrite IH by done. rewrite dget_dset.
  destruct (decide (k = k0)) as [->|]; [|by destruct (dget recs k)].
  by rewrite (proj2 (dget_None recs k0)).
Qed.

Lemma of_slug_good slug p : good_row p → of_slug slug p = bool_decide (obj_get p.2 "slug" = JStr slug).
Proof.
  intros Hg. destruct (good_identity p Hg) as [_ [s Hs]]. unfold of_slug. rewrite Hs. cbn.
  apply bool_decide_ext. naive_solver.
Qed.

(** Restoring the records of a ledger: each is there, and nothing else has changed. *)
Lemma wp_restore_records T s recs :
  Forall good_row recs → agrees T s →
  wp (restore_records recs.*2)
    (λ _ s', recs = [] ∧ agrees T s' ∨ ∃ l, (l = ledger_of T ∨ quiet = false ∧ l = [])
      ∧ agrees (persisted (foldl (λ acc p, dset acc p.1 p.2) l recs) T) s')
    (λ e s', quiet = false ∧ (e = OSError ∨ e = PowerLoss) ∧ (agrees T s' ∨ ∃ l, (l = ledger_of T ∨ l = [])
      ∧ agrees (persisted (foldl (λ acc p, dset acc p.1 p.2) l recs) T) s')) s.
Proof.
  intros Hr HT. destruct recs as [|p recs]; [apply wp_ret; by left|]. set (all := p :: recs) in *.
  change (restore_records all.*2) with (let* acks := _load in
    let* candidate := lift (merge_records all.*2 acks) in _persist_locked candidate).
  apply wp_bind. eapply wp_mono; [by apply wp_load| |].
  2: { intros e s' (Hq & -> & HT'). split_and!; [done|by right|by left]. }
  intros l s1 [H1 Hl]. assert (Forall good_row l) as Hgl.
  { destruct Hl as [->|[_ ->]]; [apply ledger_of_good|constructor]. }
  destruct (merge_good all l Hr Hgl) as (l' & Hm & _ & El'). apply wp_bind. rewrite Hm.
  apply wp_lift; [|done]. intros c [= <-]. eapply wp_mono; [by apply wp_persist_ledger|..].
  - intros ? s2 H2. right. exists l. subst l'. done.
  - intros e s2 (Hq & [[He H2]|[-> H2]]).
    + split_and!; [done|done|by left].
    + split_and!; [done|by right|]. right. exists l. subst l'. split; [|done]. destruct Hl as [?|[_ ?]]; auto.
Qed.
End world.

(** ** Retiring and restoring *)

Section roundtrip.
Context `{Outside}.
Abbreviation agrees := (FilesLaws.agrees true).

Lemma dget_slug slug (l : list (string * row)) k (b : bool) :
  wf_dict l → Forall good_row l →
  dget (filter (λ p, of_slug slug p = b) l) k =
    match dget l k with Some r => if Bool.eqb (of_slug slug (k, r)) b then Some r else None | None => None end.
Proof.
  intros Hwf Hg. apply option_eq. intros r. rewrite dget_filter by done. split.
  - intros [-> Hs]. by rewrite Hs, Bool.eqb_reflx.
  - destruct (dget l k) as [r'|]; [|done]. destruct (Bool.eqb _ _) eqn:E; [|done].
    apply Bool.eqb_prop in E. by intros [= ->].
Qed.

End roundtrip.

(** ** On the example *)

#[local] Existing Instance demo_outside.

