(* ===== verification/JournalLaws.v ===== *)
(** * The journal of bundle operations: laws

    The names in the operations directory; what a journal says and how marking a step
    keeps it; what a rollback does to the files, and what an interrupted one can have
    done. *)

From S2P Require Import Prelude PyStr PyDict Json JsonOps Files FilesLaws PluginRegistry RegistryLaws RegistryProperties InstallConsent ConsentLaws BundleJournal.
From stdpp Require Import gmap.
#[local] Open Scope Z_scope.

(** ** Names *)

(** What [uuid4().hex] looks like. *)
Class UuidHex `{Outside} := uuid_hex : ∀ n, String.length (uuid4_hex n) = 32%nat ∧ all_chars lower_hex (uuid4_hex n) = true.

Lemma slug_upto_app n s t c :
  slug_upto n s = Some "" → slug_char c = false → slug_upto n (s +:+ String c t) = Some (String c t).
Proof.
  destruct s as [|x s]; [done|]. rewrite app_cons. cbn [slug_upto]. destruct (lower_alnum x); [|done].
  unfold run. destruct (span slug_char s) as [a b] eqn:E. destruct (_ && _) eqn:Hl; [|done].
  intros [= ->] Hc. apply span_spec in E as (-> & Ha & _). rewrite string_app_nil_r.
  rewrite span_app by done. by rewrite Hl.
Qed.

Lemma slug_parts s :
  slug_upto 31 s = Some "" → ∃ c a, s = String c a ∧ lower_alnum c = true ∧ all_chars slug_char a = true
    ∧ (String.length a ≤ 31)%nat.
Proof.
  destruct s as [|c s]; [done|]. cbn. destruct (lower_alnum c) eqn:Hc; [|done].
  unfold run. destruct (span slug_char s) as [a b] eqn:E. destruct (_ && _) eqn:Hl; [|done].
  intros [= ->]. apply span_spec in E as (-> & Ha & _). exists c, a. rewrite string_app_nil_r.
  cbn in Hl. apply Nat.leb_le in Hl. done.
Qed.

Lemma run_all P n a b :
  all_chars P a = true → String.length a = n → match b with String c _ => P c = false | _ => True end →
  run P n n (a +:+ b) = Some b.
Proof. intros Ha Hn Hb. unfold run. rewrite span_app by done. by rewrite Hn, Nat.leb_refl. Qed.

(** The names that [begin] makes are recognised, and what comes after them is not. *)
Lemma journal_name slug hex tail :
  slug_upto 31 slug = Some "" → String.length hex = 32%nat → all_chars lower_hex hex = true →
  JOURNAL_NAME_RE (slug +:+ "." +:+ hex +:+ ".json" +:+ tail) = if at_end tail then Some slug else None.
Proof.
  intros (c & a & -> & Hc & Ha & Hl)%slug_parts Hn Hh. rewrite app_cons. cbn [JOURNAL_NAME_RE].
  rewrite Hc. rewrite span_app by done. rewrite (proj2 (Nat.leb_le _ _) Hl). cbn [andb].
  change (after_prefix "." ("." +:+ hex +:+ ".json" +:+ tail)) with (Some (hex +:+ ".json" +:+ tail)).
  cbn [mbind option_bind]. rewrite run_all by done. cbn [mbind option_bind].
  change (after_prefix ".json" (".json" +:+ tail)) with (Some tail). cbn [ends]. done.
Qed.

Lemma string_rev_app_spec a b : string_rev_app a b = string_rev a +:+ b.
Proof.
  unfold string_rev. revert b. induction a as [|c a IH]; intros b; [done|]. cbn [string_rev_app].
  rewrite IH, (IH (String c "")), string_app_assoc. done.
Qed.

Lemma string_rev_cat a b : string_rev (a +:+ b) = string_rev b +:+ string_rev a.
Proof.
  induction a as [|c a IH]; autorewrite with text; [by rewrite string_app_nil_r|].
  unfold string_rev at 1 3. cbn [string_rev_app].
  rewrite !string_rev_app_spec, IH. by rewrite string_app_assoc.
Qed.

Lemma all_chars_rev P a : all_chars P (string_rev a) = all_chars P a.
Proof.
  induction a as [|c a IH]; [done|]. unfold string_rev. cbn [string_rev_app].
  rewrite string_rev_app_spec, all_chars_app, IH. unfold all_chars. cbn. by rewrite andb_true_r, andb_comm.
Qed.

Lemma string_length_app a b : String.length (a +:+ b) = (String.length a + String.length b)%nat.
Proof. induction a as [|c a IH]; [done|]. rewrite app_cons. cbn [String.length]. by rewrite IH. Qed.

Lemma length_string_rev a : String.length (string_rev a) = String.length a.
Proof.
  induction a as [|c a IH]; [done|]. unfold string_rev. cbn [string_rev_app].
  rewrite string_rev_app_spec, string_length_app, IH. cbn. lia.
Qed.

(** A file that [begin] makes, and its temporary files. *)
Definition journal_file (slug nm : string) : Prop :=
  ∃ hex, nm = slug +:+ "." +:+ hex +:+ ".json" ∧ slug_upto 31 slug = Some ""
    ∧ String.length hex = 32%nat ∧ all_chars lower_hex hex = true.

Lemma journal_file_name slug nm : journal_file slug nm → JOURNAL_NAME_RE nm = Some slug.
Proof.
  intros (hex & -> & Hs & Hl & Hh). pose proof (journal_name slug hex "" Hs Hl Hh) as E.
  by rewrite (string_app_nil_r ".json") in E.
Qed.

Lemma journal_file_live slug nm : journal_file slug nm → is_quarantined nm = false.
Proof.
  intros (hex & -> & _). unfold is_quarantined.
  rewrite !string_rev_cat, !string_app_assoc. done.
Qed.

Lemma string_prefix_cons x p y s : String.prefix (String x p) (String y s) = bool_decide (x = y) && String.prefix p s.
Proof. cbn. destruct (Ascii.ascii_dec x y); [by rewrite bool_decide_true|by rewrite bool_decide_false]. Qed.

Lemma string_prefix_app p s : String.prefix p (p +:+ s) = true.
Proof. induction p as [|c p IH]; [by destruct s|]. rewrite app_cons, string_prefix_cons, IH. by rewrite bool_decide_true. Qed.

Lemma journal_file_visible slug nm x : journal_file slug nm → hidden (OPS_DIR ++ [nm +:+ x]) = false.
Proof.
  intros (hex & -> & Hs & _). destruct (slug_parts _ Hs) as (c & a & -> & Hc & _).
  rewrite hidden_snoc, !app_cons, string_prefix_cons. by rewrite bool_decide_false by (by intros <-).
Qed.

Lemma hex_not_quarantined x h :
  String.length h = 32%nat → all_chars lower_hex h = true → is_quarantined (x +:+ h) = false.
Proof.
  intros Hl Hh. unfold is_quarantined. rewrite string_rev_cat.
  rewrite <-length_string_rev in Hl. rewrite <-all_chars_rev in Hh.
  destruct (string_rev h) as [|c0 [|c1 [|c2 r]]]; try done. rewrite !app_cons.
  change (string_rev ".quarantined") with "denitnarauq.". rewrite !string_prefix_cons.
  repeat (case_bool_decide; [|by rewrite ?andb_false_r]). subst.
  unfold all_chars in Hh. cbn in Hh. by rewrite !andb_false_r in Hh.
Qed.

(** ** Payloads *)

Section world.
Context `{Outside, PyText} (quiet : bool).
Abbreviation agrees := (agrees quiet).

(** The validity of a payload depends on six of its keys. *)
Lemma valid_payload_agree d d' slug :
  (∀ k, k ∈ ["schema_version"; "op"; "slug"; "consent_identity"; "target_root"; "state"; "before"] →
     obj_get d k = obj_get d' k) →
  _valid_payload (JObj d) slug = _valid_payload (JObj d') slug.
Proof.
  intros Hk. cbn [_valid_payload].
  rewrite (Hk "schema_version"), (Hk "op"), (Hk "slug"), (Hk "consent_identity"), (Hk "target_root"),
    (Hk "state"), (Hk "before") by set_solver. done.
Qed.

(** What [_valid_payload] finds in a payload, with its state left open. *)
Lemma valid_payload_state d slug st r :
  _valid_payload (JObj d) slug = Some (st, r) →
  st ∈ ["in-progress"; "complete"] ∧ obj_get d "state" = JStr st.
Proof.
  cbn [_valid_payload]. destruct (_ && _); [|done].
  destruct (obj_get d "state"); try done. destruct (obj_get d "before"); try done.
  case_bool_decide; [|done].
  destruct (dicts _); [|done]. destruct (files_of _); [|done]. destruct (dicts _); [|done].
  by intros [= -> _].
Qed.

Lemma valid_payload_set_state d slug st r st' :
  st' ∈ ["in-progress"; "complete"] →
  _valid_payload (JObj d) slug = Some (st, r) →
  _valid_payload (JObj (dset d "state" (JStr st'))) slug = Some (st', r).
Proof.
  intros Hin. set (d' := dset d "state" (JStr st')).
  assert (obj_get d' "state" = JStr st') as Es by (subst d'; by rewrite obj_get_dset).
  assert (∀ k, k ≠ "state" → obj_get d' k = obj_get d k) as Ek
    by (intros; subst d'; by rewrite obj_get_dset, decide_False).
  clearbody d'. cbn [_valid_payload].
  rewrite Es, (Ek "schema_version"), (Ek "op"), (Ek "slug"), (Ek "consent_identity"), (Ek "target_root"),
    (Ek "before") by done.
  destruct (_ && _); [|done]. rewrite (bool_decide_eq_true_2 (st' ∈ _)) by done.
  destruct (obj_get d "state"); try done. destruct (obj_get d "before"); try done.
  case_bool_decide; [|done].
  destruct (dicts _); [|done]. destruct (files_of _); [|done]. destruct (dicts _); [|done].
  by intros [= _ <-].
Qed.

(** A payload whose keys are sorted: sorting it again after a change at the top changes
    nothing inside. *)
Lemma sorted_get d k : sort_keys (JObj d) = JObj d → sort_keys (obj_get d k) = obj_get d k.
Proof. rewrite sort_keys_obj. intros [= E]. rewrite <-obj_get_sorted_row. by rewrite E. Qed.

Lemma valid_payload_resort d slug :
  (∀ k, sort_keys (obj_get d k) = obj_get d k) →
  _valid_payload (sort_keys (JObj d)) slug = _valid_payload (JObj d) slug.
Proof.
  intros Hk. rewrite sort_keys_obj. apply valid_payload_agree. intros k _. by rewrite obj_get_sorted_row.
Qed.

(** What [begin] writes says what it was given. *)
Lemma dicts_sorted (l : list row) : dicts (sort_keys (JList (JObj <$> l))) = Some (sorted_row <$> l).
Proof.
  cbn. assert (map sort_keys (JObj <$> l) = JObj <$> (sorted_row <$> l)) as ->.
  { induction l as [|r l IH]; [done|]. csimpl. f_equal. exact IH. }
  assert (forallb is_dict (JObj <$> (sorted_row <$> l)) = true) as ->.
  { apply forallb_forall. intros v Hv. apply list_elem_of_In, list_elem_of_fmap in Hv as (r & -> & _). done. }
  f_equal. induction l as [|r l IH]; [done|]. cbn. f_equal. exact IH.
Qed.

Lemma files_of_sorted (files : tuple_files) :
  files.*1 ⊆ TUPLE_FILENAMES → ∃ files', files_of (sort_keys (json_of_files files)) = Some files' ∧ files' ≡ₚ files.
Proof.
  intros Hin. unfold json_of_files. rewrite sort_keys_obj. cbn [files_of].
  set (d := sorted_row _). set (g := λ p : string * json, (p.1, match p.2 with JStr s => Some s | _ => None end)).
  assert (g <$> d ≡ₚ files ∧ Forall (λ p, p.1 ∈ TUPLE_FILENAMES ∧ opt_str p.2 = true) d) as [Hp Hf].
  { assert (d ≡ₚ (λ p, (p.1, json_of_opt_str p.2)) <$> files) as Hd.
    { subst d. rewrite sorted_row_perm, <-list_fmap_compose. erewrite list_fmap_ext; [reflexivity|].
      by intros _ [n [t|]] _. }
    split.
    - rewrite Hd, <-list_fmap_compose. rewrite <-(list_fmap_id files) at 2.
      erewrite list_fmap_ext; [reflexivity|]. by intros _ [n [t|]] _.
    - rewrite Hd. apply Forall_fmap, Forall_forall. intros [n o] Hno. cbn. split; [|by destruct o].
      apply Hin, list_elem_of_fmap. by exists (n, o). }
  assert (forallb (λ p, bool_decide (p.1 ∈ TUPLE_FILENAMES) && opt_str p.2) d = true) as ->.
  { apply forallb_forall. intros p Hp'. rewrite Forall_forall in Hf.
    destruct (Hf p) as [? ->]; [by apply list_elem_of_In|]. by rewrite bool_decide_eq_true_2. }
  by eexists.
Qed.

Lemma begin_payload_valid op slug entries files acks rd ci tr :
  str_true op = true → files.*1 ⊆ TUPLE_FILENAMES →
  ∃ files', files' ≡ₚ files ∧
    _valid_payload (sort_keys (begin_payload op slug entries files acks rd ci tr)) slug
    = Some ("in-progress", (sorted_row <$> entries, files', sorted_row <$> acks)).
Proof.
  intros Hop Hf. destruct (files_of_sorted files Hf) as (files' & Ef & Hp). exists files'. split; [done|].
  unfold begin_payload. set (before := [("registry_entries", _); _; _]). set (d := ("schema_version", _) :: _).
  assert (∀ k v, obj_get d k = v → obj_get (sorted_row d) k = sort_keys v) as Hd
    by (intros k v <-; apply obj_get_sorted_row).
  rewrite sort_keys_obj. cbn [_valid_payload].
  rewrite (Hd "schema_version" (JInt SCHEMA_VERSION) eq_refl), (Hd "op" (JStr op) eq_refl),
    (Hd "slug" (JStr slug) eq_refl), (Hd "consent_identity" (JStr ci) eq_refl),
    (Hd "target_root" (JStr tr) eq_refl), (Hd "state" (JStr "in-progress") eq_refl),
    (Hd "before" (JObj before) eq_refl), sort_keys_obj, !obj_get_sorted_row.
  change (obj_get before "registry_entries") with (JList (JObj <$> entries)).
  change (obj_get before "tuple_files") with (json_of_files files).
  change (obj_get before "ack_records") with (JList (JObj <$> acks)).
  rewrite !dicts_sorted, Ef. cbn [sort_keys nonempty_str opt_str].
  rewrite Hop. rewrite bool_decide_eq_true_2 by done. rewrite bool_decide_eq_true_2 by set_solver. done.
Qed.

(** ** Writing a journal *)

(** A name in the operations directory that boot takes for a broken journal. *)
Definition stray (p : path) : Prop :=
  ∃ n, p = OPS_DIR ++ [n] ∧ JOURNAL_NAME_RE n = None ∧ is_quarantined n = false.

(** Two trees that differ at most at [p] and at stray names. *)
Definition same_but (p : path) (T T' : Tree) : Prop := ∀ q, q ≠ p → ¬ stray q → T' !! q = T !! q.

Lemma same_but_refl p T : same_but p T T.
Proof. done. Qed.

Lemma same_but_insert p T T' q c : q = p ∨ stray q → same_but p T T' → same_but p T (<[q := c]> T').
Proof.
  intros Hq HT r Hr Hs. rewrite lookup_insert_ne; [by apply HT|]. intros ->. by destruct Hq.
Qed.

Lemma same_but_delete p T T' q : q = p ∨ stray q → same_but p T T' → same_but p T (delete q T').
Proof.
  intros Hq HT r Hr Hs. rewrite lookup_delete_ne; [by apply HT|]. intros ->. by destruct Hq.
Qed.

Lemma tmp_stray `{!UuidHex} slug nm n :
  journal_file slug nm → stray (OPS_DIR ++ [nm +:+ ".tmp-" +:+ uuid4_hex n]).
Proof.
  intros (hex & -> & Hs & Hl & Hh). eexists. split; [done|]. destruct (uuid_hex n) as [Hul Huh]. split.
  - rewrite !string_app_assoc. rewrite (journal_name slug hex (".tmp-" +:+ uuid4_hex n)) by done. done.
  - rewrite <-!string_app_assoc. by apply hex_not_quarantined.
Qed.

Lemma journal_not_stray slug nm : journal_file slug nm → ¬ stray (OPS_DIR ++ [nm]).
Proof.
  intros Hj (n & E & Hn & _). apply (inj (OPS_DIR ++.)) in E. injection E as ->.
  by rewrite (journal_file_name _ _ Hj) in Hn.
Qed.

Lemma wp_fsync_write `{!UuidHex} T s slug nm v :
  journal_file slug nm → agrees T s →
  let p := OPS_DIR ++ [nm] in
  wp (_fsync_write p v)
    (λ _ s', ∃ T', agrees T' s' ∧ T' !! p = Some (Doc (sort_keys v)) ∧ same_but p T T')
    (λ e s', broken quiet e ∧ ∃ T', agrees T' s' ∧ (T' !! p = T !! p ∨ T' !! p = Some (Doc (sort_keys v)))
       ∧ same_but p T T') s.
Proof.
  intros Hj HT p. unfold _fsync_write. apply wp_bind. unfold wp at 1, draw. cbn [fst snd].
  set (tmp := parent p ++ _).
  assert (stray tmp ∧ hidden tmp = false ∧ hidden p = false) as (Ht & Hht & Hhp).
  { subst p tmp. unfold parent. rewrite removelast_last, last_snoc. cbn [default from_option id]. split_and!.
    - by eapply tmp_stray.
    - by eapply journal_file_visible.
    - rewrite <-(string_app_nil_r nm). by eapply journal_file_visible. }
  assert (tmp ≠ p) as Hne by (intros E; apply (journal_not_stray slug nm Hj); change (stray p); by rewrite <-E).
  set (s1 := s <| draws ::= S |>). assert (agrees T s1) as Hs1 by exact HT. clearbody s1 tmp. clear s HT.
  set (sp := sort_keys v).
  assert (∀ T' c, same_but p T T' → same_but p T (<[tmp := c]> T')) as Hins
    by (intros; apply same_but_insert; [by right|done]).
  set (bad := λ (e : exn) (s' : Fs), broken quiet e ∧ ∃ T', agrees T' s' ∧ T' !! p = T !! p ∧ same_but p T T').
  assert (∀ e s' T', broken quiet e → agrees T' s' → T' !! p = T !! p → same_but p T T' → bad e s') as Hbad
    by (intros; split; [done|eauto]).
  apply wp_bind. eapply wp_mono with (R := λ e s', bad e s'); [|
    |intros e s' (He & T' & ? & ? & ?); split; [done|]; exists T'; split_and!; [done|by left|done]].
  2: { intros ? s2 H2. exact H2. }
  apply wp_on_failure.
  assert (wp (truncate tmp ;;; write tmp (Doc sp) ;;; unseen ;;; replace tmp p)
    (λ _ s', agrees (<[p := Doc sp]> (delete tmp (<[tmp := Doc sp]> (<[tmp := Text ""]> T)))) s')
    (λ e s', broken quiet e ∧ ∃ c, agrees (<[tmp := c]> T) s' ∨ agrees T s') s1) as Hbody.
  { apply wp_bind. eapply wp_mono.
    - apply (wp_all_or_nothing quiet _ T (<[tmp := Text ""]> T)); [|done]. intros s'. apply agrees_put.
    - intros ? s2 H2. apply wp_bind. eapply wp_mono; [apply (wp_write_file quiet _ _ tmp (Doc sp) H2)|..].
      + intros ? s3 H3. apply wp_bind. eapply wp_mono; [apply (wp_unseen quiet _ _ H3)|..].
        * intros ? s4 H4. eapply wp_mono; [apply (wp_replace quiet _ _ tmp p (Doc sp) Hht (lookup_insert_eq _ _ _) H4)|done|].
          intros e s5 [He H5]. split; [done|]. exists (Doc sp). left. by rewrite insert_insert_eq in H5.
        * intros e s4 [He H4]. split; [done|]. exists (Doc sp). left. by rewrite insert_insert_eq in H4.
      + intros e s3 [He [t Ht3]]. split; [done|]. exists (Text t). left. by rewrite insert_insert_eq in Ht3.
    - intros e s2 [He H2]. split; [done|]. exists (Text ""). by right. }
  eapply wp_mono; [exact Hbody|..].
  - intros ? s2 H2. rewrite insert_insert_eq, delete_insert_eq in H2.
    assert (same_but p T (<[p := Doc sp]> (delete tmp T))) as Hsb.
    { apply same_but_insert; [by left|]. apply same_but_delete; [by right|done]. }
    eapply wp_mono; [apply (wp_unseen quiet _ _ H2)|..].
    + intros ? s3 H3. eexists. split_and!; [exact H3|apply lookup_insert_eq|exact Hsb].
    + intros e s3 [He H3]. split; [done|]. eexists. split_and!; [exact H3|right; apply lookup_insert_eq|exact Hsb].
  - intros e s2 [He Hcase].
    assert (∃ T2, agrees T2 s2 ∧ T2 !! p = T !! p ∧ same_but p T T2) as (T2 & H2 & Hp2 & Hs2).
    { destruct Hcase as [c [H2|H2]]; [|by exists T]. exists (<[tmp := c]> T). split_and!; [done|by apply lookup_insert_ne|by apply Hins]. }
    assert (∀ e' s', broken quiet e' → agrees T2 s' → bad e' s') as Hb2 by (intros; by eapply Hbad).
    pose proof He as [Hq [-> | ->]]; [|by apply Hb2].
    apply wp_bind, wp_except_os. unfold unlink. apply wp_bind, wp_get, wp_bind, wp_raise_when.
    { intros _. apply wp_ret, wp_raise. by apply Hb2. }
    intros _. eapply wp_mono.
    + apply (wp_all_or_nothing quiet _ T2 (delete tmp T2)); [|done]. intros s'. apply agrees_remove.
    + intros ? s3 H3. apply wp_raise. eapply Hbad; [done|exact H3|by rewrite lookup_delete_ne|].
      apply same_but_delete; [by right|done].
    + intros e' s3 [He' H3]. destruct He' as [_ [-> | ->]]; [apply wp_ret, wp_raise; by apply Hb2|].
      apply Hb2; [|done]. split; [done|by right].
Qed.
End world.
