(* ===== verification/BundleLaws.v ===== *)
(** * Bundle operations: laws

    What every step of a bundle operation keeps, so that a rollback is possible after
    any of them; the rollback itself, however often it was interrupted; the steps of a
    journal; and the boot that finds it. *)

From S2P Require Import Prelude PyStr PyDict Json JsonOps Files FilesLaws PluginRegistry RegistryLaws RegistryProperties InstallConsent ConsentLaws BundleJournal JournalLaws BundleOps.
From stdpp Require Import gmap.
#[local] Open Scope Z_scope.

(** ** Places *)

Definition tuple_path (slug name : string) : path := slug_dir slug ++ [name].

(** The operational files of a slug. *)
Definition op_file (slug : string) (p : path) : Prop :=
  ∃ n rest, p = AGENTS_SPECIALISTS_DIR ++ n :: rest
    ∧ (n = slug ∨ String.prefix ("." +:+ slug +:+ ".material-") n = true).

(** What an operation on a slug can change, its journal apart. *)
Definition touched (slug : string) (p : path) : Prop :=
  p = REGISTRY_PATH ∨ p = ACKS_PATH ∨ slug_dir slug `prefix_of` p ∨ op_file slug p ∨ stray p.

Lemma valid_slug_not_dot slug : slug_upto 31 slug = Some "" → slug ≠ ".ops".
Proof. by intros Hs ->. Qed.

Lemma tuple_path_visible slug n : n ∈ TUPLE_FILENAMES → hidden (tuple_path slug n) = false.
Proof.
  intros Hn. unfold tuple_path. rewrite hidden_snoc. unfold TUPLE_FILENAMES in Hn.
  repeat (apply elem_of_cons in Hn as [->|Hn]; [done|]). by apply not_elem_of_nil in Hn.
Qed.

Lemma tuple_path_inj slug n n' : tuple_path slug n = tuple_path slug n' → n = n'.
Proof. unfold tuple_path. intros E. apply (inj (slug_dir slug ++.)) in E. by injection E. Qed.

Lemma under_slug_dir slug n : slug_dir slug `prefix_of` tuple_path slug n.
Proof. by eexists. Qed.

Lemma ops_not_under slug p : slug_upto 31 slug = Some "" → slug_dir slug `prefix_of` p → ¬ ∃ n, p = OPS_DIR ++ [n].
Proof. intros Hs%valid_slug_not_dot [r ->] [n E]. injection E as E _. done. Qed.

Lemma tuple_not_ops slug n m : slug_upto 31 slug = Some "" → tuple_path slug n ≠ OPS_DIR ++ [m].
Proof. intros Hs E. eapply ops_not_under; [done|apply under_slug_dir|by eexists]. Qed.

(** Trees that agree away from the operations directory. *)
Definition same_outside_ops (T T' : Tree) : Prop := ∀ p, ¬ (∃ n, p = OPS_DIR ++ [n]) → T' !! p = T !! p.

Lemma same_but_outside nm T T' : same_but (OPS_DIR ++ [nm]) T T' → same_outside_ops T T'.
Proof.
  intros Hs p Hp. apply Hs; [intros ->; apply Hp; by eexists|]. intros (n & -> & _). apply Hp. by eexists.
Qed.

Lemma registry_of_same `{Outside, PyText} T T' : T' !! REGISTRY_PATH = T !! REGISTRY_PATH → registry_of T' = registry_of T.
Proof. unfold registry_of. by intros ->. Qed.

Lemma ledger_of_same `{Outside} T T' : T' !! ACKS_PATH = T !! ACKS_PATH → ledger_of T' = ledger_of T.
Proof. unfold ledger_of. by intros ->. Qed.

Section world.
Context `{Outside, PyText} (quiet : bool).
Abbreviation agrees := (agrees quiet).

(** ** The registry *)

(** A registry that is valid, holds nothing that stops the loader, and whose entries
    of other owners are [others]. *)
Definition sound (slug : string) (others : list json) (T : Tree) : Prop :=
  ∃ data, registry_of T = Ok data ∧ valid data = true ∧ Forall tame (plugins_of (raw data))
    ∧ not_owned slug (plugins_of (raw data)) = others.

Lemma registry_header T data :
  registry_of T = Ok data → valid data = true → header_ok (raw data) (plugins_of (raw data)).
Proof.
  unfold registry_of. destruct (T !! REGISTRY_PATH) as [c|]; [|intros [= <-] _; by split].
  destruct (parsed c) as [v|]; [|by intros [= <-]]. rewrite outcome_bind_ok.
  intros ([doc [[es iss] ok]] & Hv & [= <-]) Hok. cbn in Hok. subst ok.
  apply validate_inv in Hv as (d & l & es0 & iss0 & coll & -> & -> & Hh & _). cbn.
  unfold plugins_of. pose proof Hh as [_ _ Hp]. by rewrite Hp.
Qed.

Lemma not_owned_app slug a b : not_owned slug (a ++ b) = not_owned slug a ++ not_owned slug b.
Proof. apply filter_app. Qed.

Lemma not_owned_idemp slug l : not_owned slug (not_owned slug l) = not_owned slug l.
Proof. unfold not_owned. rewrite list_filter_filter. apply list_filter_iff. naive_solver. Qed.

Lemma not_owned_all slug (es : list row) :
  Forall (λ e, owned_by slug (JObj e) = true) es → not_owned slug (JObj <$> es) = [].
Proof.
  intros Hes. apply filter_none. intros v (e & -> & He)%list_elem_of_fmap.
  rewrite Forall_forall in Hes. by rewrite (Hes e He).
Qed.

(** Saving a document whose entries of other owners are the same. *)
Lemma header_dset_plugins d l l' : header_ok d l → header_ok (dset d "plugins" (JList l')) l'.
Proof. intros [Hv Hs _]. split; by rewrite obj_get_dset. Qed.

Lemma tame_not_owned slug l : Forall tame l → Forall tame (not_owned slug l).
Proof. intros Hl. apply Forall_forall. intros v [_ Hv]%list_elem_of_filter. rewrite Forall_forall in Hl. auto. Qed.

Lemma rolled_back_sound slug others T data es :
  registry_of T = Ok data → valid data = true → Forall tame (plugins_of (raw data)) →
  not_owned slug (plugins_of (raw data)) = others →
  Forall tame (JObj <$> es) → Forall (λ e, owned_by slug (JObj e) = true) es →
  let T' := <[REGISTRY_PATH := Doc (JObj (rolled_back slug es (raw data)))]> T in
  sound slug others T' ∧
  ∃ data', registry_of T' = Ok data' ∧ valid data' = true ∧ plugins_of (raw data') = others ++ (JObj <$> es).
Proof.
  intros Hr Hv Ht <- Hes Ho T'. pose proof (registry_header _ _ Hr Hv) as Hh. unfold rolled_back in T'.
  set (l := not_owned slug _ ++ _) in T'.
  assert (Forall tame l) as Hl by (apply Forall_app; split; [by apply tame_not_owned|done]).
  destruct (validate_tame _ _ (header_dset_plugins _ _ l Hh) Hl) as (es' & iss & E).
  assert (registry_of T' = Ok (data_of (JObj (dset (raw data) "plugins" (JList l)), (es', iss, true)))) as E'.
  { unfold registry_of, T'. rewrite lookup_insert_eq. cbn [parsed]. by rewrite E. }
  split; eexists; (split; [exact E'|]); cbn; rewrite plugins_of_dset; [|done].
  split_and!; [done|done|]. subst l. by rewrite not_owned_app, not_owned_idemp, not_owned_all, app_nil_r.
Qed.

Lemma swapped_sound slug others T data r :
  registry_of T = Ok data → Forall tame (plugins_of (raw data)) → not_owned slug (plugins_of (raw data)) = others →
  published slug [] data T r → valid r.2 = true →
  let T' := <[REGISTRY_PATH := Doc (JObj (raw r.2))]> T in
  sound slug others T' ∧ ∃ data', registry_of T' = Ok data' ∧ valid data' = true ∧ plugins_of (raw data') = others.
Proof.
  intros Hr Ht <- Hp Hv T'. pose proof (pb_plugins _ _ _ _ _ Hp) as E. rewrite fmap_nil, app_nil_r in E.
  pose proof (pb_reload _ _ _ _ _ Hp) as E'. change (pb_tree _ _ _ _ _ Hp) with T' in E'.
  split; exists r.2; rewrite E; split_and!; try done; [by apply tame_not_owned|apply not_owned_idemp].
Qed.

(** ** What every step keeps *)

(** From the tree [T0] in which the operation on [slug] with journal [J] begins; [acks]
    are the approvals that it can put back. *)
Record mid (T0 : Tree) (slug : string) (others : list json) (J : path) (acks : list row) (T : Tree) : Prop := {
  mid_frame : ∀ p, ¬ touched slug p → p ≠ J → T !! p = T0 !! p;
  mid_registry : sound slug others T;
  mid_acks : ∀ k r, dget (ledger_of T) k = Some r →
    ∃ r0, dget (ledger_of T0) k = Some r0 ∧ sorted_row r = sorted_row r0;
  mid_retired : acks = [] → T !! ACKS_PATH = T0 !! ACKS_PATH
}.

Lemma setdefault_not_null d k v : obj_get d k ≠ JNull → setdefault d k v = d.
Proof. unfold obj_get, setdefault. by destruct (dget d k). Qed.

Lemma obj_get_clear slug d k : k ≠ "quarantined_bundles" → obj_get (clear_quarantine slug d) k = obj_get d k.
Proof.
  intros Hk. unfold clear_quarantine. destruct (obj_get d "quarantined_bundles"); try done.
  destruct (existsb _ _); [|done]. by rewrite obj_get_dset, decide_False.
Qed.

Lemma swapped_header slug d l :
  header_ok d l → header_ok (swapped slug [] d) (not_owned slug (plugins_of d)).
Proof.
  intros Hd. set (l' := not_owned slug _). unfold swapped. rewrite fmap_nil, app_nil_r. fold l'.
  pose proof (header_dset_plugins d l l' Hd) as [Hv Hs Hp]. set (d' := dset d _ _) in *. clearbody d'.
  assert (header_ok (clear_quarantine slug d') l') as Hc by (split; by rewrite obj_get_clear).
  destruct Hc as [Hv' Hs' Hp']. set (c := clear_quarantine slug d') in *. clearbody c.
  rewrite !setdefault_not_null; [done|..].
  - by intros E; rewrite E in Hv'.
  - rewrite setdefault_not_null by (by intros E; rewrite E in Hv'). by intros E; rewrite E in Hs'.
Qed.

Lemma swap_possible slug others T : sound slug others T → swappable slug [] T.
Proof.
  intros (data & Hr & Hv & Ht & _). pose proof (swapped_header slug _ _ (registry_header T data Hr Hv)) as Hh.
  destruct (validate_tame _ _ Hh (tame_not_owned slug _ Ht)) as (es & iss & E).
  exists data, (data_of (JObj (swapped slug [] (raw data)), (es, iss, true))). split_and!; [done|done|..].
  - unfold _revalidate. change (raw (update raw _ data)) with (swapped slug [] (raw data)). by rewrite E.
  - unfold swap_refused. cbn. clear E. by induction iss.
Qed.

(** ** Steps that keep the invariant *)

(** A journal of [slug] at [nm]: its state, and what it recorded. *)
Definition journals (slug nm st : string) (body : list row * tuple_files * list row) (T : Tree) : Prop :=
  ∃ d l, T !! (OPS_DIR ++ [nm]) = Some (Doc (JObj d)) ∧ sort_keys (JObj d) = JObj d
    ∧ _valid_payload (JObj d) slug = Some (st, body) ∧ obj_get d "steps_done" = JList l.

Lemma journals_same slug nm st body T T' :
  T' !! (OPS_DIR ++ [nm]) = T !! (OPS_DIR ++ [nm]) → journals slug nm st body T → journals slug nm st body T'.
Proof. unfold journals. by intros ->. Qed.

(** A key of a journal is set to a sorted value. *)
Lemma sorted_after_set d k v :
  sort_keys (JObj d) = JObj d → sort_keys v = v → ∀ k', sort_keys (obj_get (dset d k v) k') = obj_get (dset d k v) k'.
Proof. intros Hd Hv k'. rewrite obj_get_dset. case_decide; [done|]. by apply sorted_get. Qed.

Lemma journals_set slug nm st body st' T T' d k v :
  sort_keys (JObj d) = JObj d → sort_keys v = v → T' !! (OPS_DIR ++ [nm]) = Some (Doc (sort_keys (JObj (dset d k v)))) →
  _valid_payload (JObj (dset d k v)) slug = Some (st', body) → (∃ l, obj_get (dset d k v) "steps_done" = JList l) →
  journals slug nm st body T → journals slug nm st' body T'.
Proof.
  intros Hd Hv HT' Hval [l Hl] _. rewrite sort_keys_obj in HT'. eexists _, l. split; [exact HT'|].
  pose proof (sorted_after_set d k v Hd Hv) as Hk. split_and!.
  - rewrite <-sort_keys_obj. apply sort_keys_idemp.
  - rewrite <-sort_keys_obj, valid_payload_resort by done. done.
  - rewrite obj_get_sorted_row, Hk. done.
Qed.

Lemma wp_begin `{!UuidHex} T s op slug E F K rd ci tr :
  slug_upto 31 slug = Some "" → str_true op = true → F.*1 ⊆ TUPLE_FILENAMES → agrees T s →
  let body F' := (sorted_row <$> E, F', sorted_row <$> K) in
  wp (begin op slug E F K rd ci tr)
    (λ p s', ∃ nm T' F', p = OPS_DIR ++ [nm] ∧ journal_file slug nm ∧ F' ≡ₚ F ∧ agrees T' s'
       ∧ same_but p T T' ∧ journals slug nm "in-progress" (body F') T')
    (λ e s', quiet = false ∧ ∃ nm T' F', journal_file slug nm ∧ F' ≡ₚ F ∧ agrees T' s' ∧ same_but (OPS_DIR ++ [nm]) T T'
       ∧ (T' !! (OPS_DIR ++ [nm]) = T !! (OPS_DIR ++ [nm]) ∨ journals slug nm "in-progress" (body F') T')) s.
Proof.
  intros Hs Hop HF HT body. unfold begin.
  assert (∀ n, journal_file slug (slug +:+ "." +:+ uuid4_hex n +:+ ".json")) as Hj.
  { intros n. eexists. split; [done|]. by destruct (uuid_hex n). }
  apply wp_bind. eapply wp_mono; [apply (wp_unseen quiet _ _ HT)|..].
  2: { intros e s' [[Hq _] HT']. split; [done|]. eexists _, T, F. split_and!; [apply (Hj 0%nat)|done|done|done|by left]. }
  intros ? s1 Hs1. apply wp_bind. unfold wp at 1, draw. cbn [fst snd]. set (n := draws s1). specialize (Hj n).
  set (nm := slug +:+ "." +:+ _) in *. set (s2 := s1 <| draws ::= S |>).
  assert (agrees T s2) as Hs2 by exact Hs1. clearbody nm s2.
  destruct (begin_payload_valid op slug E F K rd ci tr Hop HF) as (F' & HF' & Hval).
  set (v := begin_payload op slug E F K rd ci tr) in *.
  assert (∀ T', T' !! (OPS_DIR ++ [nm]) = Some (Doc (sort_keys v)) → journals slug nm "in-progress" (body F') T') as Hjr.
  { intros T' HT'. unfold v, begin_payload in HT', Hval. rewrite sort_keys_obj in HT', Hval.
    eexists _, []. split_and!; [exact HT'| |exact Hval|by rewrite obj_get_sorted_row].
    rewrite <-sort_keys_obj. apply sort_keys_idemp. }
  apply wp_bind. eapply wp_mono; [apply (wp_fsync_write quiet T s2 slug nm v Hj Hs2)|..].
  - intros ? s3 (T3 & Hs3 & HJ3 & Hb3). apply wp_ret. exists nm, T3, F'. split_and!; try done. by apply Hjr.
  - intros e s3 ([Hq _] & T3 & Hs3 & HJ3 & Hb3). split; [done|]. exists nm, T3, F'. split_and!; try done.
    destruct HJ3 as [?|?]; [by left|right; by apply Hjr].
Qed.

Section steps.
Context (T0 : Tree) (slug : string) (others : list json) (nm : string) (acks : list row).
Hypothesis (valid_slug : slug_upto 31 slug = Some "").
Abbreviation J := (OPS_DIR ++ [nm]).
Abbreviation mid := (mid T0 slug others J acks).

Lemma mid_change T T' :
  (∀ p, ¬ touched slug p → p ≠ J → T' !! p = T !! p) → T' !! REGISTRY_PATH = T !! REGISTRY_PATH →
  T' !! ACKS_PATH = T !! ACKS_PATH → mid T → mid T'.
Proof.
  intros Hc Hr Ha [Hf Hs Hk Ht]. split.
  - intros p Hp HJ. by rewrite Hc, Hf.
  - unfold sound. by rewrite (registry_of_same T T' Hr).
  - by rewrite (ledger_of_same T T' Ha).
  - by rewrite Ha.
Qed.

Lemma mid_same_but T T' : same_but J T T' → mid T → mid T'.
Proof.
  intros Hs Hm. pose proof (same_but_outside _ _ _ Hs) as Ho.
  apply (mid_change T); [|apply Ho; intros [n E]; discriminate E..|done].
  intros p Hp HJ. apply Hs; [done|]. intros Hst. apply Hp. by do 4 right.
Qed.

(** Only the registry. *)
Lemma mid_registry_only T T' :
  (∀ p, p ≠ REGISTRY_PATH → T' !! p = T !! p) → sound slug others T' → mid T → mid T'.
Proof.
  intros Hc Hr [Hf Hs Hk Ht]. split.
  - intros p Hp HJ. rewrite Hc by (intros ->; apply Hp; by left). by rewrite Hf.
  - done.
  - by rewrite (ledger_of_same T T') by (by apply Hc).
  - by rewrite Hc.
Qed.

Lemma wp_swap_out T s :
  mid T → agrees T s →
  wp (apply_owned_swap slug [])
    (λ r s', ∃ T', agrees T' s' ∧ mid T' ∧ (∀ p, p ≠ REGISTRY_PATH → T' !! p = T !! p)
      ∧ (∃ data, registry_of T' = Ok data ∧ valid data = true ∧ plugins_of (raw data) = others)
      ∧ ∃ data, registry_of T = Ok data ∧ r.1 = owned_rows slug (plugins_of (raw data)))
    (λ e s', quiet = false ∧ ∃ T', agrees T' s' ∧ mid T' ∧ ∀ p, p ≠ REGISTRY_PATH → T' !! p = T !! p) s.
Proof.
  intros Hm HT. pose proof (mid_registry _ _ _ _ _ _ Hm) as Hso.
  assert (∀ data r, registry_of T = Ok data → published slug [] data T r →
    let T' := <[REGISTRY_PATH := Doc (JObj (raw r.2))]> T in
    mid T' ∧ (∀ p, p ≠ REGISTRY_PATH → T' !! p = T !! p) ∧
    ∃ data, registry_of T' = Ok data ∧ valid data = true ∧ plugins_of (raw data) = others) as Hpub.
  { intros data r Hr Hp. destruct Hso as (data0 & Hr0 & _ & Ht & Ho). rewrite Hr in Hr0. injection Hr0 as <-.
    destruct (swapped_sound slug others T data r Hr Ht Ho Hp (pb_valid _ _ _ _ _ Hp)) as [Hs' Hd].
    assert (∀ p, p ≠ REGISTRY_PATH → <[REGISTRY_PATH := Doc (JObj (raw r.2))]> T !! p = T !! p) as Hne
      by (intros; by rewrite lookup_insert_ne).
    split_and!; [by eapply mid_registry_only|done|done]. }
  eapply wp_mono; [by apply (wp_apply_owned_swap quiet)|..].
  - intros r s' (data & Hr & _ & Hp & HT'). destruct (Hpub data r Hr Hp) as (? & ? & ?).
    eexists. split_and!; [exact HT'|done|done|done|]. exists data. split; [done|]. apply (pb_before _ _ _ _ _ Hp).
  - intros e s' [[HT' Hq]|(_ & Hq & data & r & Hr & Hp & HT')].
    + split; [by eapply Hq, swap_possible|]. by exists T.
    + destruct (Hpub data r Hr Hp) as (? & ? & ?). split; [done|]. by eexists.
Qed.

(** Files in the directory of the slug. *)
Lemma wp_restore_file T s f :
  f.1 ∈ TUPLE_FILENAMES → agrees T s →
  wp (restore_file (slug_dir slug) f)
    (λ _ s', ∃ T', agrees T' s' ∧ T' !! tuple_path slug f.1 = Text <$> f.2
       ∧ ∀ p, p ≠ tuple_path slug f.1 → T' !! p = T !! p)
    (λ e s', quiet = false ∧ ∃ T', agrees T' s' ∧ ∀ p, p ≠ tuple_path slug f.1 → T' !! p = T !! p) s.
Proof.
  intros Hn HT. pose proof (tuple_path_visible slug f.1 Hn) as Hv. unfold restore_file. fold (tuple_path slug f.1).
  destruct f as [n [t|]]; cbn [fst snd] in *.
  - apply wp_bind. eapply wp_mono; [apply (wp_unseen quiet _ _ HT)|..].
    2: { intros e s' [[? _] ?]. split; [done|]. by exists T. }
    intros ? s1 Hs1. eapply wp_mono; [apply (wp_write_text quiet T s1 _ (Text t) Hs1)|..].
    + intros ? s2 Hs2. eexists. split_and!; [exact Hs2|apply lookup_insert_eq|]. intros. by rewrite lookup_insert_ne.
    + intros e s2 [[? _] [Hs2|[t' Hs2]]]; (split; [done|]; eexists; split; [exact Hs2|done || (intros; by rewrite lookup_insert_ne)]).
  - eapply wp_mono; [apply (wp_unlink_if_there quiet T s _ Hv HT)|..].
    + intros ? s1 Hs1. eexists. split_and!; [exact Hs1|apply lookup_delete_eq|]. intros. by rewrite lookup_delete_ne.
    + intros e s1 [[? _] Hs1]. split; [done|]. by exists T.
Qed.

Lemma wp_restore_files F T s :
  F.*1 ⊆ TUPLE_FILENAMES → NoDup F.*1 → agrees T s →
  wp (for_each F (restore_file (slug_dir slug)))
    (λ _ s', ∃ T', agrees T' s' ∧ (∀ n o, (n, o) ∈ F → T' !! tuple_path slug n = Text <$> o)
       ∧ ∀ p, ¬ slug_dir slug `prefix_of` p → T' !! p = T !! p)
    (λ e s', quiet = false ∧ ∃ T', agrees T' s' ∧ ∀ p, ¬ slug_dir slug `prefix_of` p → T' !! p = T !! p) s.
Proof.
  intros Hin Hnd HT.
  enough (wp (for_each F (restore_file (slug_dir slug)))
    (λ _ s', ∃ T', agrees T' s' ∧ (∀ n o, (n, o) ∈ F → T' !! tuple_path slug n = Text <$> o)
       ∧ ∀ p, (∀ n, n ∈ F.*1 → p ≠ tuple_path slug n) → T' !! p = T !! p)
    (λ e s', quiet = false ∧ ∃ T', agrees T' s' ∧ ∀ p, (∀ n, n ∈ F.*1 → p ≠ tuple_path slug n) → T' !! p = T !! p) s) as Hw.
  { assert (∀ p, ¬ slug_dir slug `prefix_of` p → ∀ n, n ∈ F.*1 → p ≠ tuple_path slug n) as Hp
      by (intros p Hp n _ ->; apply Hp, under_slug_dir).
    eapply wp_mono; [exact Hw|..].
    - intros ? s' (T' & ? & ? & Hf). exists T'. split_and!; [done|done|]. intros p Hp'. by apply Hf, Hp.
    - intros e s' (? & T' & ? & Hf). split; [done|]. exists T'. split; [done|]. intros p Hp'. by apply Hf, Hp. }
  revert T s HT Hin Hnd. induction F as [|[n o] F IH]; intros T s HT Hin Hnd; cbn [for_each].
  { apply wp_ret. exists T. split_and!; [done|by intros ? ? ?%not_elem_of_nil|done]. }
  rewrite fmap_cons in Hin, Hnd. apply NoDup_cons in Hnd as [Hn Hnd]. cbn [fst] in *.
  apply wp_bind. eapply wp_mono; [apply (wp_restore_file T s (n, o)); [apply Hin; by left|done]|..].
  - intros ? s1 (T1 & Hs1 & Ho & Hf1). cbn [fst snd] in *.
    eapply wp_mono; [apply (IH T1 s1 Hs1); [intros x Hx; apply Hin; by right|done]|..].
    + intros ? s2 (T2 & Hs2 & Hos & Hf2). exists T2. split_and!; [done|..].
      * intros n' o' [[= -> ->]|Hno]%elem_of_cons; [|by apply Hos]. rewrite Hf2; [done|].
        intros n' Hn' E%tuple_path_inj. by subst.
      * intros p Hp. rewrite Hf2 by (intros; apply Hp; by right). apply Hf1, Hp. by left.
    + intros e s2 (Hq & T2 & Hs2 & Hf2). split; [done|]. exists T2. split; [done|].
      intros p Hp. rewrite Hf2 by (intros; apply Hp; by right). apply Hf1, Hp. by left.
  - intros e s1 (Hq & T1 & Hs1 & Hf1). split; [done|]. exists T1. split; [done|].
    intros p Hp. apply Hf1, Hp. by left.
Qed.

(** ** Rolling back *)

(** What a journal recorded of [T0]: owned entries, texts of tuple files, and the
    approvals that were retired.  No approval was retired, or all of the slug were. *)
Record taken (E : list row) (F : tuple_files) (recs : list (string * row)) : Prop := {
  tk_tame : Forall tame (JObj <$> E);
  tk_owned : Forall (λ e, owned_by slug (JObj e) = true) E;
  tk_before : ∃ data, registry_of T0 = Ok data ∧
    (sorted_row <$> E = sorted_row <$> owned_entries_for slug data
     ∨ sorted_row <$> E = sorted_row <$> owned_rows slug (plugins_of (raw data)));
  tk_names : NoDup F.*1;
  tk_all : ∀ n, n ∈ F.*1 ↔ n ∈ TUPLE_FILENAMES;
  tk_files : ∀ n o, (n, o) ∈ F → o = text_of <$> T0 !! tuple_path slug n;
  tk_good : Forall good_row recs;
  tk_wf : wf_dict recs;
  tk_old : ∀ k r, dget recs k = Some r → ∃ r0, dget (ledger_of T0) k = Some r0 ∧ sorted_row r = sorted_row r0;
  tk_covers : recs = [] ∨
    ∀ k r0, dget (ledger_of T0) k = Some r0 → of_slug slug (k, r0) = true → is_Some (dget recs k)
}.

(** What a complete rollback has put back. *)
Record restored (T : Tree) : Prop := {
  rs_registry : ∃ data data0 E, registry_of T = Ok data ∧ valid data = true
    ∧ plugins_of (raw data) = others ++ (JObj <$> E) ∧ registry_of T0 = Ok data0
    ∧ (sorted_row <$> E = sorted_row <$> owned_entries_for slug data0
       ∨ sorted_row <$> E = sorted_row <$> owned_rows slug (plugins_of (raw data0)));
  rs_files : ∀ n, n ∈ TUPLE_FILENAMES →
    text_of <$> T !! tuple_path slug n = text_of <$> T0 !! tuple_path slug n;
  rs_acks : ∀ k r0, dget (ledger_of T0) k = Some r0 → of_slug slug (k, r0) = true →
    ∃ r, dget (ledger_of T) k = Some r ∧ sorted_row r = sorted_row r0
}.

Lemma restored_elsewhere T T' : same_outside_ops T T' → restored T → restored T'.
Proof.
  intros Hs [Hr Hf Ha]. assert (T' !! REGISTRY_PATH = T !! REGISTRY_PATH) as Er by (apply Hs; by intros [n E]).
  assert (T' !! ACKS_PATH = T !! ACKS_PATH) as Ea by (apply Hs; by intros [n E]). split.
  - by rewrite (registry_of_same T T').
  - intros n Hn. rewrite Hs; [by apply Hf|]. intros [m E]. by eapply tuple_not_ops.
  - by rewrite (ledger_of_same T T').
Qed.

Lemma wp_restore_acks recs T s :
  acks = recs.*2 → Forall good_row recs → wf_dict recs →
  (∀ k r, dget recs k = Some r → ∃ r0, dget (ledger_of T0) k = Some r0 ∧ sorted_row r = sorted_row r0) →
  mid T → agrees T s →
  wp (restore_records acks)
    (λ _ s', ∃ T', agrees T' s' ∧ mid T' ∧ (∀ p, p ≠ ACKS_PATH → T' !! p = T !! p)
      ∧ ∀ k r, dget recs k = Some r → ∃ r', dget (ledger_of T') k = Some r' ∧ sorted_row r' = sorted_row r)
    (λ e s', quiet = false ∧ ∃ T', agrees T' s' ∧ mid T' ∧ ∀ p, p ≠ ACKS_PATH → T' !! p = T !! p) s.
Proof.
  intros Eacks Hg Hwf Hold Hm HT. destruct (decide (recs = [])) as [->|Hne].
  { replace (restore_records acks) with (mret tt : FsM unit) by (by rewrite Eacks). apply wp_ret. exists T. split_and!; [done|done|done|by intros]. }
  assert (∀ l, l = ledger_of T ∨ l = [] →
    let T' := persisted (foldl (λ acc p, dset acc p.1 p.2) l recs) T in
    mid T' ∧ (∀ p, p ≠ ACKS_PATH → T' !! p = T !! p) ∧
    ∀ k r, dget recs k = Some r → ∃ r', dget (ledger_of T') k = Some r' ∧ sorted_row r' = sorted_row r) as Hpers.
  { intros l Hl T'. assert (Forall good_row l) as Hgl by (destruct Hl as [-> | ->]; [apply ledger_of_good|constructor]).
    destruct (merge_good recs l Hg Hgl) as (l' & _ & Hg' & El').
    assert (∀ p, p ≠ ACKS_PATH → T' !! p = T !! p) as Hf by (intros; unfold T', persisted; by rewrite lookup_insert_ne).
    assert (∀ k, dget (ledger_of T') k = sorted_row <$> match dget recs k with Some r => Some r | None => dget l k end) as Hd.
    { intros k. unfold T'. rewrite <-El'. rewrite (ledger_of_persisted l' T) by done. rewrite dget_sorted_ledger, El'. by rewrite dget_folded by done. }
    clearbody T'. destruct Hm as [Hfr Hso Hk Hret]. split_and!; [split|done|].
    - intros p Hp HJ. rewrite Hf by (intros ->; apply Hp; by right; left). by apply Hfr.
    - unfold sound. by rewrite (registry_of_same T T') by (by apply Hf).
    - intros k r. rewrite Hd. intros (r1 & Hr1 & ->)%fmap_Some.
      assert (∃ r0, dget (ledger_of T0) k = Some r0 ∧ sorted_row r1 = sorted_row r0) as (r0 & ? & E).
      { destruct (dget recs k) as [r2|] eqn:Er; [injection Hr1 as <-; eauto|].
        destruct Hl as [-> | ->]; [eauto|done]. }
      exists r0. by rewrite sorted_row_idemp.
    - rewrite Eacks. intros E. by apply fmap_nil_inv in E.
    - intros k r E. rewrite Hd, E. eexists. split; [done|]. apply sorted_row_idemp. }
  replace (restore_records acks) with (restore_records recs.*2) by (by rewrite Eacks).
  eapply wp_mono; [apply (wp_restore_records quiet T s recs Hg HT)|..].
  - intros ? s' [[E _]|(l & Hl & Hs')]; [done|]. destruct (Hpers l) as (? & ? & ?); [naive_solver|]. eauto 10.
  - intros e s' (Hq & _ & [Hs'|(l & Hl & Hs')]); (split; [done|]); [by exists T|].
    destruct (Hpers l Hl) as (? & ? & ?). eauto.
Qed.

Lemma wp_rollback E F recs txn T s :
  taken E F recs → acks = recs.*2 →
  BundleJournal.slug txn = slug → before_entries txn = E → before_tuple_files txn = F → ack_records txn = acks →
  mid T → agrees T s →
  wp (rollback_disk txn)
    (λ _ s', ∃ T', agrees T' s' ∧ mid T' ∧ restored T' ∧ T' !! J = T !! J)
    (λ e s', quiet = false ∧ ∃ T', agrees T' s' ∧ mid T' ∧ T' !! J = T !! J) s.
Proof.
  intros Htk Eacks ES HE HF HK Hm HT. unfold rollback_disk. rewrite ES, HE, HF, HK.
  pose proof (mid_registry _ _ _ _ _ _ Hm) as (data0 & Hr & Hv & Ht & Ho).
  apply wp_bind. eapply wp_mono; [by apply (wp_load_registry quiet)|..].
  2: { intros e s' [HT' [?|[? _]]]; [congruence|]. split; [done|]. by exists T. }
  intros data s1 [Hs1 Hd]. apply wp_bind, wp_raise_when.
  { intros Hn. destruct Hd as [Hd|[? _]]; [|split; [done|by exists T]].
    rewrite Hr in Hd. injection Hd as <-. by rewrite Hv in Hn. }
  intros Hn%negb_false_iff. assert (data = data0) as -> by (destruct Hd as [Hd|[_ ?]]; congruence).
  destruct (rolled_back_sound slug others T data0 E Hr Hv Ht Ho (tk_tame _ _ _ Htk) (tk_owned _ _ _ Htk))
    as [Hso (data' & Hr' & Hv' & Hp')].
  set (TR := <[REGISTRY_PATH := _]> T) in *.
  assert (∀ p, p ≠ REGISTRY_PATH → TR !! p = T !! p) as HfR by (intros; unfold TR; by rewrite lookup_insert_ne).
  assert (mid TR) as HmR by (by eapply mid_registry_only).
  apply wp_bind. eapply wp_mono; [apply (wp_save_registry quiet T s1 _ Hs1)|..].
  2: { intros e s2 [Hq [[_ Hs2]|[_ Hs2]]]; (split; [done|]); [by exists T|]. exists TR. by rewrite HfR. }
  intros ? s2 Hs2. fold TR in Hs2. clearbody TR.
  assert (F.*1 ⊆ TUPLE_FILENAMES) as HF1 by (intros n; apply (tk_all _ _ _ Htk)).
  assert (∀ T', (∀ p, ¬ slug_dir slug `prefix_of` p → T' !! p = TR !! p) → mid T' ∧ T' !! J = T !! J) as Hmf.
  { intros T' Hf. split.
    - apply (mid_change TR); [|apply Hf; by intros [r E']..|done]. intros p Hp _. apply Hf. intros Hpre. apply Hp. by right; right; left.
    - rewrite Hf; [by apply HfR|]. intros Hpre. eapply ops_not_under; [done|exact Hpre|by eexists]. }
  apply wp_bind. eapply wp_mono; [apply (wp_restore_files F TR s2 HF1 (tk_names _ _ _ Htk) Hs2)|..].
  2: { intros e s3 (Hq & T3 & Hs3 & Hf3). split; [done|]. exists T3. split; [done|]. by apply Hmf. }
  intros ? s3 (T3 & Hs3 & Hfiles & Hf3). destruct (Hmf T3 Hf3) as [Hm3 HJ3].
  eapply wp_mono; [apply (wp_restore_acks recs T3 s3 Eacks (tk_good _ _ _ Htk) (tk_wf _ _ _ Htk) (tk_old _ _ _ Htk) Hm3 Hs3)|..].
  2: { intros e s4 (Hq & T4 & Hs4 & Hm4 & Hf4). split; [done|]. exists T4. split_and!; [done|done|by rewrite Hf4]. }
  intros ? s4 (T4 & Hs4 & Hm4 & Hf4 & Hacks). exists T4. split_and!; [done|done| |by rewrite Hf4].
  assert (∀ n, n ∈ TUPLE_FILENAMES → T4 !! tuple_path slug n = T3 !! tuple_path slug n) as Hf5.
  { intros n _. apply Hf4. intros E'. by apply (f_equal length) in E'. }
  split.
  - destruct (tk_before _ _ _ Htk) as (d0 & Hd0 & HE0). exists data', d0, E. split_and!; try done.
    rewrite (registry_of_same T3 T4) by (by apply Hf4). rewrite (registry_of_same TR T3); [done|].
    apply Hf3. by intros [r E'].
  - intros n Hin. rewrite Hf5 by done. pose proof (proj2 (tk_all _ _ _ Htk n) Hin) as ([n' o] & -> & Hno)%list_elem_of_fmap.
    cbn [fst]. rewrite (Hfiles _ _ Hno), (tk_files _ _ _ Htk _ _ Hno). by destruct (T0 !! _).
  - intros k r0 Hk Hsl. destruct (tk_covers _ _ _ Htk) as [->|Hc].
    + pose proof (mid_retired _ _ _ _ _ _ Hm4) as Hret. rewrite (ledger_of_same T0 T4) by (by apply Hret; rewrite Eacks).
      by exists r0.
    + destruct (Hc k r0 Hk Hsl) as [r Er]. destruct (Hacks k r Er) as (r' & ? & Es).
      destruct (tk_old _ _ _ Htk k r Er) as (r1 & E1 & Es1). rewrite Hk in E1. injection E1 as <-.
      exists r'. split; [done|]. by rewrite Es.
Qed.

(** ** The steps of a journal *)

Lemma journal_file_valid : journal_file slug nm → hidden J = false ∧ ¬ stray J ∧ JOURNAL_NAME_RE nm = Some slug.
Proof.
  intros Hj. split_and!; [|by eapply journal_not_stray|by apply journal_file_name].
  rewrite <-(string_app_nil_r nm). by eapply journal_file_visible.
Qed.

Lemma wp_mark_step `{!UuidHex} body T s step :
  journal_file slug nm → journals slug nm "in-progress" body T → agrees T s →
  wp (mark_step J step)
    (λ _ s', ∃ T', agrees T' s' ∧ same_but J T T' ∧ journals slug nm "in-progress" body T')
    (λ e s', quiet = false ∧ ∃ T', agrees T' s' ∧ same_but J T T' ∧ journals slug nm "in-progress" body T') s.
Proof.
  intros Hj Hjr HT. destruct (journal_file_valid Hj) as (Hh & _ & _). pose proof Hjr as (d & l & HJ & Hd & Hval & Hl).
  unfold mark_step. apply wp_bind. eapply wp_mono; [apply (wp_read_json quiet T s J _ (JObj d) Hh HJ eq_refl HT)|..].
  2: { intros e s' [[Hq _] HT']. split; [done|]. by exists T. }
  intros ? s1 [-> Hs1]. cbn beta iota. rewrite setdefault_not_null by (by rewrite Hl). rewrite Hl.
  set (v := JList (l ++ [JStr step])).
  assert (sort_keys v = v) as Hv.
  { pose proof (sorted_get d "steps_done" Hd) as E. rewrite Hl in E. cbn in E. injection E as E.
    unfold v. cbn. f_equal. by rewrite map_app, E. }
  assert (∀ T', T' !! J = Some (Doc (sort_keys (JObj (dset d "steps_done" v)))) → journals slug nm "in-progress" body T') as Hset.
  { intros T' HT'. eapply journals_set; [exact Hd|exact Hv|exact HT'| |rewrite obj_get_dset; by eexists|exact Hjr].
    rewrite <-Hval. apply valid_payload_agree. intros k Hk. rewrite obj_get_dset, decide_False; [done|].
    intros ->. by apply (bool_decide_eq_true_1 _) in Hk || (revert Hk; set_solver). }
  eapply wp_mono; [apply (wp_fsync_write quiet T s1 slug nm _ Hj Hs1)|..].
  - intros ? s2 (T2 & Hs2 & HJ2 & Hb2). exists T2. split_and!; try done. by apply Hset.
  - intros e s2 ([Hq _] & T2 & Hs2 & HJ2 & Hb2). split; [done|]. exists T2. split_and!; try done.
    destruct HJ2 as [HJ2|HJ2]; [by eapply journals_same|by apply Hset].
Qed.

Lemma wp_complete `{!UuidHex} st body T s :
  journal_file slug nm → journals slug nm st body T → agrees T s →
  wp (complete J)
    (λ _ s', ∃ T', agrees T' s' ∧ same_but J T T' ∧ T' !! J = None)
    (λ e s', quiet = false ∧ ∃ T' st', agrees T' s' ∧ same_but J T T' ∧ (st' = st ∨ st' = "complete") ∧ journals slug nm st' body T') s.
Proof.
  intros Hj Hjr HT. destruct (journal_file_valid Hj) as (Hh & _ & _). pose proof Hjr as (d & l & HJ & Hd & Hval & Hl).
  unfold complete. apply wp_bind. eapply wp_mono; [apply (wp_read_json quiet T s J _ (JObj d) Hh HJ eq_refl HT)|..].
  2: { intros e s' [[Hq _] HT']. split; [done|]. exists T, st. split_and!; try done. by left. }
  intros ? s1 [-> Hs1]. cbn beta iota.
  assert (∀ T', T' !! J = Some (Doc (sort_keys (JObj (dset d "state" (JStr "complete"))))) → journals slug nm "complete" body T') as Hset.
  { intros T' HT'. eapply (journals_set _ _ _ _ "complete" _ _ _ _ _ Hd); [|exact HT'| | |exact Hjr]; [done| |rewrite obj_get_dset; by exists l].
    eapply valid_payload_set_state; [set_solver|exact Hval]. }
  apply wp_bind. eapply wp_mono; [apply (wp_fsync_write quiet T s1 slug nm _ Hj Hs1)|..].
  - intros ? s2 (T2 & Hs2 & HJ2 & Hb2). eapply wp_mono; [apply (wp_unlink quiet T2 s2 J Hh (mk_is_Some _ _ HJ2) Hs2)|..].
    + intros ? s3 Hs3. eexists. split_and!; [exact Hs3| |apply lookup_delete_eq]. apply same_but_delete; [by left|done].
    + intros e s3 [[Hq _] Hs3]. split; [done|]. exists T2, "complete". split_and!; try done; [by right|by apply Hset].
  - intros e s2 ([Hq _] & T2 & Hs2 & HJ2 & Hb2). split; [done|]. destruct HJ2 as [HJ2|HJ2].
    + exists T2, st. split_and!; try done; [by left|by eapply journals_same].
    + exists T2, "complete". split_and!; try done; [by right|by apply Hset].
Qed.
End steps.
End world.
