(* ===== verification/UninstallLaws.v ===== *)
(** * The steps of an uninstall: laws

    The boot that finds at most one journal, and what each step of an uninstall does to
    the files: retiring approvals, reading the tuple files, removing directories. *)

From S2P Require Import Prelude PyStr PyDict Json JsonOps Files FilesLaws PluginRegistry RegistryLaws RegistryProperties InstallConsent ConsentLaws BundleJournal JournalLaws BundleOps BundleLaws.
From stdpp Require Import gmap sorting.
#[local] Open Scope Z_scope.

(** ** The boot *)

Lemma iterdir_NoDup dir s : NoDup (iterdir dir s).
Proof.
  unfold iterdir. pose proof (NoDup_fst_map_to_list (tree s)) as Hnd.
  induction (map_to_list (tree s)) as [|[p c] l IH]; [constructor|]. rewrite fmap_cons in Hnd.
  apply NoDup_cons in Hnd as [Hp Hnd]. cbn [fst omap list_omap].
  destruct (listed dir p) as [n|] eqn:E; [|by apply IH].
  apply NoDup_cons. split; [|by apply IH]. intros ([p' c'] & Hin & E')%list_elem_of_omap. cbn in E'.
  apply listed_spec in E as ->. apply listed_spec in E' as ->. apply Hp. apply list_elem_of_fmap. by exists (dir ++ [n], c').
Qed.

Section boot.
Context `{Outside, PyText}.
Abbreviation agrees := (FilesLaws.agrees true).

Lemma reconcile_all_quarantined names s :
  Forall (λ n, is_quarantined n = true) names → reconcile_all names s = (Ok [], s).
Proof. induction 1 as [|n names Hn _ IH]; [done|]. cbn [reconcile_all]. by rewrite Hn. Qed.

(** A boot that finds at most one journal. *)
Lemma wp_reconcile_boot nm Q R s :
  is_quarantined nm = false →
  (∀ n, n ∈ iterdir OPS_DIR s → is_quarantined n = true ∨ n = nm) →
  (nm ∉ iterdir OPS_DIR s → Q [] s) →
  (nm ∈ iterdir OPS_DIR s → wp (reconcile_one nm) (λ a, Q [a]) R s) →
  wp reconcile_boot Q R s.
Proof.
  intros Hnm Hall Hno Hone. unfold reconcile_boot. apply wp_bind, wp_get.
  set (names := sorted_strings (iterdir OPS_DIR s)).
  assert (names ≡ₚ iterdir OPS_DIR s) as Hp by apply merge_sort_Permutation.
  destruct (decide (nm ∈ iterdir OPS_DIR s)) as [Hin|Hin].
  - assert (nm ∈ names) as (l1 & l2 & E)%list_elem_of_split by by rewrite Hp.
    assert (NoDup names) as Hnd by (rewrite Hp; apply iterdir_NoDup). rewrite E in Hnd.
    assert (∀ l, l ⊆ l1 ++ l2 → Forall (λ n, is_quarantined n = true) l) as Hl.
    { intros l Hl. apply Forall_forall. intros n Hn%Hl. destruct (Hall n) as [?| ->]; [|done|].
      { rewrite <-Hp, E. set_solver. }
      apply NoDup_app in Hnd as (_ & Hd & [Hnd _]%NoDup_cons). exfalso. set_solver. }
    rewrite E. clear E. induction l1 as [|n l1 IH]; cbn [app reconcile_all].
    + rewrite Hnm. apply wp_bind. eapply wp_mono; [by apply Hone| |done]. intros a s' HQ.
      apply wp_bind. unfold wp. rewrite reconcile_all_quarantined by (apply Hl; set_solver). exact HQ.
    + pose proof (Hl [n] ltac:(set_solver)) as [Hq _]%Forall_cons. rewrite Hq. apply IH.
      * cbn in Hnd. by apply NoDup_cons in Hnd as [_ ?].
      * intros l Hsub. apply Hl. set_solver.
  - unfold wp. rewrite reconcile_all_quarantined; [by apply Hno|]. apply Forall_forall. intros n Hn.
    rewrite Hp in Hn. destruct (Hall n Hn) as [?| ->]; done.
Qed.

Lemma boot_one T0 slug others nm E F recs st T s :
  journal_file slug nm → slug_upto 31 slug = Some "" →
  journals slug nm st (E, F, recs.*2) T → taken T0 slug E F recs →
  mid T0 slug others (OPS_DIR ++ [nm]) recs.*2 T → agrees T s →
  wp (reconcile_one nm)
    (λ _ s', ∃ T', agrees T' s' ∧ mid T0 slug others (OPS_DIR ++ [nm]) recs.*2 T' ∧ T' !! (OPS_DIR ++ [nm]) = None
      ∧ if decide (st = "complete") then same_but (OPS_DIR ++ [nm]) T T' else restored T0 slug others T')
    (λ _ _, False) s.
Proof.
  intros Hj Hs Hjr Htk Hm HT. destruct (journal_file_valid slug nm Hj) as (Hh & Hst & HRE).
  pose proof Hjr as (d & l & HJ & Hd & Hval & Hl). unfold reconcile_one. rewrite HRE.
  apply wp_bind, wp_try_except, wp_bind.
  eapply wp_mono; [apply (wp_read_json true T s _ _ (JObj d) Hh HJ eq_refl HT)| |by intros e s' [[? _] _]].
  intros ? s1 [-> Hs1]. apply wp_ret. cbn [mbind option_bind]. rewrite Hval. cbn beta iota.
  assert (∀ T1 s', agrees T1 s' → is_Some (T1 !! (OPS_DIR ++ [nm])) →
    wp (unlink (OPS_DIR ++ [nm])) (λ _, agrees (delete (OPS_DIR ++ [nm]) T1)) (λ _ _, False) s') as Hun.
  { intros T1 s' HT1 HJ1. eapply wp_mono; [apply (wp_unlink true T1 s' _ Hh HJ1 HT1)|done|by intros e s'' [[? _] _]]. }
  assert (∀ T1, same_but (OPS_DIR ++ [nm]) T1 (delete (OPS_DIR ++ [nm]) T1)) as Hdel.
  { intros T1. apply same_but_delete; [by left|done]. }
  destruct (decide (st = "complete")) as [->|Hne].
  - rewrite bool_decide_true by done. apply wp_bind. eapply wp_mono; [apply (Hun T s1 Hs1); by eexists| |done].
    intros ? s2 Hs2. apply wp_ret. eexists. split_and!; [exact Hs2|by eapply mid_same_but|apply lookup_delete_eq|done].
  - rewrite bool_decide_false by done. apply wp_bind, wp_except_any, wp_bind.
    eapply wp_mono; [apply (wp_rollback true T0 slug others nm recs.*2 Hs E F recs (mkTxn (OPS_DIR ++ [nm]) slug E F recs.*2 [] []) T s1 Htk eq_refl eq_refl eq_refl eq_refl eq_refl Hm Hs1)| |by intros e s' [? _]].
    intros ? s2 (T2 & Hs2 & Hm2 & Hr2 & HJ2). apply wp_ret, wp_bind.
    eapply wp_mono; [apply (Hun T2 s2 Hs2); rewrite HJ2; by eexists| |done].
    intros ? s3 Hs3. apply wp_ret. eexists. split_and!; [exact Hs3|by eapply mid_same_but|apply lookup_delete_eq|].
    eapply restored_elsewhere; [exact Hs|by eapply same_but_outside|done].
Qed.
End boot.

(** ** The steps of an uninstall *)

Section world.
Context `{Outside, PyText} (quiet : bool).
Abbreviation agrees := (FilesLaws.agrees quiet).

(** The approvals that [retire_slug] removes. *)
Record retired (T0 : Tree) (slug : string) (recs : list (string * row)) (T : Tree) : Prop := {
  rt_frame : ∀ p, p ≠ ACKS_PATH → T !! p = T0 !! p;
  rt_good : Forall good_row recs;
  rt_wf : wf_dict recs;
  rt_old : ∀ k r, dget recs k = Some r → dget (ledger_of T0) k = Some r;
  rt_covers : recs = [] ∨
    ∀ k r0, dget (ledger_of T0) k = Some r0 → of_slug slug (k, r0) = true → is_Some (dget recs k);
  rt_left : ∀ k r, dget (ledger_of T) k = Some r →
    ∃ r0, dget (ledger_of T0) k = Some r0 ∧ sorted_row r = sorted_row r0;
  rt_none : recs = [] → T !! ACKS_PATH = T0 !! ACKS_PATH;
  rt_gone : quiet = true → ∀ k r, dget (ledger_of T) k = Some r → of_slug slug (k, r) = false
}.

Lemma of_slug_sorted slug k r : good_row (k, r) → of_slug slug (k, sorted_row r) = of_slug slug (k, r).
Proof.
  intros Hg. rewrite !of_slug_good; [|done|by apply (good_sorted (k, r))]. cbn [snd].
  rewrite obj_get_sorted_row. apply sort_str_eq.
Qed.

Lemma ledger_good T k r : dget (ledger_of T) k = Some r → good_row (k, r).
Proof.
  intros E%dget_elem. pose proof (ledger_of_good T) as Hg. rewrite Forall_forall in Hg. by apply Hg.
Qed.

Lemma wp_retire T0 slug s :
  wf_dict (ledger_of T0) → agrees T0 s →
  wp (retire_slug slug)
    (λ rows s', ∃ recs T, rows = recs.*2 ∧ agrees T s' ∧ retired T0 slug recs T)
    (λ e s', quiet = false ∧ ∃ recs T, agrees T s' ∧ retired T0 slug recs T) s.
Proof.
  intros Hwf HT. unfold retire_slug. apply wp_bind.
  assert (∀ recs, recs = [] → (quiet = true → ∀ k r, dget (ledger_of T0) k = Some r → of_slug slug (k, r) = false) →
    retired T0 slug recs T0) as Hnone.
  { intros recs -> Hg. split; try done; [apply wf_nil|by left|eauto]. }
  eapply wp_mono; [by apply (wp_load quiet)|..].
  2: { intros e s' (Hq & _ & HT'). split; [done|]. exists [], T0. split; [done|]. apply Hnone; [done|congruence]. }
  intros l s1 [Hs1 Hl]. cbv zeta. set (recs := filter (λ p, of_slug slug p = true) l).
  set (kept := filter (λ p, of_slug slug p = false) l). change (dvals recs) with recs.*2.
  destruct (decide (recs = [])) as [E|Hne].
  { rewrite E. apply wp_ret. exists [], T0. split_and!; [done|done|]. apply Hnone; [done|].
    intros Hq. destruct Hl as [->|[? _]]; [|congruence]. intros k r Hk%dget_elem.
    apply not_true_is_false. intros Hsl. assert ((k, r) ∈ recs) as Hin by by apply list_elem_of_filter.
    rewrite E in Hin. by apply not_elem_of_nil in Hin. }
  destruct Hl as [->|[_ ->]]; [|done]. pose proof (ledger_of_good T0) as Hgood.
  assert (Forall good_row recs ∧ Forall good_row kept) as [Hr Hk].
  { rewrite !Forall_forall in *. split; intros p [_ Hp]%list_elem_of_filter; auto. }
  assert (retired T0 slug recs (persisted kept T0)) as Hret.
  { assert (∀ k, dget (ledger_of (persisted kept T0)) k = sorted_row <$> dget kept k) as Hd.
    { intros k. by rewrite ledger_of_persisted, dget_sorted_ledger. }
    split.
    - intros p Hp. unfold persisted. by rewrite lookup_insert_ne.
    - done.
    - by apply wf_filter.
    - intros k r. unfold recs. rewrite dget_filter by done. by intros [? _].
    - right. intros k r0 Hk0 Hsl. exists r0. unfold recs. by apply dget_filter.
    - intros k r. rewrite Hd. intros (r0 & Hr0 & ->)%fmap_Some. exists r0. unfold kept in Hr0.
      rewrite dget_filter in Hr0 by done. rewrite sorted_row_idemp. by destruct Hr0.
    - done.
    - intros _ k r. rewrite Hd. intros (r0 & Hr0 & ->)%fmap_Some. unfold kept in Hr0.
      rewrite dget_filter in Hr0 by done. destruct Hr0 as [Hr0 Hsl]. rewrite of_slug_sorted; [done|by eapply ledger_good]. }
  destruct recs as [|p0 recs0] eqn:Erecs; [done|]. rewrite <-Erecs in *. clear Hne.
  assert (∃ x y, recs.*2 = x :: y) as (x & y & Exy) by (rewrite Erecs; cbn; by eexists _, _).
  rewrite Exy. rewrite <-Exy. apply wp_bind. eapply wp_mono; [apply (wp_persist_ledger quiet T0 s1 kept Hs1)|..].
  - intros ? s2 Hs2. apply wp_ret. exists recs, (persisted kept T0). done.
  - intros e s2 [Hq [[_ Hs2]|[_ Hs2]]]; (split; [done|]); [|by exists recs, (persisted kept T0)].
    exists [], T0. split; [done|]. apply Hnone; [done|congruence].
Qed.

Lemma wp_snapshot T dir names s :
  (∀ n, n ∈ names → hidden (dir ++ [n]) = false) → agrees T s →
  wp (snapshot dir names)
    (λ F s', agrees T s' ∧ F.*1 = names ∧ ∀ n o, (n, o) ∈ F → o = text_of <$> T !! (dir ++ [n]))
    (λ e s', quiet = false ∧ agrees T s') s.
Proof.
  revert s. induction names as [|n names IH]; intros s Hv HT; cbn [snapshot].
  { apply wp_ret. split_and!; [done|done|by intros ? ? ?%not_elem_of_nil]. }
  apply wp_bind, wp_get, wp_bind.
  assert (hidden (dir ++ [n]) = false) as Hn by (apply Hv; left).
  assert (wp (if is_file (dir ++ [n]) s then let* c := read (dir ++ [n]) in mret (Some (text_of c)) else mret None)
    (λ o s', agrees T s' ∧ o = text_of <$> T !! (dir ++ [n])) (λ e s', quiet = false ∧ agrees T s') s) as Hw.
  { unfold is_file. rewrite (proj2 HT) by done. destruct (T !! (dir ++ [n])) as [c|] eqn:E.
    - rewrite bool_decide_true by done. apply wp_bind.
      eapply wp_mono; [apply (wp_read quiet T s _ c Hn E HT)|..].
      + intros ? s' [-> HT']. by apply wp_ret.
      + intros e s' [[? _] ?]. done.
    - rewrite bool_decide_false by (by intros [? ?]). by apply wp_ret. }
  eapply wp_mono; [exact Hw| |done]. intros o s1 [Hs1 ->]. apply wp_bind.
  eapply wp_mono; [apply (IH s1); [intros m Hm; apply Hv; by right|done]| |done].
  intros F s2 (Hs2 & <- & Ho). apply wp_ret. split_and!; [done|done|].
  intros m o [[= -> ->]|Hm]%elem_of_cons; [done|by apply Ho].
Qed.

(** Removing trees. *)
Definition only_removes (P : path → Prop) (T T' : Tree) : Prop :=
  (∀ p, ¬ P p → T' !! p = T !! p) ∧ ∀ p, T' !! p = T !! p ∨ T' !! p = None.

Lemma only_removes_refl P T : only_removes P T T.
Proof. split; [done|by left]. Qed.

Lemma only_removes_trans (P Q R : path → Prop) T1 T2 T3 :
  (∀ p, P p → R p) → (∀ p, Q p → R p) → only_removes P T1 T2 → only_removes Q T2 T3 → only_removes R T1 T3.
Proof.
  intros HP HQ [Hf Hn] [Hf' Hn']. split.
  - intros p Hp. rewrite Hf', Hf; auto.
  - intros p. destruct (Hn' p) as [-> | ->]; [apply Hn|by right].
Qed.

Lemma only_removes_delete P T p : P p → only_removes P T (delete p T).
Proof.
  intros Hp. split; intros q; [intros Hq|]; destruct (decide (q = p)) as [->|]; try done;
    rewrite ?lookup_delete_ne by done; rewrite ?lookup_delete_eq; auto.
Qed.

Lemma only_removes_gone P T T' p : only_removes P T T' → T !! p = None → T' !! p = None.
Proof. intros [_ Hn] E. destruct (Hn p) as [-> | ->]; done. Qed.

Lemma wp_remove_all (P : path → Prop) T (l : list path) s :
  Forall P l → agrees T s →
  wp (for_each l (λ p, except_os (all_or_nothing (remove_file p)) (mret tt)))
    (λ _ s', ∃ T', agrees T' s' ∧ only_removes P T T' ∧ (quiet = true → ∀ p, p ∈ l → T' !! p = None))
    (λ e s', quiet = false ∧ ∃ T', agrees T' s' ∧ only_removes P T T') s.
Proof.
  intros Hl. revert T s. induction Hl as [|p l Hp _ IH]; intros T s HT; cbn [for_each].
  { apply wp_ret. exists T. split_and!; [done|apply only_removes_refl|]. by intros _ p ?%not_elem_of_nil. }
  assert (∀ T1 s1, only_removes P T T1 → (quiet = true → T1 !! p = None) → agrees T1 s1 →
    wp (for_each l (λ p, except_os (all_or_nothing (remove_file p)) (mret tt)))
      (λ _ s', ∃ T', agrees T' s' ∧ only_removes P T T' ∧ (quiet = true → ∀ q, q ∈ p :: l → T' !! q = None))
      (λ e s', quiet = false ∧ ∃ T', agrees T' s' ∧ only_removes P T T') s1) as Hrest.
  { intros T1 s1 Ho Hq Hs1. eapply wp_mono; [apply (IH T1 s1 Hs1)|..].
    - intros ? s2 (T2 & Hs2 & Ho2 & Hq2). exists T2. split_and!; [done|by eapply (only_removes_trans P P P)|].
      intros E q [->|Hin]%elem_of_cons; [|by apply Hq2]. eapply only_removes_gone; [exact Ho2|by apply Hq].
    - intros e s2 (Hq2 & T2 & Hs2 & Ho2). split; [done|]. exists T2. split; [done|]. by eapply (only_removes_trans P P P). }
  apply wp_bind, wp_except_os. eapply wp_mono.
  - apply (wp_all_or_nothing quiet _ T (delete p T)); [intros s'; apply agrees_remove|done].
  - intros ? s1 Hs1. apply (Hrest (delete p T)); [by apply only_removes_delete|intros _; apply lookup_delete_eq|done].
  - intros e s1 [[Hq [-> | ->]] Hs1].
    + apply wp_ret, (Hrest T); [apply only_removes_refl|congruence|done].
    + split; [done|]. exists T. split; [done|apply only_removes_refl].
Qed.

Lemma wp_rmtree T dir s :
  agrees T s →
  wp (rmtree dir)
    (λ _ s', ∃ T', agrees T' s' ∧ only_removes (λ p, dir `prefix_of` p) T T'
       ∧ (quiet = true → ∀ p, hidden p = false → dir `prefix_of` p → T' !! p = None))
    (λ e s', quiet = false ∧ ∃ T', agrees T' s' ∧ only_removes (λ p, dir `prefix_of` p) T T') s.
Proof.
  intros HT. unfold rmtree. apply wp_bind, wp_get.
  assert (Forall (λ p, dir `prefix_of` p) (files_under dir s)) as Hin.
  { apply Forall_forall. intros p [Hp _]%list_elem_of_filter. by apply bool_decide_eq_true in Hp. }
  eapply wp_mono; [apply (wp_remove_all _ T _ s Hin HT)| |done].
  intros ? s1 (T1 & Hs1 & Ho & Hq). exists T1. split_and!; [done|done|]. intros E p Hp Hd.
  destruct (decide (p ∈ files_under dir s)) as [|Hl]; [by apply Hq|]. eapply only_removes_gone; [exact Ho|].
  rewrite <-(proj2 HT) by done. apply eq_None_not_Some. intros [c Hc]. apply Hl.
  apply list_elem_of_filter. split; [by apply bool_decide_eq_true|]. apply list_elem_of_fmap.
  exists (p, c). split; [done|]. by apply elem_of_map_to_list.
Qed.

(** What an uninstall removes of the operational files, and all of the directory. *)
Definition removes (op : op_dir) (slug : string) (p : path) : Prop :=
  slug_dir slug `prefix_of` p ∨
  match op with
  | RealDir => AGENTS_SPECIALISTS_DIR ++ [slug] `prefix_of` p
  | Link target => ∃ d, resolve_material_content_dir slug target = Some d ∧ d `prefix_of` p
  end.

Lemma removes_touched op slug p : removes op slug p → touched slug p.
Proof.
  intros [Hp|Hp]; [by right; right; left|]. do 3 right; left. destruct op as [|target].
  - destruct Hp as [r ->]. exists slug, r. split; [done|by left].
  - destruct Hp as (d & Hd & [r ->]). unfold resolve_material_content_dir in Hd. case_bool_decide as E; [|done].
    injection Hd as <-. exists target, r. split; [done|right].
    apply bind_Some in E as (t3 & E & _). apply bind_Some in E as (t2 & E & E3). apply bind_Some in E as (t1 & E1 & E2).
    apply after_prefix_spec in E1 as ->. apply after_prefix_spec in E2 as ->. apply after_prefix_spec in E3 as ->.
    rewrite <-!string_app_assoc. apply string_prefix_app.
Qed.

Lemma removes_elsewhere op slug p :
  removes op slug p → slug_upto 31 slug = Some "" → p ≠ REGISTRY_PATH ∧ p ≠ ACKS_PATH ∧ ∀ n, p ≠ OPS_DIR ++ [n].
Proof.
  intros Hp Hs. assert (∃ a r, p = "config" :: a :: r ∧ (a = "specialists" ∧ slug_dir slug `prefix_of` p ∨ a = "agents")) as (a & r & -> & Ha).
  { destruct Hp as [Hp|Hp].
    - pose proof Hp as [r ->]. eexists _, _. split; [done|by left].
    - destruct op; [destruct Hp as [r ->]; eexists _, _; split; [done|by right]|].
      destruct Hp as (d & Hd & [r ->]). unfold resolve_material_content_dir in Hd. case_bool_decide; [|done].
      injection Hd as <-. eexists _, _. split; [done|by right]. }
  split_and!.
  - intros [= -> _]. destruct Ha as [[? _]|?]; done.
  - done.
  - intros n E. destruct Ha as [[-> Hpre]| ->]; [|done]. eapply ops_not_under; [done|exact Hpre|by eexists].
Qed.

Lemma wp_uninstall_core T op slug s :
  slug_upto 31 slug = Some "" → agrees T s →
  wp (_uninstall_core op slug)
    (λ _ s', ∃ T', agrees T' s' ∧ only_removes (removes op slug) T T'
       ∧ (quiet = true → ∀ p, hidden p = false → removes op slug p → T' !! p = None))
    (λ e s', quiet = false ∧ ∃ T', agrees T' s' ∧ only_removes (removes op slug) T T') s.
Proof.
  intros Hs HT. unfold _uninstall_core, validate_specialist_slug, is_valid_slug. rewrite bool_decide_true by done.
  apply wp_bind, wp_ret.
  assert (wp (match op with
    | RealDir => rmtree (AGENTS_SPECIALISTS_DIR ++ [slug])
    | Link target => unseen ;;; match resolve_material_content_dir slug target with Some d => rmtree d | None => mret tt end
    end)
    (λ _ s', ∃ T', agrees T' s' ∧ only_removes (removes op slug) T T'
       ∧ (quiet = true → ∀ p, hidden p = false → ¬ slug_dir slug `prefix_of` p → removes op slug p → T' !! p = None))
    (λ e s', quiet = false ∧ ∃ T', agrees T' s' ∧ only_removes (removes op slug) T T') s) as Hw.
  { assert (∀ d, (∀ p, d `prefix_of` p → removes op slug p) → (∀ p, removes op slug p → slug_dir slug `prefix_of` p ∨ d `prefix_of` p) →
      ∀ s1, agrees T s1 → wp (rmtree d)
      (λ _ s', ∃ T', agrees T' s' ∧ only_removes (removes op slug) T T'
       ∧ (quiet = true → ∀ p, hidden p = false → ¬ slug_dir slug `prefix_of` p → removes op slug p → T' !! p = None))
      (λ e s', quiet = false ∧ ∃ T', agrees T' s' ∧ only_removes (removes op slug) T T') s1) as Hd.
    { intros d Hd1 Hd2 s1 Hs1. eapply wp_mono; [apply (wp_rmtree T d s1 Hs1)|..].
      - intros ? s2 (T2 & Hs2 & Ho & Hg). exists T2. split_and!; [done| |].
        + eapply (only_removes_trans _ (λ _, False)); [exact Hd1|done|exact Ho|apply only_removes_refl].
        + intros Hq p Hp Hn Hr. apply Hg; [done|done|]. by destruct (Hd2 p Hr).
      - intros e s2 (Hq & T2 & Hs2 & Ho). split; [done|]. exists T2. split; [done|].
        eapply (only_removes_trans _ (λ _, False)); [exact Hd1|done|exact Ho|apply only_removes_refl]. }
    destruct op as [|target].
    - apply Hd; [by right| |done]. by intros p [?|?]; [left|right].
    - apply wp_bind. eapply wp_mono; [apply (wp_unseen quiet _ _ HT)|..].
      2: { intros e s1 [[Hq _] Hs1]. split; [done|]. exists T. split; [done|apply only_removes_refl]. }
      intros ? s1 Hs1. destruct (resolve_material_content_dir slug target) as [d|] eqn:E.
      + apply Hd; [|..|done]; [intros p Hp; right; by exists d|].
        intros p [?|(d' & E' & ?)]; [by left|right]. rewrite E in E'. by injection E' as <-.
      + apply wp_ret. exists T. split_and!; [done|apply only_removes_refl|].
        intros _ p _ Hn [?|(d & E' & _)]; congruence. }
  apply wp_bind. eapply wp_mono; [exact Hw| |done]. intros ? s1 (T1 & Hs1 & Ho1 & Hg1).
  assert (∀ T2, only_removes (λ p, slug_dir slug `prefix_of` p) T1 T2 → only_removes (removes op slug) T T2) as Htr.
  { intros T2 Ho2. eapply only_removes_trans; [..|exact Ho1|exact Ho2]; [done|by left]. }
  eapply wp_mono; [apply (wp_rmtree T1 _ s1 Hs1)|..].
  - intros ? s2 (T2 & Hs2 & Ho2 & Hg2). exists T2. split_and!; [done|by apply Htr|].
    intros Hq p Hp Hr. destruct (decide (slug_dir slug `prefix_of` p)) as [Hpre|Hpre]; [by apply Hg2|].
    eapply only_removes_gone; [exact Ho2|]. by apply Hg1.
  - intros e s2 (Hq & T2 & Hs2 & Ho2). split; [done|]. exists T2. split; [done|by apply Htr].
Qed.
End world.
