(* ===== verification/UninstallProperties.v ===== *)
(** * What an uninstall guarantees

    Properties of [BundleOps]: an uninstall that is cut short anywhere is, after the
    next boot, either undone or done. *)

From S2P Require Import Prelude PyStr PyDict Json JsonOps Files FilesLaws PluginRegistry RegistryLaws RegistryProperties InstallConsent ConsentLaws BundleJournal JournalLaws BundleOps BundleLaws UninstallLaws BundleScenario.
From stdpp Require Import gmap sorting.
#[local] Open Scope Z_scope.

(** The tree in which an uninstall begins: the registry can be loaded, the ledger has
    each identity once, and no earlier journal is left. *)
Record ready `{Outside, PyText} (T0 : Tree) : Prop := {
  rd_registry : ∃ data, registry_of T0 = Ok data ∧ valid data = true ∧ Forall tame (plugins_of (raw data));
  rd_ledger : wf_dict (ledger_of T0);
  rd_journals : ∀ n, JOURNAL_NAME_RE n ≠ None → T0 !! (OPS_DIR ++ [n]) = None
}.

(** The entries of other owners. *)
Definition others_of `{Outside, PyText} (slug : string) (T0 : Tree) : list json :=
  match registry_of T0 with Ok data => not_owned slug (plugins_of (raw data)) | Raise _ => [] end.

Section world.
Context `{Outside, PyText} `{!UuidHex} (quiet : bool).
Abbreviation agrees := (FilesLaws.agrees quiet).
Context (T0 : Tree) (slug : string) (op : op_dir).
Hypothesis (valid_slug : slug_upto 31 slug = Some "").
Abbreviation others := (others_of slug T0).
Abbreviation J nm := (OPS_DIR ++ [nm]).

(** Nothing has changed, but for approvals of the slug. *)
Record unchanged (T : Tree) : Prop := {
  un_files : ∀ p, p ≠ ACKS_PATH → ¬ stray p → T !! p = T0 !! p;
  un_acks : ∀ k r, dget (ledger_of T) k = Some r →
    ∃ r0, dget (ledger_of T0) k = Some r0 ∧ sorted_row r = sorted_row r0
}.

(** The uninstall is done. *)
Record removed (T : Tree) : Prop := {
  rm_registry : ∃ data, registry_of T = Ok data ∧ valid data = true ∧ plugins_of (raw data) = others;
  rm_files : ∀ p, removes op slug p → T !! p = T0 !! p ∨ T !! p = None;
  rm_gone : quiet = true →
    (∀ p, hidden p = false → removes op slug p → T !! p = None) ∧
    ∀ k r, dget (ledger_of T) k = Some r → of_slug slug (k, r) = false
}.

Lemma removed_same T T' : same_outside_ops T T' → removed T → removed T'.
Proof.
  intros Hs [Hr Hf Hg]. assert (T' !! REGISTRY_PATH = T !! REGISTRY_PATH) as Er by (apply Hs; by intros [n E]).
  assert (T' !! ACKS_PATH = T !! ACKS_PATH) as Ea by (apply Hs; by intros [n E]).
  assert (∀ p, removes op slug p → T' !! p = T !! p) as Hp.
  { intros p Hp. apply Hs. intros [n E]. by eapply (removes_elsewhere op slug p Hp valid_slug). }
  split.
  - by rewrite (registry_of_same T T').
  - intros p Hrp. rewrite Hp by done. by apply Hf.
  - intros Hq. rewrite (ledger_of_same T T' Ea). destruct (Hg Hq) as [Hg1 Hg2]. split; [|done].
    intros p Hh Hrp. rewrite Hp by done. by apply Hg1.
Qed.

(** A journal that a boot can act on, of an uninstall that retired [K]. *)
Definition live (st nm : string) (K : list row) (T : Tree) : Prop :=
  mid T0 slug others (J nm) K T ∧
  ∃ E F recs, journals slug nm st (E, F, recs.*2) T ∧ taken T0 slug E F recs ∧ (recs.*2 = [] ↔ K = []).

(** What an uninstall can leave. *)
Definition settled (nm : string) (K : list row) (T : Tree) : Prop :=
  mid T0 slug others (J nm) K T ∧ (T !! J nm = None ∨ live "complete" nm K T)
  ∧ (restored T0 slug others T ∨ removed T).
Definition unsettled (nm : string) (K : list row) (T : Tree) : Prop :=
  live "in-progress" nm K T ∨ settled nm K T.
Definition aftermath (T : Tree) : Prop :=
  ∃ nm, journal_file slug nm ∧ (unchanged T ∨ ∃ K, unsettled nm K T).

(** ** What a journal records *)

Lemma mid_acks_param K K' nm T : (K = [] ↔ K' = []) → mid T0 slug others (J nm) K T → mid T0 slug others (J nm) K' T.
Proof. intros HK [Hf Hr Ha Hn]. split; try done. intros E. apply Hn. by apply HK. Qed.

Definition sorted_recs (recs : list (string * row)) : list (string * row) := dmap sorted_row recs.

Lemma sorted_recs_rows recs : (sorted_recs recs).*2 = sorted_row <$> recs.*2.
Proof. unfold sorted_recs, dmap. induction recs as [|[k r] recs IH]; [done|]. csimpl. by f_equal. Qed.

Lemma sorted_recs_nil (recs : list (string * row)) : sorted_row <$> recs.*2 = [] ↔ recs.*2 = [].
Proof. destruct recs; done. Qed.

Lemma sort_rows_twice (E : list row) : sorted_row <$> (sorted_row <$> E) = sorted_row <$> E.
Proof. rewrite <-list_fmap_compose. apply list_fmap_ext. intros _ e _. apply sorted_row_idemp. Qed.

Lemma taken_sorted E F F' recs :
  F' ≡ₚ F → taken T0 slug E F recs → taken T0 slug (sorted_row <$> E) F' (sorted_recs recs).
Proof.
  intros HF [Ht Ho Hb Hn Ha Hf Hg Hw Hold Hc]. split.
  - apply Forall_fmap, Forall_fmap. rewrite Forall_fmap in Ht. eapply Forall_impl; [exact Ht|].
    intros e He. change (tame (JObj (sorted_row e))). rewrite <-sort_keys_obj. by apply tame_sort.
  - apply Forall_fmap. eapply Forall_impl; [exact Ho|]. intros e He.
    change (owned_by slug (JObj (sorted_row e)) = true). rewrite <-sort_keys_obj. by rewrite owned_by_sort.
  - destruct Hb as (data & Hd & HE). exists data. by rewrite sort_rows_twice.
  - by rewrite HF.
  - intros n. by rewrite HF.
  - intros n o. rewrite HF. apply Hf.
  - unfold sorted_recs, dmap. apply Forall_fmap. eapply Forall_impl; [exact Hg|]. intros p Hp. by apply good_sorted.
  - by apply wf_dmap.
  - intros k r. unfold sorted_recs. rewrite dget_dmap. intros (r1 & Hr1 & ->)%fmap_Some.
    rewrite sorted_row_idemp. by apply Hold.
  - destruct Hc as [->|Hc]; [by left|right]. intros k r0 Hk Hs. unfold sorted_recs. rewrite dget_dmap.
    apply fmap_is_Some. by eapply Hc.
Qed.

(** What is recorded of [T0]: the valid entries of the slug in the journal, all of them
    by the transaction that the tool keeps. *)
Lemma owned_entries_taken data :
  registry_of T0 = Ok data → valid data = true →
  Forall tame (JObj <$> owned_entries_for slug data)
  ∧ Forall (λ e, owned_by slug (JObj e) = true) (owned_entries_for slug data).
Proof.
  intros Hr Hv. split.
  - apply Forall_fmap, Forall_forall. intros e [Ho He]%list_elem_of_filter. cbn. apply well_formed_tame.
    + unfold registry_of in Hr. destruct (T0 !! REGISTRY_PATH) as [c|];
        [|injection Hr as <-; by apply not_elem_of_nil in He].
      destruct (parsed c) as [v|]; [|injection Hr as <-; done]. rewrite outcome_bind_ok in Hr.
      destruct Hr as ([doc [[es iss] ok]] & Hval & [= <-]). cbn in *. subst ok.
      apply validation_spec in Hval as (d & l & -> & _ & _ & _ & Hwf & _). rewrite Forall_forall in Hwf. by apply Hwf.
    + unfold is_owned. apply negb_true_iff, bool_decide_eq_false. intros E. unfold entry_owner in Ho. by rewrite E in Ho.
  - apply Forall_forall. intros e [Ho _]%list_elem_of_filter. by apply bool_decide_eq_true.
Qed.

Lemma owned_rows_taken l :
  Forall tame l → Forall tame (JObj <$> owned_rows slug l) ∧ Forall (λ e, owned_by slug (JObj e) = true) (owned_rows slug l).
Proof.
  intros Hl. assert (∀ e, e ∈ owned_rows slug l → JObj e ∈ l ∧ owned_by slug (JObj e) = true) as Hin.
  { intros e (v & Hv & E)%list_elem_of_omap. destruct v as [| | | | | |r]; try done.
    destruct (owned_by slug (JObj r)) eqn:Eo; [|done]. by injection E as <-. }
  rewrite Forall_forall in Hl. split; [apply Forall_fmap|]; apply Forall_forall; intros e [He Ho]%Hin; [by apply Hl|done].
Qed.

(** ** Undoing *)

Lemma live_step st nm K T T' :
  mid T0 slug others (J nm) K T' → T' !! J nm = T !! J nm → live st nm K T → live st nm K T'.
Proof.
  intros Hm HJ [_ (E & F & recs & Hjr & Htk & HK)]. split; [done|]. exists E, F, recs.
  split_and!; [by eapply journals_same|done|done..].
Qed.

Lemma wp_finish nm K T s :
  journal_file slug nm → live "in-progress" nm K T → restored T0 slug others T ∨ removed T → agrees T s →
  wp (complete (J nm))
    (λ _ s', ∃ T', agrees T' s' ∧ same_outside_ops T T' ∧ mid T0 slug others (J nm) K T' ∧ T' !! J nm = None)
    (λ e s', quiet = false ∧ ∃ T', agrees T' s' ∧ unsettled nm K T') s.
Proof.
  intros Hj [Hm (E & F & recs & Hjr & Htk & HK)] Hdone HT.
  eapply wp_mono; [exact (wp_complete quiet slug nm valid_slug "in-progress" (E, F, recs.*2) T s Hj Hjr HT)|..].
  - intros ? s1 (T1 & Hs1 & Hb & HJ). exists T1. split_and!; [done|by eapply same_but_outside|by eapply mid_same_but|done].
  - intros e s1 (Hq & T1 & st & Hs1 & Hb & Hst & Hjr1). split; [done|]. exists T1. split; [done|].
    assert (live st nm K T1) as Hl by (split; [by eapply mid_same_but|by exists E, F, recs]).
    destruct Hst as [->| ->]; [by left|right]. split_and!; [apply Hl|by right|].
    pose proof (same_but_outside _ _ _ Hb) as Ho.
    destruct Hdone as [?|?]; [left; by eapply restored_elsewhere|right; by eapply removed_same].
Qed.

Lemma wp_undo nm E F recs txn T s :
  journal_file slug nm → taken T0 slug E F recs → live "in-progress" nm recs.*2 T →
  BundleJournal.slug txn = slug → before_entries txn = E → before_tuple_files txn = F → ack_records txn = recs.*2 →
  agrees T s →
  wp (rollback_disk txn)
    (λ _ s', ∃ T', agrees T' s' ∧ live "in-progress" nm recs.*2 T' ∧ restored T0 slug others T')
    (λ e s', quiet = false ∧ ∃ T', agrees T' s' ∧ live "in-progress" nm recs.*2 T') s.
Proof.
  intros Hj Htk Hl E1 E2 E3 E4 HT.
  eapply wp_mono; [apply (wp_rollback quiet T0 slug others nm recs.*2 valid_slug E F recs txn T s Htk eq_refl E1 E2 E3 E4 (proj1 Hl) HT)|..].
  - intros ? s1 (T1 & Hs1 & Hm1 & Hr1 & HJ1). exists T1. split_and!; [done|by eapply live_step|done].
  - intros e s1 (Hq & T1 & Hs1 & Hm1 & HJ1). split; [done|]. exists T1. split; [done|by eapply live_step].
Qed.

(** [rollback_disk] and [complete], on the way out of a failure. *)
Lemma wp_undo_complete nm E F recs txn T s :
  journal_file slug nm → taken T0 slug E F recs → live "in-progress" nm recs.*2 T →
  BundleJournal.slug txn = slug → before_entries txn = E → before_tuple_files txn = F → ack_records txn = recs.*2 →
  agrees T s →
  wp (rollback_disk txn ;;; complete (J nm))
    (λ _ s', ∃ T', agrees T' s' ∧ settled nm recs.*2 T')
    (λ e s', quiet = false ∧ ∃ T', agrees T' s' ∧ unsettled nm recs.*2 T') s.
Proof.
  intros Hj Htk Hl E1 E2 E3 E4 HT. apply wp_bind. eapply wp_mono; [by apply (wp_undo nm E F recs txn T s)|..].
  - intros ? s1 (T1 & Hs1 & Hl1 & Hr1). eapply wp_mono; [apply (wp_finish nm recs.*2 T1 s1 Hj Hl1 (or_introl Hr1) Hs1)| |done].
    intros ? s2 (T2 & Hs2 & Ho & Hm & HJ). exists T2. split; [done|]. split_and!; [done|by left|left].
    by eapply restored_elsewhere.
  - intros e s1 (Hq & T1 & Hs1 & Hl1). split; [done|]. exists T1. split; [done|by left].
Qed.

(** ** Doing *)

Lemma removal_mid nm K T T' : only_removes (removes op slug) T T' → mid T0 slug others (J nm) K T →
  mid T0 slug others (J nm) K T' ∧ T' !! REGISTRY_PATH = T !! REGISTRY_PATH ∧ T' !! ACKS_PATH = T !! ACKS_PATH
  ∧ T' !! J nm = T !! J nm.
Proof.
  intros [Hf _] Hm.
  assert (T' !! REGISTRY_PATH = T !! REGISTRY_PATH ∧ T' !! ACKS_PATH = T !! ACKS_PATH ∧ T' !! J nm = T !! J nm) as (Er & Ea & EJ).
  { split_and!; apply Hf; intros Hr; destruct (removes_elsewhere op slug _ Hr valid_slug) as (? & ? & Hn); try done.
    by apply (Hn nm). }
  split; [|done]. apply (mid_change T0 slug others nm K T); [|done..].
  intros p Hp _. apply Hf. intros Hr. by eapply Hp, removes_touched.
Qed.

(** The tree in which the entries are swapped out. *)
Record begun (T : Tree) : Prop := {
  bg_registry : registry_of T = registry_of T0;
  bg_files : ∀ p, removes op slug p → T !! p = T0 !! p;
  bg_acks : quiet = true → ∀ k r, dget (ledger_of T) k = Some r → of_slug slug (k, r) = false
}.

Lemma wp_body nm K F acks T s :
  journal_file slug nm → live "in-progress" nm K T → begun T → agrees T s →
  wp (let* (before_entries, _) := apply_owned_swap slug [] in
      _uninstall_core op slug ;;;
      mark_step (J nm) "committed" ;;;
      mret (mkTxn (J nm) slug before_entries F acks (artifact_ids before_entries) []))
    (λ txn s', (∃ data ids, registry_of T0 = Ok data ∧
        txn = mkTxn (J nm) slug (owned_rows slug (plugins_of (raw data))) F acks ids [])
      ∧ ∃ T', agrees T' s' ∧ live "in-progress" nm K T' ∧ removed T')
    (λ e s', quiet = false ∧ ∃ T', agrees T' s' ∧ live "in-progress" nm K T') s.
Proof.
  intros Hj Hl Hbg HT. assert (∀ p, removes op slug p → p ≠ REGISTRY_PATH) as HnR
    by (intros p Hp; by destruct (removes_elsewhere op slug p Hp valid_slug)).
  apply wp_bind. eapply wp_mono; [apply (wp_swap_out quiet T0 slug others nm K T s (proj1 Hl) HT)|..].
  2: { intros e s1 (Hq & T1 & Hs1 & Hm1 & Hf1). split; [done|]. exists T1. split; [done|]. eapply live_step; [done|by apply Hf1|done]. }
  intros [before ?] s1 (T1 & Hs1 & Hm1 & Hf1 & (data1 & Hr1 & Hv1 & Hp1) & data & Hr & Hb). cbn [fst] in Hb. cbn beta iota.
  assert (live "in-progress" nm K T1) as Hl1 by (eapply live_step; [done|by apply Hf1|done]).
  apply wp_bind. eapply wp_mono; [apply (wp_uninstall_core quiet T1 op slug s1 valid_slug Hs1)|..].
  2: { intros e s2 (Hq & T2 & Hs2 & Ho2). split; [done|]. exists T2. split; [done|].
       destruct (removal_mid nm K T1 T2 Ho2 Hm1) as (? & _ & _ & ?). by eapply live_step. }
  intros ? s2 (T2 & Hs2 & Ho2 & Hg2). destruct (removal_mid nm K T1 T2 Ho2 Hm1) as (Hm2 & Er & Ea & EJ).
  assert (live "in-progress" nm K T2) as Hl2 by (by eapply live_step).
  assert (removed T2) as Hrm2.
  { split.
    - exists data1. by rewrite (registry_of_same T1 T2).
    - intros p Hp. destruct (proj2 Ho2 p) as [->| ->]; [left|by right]. rewrite Hf1 by auto. by apply Hbg.
    - intros Hq. split; [by apply Hg2|]. rewrite (ledger_of_same T1 T2), (ledger_of_same T T1) by (done || by apply Hf1).
      by apply Hbg. }
  pose proof Hl2 as [_ (E & F' & recs & Hjr & Htk & HK)].
  apply wp_bind. eapply wp_mono; [exact (wp_mark_step quiet slug nm valid_slug (E, F', recs.*2) T2 s2 "committed" Hj Hjr Hs2)|..].
  - intros ? s3 (T3 & Hs3 & Hb3 & Hjr3). apply wp_ret. split.
    + exists data, (artifact_ids before). rewrite <-(bg_registry _ Hbg), <-Hb. done.
    + exists T3. split_and!; [done| |by eapply removed_same, Hrm2; eapply same_but_outside].
      split; [by eapply mid_same_but|by exists E, F', recs].
  - intros e s3 (Hq & T3 & Hs3 & Hb3 & Hjr3). split; [done|]. exists T3. split; [done|].
    split; [by eapply mid_same_but|by exists E, F', recs].
Qed.

(** ** The whole operation *)

(** The first system call does not fail.  When it does, the registry looks empty and the
    journal records no entries. *)
Definition reads_first (s : Fs) : Prop := match ahead s with Fails _ :: _ => False | _ => True end.

Lemma wp_load_first T s :
  reads_first s → agrees T s →
  wp load_registry (λ d s', agrees T s' ∧ registry_of T = Ok d)
    (λ e s', agrees T s' ∧ (registry_of T = Raise e ∨ quiet = false)) s.
Proof.
  intros Hfirst HT. unfold load_registry, registry_of. apply wp_bind, wp_get. unfold is_file.
  rewrite (proj2 HT) by done. destruct (T !! REGISTRY_PATH) as [c|] eqn:Hc.
  2: { rewrite bool_decide_false by (by intros [? ?]). by apply wp_ret. }
  rewrite bool_decide_true by done. cbn [negb]. apply wp_bind, wp_try_except, wp_bind, wp_bind.
  unfold read. apply wp_bind, wp_get. rewrite (proj2 HT) by done. rewrite Hc. apply wp_bind.
  assert (wp unseen (λ _, agrees T) (λ e s', e = PowerLoss ∧ quiet = false ∧ agrees T s') s) as Hu.
  { pose proof (wp_unseen quiet T s HT) as Hu. unfold reads_first in Hfirst. unfold wp, unseen, all_or_nothing, call in *.
    destruct (ahead s) as [|[|n|n] q]; [done|done|done|]. destruct Hu as [[Hq _] Hu]. done. }
  eapply wp_mono; [exact Hu| |by intros e s' (-> & Hq & HT'); split; [|right]]. intros ? s1 Hs1.
  apply wp_ret. destruct (parsed c) as [v|].
  - apply wp_ret, wp_ret, wp_bind, wp_lift; [intros r -> | intros e ->]; cbn; [done|]. split; [done|by left].
  - apply wp_raise, wp_ret, wp_ret. done.
Qed.

Lemma retired_mid nm recs T : ready T0 → retired quiet T0 slug recs T → mid T0 slug others (J nm) recs.*2 T.
Proof.
  intros [(data & Hr & Hv & Ht) _ _] [Hf Hg Hw Hold Hc Hleft Hnone Hgone]. split.
  - intros p Hp _. apply Hf. intros ->. apply Hp. by right; left.
  - exists data. rewrite (registry_of_same T0 T) by (by apply Hf). split_and!; [done..|]. unfold others_of. by rewrite Hr.
  - done.
  - intros E. apply fmap_nil_inv in E. by apply Hnone.
Qed.

Lemma not_begun nm K T :
  mid T0 slug others (J nm) K T → T !! J nm = T0 !! J nm →
  (∀ p, p ≠ ACKS_PATH → p ≠ J nm → ¬ stray p → T !! p = T0 !! p) → unchanged T.
Proof.
  intros Hm HJ Hf. split; [|apply (mid_acks _ _ _ _ _ _ Hm)]. intros p Hp Hs.
  destruct (decide (p = J nm)) as [->|Hn]; [done|by apply Hf].
Qed.

Lemma unchanged_aftermath T : unchanged T → aftermath T.
Proof.
  intros Hu. exists (slug +:+ "." +:+ uuid4_hex 0 +:+ ".json"). split; [|by left].
  eexists. split; [done|]. by destruct (uuid_hex 0%nat).
Qed.

Lemma unchanged_refl : unchanged T0.
Proof. split; [done|eauto]. Qed.

(** The transaction that a completed uninstall returns. *)
Definition txn_for (nm : string) (txn : BundleTxn) (K : list row) : Prop :=
  journal_path txn = J nm ∧ BundleJournal.slug txn = slug ∧ ack_records txn = K ∧
  ∃ recs, K = recs.*2 ∧ taken T0 slug (before_entries txn) (before_tuple_files txn) recs.

Definition uninstalled (txn : BundleTxn) (s : Fs) : Prop :=
  ∃ nm K T, journal_file slug nm ∧ txn_for nm txn K ∧ agrees T s ∧ live "in-progress" nm K T ∧ removed T.
Definition left_behind (s : Fs) : Prop := quiet = false ∧ ∃ T, agrees T s ∧ aftermath T.

Lemma unsettled_left nm K T s : quiet = false → journal_file slug nm → agrees T s → unsettled nm K T → left_behind s.
Proof. intros Hq Hj HT Hu. split; [done|]. exists T. split; [done|]. exists nm. split; [done|]. right. by exists K. Qed.

Lemma unchanged_left T s : quiet = false → agrees T s → unchanged T → left_behind s.
Proof. intros Hq HT Hu. split; [done|]. exists T. split; [done|]. by apply unchanged_aftermath. Qed.

(** The operation under its journal. *)
Lemma wp_journaled nm E F recs T s :
  journal_file slug nm → taken T0 slug E F recs →
  (∀ data, registry_of T0 = Ok data → taken T0 slug (owned_rows slug (plugins_of (raw data))) F recs) →
  live "in-progress" nm recs.*2 T → begun T → agrees T s →
  wp (on_failure
    (let* (before_entries, _) := apply_owned_swap slug [] in
     _uninstall_core op slug ;;;
     mark_step (J nm) "committed" ;;;
     mret (mkTxn (J nm) slug before_entries F recs.*2 (artifact_ids before_entries) []))
    (rollback_disk (mkTxn (J nm) slug E F recs.*2 [] []) ;;; complete (J nm)))
    uninstalled (λ _, left_behind) s.
Proof.
  intros Hj Htk Hrows Hl Hbg HT. apply wp_on_failure.
  eapply wp_mono; [apply (wp_body nm recs.*2 F recs.*2 T s Hj Hl Hbg HT)|..].
  - intros txn s1 [(d & ids & Hd & ->) (T1 & Hs1 & Hl1 & Hrm1)]. exists nm, recs.*2, T1. split_and!; try done.
    split_and!; [done..|]. exists recs. split; [done|by apply Hrows].
  - intros e s1 (Hq & T1 & Hs1 & Hl1).
    assert (wp ((rollback_disk (mkTxn (J nm) slug E F recs.*2 [] []) ;;; complete (J nm)) ;;; raise e : FsM BundleTxn)
      uninstalled (λ _, left_behind) s1) as Hundo.
    { apply wp_bind. eapply wp_mono; [by apply (wp_undo_complete nm E F recs _ T1 s1 Hj Htk Hl1)|..].
      - intros ? s2 (T2 & Hs2 & Hse2). apply wp_raise. eapply unsettled_left; [done|done|exact Hs2|by right].
      - intros e' s2 (_ & T2 & Hs2 & Hu2). by eapply unsettled_left. }
    destruct e; try exact Hundo. eapply unsettled_left; [done|done|exact Hs1|by left].
Qed.

(** Beginning a journal, or putting back what was retired for it. *)
Lemma wp_begin_or_restore E F recs Tr s :
  taken T0 slug E F recs → (∀ nm, mid T0 slug others (J nm) recs.*2 Tr) → (∀ p, p ≠ ACKS_PATH → Tr !! p = T0 !! p) →
  agrees Tr s →
  wp (on_failure (begin "uninstall" slug E F recs.*2 "" "" "") (restore_records recs.*2))
    (λ p s', ∃ nm T, p = J nm ∧ journal_file slug nm ∧ agrees T s' ∧ live "in-progress" nm recs.*2 T ∧ same_but (J nm) Tr T)
    (λ _, left_behind) s.
Proof.
  intros Htk Hmid Hf HT.
  assert (∀ nm T F', F' ≡ₚ F → same_but (J nm) Tr T →
    journals slug nm "in-progress" (sorted_row <$> E, F', sorted_row <$> recs.*2) T → live "in-progress" nm recs.*2 T) as Hlive.
  { intros nm T F' HF' Hb Hjr. split; [by eapply mid_same_but|]. eexists _, F', (sorted_recs recs).
    rewrite sorted_recs_rows. split_and!; [exact Hjr|by eapply taken_sorted|apply sorted_recs_nil]. }
  assert (F.*1 ⊆ TUPLE_FILENAMES) as HFsub by (intros n; apply (tk_all _ _ _ _ _ Htk)).
  apply wp_on_failure.
  eapply wp_mono; [apply (wp_begin quiet Tr s "uninstall" slug E F recs.*2 "" "" "" valid_slug eq_refl HFsub HT)|..].
  - intros p s1 (nm & T1 & F' & -> & Hj & HF' & Hs1 & Hb1 & Hjr1). exists nm, T1. split_and!; try done. by eapply Hlive.
  - intros e s1 (Hq & nm & T1 & F' & Hj & HF' & Hs1 & Hb1 & HJ1).
    assert (mid T0 slug others (J nm) recs.*2 T1) as Hm1 by (by eapply mid_same_but).
    assert (∀ T2 s', agrees T2 s' → mid T0 slug others (J nm) recs.*2 T2 → (∀ p, p ≠ ACKS_PATH → T2 !! p = T1 !! p) →
      left_behind s') as Hend.
    { intros T2 s' HTs Hm2 Hf2. destruct HJ1 as [HJ1|Hjr1].
      - apply (unchanged_left T2); [done..|]. apply (not_begun nm recs.*2); [done|by rewrite Hf2, HJ1, Hf|].
        intros p Hpa Hpj Hps. by rewrite Hf2, Hb1, Hf.
      - eapply unsettled_left; [done|done|exact HTs|left]. eapply live_step; [done|by apply Hf2|by eapply Hlive]. }
    assert (∀ Q, wp (restore_records recs.*2 ;;; raise e : FsM path) Q (λ _, left_behind) s1) as Hrestore.
    { intros Q. apply wp_bind. eapply wp_mono; [apply (wp_restore_acks quiet T0 slug others nm recs.*2 recs T1 s1 eq_refl
        (tk_good _ _ _ _ _ Htk) (tk_wf _ _ _ _ _ Htk) (tk_old _ _ _ _ _ Htk) Hm1 Hs1)|..].
      - intros ? s2 (T2 & Hs2 & Hm2 & Hf2 & _). apply wp_raise. by eapply Hend.
      - intros e' s2 (_ & T2 & Hs2 & Hm2 & Hf2). by eapply Hend. }
    destruct e; try apply Hrestore. by eapply Hend.
Qed.

Lemma begun_same nm recs Tr T :
  retired quiet T0 slug recs Tr → same_but (J nm) Tr T → begun T.
Proof.
  intros [Hf _ _ _ _ _ _ Hgone] Hb. pose proof (same_but_outside _ _ _ Hb) as Ho. split.
  - rewrite (registry_of_same Tr T) by (apply Ho; by intros [m Em]). by apply registry_of_same, Hf.
  - intros q Hq. destruct (removes_elsewhere op slug q Hq valid_slug) as (_ & Hqa & Hqo).
    rewrite Ho by (intros [m ->]; by apply (Hqo m)). by apply Hf.
  - intros Hq. rewrite (ledger_of_same Tr T) by (apply Ho; by intros [m Em]). by apply Hgone.
Qed.

(** The texts of the tuple files. *)
Lemma wp_tuple_files s :
  agrees T0 s →
  wp (_tuple_files_snapshot (slug_dir slug))
    (λ F s', agrees T0 s' ∧ NoDup F.*1 ∧ (∀ n, n ∈ F.*1 ↔ n ∈ TUPLE_FILENAMES)
       ∧ ∀ n o, (n, o) ∈ F → o = text_of <$> T0 !! tuple_path slug n)
    (λ _ s', quiet = false ∧ agrees T0 s') s.
Proof.
  intros HT. assert (sorted_strings TUPLE_FILENAMES ≡ₚ TUPLE_FILENAMES) as Hp by apply merge_sort_Permutation.
  eapply wp_mono; [apply (wp_snapshot quiet T0 (slug_dir slug) (sorted_strings TUPLE_FILENAMES) s); [|done]| |done].
  - intros n Hn. apply tuple_path_visible. by rewrite Hp in Hn.
  - intros F s1 (Hs1 & HF & Hft). split_and!; [done|..|done].
    + rewrite HF, Hp. apply (bool_decide_eq_true_1 _). by vm_compute.
    + intros n. by rewrite HF, Hp.
Qed.

Lemma wp_uninstall_specialist s :
  ready T0 → reads_first s → agrees T0 s →
  wp (uninstall_specialist op slug) uninstalled (λ _, left_behind) s.
Proof.
  intros Hready Hfirst HT. pose proof (rd_registry _ Hready) as (data & Hr & Hv & Ht).
  pose proof (λ s Hq HT', unchanged_left T0 s Hq HT' unchanged_refl) as Hnothing.
  unfold uninstall_specialist, validate_specialist_slug, is_valid_slug. rewrite bool_decide_true by done.
  apply wp_bind, wp_ret, wp_bind. eapply wp_mono; [apply (wp_load_first T0 s Hfirst HT)|..].
  2: { intros e s' [HT' [?|Hq]]; [congruence|by apply Hnothing]. }
  intros data' s1 [Hs1 Hr']. assert (data' = data) as -> by congruence. cbv zeta.
  apply wp_bind. eapply wp_mono; [apply (wp_tuple_files s1 Hs1)| |intros e s' [Hq HT']; by apply Hnothing].
  intros F s2 (Hs2 & HFd & HFn & Hft).
  apply wp_bind. eapply wp_mono; [apply (wp_retire quiet T0 slug s2 (rd_ledger _ Hready) Hs2)|..].
  2: { intros e s' (Hq & recs & T' & HT' & Hret). apply (unchanged_left T'); [done..|].
       split; [intros; by apply (rt_frame _ _ _ _ _ Hret)|apply (rt_left _ _ _ _ _ Hret)]. }
  intros K s3 (recs & Tr & -> & Hs3 & Hret).
  assert (∀ E, Forall tame (JObj <$> E) ∧ Forall (λ e, owned_by slug (JObj e) = true) E →
    (sorted_row <$> E = sorted_row <$> owned_entries_for slug data
     ∨ sorted_row <$> E = sorted_row <$> owned_rows slug (plugins_of (raw data))) → taken T0 slug E F recs) as Htk.
  { intros E' [? ?] HE'. pose proof Hret as [_ Hg Hw Hold Hc _ _ _]. split; try done; [by exists data|].
    intros k r Hk. exists r. by split; [apply Hold|]. }
  pose proof (Htk _ (owned_entries_taken data Hr Hv) (or_introl eq_refl)) as HtkE.
  apply wp_bind. eapply wp_mono; [apply (wp_begin_or_restore _ F recs Tr s3 HtkE)|..]; [..|done].
  - intros nm. by apply retired_mid.
  - apply (rt_frame _ _ _ _ _ Hret).
  - done.
  - intros p s4 (nm & T4 & -> & Hj & Hs4 & Hl4 & Hb4). apply (wp_journaled nm _ F recs T4); try done.
    + intros d Hd. assert (d = data) as -> by congruence. apply Htk; [by apply owned_rows_taken|by right].
    + by eapply begun_same.
Qed.

(** ** The tool *)

Definition undone (nm : string) (K : list row) (T : Tree) : Prop :=
  live "in-progress" nm K T ∨ mid T0 slug others (J nm) K T ∧ T !! J nm = None ∧ restored T0 slug others T.

Lemma undone_unsettled nm K T : undone nm K T → unsettled nm K T.
Proof. intros [?|(? & ? & ?)]; [by left|right]. split_and!; [done|by left..]. Qed.

Lemma wp_compensate nm K again txn T s :
  journal_file slug nm → txn_for nm txn K → live "in-progress" nm K T → agrees T s →
  wp (_bundle_compensate again txn)
    (λ _ s', ∃ T', agrees T' s' ∧ undone nm K T')
    (λ e s', (quiet = false ∨ again = Raise e) ∧ ∃ T', agrees T' s' ∧ unsettled nm K T') s.
Proof.
  intros Hj (EJ & Es & Ek & recs & -> & Htk) Hl HT. unfold _bundle_compensate. apply wp_bind, wp_except_any, wp_bind.
  eapply wp_mono; [by apply (wp_undo nm _ _ recs txn T s Hj Htk Hl)|..].
  2: { intros e s1 (Hq & T1 & Hs1 & Hl1).
       assert ((quiet = false ∨ again = Raise e) ∧ ∃ T', agrees T' s1 ∧ unsettled nm recs.*2 T') as Hdie
         by (split; [by left|]; exists T1; split; [done|by left]).
       destruct e; try exact Hdie; apply wp_ret, wp_ret; exists T1; (split; [done|by left]). }
  intros ? s1 (T1 & Hs1 & Hl1 & Hr1). apply wp_ret, wp_bind.
  assert (wp (except_any (lift again) (mret tt)) (λ _ s', s' = s1) (λ e s', again = Raise e ∧ s' = s1) s1) as Ha
    by (by destruct again as [[]|[]]).
  eapply wp_mono; [exact Ha|..].
  2: { intros e s' [He ->]. split; [by right|]. exists T1. split; [done|by left]. }
  intros ? ? ->. apply wp_bind. rewrite EJ.
  eapply wp_mono; [apply (wp_finish nm recs.*2 T1 s1 Hj Hl1 (or_introl Hr1) Hs1)|..].
  - intros ? s2 (T2 & Hs2 & Ho & Hm & HJ2). apply wp_ret. exists T2. split; [done|]. right. split_and!; [done|done|].
    by eapply restored_elsewhere.
  - intros e s2 (Hq & T2 & Hs2 & Hu). split; [by left|]. by exists T2.
Qed.

(** What an answer of the tool says about the files. *)
Definition answer (r : tool_result) (T : Tree) : Prop :=
  match r with
  | Refused => quiet = false ∧ aftermath T
  | Uninstalled => ∃ nm K, journal_file slug nm ∧ mid T0 slug others (J nm) K T ∧ T !! J nm = None ∧ removed T
  | SequenceFailed _ => ∃ nm K, journal_file slug nm ∧ undone nm K T
  end.

Lemma answer_aftermath r T : answer r T → aftermath T.
Proof.
  destruct r as [|b|]; [by intros [_ ?]|..].
  - intros (nm & K & Hj & Hu). exists nm. split; [done|]. right. exists K. by apply undone_unsettled.
  - intros (nm & K & Hj & Hm & HJ & Hrm). exists nm. split; [done|]. right. exists K. right. split_and!; [done|by left|by right].
Qed.

Lemma wp_specialist_uninstall seq again s :
  ready T0 → reads_first s → agrees T0 s →
  wp (specialist_uninstall seq again op slug)
    (λ r s', ∃ T, agrees T s' ∧ answer r T ∧ (quiet = true → seq = Ok true → r = Uninstalled))
    (λ e s', (quiet = true → seq ≠ Ok true) ∧ ∃ T, agrees T s' ∧ aftermath T) s.
Proof.
  intros Hready Hfirst HT. unfold specialist_uninstall. apply wp_bind, wp_try_except, wp_bind.
  eapply wp_mono; [by apply wp_uninstall_specialist|..].
  2: { intros e s1 (Hq & T1 & Hs1 & Ha1).
       assert ((quiet = true → seq ≠ Ok true) ∧ ∃ T, agrees T s1 ∧ aftermath T) as Hr by (split; [congruence|eauto]).
       destruct e; try exact Hr. apply wp_ret, wp_ret. exists T1. split_and!; [done|done|congruence]. }
  intros txn s1 (nm & K & T1 & Hj & Htx & Hs1 & Hl1 & Hrm1). apply wp_ret, wp_bind.
  assert (∀ s' T', (quiet = true → seq ≠ Ok true) → agrees T' s' → unsettled nm K T' →
    (quiet = true → seq ≠ Ok true) ∧ ∃ T, agrees T s' ∧ aftermath T) as Hend.
  { intros s' T' Hq Hs' Hu. split; [done|]. exists T'. split; [done|]. exists nm. split; [done|]. right. by exists K. }
  unfold on_exception. apply wp_try_except. destruct seq as [[]|e].
  - cbn beta iota. apply wp_lift; [|done]. intros ? [= <-]. apply wp_bind.
    rewrite (proj1 Htx). eapply wp_mono; [apply (wp_finish nm K T1 s1 Hj Hl1 (or_intror Hrm1) Hs1)|..].
    + intros ? s2 (T2 & Hs2 & Ho & Hm & HJ2). apply wp_ret. exists T2. split_and!; [done| |done].
      exists nm, K. split_and!; try done. by eapply removed_same.
    + intros e s2 (Hq & T2 & Hs2 & Hu). eapply Hend; [congruence|done|done].
  - apply wp_lift; [|done]. intros ? [= <-]. cbn beta iota. apply wp_bind.
    eapply wp_mono; [by apply (wp_compensate nm K again txn T1 s1)|..].
    + intros b s2 (T2 & Hs2 & Hu). apply wp_ret. exists T2. split_and!; [done| |done]. by exists nm, K.
    + intros e s2 (_ & T2 & Hs2 & Hu). by eapply Hend.
  - apply wp_lift; [done|]. intros ? [= <-].
    assert ((quiet = true → (Raise e : outcome bool) ≠ Ok true) ∧ ∃ T, agrees T s1 ∧ aftermath T) as Hdie
      by (eapply Hend; [done|exact Hs1|by left]).
    assert (∀ Q, wp ((_bundle_compensate again txn ;;; mret tt) ;;; raise e : FsM bool) Q
      (λ _ s', (quiet = true → (Raise e : outcome bool) ≠ Ok true) ∧ ∃ T, agrees T s' ∧ aftermath T) s1) as Hcomp.
    { intros Q. apply wp_bind, wp_bind. eapply wp_mono; [by apply (wp_compensate nm K again txn T1 s1)|..].
      - intros b s2 (T2 & Hs2 & Hu). apply wp_ret, wp_raise. eapply Hend; [done|done|by apply undone_unsettled].
      - intros e' s2 (_ & T2 & Hs2 & Hu). by eapply Hend. }
    destruct e; try apply Hcomp; exact Hdie.
Qed.

(** ** The boot after it *)

Abbreviation calmly := (FilesLaws.agrees true).

(** No temporary file of a journal was left. *)
Definition clean (s : Fs) : Prop := ∀ n, n ∈ iterdir OPS_DIR s → ¬ stray (OPS_DIR ++ [n]).

Lemma journal_name_visible n : JOURNAL_NAME_RE n ≠ None → hidden (OPS_DIR ++ [n]) = false.
Proof.
  rewrite hidden_snoc. destruct n as [|c n]; [done|]. cbn [JOURNAL_NAME_RE].
  destruct (lower_alnum c) eqn:Hc; [|done]. intros _. rewrite string_prefix_cons. by rewrite bool_decide_false by (by intros <-).
Qed.

Lemma journal_untouched n : JOURNAL_NAME_RE n ≠ None → ¬ touched slug (OPS_DIR ++ [n]).
Proof.
  intros Hn [E|[E|[Hp|[(m & r & E & _)|(m & E & Hm & _)]]]]; try done.
  - eapply ops_not_under; [done|exact Hp|by eexists].
  - apply (inj (OPS_DIR ++.)) in E. injection E as ->. done.
Qed.

(** The names that a boot looks at. *)
Lemma boot_names nm T s :
  ready T0 → (∀ p, ¬ touched slug p → p ≠ J nm → T !! p = T0 !! p) → calmly T s → clean s →
  ∀ n, n ∈ iterdir OPS_DIR s → is_quarantined n = true ∨ n = nm.
Proof.
  intros Hready Hf HT Hclean n Hn. destruct (is_quarantined n) eqn:Eq; [by left|right].
  assert (JOURNAL_NAME_RE n ≠ None) as HRE by (intros HRE; apply (Hclean n Hn); by exists n).
  destruct (decide (n = nm)) as [|Hne]; [done|exfalso]. apply elem_of_iterdir in Hn as [c Hc].
  rewrite (proj2 HT) in Hc by (by apply journal_name_visible). rewrite Hf in Hc.
  - by rewrite (rd_journals _ Hready) in Hc.
  - by apply journal_untouched.
  - intros E. apply (inj (OPS_DIR ++.)) in E. by injection E.
Qed.

Lemma wp_boot nm K T s :
  ready T0 → journal_file slug nm → mid T0 slug others (J nm) K T → calmly T s → clean s →
  (T !! J nm = None ∨ ∃ st, live st nm K T) →
  wp reconcile_boot
    (λ _ s', ∃ K' T', calmly T' s' ∧ mid T0 slug others (J nm) K' T' ∧ T' !! J nm = None
      ∧ (live "in-progress" nm K T ∧ restored T0 slug others T'
         ∨ (T !! J nm = None ∨ live "complete" nm K T) ∧ same_outside_ops T T'))
    (λ _ _, False) s.
Proof.
  intros Hready Hj Hm HT Hclean Hl. pose proof (journal_file_live _ _ Hj) as Hq.
  assert (nm ∈ iterdir OPS_DIR s ↔ T !! J nm ≠ None) as Hin.
  { rewrite elem_of_iterdir, (proj2 HT), not_eq_None_Some; [done|]. apply journal_name_visible.
    by rewrite (journal_file_name _ _ Hj). }
  apply (wp_reconcile_boot nm); [done| |..].
  - apply (boot_names nm T); [done|apply (mid_frame _ _ _ _ _ _ Hm)|done..].
  - intros Hn. assert (T !! J nm = None) as HJ by (destruct (T !! J nm); [exfalso; apply Hn; by apply Hin|done]).
    exists K, T. split_and!; [done..|]. right. split; [by left|by intros p _].
  - intros Hn%Hin. destruct Hl as [?|[st Hl]]; [done|]. pose proof Hl as [_ (E & F & recs & Hjr & Htk & HK)].
    assert (mid T0 slug others (J nm) recs.*2 T) as Hm' by (by apply (mid_acks_param K)).
    eapply wp_mono; [apply (boot_one T0 slug others nm E F recs st T s Hj valid_slug Hjr Htk Hm' HT)| |done].
    intros a s1 (T1 & Hs1 & Hm1 & HJ1 & Hcase). exists recs.*2, T1. split_and!; [done..|].
    destruct (decide (st = "complete")) as [->|Hst].
    + right. split; [by right|]. by eapply same_but_outside.
    + left. destruct Hjr as (d & l & _ & _ & Hval & _). destruct (valid_payload_state _ _ _ _ Hval) as [Hs _].
      assert (st = "in-progress") as -> by set_solver. done.
Qed.

(** What a boot leaves. *)
Record at_rest (T : Tree) : Prop := {
  ar_frame : ∀ p, ¬ touched slug p → T !! p = T0 !! p;
  ar_acks : ∀ k r, dget (ledger_of T) k = Some r →
    ∃ r0, dget (ledger_of T0) k = Some r0 ∧ sorted_row r = sorted_row r0;
  ar_journals : ∀ n, JOURNAL_NAME_RE n ≠ None → T !! (OPS_DIR ++ [n]) = None
}.

Lemma mid_at_rest nm K T :
  ready T0 → journal_file slug nm → mid T0 slug others (J nm) K T → T !! J nm = None → at_rest T.
Proof.
  intros Hready Hj [Hf _ Ha _] HJ.
  assert (∀ p, ¬ touched slug p → T !! p = T0 !! p) as Hf'.
  { intros p Hp. destruct (decide (p = J nm)) as [->|Hn]; [|by apply Hf].
    rewrite HJ, (rd_journals _ Hready); [done|]. by rewrite (journal_file_name _ _ Hj). }
  split; [done|done|]. intros n Hn. rewrite Hf' by (by apply journal_untouched). by apply (rd_journals _ Hready).
Qed.

Lemma unchanged_at_rest T : ready T0 → unchanged T → at_rest T.
Proof.
  intros Hready [Hf Ha]. assert (∀ p, ¬ touched slug p → T !! p = T0 !! p) as Hf'.
  { intros p Hp. apply Hf; [intros ->; apply Hp; by right; left|]. intros Hs. apply Hp. by do 4 right. }
  split; [done|done|]. intros n Hn. rewrite Hf' by (by apply journal_untouched). by apply (rd_journals _ Hready).
Qed.

Lemma wp_boot_unchanged T s :
  ready T0 → unchanged T → calmly T s → clean s →
  wp reconcile_boot (λ _ s', calmly T s') (λ _ _, False) s.
Proof.
  intros Hready Hu HT Hclean. pose proof (unchanged_at_rest T Hready Hu) as [Hf _ Hj].
  set (nm := slug +:+ "." +:+ uuid4_hex 0 +:+ ".json").
  assert (journal_file slug nm) as Hnm by (eexists; split; [done|]; by destruct (uuid_hex 0%nat)).
  apply (wp_reconcile_boot nm); [by eapply journal_file_live| |done|].
  - apply (boot_names nm T); [done|by intros p Hp _; apply Hf|done..].
  - rewrite elem_of_iterdir. assert (JOURNAL_NAME_RE nm ≠ None) as HRE by (by rewrite (journal_file_name _ _ Hnm)).
    rewrite (proj2 HT) by (by apply journal_name_visible). rewrite Hj by done. by intros [? ?].
Qed.

Lemma live_some st nm K T : live st nm K T → T !! J nm ≠ None.
Proof. intros [_ (E & F & recs & (d & l & HJ & _) & _)]. by rewrite HJ. Qed.

Lemma live_state st st' nm K K' T : live st nm K T → live st' nm K' T → st = st'.
Proof.
  intros [_ (E & F & recs & (d & l & HJ & _ & Hv & _) & _)] [_ (E' & F' & recs' & (d' & l' & HJ' & _ & Hv' & _) & _)].
  rewrite HJ in HJ'. injection HJ' as <-. rewrite Hv in Hv'. by injection Hv'.
Qed.

Lemma not_in_progress nm K T :
  live "in-progress" nm K T → T !! J nm = None ∨ live "complete" nm K T → False.
Proof. intros Hl [HJ|Hc]; [by eapply live_some|]. by pose proof (live_state _ _ _ _ _ _ Hl Hc). Qed.

(** After any end of the tool. *)
Lemma wp_boot_aftermath T s :
  ready T0 → aftermath T → calmly T s → clean s →
  wp reconcile_boot (λ _ s', ∃ T', calmly T' s' ∧ at_rest T' ∧ (unchanged T' ∨ restored T0 slug others T' ∨ removed T'))
    (λ _ _, False) s.
Proof.
  intros Hready (nm & Hj & [Hu|[K Hu]]) HT Hclean.
  - eapply wp_mono; [apply (wp_boot_unchanged T s Hready Hu HT Hclean)| |done]. intros ? s1 Hs1. exists T.
    split_and!; [done|by apply unchanged_at_rest|by left].
  - assert (mid T0 slug others (J nm) K T ∧ (T !! J nm = None ∨ ∃ st, live st nm K T)) as [Hm Hl].
    { destruct Hu as [Hl|(Hm & [HJ|Hl] & _)]; (split; [done || apply Hl|]); eauto. }
    eapply wp_mono; [apply (wp_boot nm K T s Hready Hj Hm HT Hclean Hl)| |done].
    intros ? s1 (K' & T1 & Hs1 & Hm1 & HJ1 & Hcase). exists T1. split_and!; [done|by eapply mid_at_rest|].
    destruct Hcase as [[_ Hr]|[HJ Ho]]; [by right; left|].
    destruct Hu as [Hp|(_ & _ & [Hr|Hr])]; [by destruct (not_in_progress _ _ _ Hp HJ)|..].
    + right; left. by eapply restored_elsewhere.
    + right; right. by eapply removed_same.
Qed.

(** After an answer. *)
Lemma wp_boot_answer r T s :
  ready T0 → answer r T → calmly T s → clean s →
  wp reconcile_boot (λ _ s', ∃ T', calmly T' s' ∧ at_rest T' ∧
      match r with
      | Refused => unchanged T' ∨ restored T0 slug others T' ∨ removed T'
      | SequenceFailed _ => restored T0 slug others T'
      | Uninstalled => removed T'
      end) (λ _ _, False) s.
Proof.
  intros Hready Ha HT Hclean. destruct r as [|b|].
  - apply wp_boot_aftermath with (T := T); [done|apply Ha|done..].
  - destruct Ha as (nm & K & Hj & Hu).
    assert (mid T0 slug others (J nm) K T ∧ (T !! J nm = None ∨ ∃ st, live st nm K T)) as [Hm Hl].
    { destruct Hu as [Hl|(Hm & HJ & _)]; (split; [done || apply Hl|]); eauto. }
    eapply wp_mono; [apply (wp_boot nm K T s Hready Hj Hm HT Hclean Hl)| |done].
    intros ? s1 (K' & T1 & Hs1 & Hm1 & HJ1 & Hcase). exists T1. split_and!; [done|by eapply mid_at_rest|].
    destruct Hcase as [[_ Hr]|[HJ Ho]]; [done|].
    destruct Hu as [Hp|(_ & _ & Hr)]; [by destruct (not_in_progress _ _ _ Hp HJ)|by eapply restored_elsewhere].
  - destruct Ha as (nm & K & Hj & Hm & HJ & Hrm).
    eapply wp_mono; [apply (wp_boot nm K T s Hready Hj Hm HT Hclean (or_introl HJ))| |done].
    intros ? s1 (K' & T1 & Hs1 & Hm1 & HJ1 & Hcase). exists T1. split_and!; [done|by eapply mid_at_rest|].
    destruct Hcase as [[Hp _]|[_ Ho]]; [by destruct (not_in_progress _ _ _ Hp (or_introl HJ))|by eapply removed_same].
Qed.

(** ** The properties *)

(** The machine starts again: the files are there, and the calls go well. *)
Definition restart (s : Fs) : Fs := s <| ahead := [] |>.

Lemma calmly_restart T s : agrees T s → calmly T (restart s).
Proof. by intros [_ HT]. Qed.

End world.

(** ** On the example *)

#[local] Existing Instance demo_outside.
#[local] Existing Instance demo_text.
#[local] Instance demo_uuid : UuidHex.
Proof. intros n. split; vm_compute; reflexivity. Qed.

Lemma demo_agrees e : FilesLaws.agrees false demo_tree (demo_state e).
Proof. split; [by intros ?|done]. Qed.

Lemma demo_ready : ready demo_tree.
Proof.
  split.
  - eexists. split; [vm_compute; reflexivity|]. split; [done|].
    repeat (apply Forall_cons; split; [|]); [..|constructor];
      (split; [exact I|intros e [= <-]; reflexivity]).
  - apply (bool_decide_eq_true_1 _). by vm_compute.
  - intros n _. apply not_elem_of_list_to_map_1. cbn [fmap list_fmap fst]. intros Hin.
    repeat (apply elem_of_cons in Hin as [Hin|Hin]; [discriminate Hin|]). by apply not_elem_of_nil in Hin.
Qed.

(** The process dies while the directory of the specialist is removed. *)
Definition demo_end : outcome tool_result * Fs :=
  specialist_uninstall (Ok true) (Ok tt) RealDir "finance" (demo_state (dies_after 28)).

Lemma demo_killed : demo_end.1 = Raise PowerLoss ∧ reads_first (demo_state (dies_after 28)).
Proof. split; [vm_compute; reflexivity|exact I]. Qed.

Lemma demo_clean : clean demo_end.2.
Proof.
  assert (iterdir OPS_DIR demo_end.2 = ["finance." +:+ demo_hex +:+ ".json"]) as E by (vm_compute; reflexivity).
  intros n. rewrite E. intros ->%list_elem_of_singleton (m & [= <-] & Hm & _). by vm_compute in Hm.
Qed.


(** ** What the hypotheses leave out *)

(** The names in the registry, and what a boot reports. *)
Definition registered (s : Fs) : list json :=
  match tree s !! REGISTRY_PATH with
  | Some (Doc (JObj d)) => (λ e, match e with JObj e => obj_get e "name" | _ => JNull end) <$> plugins_of d
  | _ => []
  end.
Definition after_crash (endings : list ending) : list json * outcome (list (option string * string)) * list json :=
  let s1 := (specialist_uninstall (Ok true) (Ok tt) RealDir "finance" (demo_state endings)).2 in
  let r := reconcile_boot (restart s1) in (registered s1, r.1, registered r.2).

(** Killed while the journal is written under its temporary name, when nothing has been
    changed yet, the boot takes that file for a journal of nobody, and removes the entries
    of every specialist. *)
Example killed_write_strips_everyone :
  after_crash (dies_after 13) =
    ([JStr "finance.budget"; JStr "travel.maps"; JStr "weather"], Ok [(None, "quarantine_all")], [JStr "weather"]).
Proof. vm_compute. reflexivity. Qed.

(** When the first read of the registry fails, the journal records no entries, and the
    rollback loses those of the specialist. *)
Example unread_registry_loses_entries :
  after_crash (Fails 0 :: dies_after 27) =
    ([JStr "travel.maps"; JStr "weather"], Ok [(Some "finance", "rolled_back")], [JStr "travel.maps"; JStr "weather"]).
Proof. vm_compute. reflexivity. Qed.
