(* ===== verification/InstanceLaws.v ===== *)
(** * Instance directories: laws

    What a tuple file that was written loads as, and what loading and writing do to the
    files. *)

From S2P Require Import Prelude PyStr PyDict Json JsonOps Files FilesLaws PluginRegistry InstanceBinding.
From stdpp Require Import gmap sorting.
#[local] Open Scope Z_scope.

Lemma text_where_str P v : text_where P v = true → ∃ s, v = JStr s ∧ P s = true.
Proof. destruct v; try done. intros. by eexists. Qed.

Lemma strs_of_texts P l :
  forallb (text_where P) l = true →
  l = JStr <$> omap (λ v, match v with JStr s => Some s | _ => None end) l.
Proof.
  induction l as [|v l IH]; [done|]. cbn [forallb]. rewrite andb_true_iff. intros [Hv Hl].
  destruct (text_where_str _ _ Hv) as (s & -> & _). cbn. f_equal. by apply IH.
Qed.

Lemma omap_texts (l : list string) : omap (λ v, match v with JStr s => Some s | _ => None end) (JStr <$> l) = l.
Proof. induction l as [|s l IH]; [done|]. cbn. by f_equal. Qed.

(** What an object schema says of one key. *)
Lemma object_schema_get req props d k ok :
  object_schema req props (JObj d) = true → dget props k = Some ok → k ∈ req → ok (obj_get d k) = true.
Proof.
  cbn [object_schema]. rewrite andb_true_iff, !forallb_forall. intros [Hr Hp] Hk Hin.
  specialize (Hr k ltac:(by apply list_elem_of_In)). apply dhas_true in Hr as [v Hv].
  specialize (Hp (k, v) ltac:(by apply list_elem_of_In, dget_elem)). cbn in Hp. rewrite Hk in Hp.
  unfold obj_get. by rewrite Hv.
Qed.

Section outside.
Context `{Outside}.

(** A binding that passed the schema can be written so that it passes again. *)
Lemma written_binding_valid d :
  binding_schema (JObj d) = true → binding_schema (JObj (_raw_from_binding (binding_of d))) = true.
Proof.
  unfold binding_schema. rewrite andb_true_iff. intros [Hs _].
  match type of Hs with object_schema ?req ?props _ = true => set (required := req) in *; set (properties := props) in * end.
  assert (∀ k P, dget properties k = Some (text_where P) → k ∈ required → P (str_field d k) = true) as Hf.
  { intros k P Hk Hin. pose proof (object_schema_get _ _ _ _ _ Hs Hk Hin) as Hv.
    apply text_where_str in Hv as (s & Es & ?). unfold str_field. by rewrite Es. }
  assert (forallb (text_where sha_text) (JStr <$> strs_field d "dependency_digests") = true) as Hdeps.
  { pose proof (object_schema_get _ _ _ "dependency_digests" _ Hs eq_refl ltac:(by apply (bool_decide_eq_true_1 _))) as Hv.
    unfold strs_field. cbn beta in Hv. destruct (obj_get d "dependency_digests"); try done. by rewrite <-(strs_of_texts _ _ Hv). }
  assert (∀ o, opt_text (json_of_opt_str o) = true) as Ho by (by intros []).
  assert (∀ k, bool_decide (k ∈ required) = true → k ∈ required) as Hreq by (intros k; apply bool_decide_eq_true_1).
  apply andb_true_iff. split; [|cbn; by rewrite !orb_true_r].
  cbn [object_schema]. apply andb_true_iff. split; [reflexivity|].
  unfold _raw_from_binding, binding_of. cbn [forallb fst snd stable_agent_id role_checksum mode persona_id persona_version
    persona_checksum compiler_schema_version dependency_digests effective_config_digest binding_digest
    image_default_root component_root override_source].
  assert (∀ k P, dget properties k = Some (text_where P) → bool_decide (k ∈ required) = true →
    match dget properties k with Some ok => ok (JStr (str_field d k)) | None => false end = true) as Hg.
  { intros k P E Hin. rewrite E. apply (Hf k P E), Hreq, Hin. }
  assert (∀ k o, dget properties k = Some opt_text →
    match dget properties k with Some ok => ok (json_of_opt_str o) | None => false end = true) as Ho'.
  { intros k o ->. apply Ho. }
  repeat (apply andb_true_iff; split); try reflexivity;
    first [ exact Hdeps | eapply Ho'; reflexivity | eapply Hg; reflexivity ].
Qed.

Lemma opt_written (o : option string) : match json_of_opt_str o with JStr s => Some s | _ => None end = o.
Proof. by destruct o. Qed.

Lemma binding_written r : binding_of (_raw_from_binding r) = r.
Proof.
  destruct r. unfold binding_of.
  f_equal; first [exact (omap_texts _) | exact (opt_written _) | reflexivity].
Qed.

(** Written and read back. *)
Lemma verify_written v r :
  verify_binding_record v = Ok r → verify_binding_record (JObj (_raw_from_binding r)) = Ok r.
Proof.
  destruct v as [| | | | | |d]; try done. cbn [verify_binding_record].
  destruct (binding_schema (JObj d)) eqn:Hs; [|done]. cbn [negb]. case_bool_decide as Hd; [|done]. intros [= <-].
  rewrite (written_binding_valid d Hs). cbn [negb]. rewrite binding_written. by rewrite bool_decide_true.
Qed.

Lemma tuple_written v t : tuple_of v = Ok t → tuple_of (JObj (_raw_from_tuple t)) = Ok t.
Proof.
  destruct v as [| | | | | |d]; try done. cbn [tuple_of]. destruct (tuple_schema (JObj d)) eqn:Hs; [|done].
  unfold verify_instance_tuple. rewrite outcome_bind_ok. intros (b & Hb & E).
  case_bool_decide as Hd; [|done]. cbn [negb] in E. injection E as <-.
  pose proof (verify_written _ _ Hb) as Hw. unfold tuple_schema in *.
  pose proof (object_schema_get _ _ _ "root" _ Hs eq_refl ltac:(by apply (bool_decide_eq_true_1 _))) as Hr.
  pose proof (object_schema_get _ _ _ "config_digest" _ Hs eq_refl ltac:(by apply (bool_decide_eq_true_1 _))) as Hc.
  cbn beta in Hr, Hc. apply text_where_str in Hr as (r & Er & Hr). apply text_where_str in Hc as (c & Ec & Hc).
  assert (str_field d "root" = r ∧ str_field d "config_digest" = c) as [Er' Ec'] by (unfold str_field; by rewrite Er, Ec).
  rewrite Er', Ec' in *. set (snap := match obj_get d "config_snapshot" with JObj c => c | _ => [] end). clearbody snap.
  unfold _raw_from_tuple. cbn [root binding config_snapshot config_digest json_of_opt_str].
  assert (object_schema ["api_version"; "root"; "binding"; "config_snapshot"; "config_digest"]
    [("api_version", λ v, bool_decide (v = JStr "casa.instance-tuple/v1")); ("root", text_where str_true);
     ("binding", λ v, match v with JObj _ => true | _ => false end);
     ("config_snapshot", λ v, match v with JObj _ => true | _ => false end); ("config_digest", text_where sha_text)]
    (JObj [("api_version", JStr "casa.instance-tuple/v1"); ("root", JStr r); ("binding", JObj (_raw_from_binding b));
      ("config_snapshot", JObj snap); ("config_digest", JStr c)]) = true) as ->.
  { cbn [object_schema]. apply andb_true_iff. split; [reflexivity|]. cbn [forallb fst snd].
    repeat (apply andb_true_iff; split); try reflexivity; assumption. }
  change (obj_get _ "binding") with (JObj (_raw_from_binding b)). rewrite Hw. cbn [mbind outcome_bind].
  change (str_field _ "config_digest") with c. by rewrite bool_decide_true.
Qed.
Lemma tuple_binding v t : tuple_of v = Ok t → verify_binding_record (JObj (_raw_from_binding (binding t))) = Ok (binding t).
Proof.
  destruct v as [| | | | | |d]; try done. cbn [tuple_of]. destruct (tuple_schema (JObj d)); [|done].
  unfold verify_instance_tuple. rewrite outcome_bind_ok. intros (b & Hb & E).
  case_bool_decide; [|done]. cbn [negb] in E. injection E as <-. by eapply verify_written.
Qed.
End outside.

(** ** Files *)

Section world.
Context `{Outside} (quiet : bool).
Abbreviation agrees := (FilesLaws.agrees quiet).

(** A file that loads as [t]. *)
Definition holds (T : Tree) (p : path) (c : content) (t : InstanceTuple) : Prop :=
  T !! p = Some c ∧ ∃ v, yaml_of c = Some v ∧ tuple_of v = Ok t.

Definition written (t : InstanceTuple) : content := Yaml (JObj (_raw_from_tuple t)).

Lemma holds_written T p c t T' p' : holds T p c t → T' !! p' = Some (written t) → holds T' p' (written t) t.
Proof. intros [_ (v & _ & Hv)] HT'. split; [done|]. eexists. split; [done|]. by eapply tuple_written. Qed.

Lemma wp_load_tuple T s p c t :
  hidden p = false → holds T p c t → agrees T s →
  wp (load_instance_tuple p) (λ r s', r = Some t ∧ agrees T s') (λ e s', broken quiet e ∧ agrees T s') s.
Proof.
  intros Hp [Hc (v & Hv & Ht)] HT. unfold load_instance_tuple. apply wp_bind, wp_get. unfold is_file.
  rewrite (proj2 HT), Hc, bool_decide_true by done. cbn [negb]. apply wp_bind. unfold read_yaml. apply wp_bind.
  eapply wp_mono; [apply (wp_read quiet T s p c Hp Hc HT)| |done].
  intros ? s1 [-> Hs1]. rewrite Hv. apply wp_ret, wp_bind. rewrite Ht. apply wp_lift; [|done]. intros ? [= <-]. by apply wp_ret.
Qed.

(** Changes of one file. *)
Definition only_at (q : path) (T T' : Tree) : Prop := ∀ p, p ≠ q → T' !! p = T !! p.

Lemma only_at_insert q c T : only_at q T (<[q := c]> T).
Proof. intros p Hp. by rewrite lookup_insert_ne. Qed.

Lemma only_at_delete q T : only_at q T (delete q T).
Proof. intros p Hp. by rewrite lookup_delete_ne. Qed.

Lemma wp_write_at T s p c :
  agrees T s →
  wp (write_text p c) (λ _ s', ∃ T', agrees T' s' ∧ T' !! p = Some c ∧ only_at p T T')
    (λ e s', broken quiet e ∧ ∃ T', agrees T' s' ∧ only_at p T T') s.
Proof.
  intros HT. eapply wp_mono; [apply (wp_write_text quiet T s p c HT)|..].
  - intros ? s1 Hs1. eexists. split_and!; [exact Hs1|apply lookup_insert_eq|apply only_at_insert].
  - intros e s1 [He [Hs1|[t Hs1]]]; (split; [done|]); eexists; (split; [exact Hs1|]); [done|apply only_at_insert].
Qed.

(** A file replaced through its temporary neighbour. *)
Lemma wp_replace_text T s p c :
  hidden (add_suffix p ".tmp") = false → add_suffix p ".tmp" ≠ p → agrees T s →
  wp (replace_text p c)
    (λ _ s', ∃ T', agrees T' s' ∧ T' !! p = Some c ∧ ∀ q, q ≠ p → q ≠ add_suffix p ".tmp" → T' !! q = T !! q)
    (λ e s', broken quiet e ∧ ∃ T', agrees T' s' ∧ only_at (add_suffix p ".tmp") T T') s.
Proof.
  intros Hh Hne HT. unfold replace_text. set (tmp := add_suffix p ".tmp") in *. clearbody tmp. apply wp_bind.
  eapply wp_mono; [apply (wp_unseen quiet _ _ HT)|..].
  2: { intros e s1 [He Hs1]. split; [done|]. by exists T. }
  intros ? s1 Hs1. apply wp_bind. eapply wp_mono; [apply (wp_write_at T s1 tmp c Hs1)| |done].
  intros ? s2 (T2 & Hs2 & Hc2 & Ho2). apply wp_bind. eapply wp_mono; [apply (wp_unseen quiet _ _ Hs2)|..].
  2: { intros e s3 [He Hs3]. split; [done|]. by exists T2. }
  intros ? s3 Hs3. eapply wp_mono; [apply (wp_replace quiet T2 s3 tmp p c Hh Hc2 Hs3)|..].
  - intros ? s4 Hs4. eexists. split_and!; [exact Hs4|apply lookup_insert_eq|].
    intros q Hq Ht. rewrite lookup_insert_ne, lookup_delete_ne by done. by apply Ho2.
  - intros e s4 [He Hs4]. split; [done|]. by exists T2.
Qed.

(** A removal that may fail silently. *)
Lemma wp_try_unlink T s p :
  hidden p = false → agrees T s →
  wp (except_os (unlink_if_there p) (mret tt))
    (λ _ s', ∃ T', agrees T' s' ∧ only_at p T T' ∧ (T' !! p = None ∨ quiet = false ∧ T' = T))
    (λ e s', quiet = false ∧ agrees T s') s.
Proof.
  intros Hp HT. apply wp_except_os. eapply wp_mono; [apply (wp_unlink_if_there quiet T s p Hp HT)|..].
  - intros ? s1 Hs1. eexists. split_and!; [exact Hs1|apply only_at_delete|left; apply lookup_delete_eq].
  - intros e s1 [[Hq [-> | ->]] Hs1]; [|done]. apply wp_ret. exists T. split_and!; [done|done|by right].
Qed.
End world.
