(* ===== verification/InstanceProperties.v ===== *)
(** * What the files of an instance guarantee

    Properties of [InstanceBinding]: a tuple is read back as it was written; and a
    commit that is cut short keeps both generations, and is finished by the next one. *)

From S2P Require Import Prelude PyStr PyDict Json JsonOps Files FilesLaws PluginRegistry InstanceBinding InstanceLaws InstallConsent BundleJournal BundleOps BundleScenario.
From stdpp Require Import gmap sorting.
#[local] Open Scope Z_scope.

Section dir.
Context `{Outside} (dir : path).

Lemma file_hidden n : hidden (dir ++ [n]) = String.prefix "." n.
Proof. apply hidden_snoc. Qed.

Lemma file_ne (a b : string) : a ≠ b → dir ++ [a] ≠ dir ++ [b].
Proof. intros Hn E. apply Hn. apply (inj (dir ++.)) in E. by injection E. Qed.

Lemma add_suffix_file n x : add_suffix (dir ++ [n]) x = dir ++ [n +:+ x].
Proof. unfold add_suffix, parent. by rewrite removelast_last, last_snoc. Qed.

Abbreviation A_ := (active_path dir).
Abbreviation D_ := (desired_path dir).
Abbreviation P_ := (prior_path dir).
Abbreviation G_ := (pending_path dir).

Lemma tmp_path : add_suffix A_ ".tmp" = dir ++ ["active.yaml.tmp"].
Proof. apply add_suffix_file. Qed.

Ltac differ := solve [done | rewrite ?tmp_path; apply file_ne; discriminate | intros ->; eauto
                      | let E := fresh in intros E; revert E; rewrite ?tmp_path; apply file_ne; discriminate].

(** The files that a commit may change. *)
Definition of_instance (p : path) : Prop :=
  p = A_ ∨ p = D_ ∨ p = P_ ∨ p = G_ ∨ p = add_suffix A_ ".tmp".

(** Where the generations are: [old] is active and nothing has moved; or [new] is
    active, and [old] is the prior one or waits to become it. *)
Definition kept (T0 T : Tree) (old : content) : Prop :=
  T !! A_ = Some old ∧ T !! D_ = T0 !! D_ ∧ T !! P_ = T0 !! P_.
Definition moved (T0 T : Tree) (old : content) (new : InstanceTuple) : Prop :=
  T !! A_ = Some (written new)
  ∧ (T !! G_ = Some old ∧ T !! P_ = T0 !! P_ ∨ T !! G_ = None ∧ T !! P_ = Some old)
  ∧ (T !! D_ = T0 !! D_ ∨ T !! D_ = None).
Definition rotated (T0 T : Tree) (old : content) (new : InstanceTuple) : Prop :=
  T !! A_ = Some (written new) ∧ T !! P_ = Some old ∧ T !! G_ = None ∧ T !! D_ = None.
Definition same_elsewhere (T0 T : Tree) : Prop := ∀ p, ¬ of_instance p → T !! p = T0 !! p.

Section world.
Context (quiet : bool).
Abbreviation agrees := (FilesLaws.agrees quiet).

Lemma wp_copy T s old :
  T !! A_ = Some old → agrees T s →
  wp (_copy_to_temp dir) (λ _ s', ∃ T', agrees T' s' ∧ T' !! G_ = Some old ∧ only_at G_ T T')
    (λ e s', broken quiet e ∧ ∃ T', agrees T' s' ∧ only_at G_ T T') s.
Proof.
  intros HA HT. unfold _copy_to_temp. apply wp_bind.
  eapply wp_mono; [apply (wp_read quiet T s A_ old (file_hidden _) HA HT)|..].
  2: { intros e s1 [He Hs1]. split; [done|]. by exists T. }
  intros ? s1 [-> Hs1]. apply wp_bind. eapply wp_mono; [apply (wp_write_at quiet T s1 G_ old Hs1)| |done].
  intros ? s2 (T2 & Hs2 & HG2 & Ho2). eapply wp_mono; [apply (wp_unseen quiet _ _ Hs2)|..].
  - intros ? s3 Hs3. by exists T2.
  - intros e s3 [He Hs3]. split; [done|]. by exists T2.
Qed.

(** The new generation is written, and what it replaces keeps its copy. *)
Lemma wp_write_active T s old new :
  T !! A_ = Some old → T !! G_ = Some old → agrees T s →
  wp (on_failure (atomic_write_instance_tuple A_ new) (unlink_if_there G_))
    (λ _ s', ∃ T', agrees T' s' ∧ T' !! A_ = Some (written new)
       ∧ ∀ q, q ≠ A_ → q ≠ add_suffix A_ ".tmp" → T' !! q = T !! q)
    (λ e s', quiet = false ∧ ∃ T', agrees T' s' ∧ ∀ q, q ≠ G_ → q ≠ add_suffix A_ ".tmp" → T' !! q = T !! q) s.
Proof.
  intros HA HG HT. apply wp_on_failure.
  eapply wp_mono; [apply (wp_replace_text quiet T s A_ (written new)); [..|done]|..].
  - unfold active_path. by rewrite add_suffix_file, file_hidden.
  - unfold active_path. rewrite add_suffix_file. by apply file_ne.
  - done.
  - intros e s1 [[Hq He] (T1 & Hs1 & Ho1)].
    assert (∀ T2 s2, agrees T2 s2 → (∀ q, q ≠ G_ → T2 !! q = T1 !! q) →
      quiet = false ∧ ∃ T', agrees T' s2 ∧ ∀ q, q ≠ G_ → q ≠ add_suffix A_ ".tmp" → T' !! q = T !! q) as Hend.
    { intros T2 s2 Hs2 Ho2. split; [done|]. exists T2. split; [done|]. intros q Hq1 Hq2. by rewrite Ho2, Ho1. }
    destruct He as [-> | ->]; [|by eapply (Hend T1)]. apply wp_bind.
    eapply wp_mono; [apply (wp_unlink_if_there quiet T1 s1 G_ (file_hidden _) Hs1)|..].
    + intros ? s2 Hs2. apply wp_raise. eapply Hend; [exact Hs2|]. intros q Hq1. by rewrite lookup_delete_ne.
    + intros e s2 [_ Hs2]. by eapply (Hend T1).
Qed.

(** The copy becomes the prior generation. *)
Lemma wp_rotate T s old :
  T !! G_ = Some old → agrees T s →
  wp (except_os (replace G_ P_) (mret tt))
    (λ _ s', ∃ T', agrees T' s' ∧ (T' = <[P_ := old]> (delete G_ T) ∨ quiet = false ∧ T' = T))
    (λ e s', quiet = false ∧ agrees T s') s.
Proof.
  intros HG HT. apply wp_except_os. eapply wp_mono; [apply (wp_replace quiet T s G_ P_ old (file_hidden _) HG HT)|..].
  - intros ? s1 Hs1. eexists. split; [exact Hs1|by left].
  - intros e s1 [[Hq [-> | ->]] Hs1]; [|done]. apply wp_ret. exists T. split; [done|by right].
Qed.

Lemma elsewhere_only q T0 T T' : of_instance q → same_elsewhere T0 T → only_at q T T' → same_elsewhere T0 T'.
Proof. intros Hq HT Ho p Hp. rewrite Ho by (by intros ->). by apply HT. Qed.

(** The end of a commit: the rotation, and the removal of what was staged. *)
Lemma wp_commit_tail T0 T s old new :
  same_elsewhere T0 T → T !! A_ = Some (written new) → T !! G_ = Some old → T !! P_ = T0 !! P_ → T !! D_ = T0 !! D_ →
  agrees T s →
  wp (except_os (replace G_ P_) (mret tt) ;;; except_os (unlink_if_there D_) (mret tt) ;;; mret new)
    (λ t s', t = new ∧ ∃ T', agrees T' s' ∧ same_elsewhere T0 T' ∧ moved T0 T' old new ∧ (quiet = true → rotated T0 T' old new))
    (λ e s', quiet = false ∧ ∃ T', agrees T' s' ∧ same_elsewhere T0 T' ∧ (kept T0 T' old ∨ moved T0 T' old new)) s.
Proof.
  intros Hse HA HG HP HD HT. apply wp_bind. eapply wp_mono; [apply (wp_rotate T s old HG HT)|..].
  2: { intros e s1 [Hq Hs1]. split; [done|]. exists T. split_and!; [done|done|right]. split_and!; [done|by left|by left]. }
  intros ? s1 (T1 & Hs1 & HT1).
  assert (same_elsewhere T0 T1 ∧ T1 !! A_ = Some (written new) ∧ T1 !! D_ = T0 !! D_
    ∧ (T1 !! G_ = Some old ∧ T1 !! P_ = T0 !! P_ ∨ T1 !! G_ = None ∧ T1 !! P_ = Some old)
    ∧ (quiet = true → T1 !! G_ = None ∧ T1 !! P_ = Some old)) as (Hse1 & HA1 & HD1 & Hgp & Hq1).
  { destruct HT1 as [->|[Hq ->]]; [|split_and!; [done..|by left|congruence]].
    assert (∀ p, p ≠ P_ → p ≠ G_ → <[P_ := old]> (delete G_ T) !! p = T !! p) as Hf
      by (intros p ? ?; by rewrite lookup_insert_ne, lookup_delete_ne).
    assert (<[P_ := old]> (delete G_ T) !! G_ = None) as HG1.
    { rewrite lookup_insert_ne by differ. apply lookup_delete_eq. }
    split_and!.
    - intros p Hp. rewrite Hf by (intros ->; apply Hp; unfold of_instance; tauto). by apply Hse.
    - rewrite Hf by differ. done.
    - rewrite Hf by differ. done.
    - right. split; [done|apply lookup_insert_eq].
    - intros _. split; [done|apply lookup_insert_eq]. }
  clear HT1. apply wp_bind. eapply wp_mono; [apply (wp_try_unlink quiet T1 s1 D_ (file_hidden _) Hs1)|..].
  2: { intros e s2 [Hq Hs2]. split; [done|]. exists T1. split_and!; [done|done|right]. split_and!; [done|done|by left]. }
  intros ? s2 (T2 & Hs2 & Ho2 & HD2). apply wp_ret. split; [done|]. exists T2.
  assert (T2 !! A_ = T1 !! A_ ∧ T2 !! P_ = T1 !! P_ ∧ T2 !! G_ = T1 !! G_) as (EA & EP & EG) by (split_and!; apply Ho2; differ).
  split_and!; [done|..].
  - eapply elsewhere_only; [|exact Hse1|exact Ho2]. unfold of_instance; tauto.
  - split_and!; [by rewrite EA|by rewrite EG, EP|]. destruct HD2 as [?|[_ ->]]; [by right|by left].
  - intros Hq. destruct (Hq1 Hq) as [? ?]. split_and!; [by rewrite EA|by rewrite EP|by rewrite EG|].
    destruct HD2 as [?|[? _]]; [done|congruence].
Qed.

Lemma wp_commit_tuple T s old A cd new :
  holds T A_ old A → holds T D_ cd new → tuple_eqb A new = false → agrees T s →
  wp (commit_desired_to_active dir)
    (λ t s', t = new ∧ ∃ T', agrees T' s' ∧ same_elsewhere T T' ∧ moved T T' old new ∧ (quiet = true → rotated T T' old new))
    (λ e s', quiet = false ∧ ∃ T', agrees T' s' ∧ same_elsewhere T T' ∧ (kept T T' old ∨ moved T T' old new)) s.
Proof.
  intros HA HD Hne HT. pose proof HA as [Hold _].
  assert (∀ T' s', quiet = false → agrees T' s' → (∀ q, q ≠ G_ → q ≠ add_suffix A_ ".tmp" → T' !! q = T !! q) →
    quiet = false ∧ ∃ T', agrees T' s' ∧ same_elsewhere T T' ∧ (kept T T' old ∨ moved T T' old new)) as Hkept.
  { intros T' s' Hq Hs' Hf. split; [done|]. exists T'. split_and!; [done|..].
    - intros p Hp. apply Hf; intros ->; apply Hp; unfold of_instance; tauto.
    - left. split_and!; [by rewrite Hf by differ|by apply Hf; differ..]. }
  unfold commit_desired_to_active. apply wp_bind.
  eapply wp_mono; [apply (wp_load_tuple quiet T s D_ cd new (file_hidden _) HD HT)| |intros e s1 [[Hq _] Hs1]; by apply (Hkept T)].
  intros ? s1 [-> Hs1]. apply wp_bind.
  eapply wp_mono; [apply (wp_load_tuple quiet T s1 A_ old A (file_hidden _) HA Hs1)| |intros e s2 [[Hq _] Hs2]; by apply (Hkept T)].
  intros ? s2 [-> Hs2]. rewrite Hne. apply wp_bind, wp_get.
  assert (is_file A_ s2 = true) as Hf.
  { unfold is_file. rewrite (proj2 Hs2), Hold by apply file_hidden. by apply bool_decide_true. }
  cbv zeta. rewrite Hf. cbn beta iota. apply wp_bind.
  eapply wp_mono; [apply (wp_copy T s2 old Hold Hs2)|..].
  2: { intros e s3 ([Hq _] & T3 & Hs3 & Ho3). apply (Hkept T3); [done|done|]. intros q Hq1 _. by apply Ho3. }
  intros ? s3 (T3 & Hs3 & HG3 & Ho3). assert (T3 !! A_ = Some old) as HA3 by (rewrite Ho3 by differ; done).
  apply wp_bind. eapply wp_mono; [apply (wp_write_active T3 s3 old new HA3 HG3 Hs3)|..].
  2: { intros e s4 (Hq & T4 & Hs4 & Ho4). apply (Hkept T4); [done|done|]. intros q Hq1 Hq2. rewrite Ho4 by done. by apply Ho3. }
  intros ? s4 (T4 & Hs4 & HA4 & Ho4). apply (wp_commit_tail T T4 s4 old new).
  - intros p Hp. rewrite Ho4 by (intros ->; apply Hp; unfold of_instance; tauto).
    apply Ho3. intros ->. apply Hp. unfold of_instance; tauto.
  - done.
  - rewrite Ho4 by differ. done.
  - rewrite Ho4 by differ. apply Ho3. differ.
  - rewrite Ho4 by differ. apply Ho3. differ.
  - done.
Qed.
End world.

(** ** The next commit *)

Abbreviation calmly := (FilesLaws.agrees true).

Lemma wp_finish_commit T s old A cd new :
  holds T A_ (written new) new → T !! D_ = Some cd → tuple_eqb A new = false →
  (holds T G_ old A ∨ T !! G_ = None ∧ T !! P_ = Some old) → calmly T s →
  wp (finish_commit dir new)
    (λ _ s', ∃ T', calmly T' s' ∧ same_elsewhere T T' ∧ rotated T T' old new) (λ _ _, False) s.
Proof.
  intros HA HD Hne HG HT. unfold finish_commit. apply wp_except_os, wp_bind, wp_get, wp_bind.
  assert (wp (if is_file G_ s then
        let* p := pending_tuple dir in
        match p with
        | Some t => if tuple_eqb t new then unlink_if_there G_ else replace G_ P_
        | None => unlink_if_there G_
        end
      else mret tt)
    (λ _ s', ∃ T', calmly T' s' ∧ same_elsewhere T T' ∧ T' !! A_ = Some (written new) ∧ T' !! P_ = Some old ∧ T' !! G_ = None)
    (λ _ _, False) s) as Hw.
  { destruct HG as [HG|[HG HP]].
    - pose proof HG as [HGo _]. assert (is_file G_ s = true) as ->.
      { unfold is_file. rewrite (proj2 HT), HGo by apply file_hidden. by apply bool_decide_true. }
      apply wp_bind. unfold pending_tuple. apply wp_try_except.
      eapply wp_mono; [apply (wp_load_tuple true T s G_ old A (file_hidden _) HG HT)| |intros e s1 [[? _] _]; done].
      intros ? s1 [-> Hs1]. rewrite Hne.
      eapply wp_mono; [apply (wp_replace true T s1 G_ P_ old (file_hidden _) HGo Hs1)| |intros e s2 [[? _] _]; done].
      intros ? s2 Hs2. eexists. split_and!; [exact Hs2|..].
      + intros p Hp. rewrite lookup_insert_ne, lookup_delete_ne; [done|..]; intros <-; apply Hp; unfold of_instance; tauto.
      + rewrite lookup_insert_ne, lookup_delete_ne by differ. apply HA.
      + apply lookup_insert_eq.
      + rewrite lookup_insert_ne by differ. apply lookup_delete_eq.
    - assert (is_file G_ s = false) as ->.
      { unfold is_file. rewrite (proj2 HT), HG by apply file_hidden. apply bool_decide_false. by intros [? ?]. }
      apply wp_ret. exists T. split_and!; [done|done|apply HA|done|done]. }
  eapply wp_mono; [exact Hw| |done]. intros ? s1 (T1 & Hs1 & Hse & HA1 & HP1 & HG1).
  eapply wp_mono; [apply (wp_unlink_if_there true T1 s1 D_ (file_hidden _) Hs1)| |intros e s2 [[? _] _]; done].
  intros ? s2 Hs2. eexists. split_and!; [exact Hs2|..].
  - eapply elsewhere_only; [|exact Hse|apply only_at_delete]. unfold of_instance; tauto.
  - split_and!; [by rewrite lookup_delete_ne by differ..|apply lookup_delete_eq].
Qed.

Lemma wp_recommit T0 T s old A cd new :
  holds T0 A_ old A → holds T0 D_ cd new → tuple_eqb A new = false → tuple_eqb new new = true →
  same_elsewhere T0 T → kept T0 T old ∨ moved T0 T old new → is_Some (T !! D_) → calmly T s →
  wp (commit_desired_to_active dir)
    (λ t s', t = new ∧ ∃ T', calmly T' s' ∧ same_elsewhere T0 T' ∧ rotated T0 T' old new) (λ _ _, False) s.
Proof.
  intros HA HD Hne Hrefl Hse Hcase [cd' Hcd] HT.
  assert (T !! D_ = T0 !! D_) as ED by (destruct Hcase as [(_ & ? & _)|(_ & _ & [?|?])]; congruence).
  assert (holds T D_ cd new) as HD' by (destruct HD as [? ?]; split; [congruence|done]).
  destruct Hcase as [(EA & _ & _)|(EA & HG & _)].
  - assert (holds T A_ old A) as HA' by (destruct HA; by split).
    eapply wp_mono; [apply (wp_commit_tuple true T s old A cd new HA' HD' Hne HT)| |by intros e s' [? _]].
    intros t s' [-> (T' & HT' & Hse' & _ & Hr)]. split; [done|]. exists T'. split_and!; [done| |by apply Hr].
    intros p Hp. by rewrite Hse', Hse.
  - assert (holds T A_ (written new) new) as HA' by (by eapply holds_written).
    unfold commit_desired_to_active. apply wp_bind.
    eapply wp_mono; [apply (wp_load_tuple true T s D_ cd new (file_hidden _) HD' HT)| |intros e s1 [[? _] _]; done].
    intros ? s1 [-> Hs1]. apply wp_bind.
    eapply wp_mono; [apply (wp_load_tuple true T s1 A_ _ new (file_hidden _) HA' Hs1)| |intros e s2 [[? _] _]; done].
    intros ? s2 [-> Hs2]. rewrite Hrefl. apply wp_bind.
    eapply wp_mono; [apply (wp_finish_commit T s2 old A cd new HA' (proj1 HD') Hne)| |done]; [|done|].
    + destruct HG as [[HG _]|HG]; [left|by right]. split; [done|apply HA].
    + intros ? s3 (T3 & Hs3 & Hse3 & Hr3). apply wp_ret. split; [done|]. exists T3. split_and!; [done| |done].
      intros p Hp. by rewrite Hse3, Hse.
Qed.


Lemma tuple_names_visible n :
  n ∈ ["active.yaml"; "desired.yaml"; "active.prior.yaml"] →
  String.prefix "." n = false ∧ String.prefix "." (n +:+ ".tmp") = false.
Proof. rewrite !elem_of_cons, elem_of_nil. by intros [->|[->|[->|[]]]]. Qed.

(** A tuple survives being written.  Whatever a file loads as, writing that as the active,
    the staged or the prior tuple and loading it again returns the same tuple, and the binding in it still
    verifies. *)
Theorem tuple_roundtrip T s p c t n :
  hidden p = false → holds T p c t → n ∈ ["active.yaml"; "desired.yaml"; "active.prior.yaml"] → calmly T s →
  match (let* r := load_instance_tuple p in
         match r with
         | Some t' => atomic_write_instance_tuple (dir ++ [n]) t' ;;; load_instance_tuple (dir ++ [n])
         | None => mret None
         end) s with
  | (r, _) => r = Ok (Some t) ∧ verify_binding_record (JObj (_raw_from_binding (binding t))) = Ok (binding t)
  end.
Proof.
  intros Hp Hc Hn HT.
  enough (wp (let* r := load_instance_tuple p in
         match r with
         | Some t' => atomic_write_instance_tuple (dir ++ [n]) t' ;;; load_instance_tuple (dir ++ [n])
         | None => mret None
         end) (λ r _, r = Some t) (λ _ _, False) s) as Hw.
  { unfold wp in Hw. match type of Hw with let (_, _) := ?m in _ => destruct m as [[r|e] s1] end; [subst|done]. split; [done|].
    destruct Hc as [_ (v & _ & Hv)]. by eapply tuple_binding. }
  apply wp_bind. eapply wp_mono; [apply (wp_load_tuple true T s p c t Hp Hc HT)| |intros e s1 [[? _] _]; done].
  intros ? s1 [-> Hs1]. apply wp_bind.
  eapply wp_mono; [apply (wp_replace_text true T s1 (dir ++ [n]) (written t)); [..|done]| |intros e s2 [[? _] _]; done].
  - rewrite add_suffix_file, file_hidden. by apply tuple_names_visible.
  - rewrite add_suffix_file. apply file_ne. by apply suffix_ne.
  - intros ? s2 (T2 & Hs2 & Hc2 & _).
    eapply wp_mono; [apply (wp_load_tuple true T2 s2 (dir ++ [n]) (written t) t)| |intros e s3 [[? _] _]; done].
    + rewrite file_hidden. by apply tuple_names_visible.
    + by eapply holds_written.
    + done.
    + by intros r s3 [-> _].
Qed.
End dir.

(** ** On the example *)

#[local] Existing Instance demo_outside.

Definition demo_dir : path := slug_dir "finance".
Definition demo_old : InstanceTuple := demo_tuple "casa/finance@1.0".
Definition demo_next : InstanceTuple := demo_tuple "casa/finance@1.1".

Lemma demo_holds :
  holds demo_instance (active_path demo_dir) (demo_file "casa/finance@1.0") demo_old
  ∧ holds demo_instance (desired_path demo_dir) (demo_file "casa/finance@1.1") demo_next.
Proof. split; (split; [vm_compute; reflexivity|]); eexists; (split; [reflexivity|vm_compute; reflexivity]). Qed.

(** The process dies between the new active file and the rotation of the old one. *)
Definition demo_commit : outcome InstanceTuple * Fs :=
  commit_desired_to_active demo_dir (mkFs demo_instance 0 (repeat Goes 11 ++ [Dies 0])).


Lemma tuple_roundtrip_witness :
  match (let* r := load_instance_tuple (active_path demo_dir) in
         match r with
         | Some t' => atomic_write_instance_tuple (demo_dir ++ ["desired.yaml"]) t' ;;;
                      load_instance_tuple (demo_dir ++ ["desired.yaml"])
         | None => mret None
         end) (mkFs demo_instance 0 []) with
  | (r, _) => r = Ok (Some demo_old)
      ∧ verify_binding_record (JObj (_raw_from_binding demo_binding)) = Ok demo_binding
  end.
Proof.
  apply (tuple_roundtrip demo_dir demo_instance _ (active_path demo_dir) (demo_file "casa/finance@1.0") demo_old "desired.yaml").
  - reflexivity.
  - apply demo_holds.
  - by apply (bool_decide_eq_true_1 _).
  - by split.
Defined.
