(* ===== verification/BootProperties.v ===== *)
(** * The boot always ends

    Properties of [reconcile_boot] over any contents of the directory of journals: it
    returns, it leaves no journal, it changes nothing that no journal names, and the
    operator's own plugins stay. *)

From S2P Require Import Prelude PyStr PyDict Json JsonOps Files FilesLaws PluginRegistry RegistryLaws RegistryProperties InstallConsent BundleJournal JournalLaws BundleLaws UninstallLaws BundleScenario.
From stdpp Require Import gmap sorting.
#[local] Open Scope Z_scope.

(** ** Exceptions that a handler of [Exception] catches *)

Definition ordinary (e : exn) : Prop := match e with PowerLoss | CancelledError => False | _ => True end.

Definition tidy {A} (o : outcome A) : Prop := match o with Ok _ => True | Raise e => ordinary e end.

Lemma tidy_bind {A B} (m : outcome A) (k : A → outcome B) : tidy m → (∀ a, tidy (k a)) → tidy (m ≫= k).
Proof. destruct m; cbn; auto. Qed.

Lemma tidy_map {A B} (f : A → outcome B) l : (∀ x, tidy (f x)) → tidy (map_outcome f l).
Proof. intros Hf. induction l as [|x l IH]; [done|]. apply tidy_bind; [apply Hf|]. intros y. by apply tidy_bind. Qed.

Create HintDb tidy.
Ltac tidy := repeat (done || (apply tidy_bind; [|intros]) || solve [auto 1 with tidy] || (case_match; try done)).

Lemma tidy_hashed v : tidy (hashed v).
Proof. unfold hashed. tidy. Qed.
Lemma tidy_subdir v : tidy (normalize_subdir v).
Proof. unfold normalize_subdir. tidy. Qed.
#[export] Hint Resolve tidy_hashed tidy_subdir : tidy.

Section tidy.
Context `{Outside, PyText}.

Lemma tidy_artifact_id a b c d : tidy (compute_artifact_id a b c d).
Proof. unfold compute_artifact_id. tidy. Qed.

Lemma tidy_source e src name : tidy (source_error e src name).
Proof. pose proof tidy_artifact_id. unfold source_error. tidy. Qed.

Lemma tidy_entry v : tidy (_entry_error v).
Proof. pose proof tidy_source. unfold _entry_error. tidy. Qed.

Lemma tidy_sift l : tidy (sift l).
Proof.
  induction l as [|v l IH]; [done|]. apply tidy_bind; [apply tidy_entry|]. intros o.
  apply tidy_bind; [done|]. intros [es iss]. tidy.
Qed.

Lemma tidy_runtime es : tidy (unique_runtime es).
Proof.
  unfold unique_runtime. apply tidy_bind; [|intros; tidy]. apply tidy_map. intros [i e].
  unfold runtime_keys. apply tidy_map. intros t. tidy.
Qed.

Lemma tidy_validate v : tidy (_validate_doc v).
Proof.
  unfold _validate_doc. case_match; try done. repeat (case_match; try done).
  apply tidy_bind; [apply tidy_sift|]. intros [es iss]. apply tidy_bind; [apply tidy_runtime|]. by intros [kept coll].
Qed.

Lemma tidy_quarantined P slugs doc : tidy (quarantined P slugs doc).
Proof.
  unfold quarantined. apply tidy_bind; [|done]. generalize (obj_get (setdefault (keep_plugins P doc) "quarantined_bundles" (JList [])) "quarantined_bundles").
  induction slugs as [|s slugs IH]; intros q; [done|]. cbn [flag_all]. apply tidy_bind; [|done]. unfold flag. tidy.
Qed.

Lemma tidy_merge recs l : tidy (merge_records recs l).
Proof.
  revert l. induction recs as [|r recs IH]; intros l; [done|]. cbn [merge_records]. apply tidy_bind; [|done].
  unfold record_identity, obj_item. tidy.
Qed.
End tidy.

(** ** Calm calls

    A call is mild when, in a world without failures, it ends ordinarily, changes only
    the paths in [P], and keeps the operator's entries. *)

(** The entries of the registry that no specialist owns. *)
Definition operator_rows (l : list json) : list json := filter (λ e, owner_in e = None) l.
Definition operator_entries `{Outside} (T : Tree) : list json :=
  match T !! REGISTRY_PATH ≫= parsed with
  | Some (JObj d) => operator_rows (plugins_of d)
  | _ => []
  end.

Section calm.
Context `{Outside, PyText}.

Record change (P : path → Prop) (s s' : Fs) : Prop := mkChange {
  ch_calm : ahead s' = [];
  ch_frame : ∀ p, P p ∨ tree s' !! p = tree s !! p;
  ch_entries : operator_entries (tree s) `prefix_of` operator_entries (tree s')
}.

Lemma change_refl P s : ahead s = [] → change P s s.
Proof. intros Hs. split; [done|intros p; by right|done]. Qed.

Lemma change_trans P s1 s2 s3 : change P s1 s2 → change P s2 s3 → change P s1 s3.
Proof.
  intros [_ F1 E1] [C2 F2 E2]. split; [done| |by etrans].
  intros p. destruct (F2 p) as [?| ->]; [by left|apply F1].
Qed.

Lemma change_mono (P P' : path → Prop) s s' : (∀ p, P p → P' p) → change P s s' → change P' s s'.
Proof. intros HP [C F E]. split; [done| |done]. intros p. destruct (F p); [left|right]; auto. Qed.

Lemma operator_entries_same T T' : T' !! REGISTRY_PATH = T !! REGISTRY_PATH → operator_entries T' = operator_entries T.
Proof. unfold operator_entries. by intros ->. Qed.

Lemma change_away (P : path → Prop) s s' :
  ahead s' = [] → (∀ p, P p ∨ tree s' !! p = tree s !! p) → tree s' !! REGISTRY_PATH = tree s !! REGISTRY_PATH →
  change P s s'.
Proof. intros C F E. split; [done..|]. by rewrite (operator_entries_same _ _ E). Qed.

Lemma change_put (P : path → Prop) p c s : P p → p ≠ REGISTRY_PATH → ahead s = [] → change P s (put p c s).
Proof.
  intros Hp Hr Hs. apply change_away; [done| |by apply lookup_insert_ne].
  intros q. destruct (decide (q = p)) as [->|]; [by left|right; by apply lookup_insert_ne].
Qed.

Lemma change_remove (P : path → Prop) p s : P p → p ≠ REGISTRY_PATH → ahead s = [] → change P s (remove_file p s).
Proof.
  intros Hp Hr Hs. apply change_away; [done| |by apply lookup_delete_ne].
  intros q. destruct (decide (q = p)) as [->|]; [by left|right; by apply lookup_delete_ne].
Qed.

Definition mild {A} (P : path → Prop) (m : FsM A) : Prop :=
  ∀ s, ahead s = [] → wp m (λ _, change P s) (λ e s', ordinary e ∧ change P s s') s.

Section mild.
Context (P : path → Prop).
Abbreviation mild := (mild P).

Lemma mild_bind {A B} (m : FsM A) (k : A → FsM B) : mild m → (∀ a, mild (k a)) → mild (m ≫= k).
Proof.
  intros Hm Hk s Hs. apply wp_bind. eapply wp_mono; [by apply Hm| |done]. intros a s1 H1.
  eapply wp_mono; [apply Hk, H1|..].
  - intros b s2 H2. exact (change_trans _ _ _ _ H1 H2).
  - intros e s2 [He H2]. split; [done|exact (change_trans _ _ _ _ H1 H2)].
Qed.

Lemma mild_ret {A} (a : A) : mild (mret a).
Proof. intros s Hs. by apply wp_ret, change_refl. Qed.

Lemma mild_get : mild get.
Proof. intros s Hs. by apply wp_get, change_refl. Qed.

Lemma mild_raise {A} e : ordinary e → mild (@raise Fs A e).
Proof. intros He s Hs. apply wp_raise. split; [done|by apply change_refl]. Qed.

Lemma mild_raise_when b e : ordinary e → mild (raise_when b e).
Proof. intros He. destruct b; [by apply mild_raise|apply mild_ret]. Qed.

Lemma mild_lift {A} (o : outcome A) : tidy o → mild (lift o).
Proof. intros Ho s Hs. unfold wp, lift. destruct o; [|split; [done|]]; by apply change_refl. Qed.

Lemma mild_draw : mild draw.
Proof. intros s Hs. apply change_away; [done|intros p; by right|done]. Qed.

Lemma mild_call f part : (∀ s, ahead s = [] → change P s (f s)) → mild (call f part).
Proof. intros Hf s Hs. unfold wp, call. rewrite Hs. by apply Hf. Qed.

Lemma mild_unseen : mild unseen.
Proof. apply mild_call, change_refl. Qed.

Lemma mild_try_except {A} (m : FsM A) h : mild m → (∀ e k, h e = Some k → mild k) → mild (try_except m h).
Proof.
  intros Hm Hh s Hs. apply wp_try_except. eapply wp_mono; [by apply Hm|done|]. intros e s1 [He H1].
  destruct (h e) as [k|] eqn:E; [|done]. eapply wp_mono; [eapply Hh; [exact E|apply H1]|..].
  - intros a s2 H2. exact (change_trans _ _ _ _ H1 H2).
  - intros e' s2 [He' H2]. split; [done|exact (change_trans _ _ _ _ H1 H2)].
Qed.

Lemma mild_for_each {A} (l : list A) f : (∀ x, x ∈ l → mild (f x)) → mild (for_each l f).
Proof.
  induction l as [|x l IH]; intros Hf; [apply mild_ret|]. apply mild_bind; [apply Hf; left|].
  intros _. apply IH. intros y Hy. apply Hf. by right.
Qed.

Lemma mild_unlink p : P p → p ≠ REGISTRY_PATH → mild (unlink p).
Proof.
  intros Hp Hr. apply mild_bind; [apply mild_get|]. intros s. apply mild_bind; [by apply mild_raise_when|].
  intros _. apply mild_call. intros t. by apply change_remove.
Qed.

Lemma mild_unlink_if_there p : P p → p ≠ REGISTRY_PATH → mild (unlink_if_there p).
Proof.
  intros Hp Hr. apply mild_bind; [apply mild_get|]. intros s. destruct (is_file p s); [|apply mild_unseen].
  apply mild_call. intros t. by apply change_remove.
Qed.

Lemma mild_read_json p : mild (read_json p).
Proof.
  apply mild_bind.
  - apply mild_bind; [apply mild_get|]. intros s. destruct (tree s !! p); [|by apply mild_raise].
    apply mild_bind; [apply mild_unseen|]. intros _. apply mild_ret.
  - intros c. destruct (parsed c); [apply mild_ret|by apply mild_raise].
Qed.

Lemma mild_write_text p c : P p → p ≠ REGISTRY_PATH → mild (write_text p c).
Proof. intros Hp Hr. apply mild_bind; [|intros _]; apply mild_call; intros t; by apply change_put. Qed.
End mild.

(** An atomic write, without failures. *)
Lemma wp_call_calm f part (Q : unit → Fs → Prop) R s : ahead s = [] → Q tt (f s) → wp (call f part) Q R s.
Proof. intros Hs HQ. unfold wp, call. by rewrite Hs. Qed.

Lemma wp_atomic_write_calm p c s :
  ahead s = [] →
  wp (atomic_write_text p c)
    (λ _ s', ahead s' = [] ∧ ∃ n, tree s' = <[p := c]> (delete (parent p ++ ["." +:+ n +:+ ".tmp"]) (tree s)))
    (λ _ _, False) s.
Proof.
  intros Hs. apply wp_bind. unfold wp at 1, draw. cbn [fst snd]. set (tmp := parent p ++ _).
  apply wp_bind, wp_call_calm; [done|]. apply wp_bind, wp_on_failure, wp_bind, wp_call_calm; [done|].
  apply wp_bind, wp_call_calm; [done|]. apply wp_bind, wp_call_calm; [done|].
  apply wp_bind, wp_get. set (s1 := put tmp c _).
  assert (tree s1 !! tmp = Some c) as -> by apply lookup_insert_eq.
  apply wp_call_calm; [done|]. apply wp_except_os, wp_call_calm; [done|]. split; [done|].
  exists (mkstemp_name (draws s)). fold tmp.
  change (<[p := c]> (delete tmp (<[tmp := c]> (<[tmp := Text ""]> (tree s)))) = <[p := c]> (delete tmp (tree s))).
  by rewrite insert_insert_eq, delete_insert_eq.
Qed.

(** A directory in which atomic writes may leave nothing behind. *)
Definition scratch (P : path → Prop) (p : path) : Prop := P p ∧ ∀ n, P (parent p ++ ["." +:+ n +:+ ".tmp"]).

Lemma tmp_not_registry d n : d ++ ["." +:+ n +:+ ".tmp"] ≠ REGISTRY_PATH.
Proof. intros E. assert (hidden REGISTRY_PATH = true) as Hh by (rewrite <-E; apply hidden_dot). done. Qed.

Section writers.
Context (P : path → Prop) (HR : scratch P REGISTRY_PATH) (HA : scratch P ACKS_PATH).
Abbreviation mild := (mild P).

Lemma tmp_frame (p : path) (c : content) (d : path) (n : string) (T : Tree) : P p → P (d ++ ["." +:+ n +:+ ".tmp"]) →
  ∀ q, P q ∨ <[p := c]> (delete (d ++ ["." +:+ n +:+ ".tmp"]) T) !! q = T !! q.
Proof.
  intros Hp Hn q. destruct (decide (q = p)) as [->|]; [by left|]. rewrite lookup_insert_ne by done.
  destruct (decide (q = d ++ ["." +:+ n +:+ ".tmp"])) as [->|]; [by left|right; by apply lookup_delete_ne].
Qed.

Lemma mild_atomic_write p c : scratch P p → p ≠ REGISTRY_PATH → mild (atomic_write_text p c).
Proof.
  intros [Hp Hn] Hr s Hs. eapply wp_mono; [by apply wp_atomic_write_calm| |done].
  intros ? s' (Hs' & n & Ht). apply change_away; [done|..].
  - rewrite Ht. by apply tmp_frame.
  - rewrite Ht, lookup_insert_ne, lookup_delete_ne by (done || apply tmp_not_registry). done.
Qed.

(** The registry is saved with the operator's entries in front. *)
Lemma wp_save_calm doc s :
  ahead s = [] → operator_entries (tree s) `prefix_of` operator_rows (plugins_of doc) →
  wp (save_registry doc) (λ _, change P s) (λ _ _, False) s.
Proof.
  intros Hs Hp. apply wp_bind, wp_call_calm; [done|]. eapply wp_mono; [by apply wp_atomic_write_calm| |done].
  intros ? s' (Hs' & n & Ht). split; [done|..]; rewrite Ht.
  - apply tmp_frame; apply HR.
  - unfold operator_entries at 2. by rewrite lookup_insert_eq.
Qed.

Lemma wp_load_calm s :
  ahead s = [] →
  wp load_registry
    (λ d s', s' = s ∧ (valid d = true → operator_rows (plugins_of (raw d)) = operator_entries (tree s)))
    (λ e s', ordinary e ∧ s' = s) s.
Proof.
  intros Hs. unfold load_registry, operator_entries. apply wp_bind, wp_get. unfold is_file.
  destruct (tree s !! REGISTRY_PATH) as [c|] eqn:Hc.
  2: { rewrite bool_decide_false by (by intros [? ?]). by apply wp_ret. }
  rewrite bool_decide_true by done. cbn [negb mbind option_bind]. apply wp_bind, wp_try_except, wp_bind.
  unfold read_json, read. apply wp_bind, wp_bind, wp_get. rewrite Hc. apply wp_bind, wp_call_calm, wp_ret; [done|].
  destruct (parsed c) as [v|]; [|by apply wp_ret, wp_ret]. apply wp_ret, wp_ret, wp_bind.
  pose proof (tidy_validate v) as Ht. apply wp_lift; [|intros e E; by rewrite E in Ht].
  intros [doc [[es iss] ok]] E. apply wp_ret. split; [done|]. cbn. intros ->.
  apply validate_inv in E as (d & l & es0 & iss0 & kept & -> & -> & _). by rewrite plugins_of_setdefault.
Qed.

(** *** Quarantine and rollback keep the operator's entries *)

Lemma keep_plugins_rows Q d :
  (∀ e, owner_in e = None → Q e = true) →
  operator_rows (plugins_of (keep_plugins Q d)) = operator_rows (plugins_of d).
Proof.
  intros HQ. unfold keep_plugins. destruct (obj_get d "plugins") as [| | | | |l|] eqn:E; try done.
  rewrite plugins_of_dset. unfold plugins_of. rewrite E. unfold operator_rows.
  rewrite list_filter_filter. apply list_filter_iff. naive_solver.
Qed.

Lemma quarantined_rows Q slugs d d' :
  (∀ e, owner_in e = None → Q e = true) → quarantined Q slugs d = Ok d' →
  operator_rows (plugins_of d') = operator_rows (plugins_of d).
Proof.
  intros HQ. unfold quarantined. rewrite outcome_bind_ok. intros (q & _ & [= <-]).
  rewrite plugins_of_other, plugins_of_setdefault by done. by apply keep_plugins_rows.
Qed.

Lemma not_owned_rows slug l : operator_rows (not_owned slug l) = operator_rows l.
Proof.
  unfold operator_rows, not_owned. rewrite list_filter_filter. apply list_filter_iff. intros e. split; [naive_solver|].
  intros He. split; [done|]. unfold owned_by. destruct e; try done. cbn in He. by rewrite He.
Qed.

Lemma mild_quarantine_with Q slugs :
  (∀ e, owner_in e = None → Q e = true) →
  mild (let* data := load_registry in
        if negb (valid data) then mret tt
        else let* doc := lift (quarantined Q (slugs (raw data)) (raw data)) in save_registry doc).
Proof.
  intros HQ s Hs. apply wp_bind. eapply wp_mono; [by apply wp_load_calm|..].
  2: { intros e s' [He ->]. split; [done|by apply change_refl]. }
  intros d s' [-> Hd]. destruct (valid d); [|by apply wp_ret, change_refl]. specialize (Hd eq_refl). cbn [negb].
  pose proof (tidy_quarantined Q (slugs (raw d)) (raw d)) as Ht. apply wp_bind, wp_lift.
  - intros doc E. eapply wp_mono; [apply wp_save_calm; [done|]|done|done].
    by rewrite (quarantined_rows _ _ _ _ HQ E), Hd.
  - intros e E. rewrite E in Ht. split; [done|by apply change_refl].
Qed.

Lemma mild_quarantine slug : mild (quarantine slug).
Proof.
  apply (mild_quarantine_with _ (λ _, [slug])). intros e He. unfold owned_by. destruct e; try done.
  cbn in He. by rewrite He.
Qed.

Lemma mild_quarantine_all : mild quarantine_all.
Proof. apply (mild_quarantine_with _ owning_slugs). intros e He. by apply bool_decide_eq_true. Qed.

Lemma mild_restore_records recs : mild (restore_records recs).
Proof.
  destruct recs as [|r recs]; [apply mild_ret|]. apply mild_bind.
  - apply mild_try_except.
    + apply mild_bind; [apply mild_read_json|intros v; apply mild_ret].
    + intros e k. destruct e; try done; intros [= <-]; apply mild_ret.
  - intros acks. apply mild_bind; [apply mild_lift, tidy_merge|]. intros l.
    apply mild_bind; [apply mild_unseen|]. intros _. by apply mild_atomic_write.
Qed.

Lemma mild_rollback txn :
  (∀ f, f ∈ before_tuple_files txn → P (slug_dir (slug txn) ++ [f.1])) → mild (rollback_disk txn).
Proof.
  intros HF s Hs. apply wp_bind. eapply wp_mono; [by apply wp_load_calm|..].
  2: { intros e s' [He ->]. split; [done|by apply change_refl]. }
  intros d s' [-> Hd]. apply wp_bind, wp_raise_when; [split; [done|by apply change_refl]|]. intros Hv%negb_false_iff.
  specialize (Hd Hv). apply wp_bind. eapply wp_mono; [apply wp_save_calm; [done|]| |done].
  { unfold rolled_back. rewrite plugins_of_dset. unfold operator_rows at 1. rewrite filter_app.
    fold (operator_rows (not_owned (slug txn) (plugins_of (raw d)))). rewrite not_owned_rows, Hd. by eexists. }
  intros ? s1 H1. eapply wp_mono.
  - assert (mild (for_each (before_tuple_files txn) (restore_file (slug_dir (slug txn))) ;;; restore_records (ack_records txn))) as Hm.
    { apply mild_bind; [|intros _; apply mild_restore_records]. apply mild_for_each. intros f Hf. unfold restore_file.
      assert (slug_dir (slug txn) ++ [f.1] ≠ REGISTRY_PATH) as Hne by done.
      destruct f.2; [|by apply mild_unlink_if_there; [apply HF|]].
      apply mild_bind; [apply mild_unseen|]. intros _. by apply mild_write_text; [apply HF|]. }
    apply Hm, H1.
  - intros ? s2 H2. exact (change_trans _ _ _ _ H1 H2).
  - intros e s2 [He H2]. split; [done|exact (change_trans _ _ _ _ H1 H2)].
Qed.
End writers.

(** ** The boot *)

(** What one journal can change, its own two names apart. *)
Definition reach (slugs : string → Prop) (p : path) : Prop :=
  p = REGISTRY_PATH ∨ p = ACKS_PATH
  ∨ (∃ d n, p = parent d ++ ["." +:+ n +:+ ".tmp"] ∧ (d = REGISTRY_PATH ∨ d = ACKS_PATH))
  ∨ ∃ sl fn, slugs sl ∧ fn ∈ TUPLE_FILENAMES ∧ p = tuple_path sl fn.

Definition of_name (name sl : string) : Prop := JOURNAL_NAME_RE name = Some sl.

Lemma reach_registry slugs : scratch (reach slugs) REGISTRY_PATH.
Proof. split; [by left|]. intros n. do 2 right. left. by eexists _, n; split; [|left]. Qed.
Lemma reach_acks slugs : scratch (reach slugs) ACKS_PATH.
Proof. split; [by right; left|]. intros n. do 2 right. left. by eexists _, n; split; [|right]. Qed.

Lemma reach_mono (S1 S2 : string → Prop) p : (∀ sl, S1 sl → S2 sl) → reach S1 p → reach S2 p.
Proof.
  intros Hs [?|[?|[?|(sl & fn & ? & ? & ?)]]]; [by left|by right; left|by do 2 right; left|].
  do 3 right. exists sl, fn. auto.
Qed.

Lemma name_slug name sl : of_name name sl → sl ≠ ".ops".
Proof.
  unfold of_name, JOURNAL_NAME_RE. destruct name as [|c s]; [done|]. destruct (lower_alnum c) eqn:E; [|done].
  destruct (span slug_char s) as [a b]. destruct (_ && _); [|done]. by intros [= <-] [= -> ->].
Qed.

Lemma reach_not_ops slugs n : (∀ sl, slugs sl → sl ≠ ".ops") → ¬ reach slugs (OPS_DIR ++ [n]).
Proof.
  intros Hs [?|[?|[(d & m & E & [-> | ->])|(sl & fn & Hsl & _ & E)]]]; try done.
  injection E as E _. by apply (Hs sl).
Qed.

Lemma quarantined_name n : is_quarantined (n +:+ ".quarantined") = true.
Proof. unfold is_quarantined. rewrite string_rev_cat. apply string_prefix_app. Qed.

(** What the handling of the journal [name] changes, and its end. *)
Definition handles (name : string) (p : path) : Prop :=
  reach (of_name name) p ∨ p = OPS_DIR ++ [name] ∨ p = OPS_DIR ++ [name +:+ ".quarantined"].
Definition settles (name : string) (s s' : Fs) : Prop :=
  change (handles name) s s' ∧ tree s' !! (OPS_DIR ++ [name]) = None.

Lemma name_not_quarantined n : n ≠ n +:+ ".quarantined".
Proof. intros E%(f_equal String.length). rewrite string_length_app in E. cbn in E. lia. Qed.

Lemma change_handles name s s' : change (reach (of_name name)) s s' → change (handles name) s s'.
Proof. apply change_mono. by left. Qed.

Lemma journal_kept name s s' c :
  tree s !! (OPS_DIR ++ [name]) = Some c → change (reach (of_name name)) s s' → tree s' !! (OPS_DIR ++ [name]) = Some c.
Proof.
  intros Hc [_ F _]. destruct (F (OPS_DIR ++ [name])) as [Hr| ->]; [|done].
  by apply reach_not_ops in Hr; [|intros sl; apply name_slug].
Qed.

Lemma wp_settle_unlink {A} name s0 s c (a : A) :
  tree s !! (OPS_DIR ++ [name]) = Some c → change (reach (of_name name)) s0 s →
  wp (unlink (OPS_DIR ++ [name]) ;;; mret a) (λ r s', r = a ∧ settles name s0 s') (λ _ _, False) s.
Proof.
  intros Hc Hs. apply wp_bind, wp_bind, wp_get, wp_bind, wp_raise_when.
  { unfold is_file. rewrite Hc. by rewrite bool_decide_true by (by eexists). }
  intros _. apply wp_call_calm; [apply Hs|]. apply wp_ret. split; [done|]. split; [|apply lookup_delete_eq].
  eapply change_trans; [by apply change_handles|]. apply change_remove; [by right; left|done|apply Hs].
Qed.

Lemma wp_settle_rename {A} name s0 s c (a : A) :
  tree s !! (OPS_DIR ++ [name]) = Some c → change (reach (of_name name)) s0 s →
  wp (_quarantine_rename (OPS_DIR ++ [name]) ;;; mret a) (λ r s', r = a ∧ settles name s0 s') (λ _ _, False) s.
Proof.
  intros Hc Hs. unfold _quarantine_rename. rewrite last_snoc. cbn [default].
  change (parent (OPS_DIR ++ [name])) with OPS_DIR. apply wp_bind. unfold replace. apply wp_bind, wp_get. rewrite Hc.
  apply wp_call_calm; [apply Hs|]. apply wp_ret. split; [done|]. split.
  - eapply change_trans; [by apply change_handles|]. eapply change_trans.
    + apply change_remove; [by right; left|done|apply Hs].
    + apply change_put; [by right; right|done|apply Hs].
  - unfold put. change (<[OPS_DIR ++ [name +:+ ".quarantined"] := c]> (delete (OPS_DIR ++ [name]) (tree s)) !! (OPS_DIR ++ [name]) = None).
    rewrite lookup_insert_ne; [apply lookup_delete_eq|]. intros [= E]. by apply (name_not_quarantined name).
Qed.

(** A quarantine whose failures are swallowed, and the renaming after it. *)
Lemma wp_quarantined {A} name (m : FsM unit) s0 s c (a : A) :
  mild (reach (of_name name)) m → tree s !! (OPS_DIR ++ [name]) = Some c → change (reach (of_name name)) s0 s →
  wp (except_any m (mret tt) ;;; _quarantine_rename (OPS_DIR ++ [name]) ;;; mret a)
    (λ r s', r = a ∧ settles name s0 s') (λ _ _, False) s.
Proof.
  intros Hm Hc Hs. apply wp_bind, wp_except_any.
  assert (∀ s1, change (reach (of_name name)) s s1 →
    wp (_quarantine_rename (OPS_DIR ++ [name]) ;;; mret a) (λ r s', r = a ∧ settles name s0 s') (λ _ _, False) s1) as Hk.
  { intros s1 H1. eapply wp_settle_rename; [by eapply journal_kept|exact (change_trans _ _ _ _ Hs H1)]. }
  eapply wp_mono; [apply Hm, Hs|intros ? s1; apply Hk|]. intros e s1 [He H1].
  destruct e; first [by destruct He|apply wp_ret; by apply Hk].
Qed.

Lemma files_known v files f : files_of v = Some files → f ∈ files → f.1 ∈ TUPLE_FILENAMES.
Proof.
  unfold files_of. destruct v as [| | | | | |d]; try done. destruct (forallb _ d) eqn:E; [|done].
  intros [= <-] (p & -> & Hp)%list_elem_of_fmap. rewrite forallb_forall in E.
  specialize (E p ltac:(by apply list_elem_of_In)). apply andb_true_iff in E as [E _]. by apply bool_decide_eq_true in E.
Qed.

Lemma payload_files v slug st entries files acks f :
  _valid_payload v slug = Some (st, (entries, files, acks)) → f ∈ files → f.1 ∈ TUPLE_FILENAMES.
Proof.
  unfold _valid_payload. destruct v as [| | | | | |p]; try done. destruct (_ && _); [|done].
  destruct (obj_get p "state"); try done. destruct (obj_get p "before") as [| | | | | |b]; try done.
  case_bool_decide; [|done]. destruct (dicts _) as [es|]; [|done]. destruct (files_of _) as [fs|] eqn:Hf; [|done].
  destruct (dicts (obj_get b "ack_records")); [|done]. intros [= <- <- <- <-]. by eapply files_known.
Qed.

(** Every journal is settled, whatever it holds. *)
Lemma wp_reconcile_one name s c :
  ahead s = [] → tree s !! (OPS_DIR ++ [name]) = Some c →
  wp (reconcile_one name) (λ a s', a.1 = JOURNAL_NAME_RE name ∧ settles name s s') (λ _ _, False) s.
Proof.
  intros Hs Hc. pose proof (reach_registry (of_name name)) as HR. pose proof (reach_acks (of_name name)) as HA.
  pose proof (change_refl (reach (of_name name)) s Hs) as Hrefl. unfold reconcile_one.
  destruct (JOURNAL_NAME_RE name) as [slug|] eqn:Hn.
  2: { eapply wp_mono; [by apply (wp_quarantined name _ s s c); [apply mild_quarantine_all| |]|by intros ? s' [-> ?]|done]. }
  assert (∀ s1, change (reach (of_name name)) s s1 →
    wp (except_any (quarantine slug) (mret tt) ;;; _quarantine_rename (OPS_DIR ++ [name]) ;;; mret (Some slug, "quarantine"))
      (λ a s', a.1 = Some slug ∧ settles name s s') (λ _ _, False) s1) as Hquar.
  { intros s1 Hs1. eapply wp_mono; [apply (wp_quarantined name _ s s1 c); [by apply mild_quarantine| |done]
      |by intros ? s' [-> ?]|done]. exact (journal_kept _ _ _ _ Hc Hs1). }
  apply wp_bind, wp_try_except, wp_bind. unfold read_json, read. apply wp_bind, wp_bind, wp_get. rewrite Hc.
  apply wp_bind, wp_call_calm, wp_ret; [done|]. destruct (parsed c) as [v|]; [|by apply wp_ret, Hquar].
  apply wp_ret, wp_ret. cbn [mbind option_bind].
  destruct (_valid_payload v slug) as [[st [[entries files] acks]]|] eqn:Hv; [|by apply Hquar].
  case_bool_decide as Hst.
  { eapply wp_mono; [by apply (wp_settle_unlink name s s c)|by intros ? s' [-> ?]|done]. }
  apply wp_bind, wp_except_any, wp_bind.
  set (txn := mkTxn (OPS_DIR ++ [name]) slug entries files acks [] []).
  assert (mild (reach (of_name name)) (rollback_disk txn)) as Hm.
  { apply mild_rollback; [done|done|]. intros f Hf. do 3 right. exists slug, f.1. split_and!; [done| |done].
    by eapply payload_files. }
  eapply wp_mono; [by apply Hm|..].
  - intros ? s1 Hs1. apply wp_ret. eapply wp_mono; [apply (wp_settle_unlink name s s1 c); [exact (journal_kept _ _ _ _ Hc Hs1)|done]|by intros ? s' [-> ?]|done].
  - intros e s1 [He Hs1]. destruct e; first [by destruct He|apply wp_ret; by apply Hquar].
Qed.

(** *** All the journals *)

Abbreviation live_name n := (is_quarantined n = false).

Lemma handles_ops n m : handles n (OPS_DIR ++ [m]) → m = n ∨ m = n +:+ ".quarantined".
Proof.
  intros [Hr|[[= E]|[= E]]]; [|by left|by right]. by apply reach_not_ops in Hr; [|intros sl; apply name_slug].
Qed.

Definition handled (names : list string) (p : path) : Prop := ∃ n, n ∈ names ∧ live_name n ∧ handles n p.

Lemma handled_live names m : handled names (OPS_DIR ++ [m]) → live_name m → m ∈ names.
Proof. intros (n & Hn & _ & [-> | ->]%handles_ops) Hm; [done|]. by rewrite quarantined_name in Hm. Qed.

Lemma wp_reconcile_all names s :
  NoDup names → ahead s = [] →
  (∀ n, n ∈ names → live_name n → is_Some (tree s !! (OPS_DIR ++ [n]))) →
  wp (reconcile_all names)
    (λ l s', l.*1 = JOURNAL_NAME_RE <$> filter (λ n, live_name n) names ∧ change (handled names) s s'
      ∧ ∀ n, n ∈ names → live_name n → tree s' !! (OPS_DIR ++ [n]) = None)
    (λ _ _, False) s.
Proof.
  revert s. induction names as [|name names IH]; intros s Hnd Hs Hin.
  { apply wp_ret. split_and!; [done|by apply change_refl|]. by intros n ?%not_elem_of_nil. }
  apply NoDup_cons in Hnd as [Hno Hnd]. cbn [reconcile_all].
  assert (∀ s1 s2, change (handled names) s1 s2 → change (handled (name :: names)) s1 s2) as Hmore.
  { intros s1 s2. apply change_mono. intros p (n & Hn & Hh). exists n. split; [by right|done]. }
  destruct (is_quarantined name) eqn:Hq.
  - eapply wp_mono; [apply IH; [done|done|intros n Hn; apply Hin; by right]| |done].
    intros l s' (Hl & Hch & Hnone). rewrite filter_cons_False by congruence. split_and!; [done|by apply Hmore|].
    intros n [->|Hn]%elem_of_cons Hlive; [congruence|by apply Hnone].
  - destruct (Hin name) as [c Hc]; [left|done|]. apply wp_bind.
    eapply wp_mono; [by apply (wp_reconcile_one name s c)| |done]. intros a s1 (Ha & Hch1 & Hgone). apply wp_bind.
    assert (∀ n, n ∈ names → live_name n → tree s1 !! (OPS_DIR ++ [n]) = tree s !! (OPS_DIR ++ [n])) as Hkeep.
    { intros n Hn Hlive. destruct Hch1 as [_ F _]. destruct (F (OPS_DIR ++ [n])) as [Hh|]; [|done].
      apply handles_ops in Hh as [-> | ->]; [done|]. by rewrite quarantined_name in Hlive. }
    eapply wp_mono; [apply IH; [done|apply Hch1|]| |done].
    { intros n Hn Hlive. rewrite Hkeep by done. apply Hin; [by right|done]. }
    intros l s' (Hl & Hch & Hnone). apply wp_ret. rewrite filter_cons_True, !fmap_cons by done. split_and!.
    + by rewrite Ha, Hl.
    + eapply change_trans; [|by apply Hmore]. eapply change_mono; [|exact Hch1]. intros p Hp. exists name. split_and!; [left|done|done].
    + intros n [->|Hn]%elem_of_cons Hlive; [|by apply Hnone]. destruct Hch as [_ F _].
      destruct (F (OPS_DIR ++ [name])) as [Hh| ->]; [|done]. by apply handled_live in Hh.
Qed.

(** What a boot may change of the files: the journals, the registry, the ledger, their
    temporary files, and the tuple files of the slugs that a journal names. *)
Definition boot_scope (s : Fs) (p : path) : Prop :=
  (∃ n, p = OPS_DIR ++ [n]) ∨ reach (λ sl, ∃ n, n ∈ iterdir OPS_DIR s ∧ live_name n ∧ of_name n sl) p.

(** C13: The boot always ends and always leaves order.  Over any files at all, when no
    system call fails, [reconcile_boot] returns; it reports every file in the directory of
    journals that was not put aside before, in order, with the slug that its name gives;
    afterwards only files that were put aside are there, and another boot does nothing.
    It changes the tuple files of those slugs only, beside the registry, the ledger, and
    the directory itself; and in the registry the entries that no specialist owns are
    still there, first, in their order. *)
Theorem boot_settles_every_journal s :
  match reconcile_boot (s <| ahead := [] |>) with
  | (Ok actions, s') =>
      actions.*1 = JOURNAL_NAME_RE <$> filter (λ n, live_name n) (sorted_strings (iterdir OPS_DIR s))
      ∧ (∀ n, n ∈ iterdir OPS_DIR s' → is_quarantined n = true)
      ∧ reconcile_boot s' = (Ok [], s')
      ∧ (∀ p, boot_scope s p ∨ tree s' !! p = tree s !! p)
      ∧ operator_entries (tree s) `prefix_of` operator_entries (tree s')
  | (Raise _, _) => False
  end.
Proof.
  set (s0 := s <| ahead := [] |>). set (names := sorted_strings (iterdir OPS_DIR s)).
  assert (names ≡ₚ iterdir OPS_DIR s) as Hp by apply merge_sort_Permutation.
  assert (wp reconcile_boot (λ l s', l.*1 = JOURNAL_NAME_RE <$> filter (λ n, live_name n) names
    ∧ change (handled names) s0 s' ∧ ∀ n, n ∈ names → live_name n → tree s' !! (OPS_DIR ++ [n]) = None) (λ _ _, False) s0) as Hw.
  { apply wp_bind, wp_get. change (sorted_strings (iterdir OPS_DIR s0)) with names. apply wp_reconcile_all; [|done|].
    - rewrite Hp. apply iterdir_NoDup.
    - intros n Hn _. rewrite Hp in Hn. by apply elem_of_iterdir in Hn. }
  unfold wp in Hw. destruct (reconcile_boot s0) as [[l|e] s']; [|done]. destruct Hw as (Hl & [C F E] & Hnone).
  assert (∀ n, n ∈ iterdir OPS_DIR s' → is_quarantined n = true) as Hall.
  { intros n [c Hc]%elem_of_iterdir. destruct (is_quarantined n) eqn:Hq; [done|].
    assert (n ∈ names) as Hn; [|by rewrite (Hnone n Hn Hq) in Hc].
    destruct (F (OPS_DIR ++ [n])) as [Hh|Hs]; [by eapply handled_live|]. rewrite Hp. apply elem_of_iterdir.
    exists c. by rewrite <-Hc, Hs. }
  split_and!; [done|done| | |done].
  - unfold reconcile_boot. unfold mbind at 1, pym_bind, get. apply reconcile_all_quarantined. apply Forall_forall.
    assert (sorted_strings (iterdir OPS_DIR s') ≡ₚ iterdir OPS_DIR s') as Hp' by apply merge_sort_Permutation.
    intros n Hn. apply Hall. by rewrite <-Hp'.
  - intros p. destruct (F p) as [(n & Hn & Hlive & Hh)|]; [left|by right]. rewrite Hp in Hn.
    destruct Hh as [Hr|[->| ->]]; [right|by left; eexists..]. eapply reach_mono; [|exact Hr].
    intros sl Hsl. by exists n.
Qed.
End calm.

(** ** On the example *)

#[local] Existing Instance demo_outside.
#[local] Existing Instance demo_text.

(** A directory with a journal of nobody, one that cannot be read, and one put aside. *)
Definition messy : Fs :=
  mkFs (<[OPS_DIR ++ ["note.txt"] := Text "hello"]>
        (<[OPS_DIR ++ ["finance." +:+ demo_hex +:+ ".json"] := Text "{"]>
        (<[OPS_DIR ++ ["old.json.quarantined"] := Text ""]> demo_tree))) 0 [].

Example messy_boot :
  (λ r, (r.1, sorted_strings (iterdir OPS_DIR r.2))) (reconcile_boot messy) =
    (Ok [(Some "finance", "quarantine"); (None, "quarantine_all")],
     ["finance." +:+ demo_hex +:+ ".json.quarantined"; "note.txt.quarantined"; "old.json.quarantined"]).
Proof. vm_compute. reflexivity. Qed.
