(* ===== verification/TopicLedger.v ===== *)
(** * The ledger of finished topics

    [topic_ledger.py]: the file of the topics of ended engagements, and the sweep that
    deletes the due ones through the channel.  Other tasks append while the sweep waits
    for the channel; what they append at each wait, whether the sweep is cancelled
    there, and what the channel answers, are arguments. *)

From S2P Require Import Prelude PyStr PyDict Json JsonOps Files.
From stdpp Require Import gmap.
#[local] Open Scope Z_scope.

Abbreviation row := (list (string * json)).

Definition LEDGER_PATH : path := ["data"; "topic-ledger.json"].
Definition TOPIC_RETENTION_DAYS : Z := 7.
Definition STUCK_ENTRY_MAX_AGE_SECONDS : Z := 90 * 86400.
Definition RETRY_AFTER_CAP_SECONDS : Z := 60.
Definition _NOT_FOUND_SUBSTRINGS : list string := ["message thread not found"; "chat not found"].
Definition _PERMISSION_SUBSTRINGS : list string :=
  ["not enough rights"; "need administrator rights"; "can_delete_messages"].

(** ** The file *)

Section outside.
Context `{Outside, PyText}.

(** A list of objects, or a [ValueError]. *)
Definition entries_of (data : json) : outcome (list row) :=
  match data with
  | JList l =>
    map_outcome (λ e, match e with JObj e => Ok e | _ => Raise ValueError end) l
  | _ => Raise ValueError
  end.

(** [_read_entries] *)
Definition _read_entries : FsM (list row) :=
  let* s := get in
  if negb (is_file LEDGER_PATH s) then mret []
  else
    try_except (let* data := read_json LEDGER_PATH in lift (entries_of data))
      (λ e, match e with
            | ValueError =>
              Some (except_os (replace LEDGER_PATH ["data"; "topic-ledger.json.casabak"]) (mret tt) ;;; mret [])
            | _ => None
            end).

(** [atomic_io.atomic_write_json], [_write_entries] *)
Definition atomic_write_json (p : path) (data : json) : FsM unit := atomic_write_text p (Doc data).
Definition _write_entries (entries : list row) : FsM unit :=
  atomic_write_json LEDGER_PATH (JList (JObj <$> entries)).

(** What a caller of [append] passes. *)
Record Closed := mkClosed {
  engagement_id : string;
  chat_id : option Z;
  topic_id : Z;
  outcome_ : string;
  closed_at : Z
}.

Definition entry_id (e : row) : json := obj_get e "engagement_id".

Definition entry_of (c : Closed) : row :=
  [("engagement_id", JStr (engagement_id c));
   ("chat_id", match chat_id c with Some z => JInt z | None => JNull end);
   ("topic_id", JInt (topic_id c)); ("outcome", JStr (outcome_ c)); ("closed_at", JFloat (closed_at c));
   ("delete_after", JFloat (closed_at c + seconds (TOPIC_RETENTION_DAYS * 86400)))].

(** [append] *)
Definition append (c : Closed) : FsM unit :=
  let* entries := _read_entries in
  if existsb (λ e, py_eq (entry_id e) (JStr (engagement_id c))) entries then mret tt
  else _write_entries (entries ++ [entry_of c]).

(** [remove].  [ids] is a set. *)
Fixpoint without (ids : list json) (entries : list row) : outcome (list row) :=
  match entries with
  | [] => Ok []
  | e :: rest =>
    let* id := hashed (entry_id e) in
    let* kept := without ids rest in
    Ok (if existsb (py_eq id) ids then kept else e :: kept)
  end.
Definition remove (ids : list json) : FsM unit :=
  match ids with
  | [] => mret tt
  | _ =>
    let* entries := _read_entries in
    let* remaining := lift (without ids entries) in
    if (length remaining =? length entries)%nat then mret tt else _write_entries remaining
  end.

(** ** The channel *)

(** The exceptions of the Telegram library that the code tells apart. *)
Inductive tg_error :=
  | BadRequest (message : string)
  | Forbidden
  | RetryAfter (retry_after : option Z)     (** a delay; none when it is missing or zero *)
  | TimedOut
  | NetworkError
  | OtherError.
Inductive answer := Deleted | Refused (e : tg_error).

Inductive deletion := Done | NotFound | Permission | Transient | Unknown.
#[export] Instance deletion_eq_dec : EqDecision deletion.
Proof. solve_decision. Defined.

(** [classify_delete_error] *)
Definition classify_delete_error (e : tg_error) : deletion :=
  match e with
  | BadRequest message =>
    let message := lower message in
    if existsb (λ s, contains s message) _NOT_FOUND_SUBSTRINGS then NotFound
    else if existsb (λ s, contains s message) _PERMISSION_SUBSTRINGS then Permission
    else Unknown
  | Forbidden => Permission
  | RetryAfter _ | TimedOut | NetworkError => Transient
  | OtherError => Unknown
  end.
Definition result_of (a : answer) : deletion :=
  match a with Deleted => Done | Refused e => classify_delete_error e end.

(** ** The sweep *)

Record Sweep := mkSweep {
  files : Fs;
  awaits : nat;                        (** times the sweep has waited *)
  calls : list (json * answer)         (** of [delete_topic] *)
}.
#[export] Instance sweep_eta : Eta Sweep := λ s, mkSweep (files s) (awaits s) (calls s).
Abbreviation SweepM := (PyM Sweep).

Definition on_files {A} (m : FsM A) : SweepM A := λ s,
  let '(r, f) := m (files s) in (r, s <| files := f |>).

(** What [sweep_topics] returns. *)
Record Report := mkReport {
  deleted : nat;
  kept : nat;
  dropped_mismatched : nat;
  dropped_stuck : nat;
  dropped_malformed : nat;
  failures : list (json * json * deletion);
  needs_permission : bool;
  targets : list (json * json)
}.
#[export] Instance report_eta : Eta Report := λ r,
  mkReport (deleted r) (kept r) (dropped_mismatched r) (dropped_stuck r) (dropped_malformed r)
    (failures r) (needs_permission r) (targets r).
Definition empty_report : Report := mkReport 0 0 0 0 0 [] false [].

(** [float(v)]: an integer that rounds beyond the range overflows. *)
Definition float_ (v : json) : outcome Z :=
  match v with
  | JInt z => if Z.abs z <? 2 ^ 1024 - 2 ^ 970 then to_float v else Raise OverflowError
  | _ => to_float v
  end.
Definition float_or_none (v : json) : outcome (option Z) :=
  match float_ v with
  | Ok z => Ok (Some z)
  | Raise TypeError | Raise ValueError => Ok None
  | Raise e => Raise e
  end.

(** [_effective_delete_after] *)
Definition _effective_delete_after (entry : row) : outcome (option Z) :=
  let* due := float_or_none (obj_get entry "delete_after") in
  match due with
  | Some due => Ok (Some due)
  | None =>
    let* closed := float_or_none (obj_get entry "closed_at") in
    Ok (match closed with Some c => Some (c + seconds (TOPIC_RETENTION_DAYS * 86400)) | None => None end)
  end.

Section sweep.
Context (channel : nat → json → answer) (meanwhile : nat → list Closed) (cancels : nat → bool).

(** The sweep waits: other tasks append, each on its own, and it may be cancelled. *)
Definition await : SweepM unit :=
  let* s := get in
  modify (λ s, s <| awaits ::= S |>) ;;;
  on_files (for_each (meanwhile (awaits s)) (λ c, except_any (append c) (mret tt))) ;;;
  raise_when (cancels (awaits s)) CancelledError.

(** [await channel.delete_topic(topic_id)] *)
Definition delete_topic (topic : json) : SweepM answer :=
  let* s := get in
  let a := channel (awaits s) topic in
  modify (λ s, s <| calls ::= (λ l, l ++ [(topic, a)]) |>) ;;;
  await ;;;
  mret a.

(** [_delete_with_flood_retry] *)
Definition _delete_with_flood_retry (topic : json) : SweepM deletion :=
  let* first := delete_topic topic in
  match first with
  | Deleted => mret Done
  | Refused (RetryAfter delay) =>
    if seconds RETRY_AFTER_CAP_SECONDS <? default (seconds 1) delay then mret Transient
    else
      await ;;;
      let* second := delete_topic topic in
      mret (result_of second)
  | Refused e => mret (classify_delete_error e)
  end.

Context (chat : Z) (scope : string) (dry_run : bool) (ts : Z).

(** What the loop carries: the report, [to_remove], [calls_made]. *)
Abbreviation carried := (Report * list json * nat)%type.

(** The end of an iteration that tried to delete. *)
Definition settle (entry : row) (due : Z) (o : deletion) (acc : carried) : outcome carried :=
  let '(r, rem, made) := acc in
  let id := entry_id entry in
  let topic := obj_get entry "topic_id" in
  match o with
  | Done | NotFound =>
    let* id' := hashed id in
    Ok (r <| deleted ::= S |> <| targets ::= (λ l, l ++ [(id, topic)]) |>, rem ++ [id'], S made)
  | _ =>
    let r := if bool_decide (o = Permission) then r <| needs_permission := true |> else r in
    if due + seconds STUCK_ENTRY_MAX_AGE_SECONDS <? ts then
      let* id' := hashed id in
      Ok (r <| dropped_stuck ::= S |>, rem ++ [id'], S made)
    else Ok (r <| kept ::= S |> <| failures ::= (λ l, l ++ [(id, topic, o)]) |>, rem, S made)
  end.

(** One entry. *)
Definition sweep_entry (entry : row) (acc : carried) : SweepM carried :=
  let '(r, rem, made) := acc in
  let* delete_after := lift (_effective_delete_after entry) in
  match delete_after with
  | None =>
    let r := r <| dropped_malformed ::= S |> in
    if dry_run then mret (r, rem, made)
    else let* id := lift (hashed (entry_id entry)) in mret (r, rem ++ [id], made)
  | Some due =>
    if negb (bool_decide (scope = "all_terminal")) && (ts <? due) then mret (r <| kept ::= S |>, rem, made)
    else
      match obj_get entry "chat_id" with
      | JNull => mret (r <| kept ::= S |>, rem, made)
      | entry_chat =>
        if negb (py_eq entry_chat (JInt chat)) then
          let r := r <| dropped_mismatched ::= S |> in
          if dry_run then mret (r, rem, made)
          else let* id := lift (hashed (entry_id entry)) in mret (r, rem ++ [id], made)
        else if dry_run then
          mret (r <| deleted ::= S |> <| targets ::= (λ l, l ++ [(entry_id entry, obj_get entry "topic_id")]) |>, rem, made)
        else
          (if (made =? 0)%nat then mret tt else await) ;;;
          let* o := _delete_with_flood_retry (obj_get entry "topic_id") in
          lift (settle entry due o (r, rem, made))
      end
  end.

Fixpoint sweep_all (entries : list row) (acc : carried) : SweepM carried :=
  match entries with
  | [] => mret acc
  | entry :: rest => let* acc := sweep_entry entry acc in sweep_all rest acc
  end.
End sweep.

(** [sweep_topics].  The last wait is for the lock of [remove]. *)
Definition sweep_topics (channel : nat → json → answer) (meanwhile : nat → list Closed) (cancels : nat → bool)
    (chat_id : option Z) (scope : string) (dry_run : bool) (ts : Z) : SweepM Report :=
  let* entries := on_files _read_entries in
  match chat_id with
  | None => mret (empty_report <| kept := length entries |>)
  | Some chat =>
    let* (r, rem, _) := sweep_all channel meanwhile cancels chat scope dry_run ts entries (empty_report, [], 0%nat) in
    match rem with
    | [] => mret r
    | _ => await meanwhile cancels ;;; on_files (remove rem) ;;; mret r
    end
  end.
End outside.
