(* ===== verification/LedgerProperties.v ===== *)
(** * What the topic sweep guarantees

    Properties of [TopicLedger]: whatever the files, the channel and the other tasks do,
    the ledger loses only entries that the sweep has settled, and only topics of its own
    chat that are due are deleted. *)

From S2P Require Import Prelude PyStr PyDict Json JsonOps Files FilesLaws RegistryLaws TopicLedger BundleScenario.
From stdpp Require Import gmap.
#[local] Open Scope Z_scope.

(** ** The file *)

Section file.
Context `{Outside, PyText}.

(** The entries that a reader finds: none when the file is missing or corrupt. *)
Definition entries_in (T : Tree) : list row :=
  match T !! LEDGER_PATH ≫= parsed with
  | Some v => match entries_of v with Ok l => l | Raise _ => [] end
  | None => []
  end.

Lemma entries_of_written l : entries_of (JList (JObj <$> l)) = Ok l.
Proof. cbn. induction l as [|e l IH]; [done|]. cbn. by rewrite IH. Qed.

Lemma entries_written l T : entries_in (<[LEDGER_PATH := Doc (JList (JObj <$> l))]> T) = l.
Proof. unfold entries_in. rewrite lookup_insert_eq. cbn [mbind option_bind parsed]. by rewrite entries_of_written. Qed.

Lemma entries_of_raises v e : entries_of v = Raise e → e = ValueError.
Proof.
  destruct v as [| | | | |l|]; try (by intros [= <-]). cbn.
  induction l as [|x l IH]; [done|]. cbn. destruct x; try (by intros [= <-]). cbn.
  destruct (map_outcome _ l) as [?|e']; [done|]. intros [= <-]. by apply IH.
Qed.

Context (quiet : bool).

Definition holding (l : list row) (s : Fs) : Prop := ∃ T, agrees quiet T s ∧ entries_in T = l.

Lemma wp_read_entries l s :
  holding l s → wp _read_entries (λ l' s', l' = l ∧ holding l s') (λ e s', broken quiet e ∧ holding l s') s.
Proof.
  intros (T & HT & Hl). unfold _read_entries. apply wp_bind, wp_get. unfold is_file.
  rewrite (proj2 HT) by done. destruct (T !! LEDGER_PATH) as [c|] eqn:Hc.
  2: { rewrite bool_decide_false by (by intros [? ?]). apply wp_ret.
       assert (l = []) as -> by (rewrite <-Hl; unfold entries_in; by rewrite Hc). split; [done|by exists T]. }
  rewrite bool_decide_true by done. cbn [negb]. apply wp_try_except, wp_bind. unfold read_json. apply wp_bind.
  assert (∀ s1, agrees quiet T s1 → l = [] →
    wp (except_os (replace LEDGER_PATH ["data"; "topic-ledger.json.casabak"]) (mret tt) ;;; mret [])
      (λ l' s', l' = l ∧ holding l s') (λ e s', broken quiet e ∧ holding l s') s1) as Haside.
  { intros s1 Hs1 ->. apply wp_bind, wp_except_os.
    eapply wp_mono; [by apply (wp_replace quiet T s1 _ _ c)|..].
    - intros ? s2 Hs2. apply wp_ret. split; [done|]. eexists. split; [exact Hs2|]. unfold entries_in.
      by rewrite lookup_insert_ne, lookup_delete_eq.
    - intros e s2 [[Hq [-> | ->]] Hs2]; [apply wp_ret, wp_ret; split; [done|by exists T]|].
      split; [split; [done|by right]|by exists T]. }
  assert (entries_in T = match parsed c with Some v => match entries_of v with Ok l => l | Raise _ => [] end | None => [] end) as E.
  { unfold entries_in. by rewrite Hc. }
  eapply wp_mono; [by eapply (wp_read quiet T s)|..].
  - intros c' s1 [-> Hs1]. destruct (parsed c) as [v|].
    + apply wp_ret, wp_lift.
      * intros l' Hl'. rewrite Hl' in E. split; [congruence|by exists T].
      * intros e He. pose proof (entries_of_raises _ _ He) as ->. rewrite He in E. apply Haside; [done|congruence].
    + apply wp_raise, Haside; [done|congruence].
  - intros e s1 [[Hq [-> | ->]] Hs1]; (split; [split; [done|by auto]|by exists T]).
Qed.

Lemma wp_write_entries l l' s :
  holding l s →
  wp (_write_entries l') (λ _, holding l')
    (λ e s', quiet = false ∧ (e = OSError ∨ e = PowerLoss) ∧ (holding l s' ∨ holding l' s')) s.
Proof.
  intros (T & HT & Hl). eapply wp_mono; [by apply (wp_atomic_write quiet T s)|..].
  - intros ? s' HT'. eexists. split; [exact HT'|apply entries_written].
  - intros e s' (Hq & [[He HT']|[-> HT']]); (split_and!; [done|by auto|]); [left; by exists T|right].
    eexists. split; [exact HT'|apply entries_written].
Qed.

(** The ledger after an append. *)
Definition known (l : list row) (c : Closed) : bool :=
  existsb (λ e, py_eq (entry_id e) (JStr (engagement_id c))) l.
Definition appended (l : list row) (c : Closed) : list row :=
  if known l c then l else l ++ [entry_of c].

Lemma wp_append l c s :
  holding l s →
  wp (append c) (λ _, holding (appended l c))
    (λ e s', quiet = false ∧ (e = OSError ∨ e = PowerLoss) ∧ (holding l s' ∨ holding (appended l c) s')) s.
Proof.
  intros Hl. apply wp_bind. eapply wp_mono; [by apply wp_read_entries|..].
  - intros ? s1 [-> Hs1]. unfold appended. fold (known l c). destruct (known l c); [by apply wp_ret|].
    by apply wp_write_entries.
  - intros e s1 [[Hq He] Hs1]. split_and!; [done..|by left].
Qed.

(** ** Entries and their ids *)

Definition is_in (ids : list json) (e : row) : bool := existsb (py_eq (entry_id e)) ids.
Definition spared (ids : list json) (l : list row) : list row := filter (λ e, is_in ids e = false) l.

Lemma without_spared ids l r : without ids l = Ok r → r = spared ids l.
Proof.
  revert r. induction l as [|e l IH]; intros r; cbn [without]; [by intros [= <-]|].
  rewrite outcome_bind_ok. intros (i & [-> Hi]%hashed_ok & E). rewrite outcome_bind_ok in E. destruct E as (k & Hk & [= <-]).
  rewrite (IH k Hk). unfold spared, is_in. fold (entry_id e). destruct (existsb (py_eq (entry_id e)) ids) eqn:Ei.
  - by rewrite filter_cons_False by (by rewrite Ei).
  - by rewrite filter_cons_True.
Qed.

Lemma without_total ids l : Forall (λ e, hashable (entry_id e)) l → without ids l = Ok (spared ids l).
Proof.
  intros Hl. destruct (without ids l) as [r|e] eqn:E; [by rewrite (without_spared _ _ _ E)|exfalso].
  induction Hl as [|x l Hx _ IH]; cbn [without] in E; [done|]. rewrite Hx in E. cbn in E.
  destruct (without ids l) as [k|e'] eqn:Ek; [done|]. cbn in E. by injection E as ->; apply IH.
Qed.

Lemma without_raises ids l e : without ids l = Raise e → ∃ x, x ∈ l ∧ ¬ hashable (entry_id x).
Proof.
  induction l as [|x l IH]; [done|]. cbn [without]. destruct (hashed (entry_id x)) as [i|e'] eqn:Hx.
  - destruct (without ids l) as [k|e'] eqn:Ek; cbn; intros [=]. subst. destruct (IH eq_refl) as (y & ? & ?).
    exists y. split; [by right|done].
  - intros _. exists x. split; [left|]. unfold hashable. congruence.
Qed.

Lemma spared_none l : spared [] l = l.
Proof. unfold spared, is_in. induction l as [|e l IH]; [done|]. by rewrite filter_cons_True, IH. Qed.

Lemma spared_all ids l : length (spared ids l) = length l → spared ids l = l.
Proof.
  induction l as [|e l IH]; [done|]. unfold spared. rewrite filter_cons. case_decide.
  - intros [= E]. f_equal. by apply IH.
  - intros E. assert (sublist (spared ids l) l) as Hs by apply sublist_filter. apply sublist_length in Hs.
    unfold spared in Hs. rewrite E in Hs. cbn in Hs. lia.
Qed.

(** What other tasks appended stays: its ids are new. *)
Lemma appended_new l0 cs :
  ∃ new, foldl appended l0 cs = l0 ++ new ∧
    Forall (λ a, ∃ s, entry_id a = JStr s ∧ ∀ e, e ∈ l0 → py_eq (entry_id e) (JStr s) = false) new.
Proof.
  induction cs as [|c cs IH] using rev_ind; [exists []; by rewrite app_nil_r|]. destruct IH as (new & E & Hnew).
  rewrite foldl_app. cbn [foldl]. rewrite E. unfold appended. destruct (known (l0 ++ new) c) eqn:Hk; [by exists new|].
  exists (new ++ [entry_of c]). rewrite app_assoc. split; [done|]. apply Forall_app. split; [done|]. apply Forall_singleton.
  exists (engagement_id c). split; [done|]. intros e He. apply not_true_is_false. intros Ht.
  apply not_true_iff_false in Hk. apply Hk, existsb_exists. exists e. split; [|done].
  apply list_elem_of_In, elem_of_app. by left.
Qed.

Lemma py_eq_str v s : py_eq v (JStr s) = bool_decide (v = JStr s).
Proof.
  destruct v as [| | | |t| |]; cbn; try (by rewrite bool_decide_false). apply bool_decide_ext. split; [by intros ->|by intros [= ->]].
Qed.
Lemma py_eq_str_l v s : py_eq (JStr s) v = bool_decide (v = JStr s).
Proof.
  destruct v as [| | | |t| |]; cbn; try (by rewrite bool_decide_false). apply bool_decide_ext. split; [by intros ->|by intros [= ->]].
Qed.

Lemma spared_appended ids l0 cs :
  (∀ i, i ∈ ids → ∃ e, e ∈ l0 ∧ entry_id e = i) →
  ∃ new, foldl appended l0 cs = l0 ++ new ∧ spared ids (foldl appended l0 cs) = spared ids l0 ++ new.
Proof.
  intros Hids. destruct (appended_new l0 cs) as (new & -> & Hnew). exists new. split; [done|].
  unfold spared. rewrite filter_app. f_equal. induction Hnew as [|a new (s & Ea & Ha) _ IH]; [done|].
  rewrite filter_cons_True; [by rewrite IH|]. apply not_true_is_false. unfold is_in. intros (i & Hi & E)%existsb_exists.
  apply list_elem_of_In in Hi. destruct (Hids i Hi) as (e & He & <-). specialize (Ha e He).
  rewrite Ea, py_eq_str_l in E. rewrite py_eq_str in Ha. congruence.
Qed.

Lemma wp_remove l ids s :
  holding l s →
  wp (TopicLedger.remove ids) (λ _, holding (spared ids l))
    (λ e s', (quiet = false ∨ ∃ x, x ∈ l ∧ ¬ hashable (entry_id x)) ∧ (holding l s' ∨ holding (spared ids l) s')) s.
Proof.
  intros Hl. unfold TopicLedger.remove. destruct ids as [|i ids]; [apply wp_ret; by rewrite spared_none|].
  apply wp_bind. eapply wp_mono; [by apply wp_read_entries|..].
  2: { intros e s1 [[Hq _] Hs1]. split; by left. }
  intros ? s1 [-> Hs1]. apply wp_bind, wp_lift.
  - intros k Hk%without_spared. subst k. destruct (_ =? _)%nat eqn:E.
    + apply wp_ret. rewrite spared_all; [done|by apply Nat.eqb_eq].
    + eapply wp_mono; [by apply wp_write_entries|done|]. intros e s2 (Hq & _ & Hs2). split; [by left|done].
  - intros e E. split; [right; by eapply without_raises|by left].
Qed.

(** Distinct ids: as many entries go as ids are listed. *)
Definition distinct (l : list row) : Prop :=
  Forall (λ e, hashable (entry_id e)) l ∧ NoDup ((λ e, hash_key (entry_id e)) <$> l).

Lemma spared_count l p :
  distinct l → sublist p l → (length (spared (entry_id <$> p) l) + length p = length l)%nat.
Proof.
  intros [Hh Hnd] Hs.
  assert (∀ q e, Forall (λ e, hashable (entry_id e)) q → hashable (entry_id e) →
    is_in (entry_id <$> q) e = bool_decide (hash_key (entry_id e) ∈ (λ e, hash_key (entry_id e)) <$> q)) as Hin.
  { intros q e Hq He. induction Hq as [|x q Hx _ IH]; [done|]. unfold is_in. cbn [fmap list_fmap existsb].
    rewrite py_eq_hashable by done. fold (is_in (entry_id <$> q) e). rewrite IH. rewrite <-bool_decide_or.
    apply bool_decide_ext. by rewrite elem_of_cons. }
  induction Hs as [|x p l Hs IH|x p l Hs IH]; [done|..];
    apply Forall_cons in Hh as [Hx Hh]; apply NoDup_cons in Hnd as [Hno Hnd]; specialize (IH Hh Hnd);
    assert (Forall (λ e, hashable (entry_id e)) p) as Hp by (eapply Forall_sublist; [exact Hs|done]).
  - unfold spared. rewrite filter_cons_False.
    2: { rewrite Hin, bool_decide_true; [done|left|by apply Forall_cons|done]. }
    assert (filter (λ e, is_in (entry_id <$> x :: p) e = false) l = spared (entry_id <$> p) l) as ->; [|cbn; lia].
    apply filter_agree. intros e He. rewrite !Hin by (done || by apply Forall_cons || by eapply Forall_forall in Hh).
    rewrite !bool_decide_eq_false, fmap_cons, not_elem_of_cons. split; [by intros [? ?]|]. intros Hne. split; [|done].
    intros E. apply Hno. rewrite <-E. by apply (list_elem_of_fmap_2 (λ e, hash_key (entry_id e))).
  - unfold spared. rewrite filter_cons_True; [cbn [length]; unfold spared in IH; lia|].
    rewrite Hin by done. apply bool_decide_eq_false. intros Hx'. apply Hno.
    eapply elem_of_sublist; [exact Hx'|]. by apply fmap_sublist.
Qed.
End file.

(** ** The sweep *)

Definition gone (a : answer) : Prop := result_of a = Done ∨ result_of a = NotFound.

(** The numbers of a report. *)
Definition total (r : Report) : nat :=
  (deleted r + kept r + dropped_mismatched r + dropped_stuck r + dropped_malformed r)%nat.

Section sweep.
Context `{Outside, PyText} (quiet : bool).
Context (channel : nat → json → answer) (meanwhile : nat → list Closed) (cancels : nat → bool).
Context (chat : Z) (scope : string) (dry_run : bool) (ts : Z).
Abbreviation agrees := (FilesLaws.agrees quiet).
Abbreviation holding := (holding quiet).

(** Entries whose time has come, of the chat that the sweep is for. *)
Definition due_at (due : Z) : Prop := scope = "all_terminal" ∨ due ≤ ts.
Definition eligible (e : row) (due : Z) : Prop :=
  _effective_delete_after e = Ok (Some due) ∧ due_at due ∧ py_eq (obj_get e "chat_id") (JInt chat) = true.

(** Why an entry may leave the ledger: it has no deadline at all; it is due and belongs
    to another chat; or it is due, of this chat, and its topic is gone or could not be
    deleted for too long. *)
Inductive resolved (log : list (json * answer)) (e : row) : Prop :=
  | Malformed (_ : _effective_delete_after e = Ok None)
  | Mismatched due (_ : _effective_delete_after e = Ok (Some due)) (_ : due_at due)
      (_ : obj_get e "chat_id" ≠ JNull) (_ : py_eq (obj_get e "chat_id") (JInt chat) = false)
  | Gone due a (_ : eligible e due) (_ : (obj_get e "topic_id", a) ∈ log) (_ : gone a)
  | Stuck due (_ : eligible e due) (_ : due + seconds STUCK_ENTRY_MAX_AGE_SECONDS < ts).

Lemma resolved_more log log' e : resolved log e → resolved (log ++ log') e.
Proof.
  destruct 1; [by apply Malformed|by eapply Mismatched| |by eapply Stuck].
  eapply Gone; [done| |done]. apply elem_of_app. by left.
Qed.

(** What the other tasks appended between two moments. *)
Definition passed (n m : nat) : list Closed := seq n (m - n) ≫= meanwhile.

Lemma passed_S n m : (n ≤ m)%nat → passed n (S m) = passed n m ++ meanwhile m.
Proof.
  intros Hle. unfold passed. rewrite Nat.sub_succ_l by done. rewrite seq_S, bind_app.
  replace (n + (m - n))%nat with m by lia. cbn [mbind list_bind]. by rewrite app_nil_r.
Qed.

(** A moment of the sweep that began in [s0] with the entries [l0]. *)
Record moment (l0 : list row) (s0 s : Sweep) (cs : list Closed) (log : list (json * answer)) : Prop := {
  mo_file : holding (foldl appended l0 cs) (files s);
  mo_waits : (awaits s0 ≤ awaits s)%nat;
  mo_others : sublist cs (passed (awaits s0) (awaits s)) ∧ (quiet = true → cs = passed (awaits s0) (awaits s));
  mo_calls : calls s = calls s0 ++ log;
  mo_own : ∀ c, c ∈ log → dry_run = false ∧ ∃ e due, e ∈ l0 ∧ obj_get e "topic_id" = c.1 ∧ eligible e due
}.

Section from.
Context (l0 : list row) (s0 : Sweep).
Abbreviation moment := (moment l0 s0).
Definition some_moment (log : list (json * answer)) (s : Sweep) : Prop := ∃ cs log', moment s cs (log ++ log').

(** How a call of the sweep may raise. *)
Definition interrupted (e : exn) : Prop :=
  quiet = false ∨ e = CancelledError ∧ ∃ n, cancels n = true.

Lemma wp_on_files {A} (m : FsM A) Q R s :
  wp m (λ a f, Q a (s <| files := f |>)) (λ e f, R e (s <| files := f |>)) (files s) → wp (on_files m) Q R s.
Proof. unfold wp, on_files. by destruct (m (files s)) as [[a|e] f]. Qed.

(** Other tasks append, and none of them ends the sweep unless the process dies. *)
Lemma wp_appends l cs s :
  holding l s →
  wp (for_each cs (λ c, except_any (append c) (mret tt)))
    (λ _ s', ∃ cs', sublist cs' cs ∧ (quiet = true → cs' = cs) ∧ holding (foldl appended l cs') s')
    (λ e s', quiet = false ∧ ∃ cs', sublist cs' cs ∧ holding (foldl appended l cs') s') s.
Proof.
  revert l s. induction cs as [|c cs IH]; intros l s Hl.
  { apply wp_ret. by exists []. }
  apply wp_bind, wp_except_any.
  assert (∀ s1, holding l s1 → quiet = false → wp (for_each cs (λ c, except_any (append c) (mret tt)))
    (λ _ s', ∃ cs', sublist cs' (c :: cs) ∧ (quiet = true → cs' = c :: cs) ∧ holding (foldl appended l cs') s')
    (λ e s', quiet = false ∧ ∃ cs', sublist cs' (c :: cs) ∧ holding (foldl appended l cs') s') s1) as Hskip.
  { intros s1 Hs1 Hq. eapply wp_mono; [by apply IH|..].
    - intros ? s2 (cs' & Hsub & _ & Hs2). exists cs'. split_and!; [by constructor|congruence|done].
    - intros e s2 (_ & cs' & Hsub & Hs2). split; [done|]. exists cs'. split; [by constructor|done]. }
  assert (∀ s1, holding (appended l c) s1 → wp (for_each cs (λ c, except_any (append c) (mret tt)))
    (λ _ s', ∃ cs', sublist cs' (c :: cs) ∧ (quiet = true → cs' = c :: cs) ∧ holding (foldl appended l cs') s')
    (λ e s', quiet = false ∧ ∃ cs', sublist cs' (c :: cs) ∧ holding (foldl appended l cs') s') s1) as Htake.
  { intros s1 Hs1. eapply wp_mono; [by apply IH|..].
    - intros ? s2 (cs' & Hsub & Hq & Hs2). exists (c :: cs'). split_and!; [by constructor|intros E; by rewrite Hq|done].
    - intros e s2 (Hq & cs' & Hsub & Hs2). split; [done|]. exists (c :: cs'). split; [by constructor|done]. }
  eapply wp_mono; [by apply wp_append|intros ? s1; apply Htake|].
  intros e s1 (Hq & [-> | ->] & Hs1).
  - apply wp_ret. destruct Hs1; [by apply Hskip|by apply Htake].
  - split; [done|]. destruct Hs1; [exists []|exists [c]]; (split; [repeat constructor; apply sublist_nil_l|done]).
Qed.

Lemma wp_await cs log s :
  moment s cs log →
  wp (await meanwhile cancels) (λ _ s', ∃ cs', moment s' cs' log)
    (λ e s', interrupted e ∧ some_moment log s') s.
Proof.
  intros [Hf Hw [Hsub Hq] Hc Ho]. unfold await. apply wp_bind, wp_get, wp_bind, wp_modify, wp_bind, wp_on_files.
  set (n := awaits s). set (s1 := s <| awaits ::= S |>).
  assert (∀ cs' f, sublist cs' (meanwhile n) → (quiet = true → cs' = meanwhile n) → holding (foldl appended (foldl appended l0 cs) cs') f →
    moment (s1 <| files := f |>) (cs ++ cs') log) as Hm.
  { intros cs' f Hs' Hq' Hf'. split; [by rewrite foldl_app|change (awaits s0 ≤ S n)%nat; lia| |done|done].
    change (awaits (s1 <| files := f |>)) with (S n). rewrite passed_S by done. split; [by apply sublist_app|]. intros E. by rewrite Hq, Hq'. }
  eapply wp_mono; [by apply wp_appends|..].
  - intros ? f (cs' & Hs' & Hq' & Hf'). pose proof (Hm cs' f Hs' Hq' Hf') as Hm'. apply wp_raise_when.
    + intros Hcan. split; [right; by split; [|exists n]|]. eexists _, []. by rewrite app_nil_r.
    + intros _. by eexists.
  - intros e f (Hqf & cs' & Hs' & Hf'). split; [by left|]. exists (cs ++ cs'), []. rewrite app_nil_r.
    apply Hm; [done|congruence|done].
Qed.

Lemma some_moment_less log log' s : some_moment (log ++ log') s → some_moment log s.
Proof. intros (cs & l & Hm). exists cs, (log' ++ l). by rewrite app_assoc. Qed.

Lemma moment_some cs log s : moment s cs log → some_moment log s.
Proof. intros Hm. exists cs, []. by rewrite app_nil_r. Qed.

Section entry.
Context (e : row) (Hin : e ∈ l0).

Lemma wp_delete_topic due cs log s :
  eligible e due → dry_run = false → moment s cs log →
  wp (delete_topic channel meanwhile cancels (obj_get e "topic_id"))
    (λ a s', ∃ cs', moment s' cs' (log ++ [(obj_get e "topic_id", a)]))
    (λ ex s', interrupted ex ∧ some_moment log s') s.
Proof.
  intros He Hd [Hf Hw Ho Hc Hown]. unfold delete_topic. apply wp_bind, wp_get, wp_bind, wp_modify, wp_bind.
  set (a := channel _ _). eapply wp_mono; [apply (wp_await cs (log ++ [(obj_get e "topic_id", a)]))|..].
  - split; [done|done|done| |].
    + change (calls s ++ [(obj_get e "topic_id", a)] = calls s0 ++ log ++ [(obj_get e "topic_id", a)]).
      by rewrite Hc, app_assoc.
    + intros c [Hl|Hl]%elem_of_app; [by apply Hown|]. apply list_elem_of_singleton in Hl as ->. split; [done|by exists e, due].
  - intros ? s' Hs'. by apply wp_ret.
  - intros ex s' [Hi Hs']. split; [done|by eapply some_moment_less].
Qed.

Lemma result_refused x : result_of (Refused x) = classify_delete_error x.
Proof. done. Qed.

Lemma wp_delete_with_retry due cs log s :
  eligible e due → dry_run = false → moment s cs log →
  wp (_delete_with_flood_retry channel meanwhile cancels (obj_get e "topic_id"))
    (λ o s', ∃ cs' log', moment s' cs' (log ++ log') ∧
       (o = Done ∨ o = NotFound → ∃ a, (obj_get e "topic_id", a) ∈ log' ∧ gone a))
    (λ ex s', interrupted ex ∧ some_moment log s') s.
Proof.
  intros He Hd Hm. unfold _delete_with_flood_retry. apply wp_bind.
  eapply wp_mono; [by apply (wp_delete_topic due cs log)| |done]. intros a s1 (cs1 & Hm1).
  assert (∀ o, o = result_of a → wp (mret o)
    (λ o s', ∃ cs' log', moment s' cs' (log ++ log') ∧ (o = Done ∨ o = NotFound → ∃ a, (obj_get e "topic_id", a) ∈ log' ∧ gone a))
    (λ ex s', interrupted ex ∧ some_moment log s') s1) as Hend.
  { intros o ->. apply wp_ret. exists cs1, [(obj_get e "topic_id", a)]. split; [done|]. intros Ho. exists a. split; [left|done]. }
  destruct a as [|[ | |delay| | |]]; try (by apply Hend).
  destruct (_ <? _).
  { by apply Hend. }
  apply wp_bind. eapply wp_mono; [by apply (wp_await cs1 (log ++ [(obj_get e "topic_id", Refused (RetryAfter delay))]) s1)| |intros ex s' [? Hs']; split; [done|by eapply some_moment_less]].
  intros ? s2 (cs2 & Hm2). apply wp_bind.
  eapply wp_mono; [by apply (wp_delete_topic due cs2 (log ++ [(obj_get e "topic_id", Refused (RetryAfter delay))]) s2)| |intros ex s' [? Hs']; split; [done|by eapply some_moment_less]].
  intros a2 s3 (cs3 & Hm3). apply wp_ret. rewrite <-app_assoc in Hm3. exists cs3; eexists. split; [exact Hm3|].
  intros Ho. exists a2. split; [by right; left|done].
Qed.

(** What an iteration adds to the report and to the ids that are to be removed. *)
Definition stepped (log : list (json * answer)) (acc acc' : Report * list json * nat) : Prop :=
  total acc'.1.1 = S (total acc.1.1) ∧
  (acc'.1.2 = acc.1.2 ∧ (dry_run = false → kept acc'.1.1 = S (kept acc.1.1))
   ∨ dry_run = false ∧ acc'.1.2 = acc.1.2 ++ [entry_id e] ∧ kept acc'.1.1 = kept acc.1.1
     ∧ hashable (entry_id e) ∧ resolved log e).

Definition sane : Prop := hashable (entry_id e) ∧ is_Ok (_effective_delete_after e).

Lemma wp_drop cs log s acc r made :
  dry_run = false → moment s cs log → resolved log e → kept r = kept acc.1.1 → total r = S (total acc.1.1) →
  wp (let* id := lift (hashed (entry_id e)) in mret (r, acc.1.2 ++ [id], made))
    (λ acc' s', ∃ cs' log', moment s' cs' (log ++ log') ∧ stepped (log ++ log') acc acc')
    (λ ex s', (interrupted ex ∨ ¬ sane) ∧ some_moment log s') s.
Proof.
  intros Hd Hm Hr Hk Ht. apply wp_bind, wp_lift.
  - intros i [-> Hi]%hashed_ok. apply wp_ret. exists cs, []. rewrite app_nil_r. split; [done|]. split; [done|]. by right.
  - intros ex E. split; [right; intros [Hh _]|by eapply moment_some]. unfold hashable in Hh. congruence.
Qed.

Lemma wp_settle_topic due o cs log s acc :
  dry_run = false → eligible e due → moment s cs log →
  (o = Done ∨ o = NotFound → ∃ a, (obj_get e "topic_id", a) ∈ log ∧ gone a) →
  wp (lift (settle ts e due o acc))
    (λ acc' s', ∃ cs' log', moment s' cs' (log ++ log') ∧ stepped (log ++ log') acc acc')
    (λ ex s', (interrupted ex ∨ ¬ sane) ∧ some_moment log s') s.
Proof.
  intros Hd He Hm Hg. destruct acc as [[r rem] made].
  assert (∀ r', resolved log e → kept r' = kept r → total r' = S (total r) →
    wp (lift (let* id := hashed (entry_id e) in Ok (r', rem ++ [id], S made)))
      (λ acc' s', ∃ cs' log', moment s' cs' (log ++ log') ∧ stepped (log ++ log') (r, rem, made) acc')
      (λ ex s', (interrupted ex ∨ ¬ sane) ∧ some_moment log s') s) as Hdrop.
  { intros r' Hr Hk Ht. pose proof (wp_drop cs log s (r, rem, made) r' (S made) Hd Hm Hr Hk Ht) as Hw.
    unfold wp, lift in *. cbn in Hw. by destruct (hashed (entry_id e)). }
  assert (∀ r', kept r' = S (kept r) → total r' = S (total r) →
    wp (lift (Ok (r', rem, S made)))
      (λ acc' s', ∃ cs' log', moment s' cs' (log ++ log') ∧ stepped (log ++ log') (r, rem, made) acc')
      (λ ex s', (interrupted ex ∨ ¬ sane) ∧ some_moment log s') s) as Hkeep.
  { intros r' Hk Ht. unfold wp, lift. exists cs, []. rewrite app_nil_r. split; [done|]. split; [done|]. left. by split. }
  destruct o.
  1,2: destruct Hg as (a & Ha & Hga); [by auto|]; apply Hdrop; [by eapply Gone|done|unfold total, update; cbn; lia].
  all: unfold settle; cbv beta iota zeta; destruct (Z.ltb_spec (due + seconds STUCK_ENTRY_MAX_AGE_SECONDS) ts).
  all: (apply Hdrop; [by eapply Stuck|..]) || apply Hkeep.
  all: unfold total, update; case_bool_decide; cbn; (done || lia).
Qed.

(** The attempt on an entry, after the pause between two of them. *)
Lemma wp_try due cs log s r rem made :
  eligible e due → dry_run = false → moment s cs log →
  wp ((if (made =? 0)%nat then mret tt else await meanwhile cancels) ;;;
      let* o := _delete_with_flood_retry channel meanwhile cancels (obj_get e "topic_id") in
      lift (settle ts e due o (r, rem, made)))
    (λ acc' s', ∃ cs' log', moment s' cs' (log ++ log') ∧ stepped (log ++ log') (r, rem, made) acc')
    (λ ex s', (interrupted ex ∨ ¬ sane) ∧ some_moment log s') s.
Proof.
  intros He Hd Hm. apply wp_bind.
  assert (∀ cs1 s1, moment s1 cs1 log →
    wp (let* o := _delete_with_flood_retry channel meanwhile cancels (obj_get e "topic_id") in lift (settle ts e due o (r, rem, made)))
      (λ acc' s', ∃ cs' log', moment s' cs' (log ++ log') ∧ stepped (log ++ log') (r, rem, made) acc')
      (λ ex s', (interrupted ex ∨ ¬ sane) ∧ some_moment log s') s1) as Hgo.
  { intros cs1 s1 Hm1. apply wp_bind.
    eapply wp_mono; [by apply (wp_delete_with_retry due cs1 log)| |intros ex s' [? ?]; split; [by left|done]].
    intros o s2 (cs2 & log2 & Hm2 & Hg). eapply wp_mono; [apply (wp_settle_topic due o cs2 (log ++ log2)); [done..|]| |].
    - intros Ho. destruct (Hg Ho) as (a & Ha & ?). exists a. split; [|done]. apply elem_of_app. by right.
    - intros acc' s' (cs' & log' & Hm' & Hs'). rewrite <-app_assoc in Hm', Hs'. by eexists _, _.
    - intros ex s' [? ?]. split; [done|by eapply some_moment_less]. }
  destruct (made =? 0)%nat; [by apply wp_ret, (Hgo cs)|].
  eapply wp_mono; [by apply (wp_await cs log)|intros ? s1 (cs1 & Hm1); by apply (Hgo cs1)|].
  intros ex s' [? ?]. split; [by left|done].
Qed.

(** One iteration. *)
Lemma wp_sweep_entry cs log s acc :
  moment s cs log →
  wp (sweep_entry channel meanwhile cancels chat scope dry_run ts e acc)
    (λ acc' s', ∃ cs' log', moment s' cs' (log ++ log') ∧ stepped (log ++ log') acc acc')
    (λ ex s', (interrupted ex ∨ ¬ sane) ∧ some_moment log s') s.
Proof.
  intros Hm. destruct acc as [[r rem] made]. unfold sweep_entry. apply wp_bind, wp_lift.
  2: { intros ex E. split; [right; intros [_ Hs]; by rewrite E in Hs|by eapply moment_some]. }
  assert (∀ r', (dry_run = false → kept r' = S (kept r)) → total r' = S (total r) →
    wp (mret (r', rem, made)) (λ acc' s', ∃ cs' log', moment s' cs' (log ++ log') ∧ stepped (log ++ log') (r, rem, made) acc')
      (λ ex s', (interrupted ex ∨ ¬ sane) ∧ some_moment log s') s) as Hsame.
  { intros r' Hk Ht. apply wp_ret. exists cs, []. rewrite app_nil_r. split; [done|]. split; [done|]. by left. }
  assert (∀ r', resolved log e → kept r' = kept r → total r' = S (total r) →
    wp (if dry_run then mret (r', rem, made) else let* id := lift (hashed (entry_id e)) in mret (r', rem ++ [id], made))
      (λ acc' s', ∃ cs' log', moment s' cs' (log ++ log') ∧ stepped (log ++ log') (r, rem, made) acc')
      (λ ex s', (interrupted ex ∨ ¬ sane) ∧ some_moment log s') s) as Hdrop.
  { intros r' Hr Hk Ht. destruct dry_run eqn:Hd; [by apply Hsame|]. by apply (wp_drop cs log s (r, rem, made)). }
  intros [due|] He; [|by apply Hdrop; [by apply Malformed|done|unfold total, update; cbn; lia]].
  destruct (negb _ && _) eqn:Hlate; [apply Hsame; unfold total, update; cbn; intros; lia|].
  assert (due_at due) as Hdue.
  { apply andb_false_iff in Hlate as [E%negb_false_iff|E]; [left; by apply bool_decide_eq_true in E|right; lia]. }
  assert (py_eq (obj_get e "chat_id") (JInt chat) = true → dry_run = false →
    wp ((if (made =? 0)%nat then mret tt else await meanwhile cancels) ;;;
        let* o := _delete_with_flood_retry channel meanwhile cancels (obj_get e "topic_id") in
        lift (settle ts e due o (r, rem, made)))
      (λ acc' s', ∃ cs' log', moment s' cs' (log ++ log') ∧ stepped (log ++ log') (r, rem, made) acc')
      (λ ex s', (interrupted ex ∨ ¬ sane) ∧ some_moment log s') s) as Hgo.
  { intros Hchat Hd. by apply (wp_try due cs log). }
  destruct (obj_get e "chat_id") as [|b|z|z|st|l|d] eqn:Hc; [apply Hsame; unfold total, update; cbn; intros; lia|..].
  all: match goal with |- wp (if negb ?b then _ else _) _ _ _ => destruct b eqn:Hchat end; cbn [negb];
    [|apply Hdrop; [by eapply Mismatched; rewrite ?Hc|done|unfold total, update; cbn; lia]].
  all: destruct dry_run; [apply Hsame; [done|unfold total, update; cbn; lia]|by apply Hgo].
Qed.
End entry.

(** The loop: some of the entries are settled, in their order. *)
Definition settled (l p : list row) (log : list (json * answer)) (acc acc' : Report * list json * nat) : Prop :=
  sublist p l ∧ acc'.1.2 = acc.1.2 ++ (entry_id <$> p) ∧ (dry_run = true → p = []) ∧
  Forall (λ e, hashable (entry_id e) ∧ resolved log e) p ∧ total acc'.1.1 = (total acc.1.1 + length l)%nat ∧
  (dry_run = false → kept acc'.1.1 + length p = kept acc.1.1 + length l)%nat.

Lemma settled_step e l p log log' acc acc1 acc2 :
  stepped e log acc acc1 → settled l p (log ++ log') acc1 acc2 → ∃ p', settled (e :: l) p' (log ++ log') acc acc2.
Proof.
  intros [Ht Hs] (Hp & Hr & Hd & Hf & Ht2 & Hk). destruct Hs as [[Er Ek]|(Hdry & Er & Ek & Hh & Hres)].
  - exists p. rewrite Er in Hr. split_and!; [by constructor|done..|cbn; lia|]. intros E. specialize (Ek E). specialize (Hk E). cbn. lia.
  - exists (e :: p). rewrite Er, <-app_assoc in Hr. split_and!; [by constructor|done|congruence| |cbn; lia|].
    + apply Forall_cons. split; [|done]. split; [done|by apply resolved_more].
    + intros E. specialize (Hk E). cbn. lia.
Qed.

Lemma wp_sweep_all l cs log s acc :
  (∀ e, e ∈ l → e ∈ l0) → moment s cs log →
  wp (sweep_all channel meanwhile cancels chat scope dry_run ts l acc)
    (λ acc' s', ∃ cs' log' p, moment s' cs' (log ++ log') ∧ settled l p (log ++ log') acc acc')
    (λ ex s', (interrupted ex ∨ ∃ e, e ∈ l ∧ ¬ sane e) ∧ some_moment log s') s.
Proof.
  revert cs log s acc. induction l as [|e l IH]; intros cs log s acc Hl Hm.
  { apply wp_ret. exists cs, [], []. rewrite app_nil_r. split; [done|]. split_and!; try done; cbn; rewrite ?app_nil_r; done || lia. }
  cbn [sweep_all]. apply wp_bind.
  eapply wp_mono; [apply (wp_sweep_entry e ltac:(apply Hl; left) cs log s acc Hm)|..].
  - intros acc1 s1 (cs1 & log1 & Hm1 & Hs1).
    eapply wp_mono; [apply (IH cs1 (log ++ log1) s1 acc1); [intros x Hx; apply Hl; by right|done]|..].
    + intros acc2 s2 (cs2 & log2 & p & Hm2 & Hp). destruct (settled_step _ _ _ _ _ _ _ _ Hs1 Hp) as (p' & Hp').
      rewrite <-app_assoc in Hm2, Hp'. by exists cs2, (log1 ++ log2), p'.
    + intros ex s2 [Hx Hs2]. split; [|by eapply some_moment_less]. destruct Hx as [?|(x & ? & ?)]; [by left|right].
      exists x. split; [by right|done].
  - intros ex s1 [[?|?] Hs1]; (split; [|done]); [by left|right]. exists e. split; [left|done].
Qed.
End from.
End sweep.


Section theorem.
Context `{Outside, PyText} (quiet : bool).
Context (channel : nat → json → answer) (meanwhile : nat → list Closed) (cancels : nat → bool).
Context (chat : Z) (scope : string) (dry_run : bool) (ts : Z).

(** ** How a sweep may end

    It began in [s] with the entries [l0].  [cs] are the appends of other tasks that took
    effect, [log] the deletions the sweep asked for, [ids] the ids it took out of the
    file.  Every id belongs to an entry of the beginning that is [resolved], every
    deletion to one that was [eligible], and a dry run does neither.  When nothing fails
    and every entry is [sane], the sweep returns, its report accounts for each entry, and
    with distinct ids the file keeps as many entries as the report says. *)
Definition swept (l0 : list row) (s : Sweep) (res : outcome Report) (s1 : Sweep) : Prop :=
  ∃ T1 cs log ids,
    agrees quiet T1 (files s1) ∧ calls s1 = calls s ++ log ∧
    sublist cs (passed meanwhile (awaits s) (awaits s1)) ∧
    entries_in T1 = spared ids (foldl appended l0 cs) ∧
    Forall (λ i, ∃ e, e ∈ l0 ∧ entry_id e = i ∧ resolved chat scope ts log e) ids ∧
    Forall (λ c, dry_run = false ∧ ∃ e due, e ∈ l0 ∧ obj_get e "topic_id" = c.1 ∧ eligible chat scope ts e due) log ∧
    (dry_run = true → ids = []) ∧
    (quiet = true → (∀ n, cancels n = false) → Forall sane l0 →
     cs = passed meanwhile (awaits s) (awaits s1) ∧
     ∃ r, res = Ok r ∧ total r = length l0 ∧
       (dry_run = false → distinct l0 →
        (length (entries_in T1) + length l0 = kept r + length (foldl appended l0 cs))%nat)).

Lemma swept_interrupted l0 s e s1 :
  (interrupted quiet cancels e ∨ ∃ x, x ∈ l0 ∧ ¬ sane x) →
  some_moment quiet meanwhile chat scope dry_run ts l0 s [] s1 → swept l0 s (Raise e) s1.
Proof.
  intros Hx (cs & log & [(T1 & HT1 & HE) Hw [Hsub Hq] Hc Ho]). exists T1, cs, log, [].
  split_and!; [done..|by rewrite spared_none|constructor|by apply Forall_forall|done|]. intros Hquiet Hno Hsane.
  destruct Hx as [[?|[_ [n Hn]]]|(x & Hx & Hs)]; [congruence|by rewrite Hno in Hn|].
  destruct Hs. by eapply Forall_forall in Hsane.
Qed.

(** The ids of the settled entries, and the file without them. *)
Lemma swept_with l0 s res s1 f cs log p r T1 :
  moment quiet meanwhile chat scope dry_run ts l0 s s1 cs log →
  sublist p l0 → (dry_run = true → p = []) →
  Forall (λ e, hashable (entry_id e) ∧ resolved chat scope ts log e) p →
  agrees quiet T1 f → entries_in T1 = spared (entry_id <$> p) (foldl appended l0 cs) →
  (quiet = true → (∀ n, cancels n = false) → Forall sane l0 → res = Ok r ∧ total r = length l0 ∧
    (dry_run = false → (kept r + length p = length l0)%nat)) →
  swept l0 s res (s1 <| files := f |>).
Proof.
  intros [_ Hw [Hsub Hq] Hc Ho] Hp Hd Hf HT1 HE Hres. exists T1, cs, log, (entry_id <$> p).
  assert (∀ i, i ∈ entry_id <$> p → ∃ e, e ∈ p ∧ e ∈ l0 ∧ entry_id e = i) as Hids.
  { intros i (e & -> & He)%list_elem_of_fmap. exists e. split_and!; [done| |done]. by eapply elem_of_sublist. }
  split_and!; [done..| |by apply Forall_forall|intros E; by rewrite Hd|].
  - apply Forall_forall. intros i Hi. destruct (Hids i Hi) as (e & Hep & He & Hie). exists e. split_and!; [done..|].
    eapply Forall_forall in Hf; [|exact Hep]. apply Hf.
  - intros E1 E2 E3. split; [by apply Hq|]. destruct (Hres E1 E2 E3) as (-> & Ht & Hk). exists r. split_and!; [done..|].
    intros Hdry Hdis. destruct (spared_appended (entry_id <$> p) l0 cs) as (new & En & Es).
    { intros i Hi. destruct (Hids i Hi) as (e & _ & ? & ?). by exists e. }
    pose proof (spared_count l0 p Hdis Hp). specialize (Hk Hdry). rewrite HE, Es, En, !length_app. lia.
Qed.

Lemma wp_sweep_topics l0 s :
  holding quiet l0 (files s) →
  wp (sweep_topics channel meanwhile cancels (Some chat) scope dry_run ts)
    (λ r s1, swept l0 s (Ok r) s1) (λ e s1, swept l0 s (Raise e) s1) s.
Proof.
  intros Hl. unfold sweep_topics. apply wp_bind, wp_on_files.
  assert (∀ f, holding quiet l0 f → moment quiet meanwhile chat scope dry_run ts l0 s (s <| files := f |>) [] []) as Hstart.
  { intros f Hf. split; [done|done| |by rewrite app_nil_r|by intros c ?%elem_of_nil].
    change (awaits (s <| files := f |>)) with (awaits s). unfold passed. by rewrite Nat.sub_diag. }
  eapply wp_mono; [by apply (wp_read_entries quiet l0)|..].
  2: { intros e f [[Hq _] Hf]. apply swept_interrupted; [by left; left|]. by eapply moment_some, Hstart. }
  intros ? f [-> Hf]. apply wp_bind.
  eapply wp_mono; [by apply (wp_sweep_all quiet channel meanwhile cancels chat scope dry_run ts l0 s l0 [] [] _ _ (λ _ Hx, Hx) (Hstart f Hf))|..].
  2: { intros e s1 [Hx Hm]. by apply swept_interrupted. }
  intros [[r rem] made] s1 (cs & log & p & Hm & Hp & Hrem & Hdry & Hf' & Ht & Hk). cbn in *. subst rem.
  assert (∀ cs' s2 f2 T1 res, moment quiet meanwhile chat scope dry_run ts l0 s s2 cs' log → agrees quiet T1 f2 →
    entries_in T1 = spared (entry_id <$> p) (foldl appended l0 cs') →
    (quiet = true → (∀ n, cancels n = false) → Forall sane l0 → res = Ok r) → swept l0 s res (s2 <| files := f2 |>)) as Hend.
  { intros cs' s2 f2 T1 res Hm2 HT1 HE Hres. apply (swept_with l0 s res s2 f2 cs' log p r T1); try done.
    intros E1 E2 E3. split; [by apply Hres|]. split; [done|]. intros Ed. by specialize (Hk Ed). }
  destruct p as [|e p].
  { apply wp_ret. destruct (mo_file _ _ _ _ _ _ _ _ _ _ _ Hm) as (T1 & HT1 & HE).
    assert (s1 <| files := files s1 |> = s1) as <- by (by destruct s1).
    apply (Hend cs s1 (files s1) T1); try done. by rewrite spared_none. }
  cbn [fmap list_fmap] in *. apply wp_bind.
  eapply wp_mono; [by apply (wp_await quiet meanwhile cancels chat scope dry_run ts l0 s cs log s1)|..].
  2: { intros ex s2 [Hx Hm2]. apply swept_interrupted; [by left|]. by eapply (some_moment_less _ _ _ _ _ _ _ _ [] log). }
  intros ? s2 (cs' & Hm2). apply wp_bind, wp_on_files.
  assert (∀ f2, holding quiet (foldl appended l0 cs') f2 → moment quiet meanwhile chat scope dry_run ts l0 s (s2 <| files := f2 |>) cs' log) as Hm3.
  { intros f2 Hf2. destruct Hm2 as [? ? ? ? ?]. by split. }
  eapply wp_mono; [by apply (wp_remove quiet _ (entry_id e :: (entry_id <$> p)) _ (mo_file _ _ _ _ _ _ _ _ _ _ _ Hm2))|..].
  - intros ? f2 (T1 & HT1 & HE). apply wp_ret. by apply (Hend cs' s2 f2 T1).
  - intros ex f2 [Hx Hf2].
    assert (quiet = false ∨ ∃ x, x ∈ l0 ∧ ¬ sane x) as Hx'.
    { destruct Hx as [?|(x & Hx & Hh)]; [by left|right]. destruct (appended_new l0 cs') as (new & En & Hnew).
      rewrite En, elem_of_app in Hx. destruct Hx as [Hx|Hx]; [exists x; split; [done|by intros [? _]]|].
      eapply Forall_forall in Hnew; [|exact Hx]. destruct Hnew as (st & E & _). destruct Hh. by rewrite E. }
    destruct Hf2 as [Hf2|(T1 & HT1 & HE)].
    + apply swept_interrupted; [destruct Hx' as [?|?]; [by left; left|by right]|]. exists cs', log. by apply Hm3.
    + apply (Hend cs' s2 f2 T1); try done.
      intros E1 _ E3. destruct Hx' as [?|(x & Hx' & Hs)]; [congruence|]. destruct Hs. by eapply Forall_forall in E3.
Qed.

End theorem.

(** ** A sweep *)

Definition ledger_row (id : json) (chat topic due : Z) : row :=
  [("engagement_id", id); ("chat_id", JInt chat); ("topic_id", JInt topic); ("delete_after", JFloat (seconds due))].

Definition demo_ledger (l : list row) : gmap path content := {[LEDGER_PATH := Doc (JList (JObj <$> l))]}.
Definition demo_sweep (l : list row) : Sweep := mkSweep (mkFs (demo_ledger l) 0%nat []) 0%nat [].

(** One topic goes, one deletion fails, one entry is of another chat, one is not due. *)
Definition demo_rows : list row :=
  [ledger_row (JStr "a") 5 11 100; ledger_row (JStr "b") 5 12 100; ledger_row (JStr "c") 6 13 100;
   ledger_row (JStr "d") 5 14 900].
Definition demo_channel (n : nat) (topic : json) : answer :=
  if py_eq topic (JInt 12) then Refused OtherError else Deleted.
Definition demo_others (n : nat) : list Closed :=
  match n with 1%nat => [mkClosed "e" (Some 5) 15 "completed" (seconds 400)] | _ => [] end.
Definition demo_swept : outcome Report * Sweep :=
  sweep_topics (H := demo_outside) (H0 := demo_text) demo_channel demo_others (λ _, false) (Some 5) "due" false (seconds 500)
    (demo_sweep demo_rows).

Example demo_report : fst demo_swept =
  Ok (mkReport 1%nat 2%nat 1%nat 0%nat 0%nat [(JStr "b", JInt 12, Unknown)] false [(JStr "a", JInt 11)]).
Proof. vm_compute. reflexivity. Qed.

Example demo_left : tree (files (snd demo_swept)) =
  demo_ledger [ledger_row (JStr "b") 5 12 100; ledger_row (JStr "d") 5 14 900;
               entry_of (mkClosed "e" (Some 5) 15 "completed" (seconds 400))].
Proof. vm_compute. reflexivity. Qed.

(** An entry whose id is a list stops the sweep before anything is deleted. *)
Example a_list_as_id_stops_the_sweep :
  (let '(r, s) := sweep_topics (H := demo_outside) (H0 := demo_text) (λ _ _, Deleted) (λ _, []) (λ _, false) (Some 5) "due" false
     (seconds 500) (demo_sweep [ledger_row (JList []) 6 11 100; ledger_row (JStr "b") 5 12 100]) in (r, calls s)) = (Raise TypeError, []).
Proof. vm_compute. reflexivity. Qed.

(** So does a deadline that is an integer beyond the range of floats. *)
Example a_huge_deadline_stops_the_sweep :
  fst (sweep_topics (H := demo_outside) (H0 := demo_text) (λ _ _, Deleted) (λ _, []) (λ _, false) (Some 5) "due" false
     (seconds 500) (demo_sweep [[("engagement_id", JStr "a"); ("delete_after", JInt (2 ^ 1024))]])) = Raise OverflowError.
Proof. vm_compute. reflexivity. Qed.

(** Entries without an id go together: the one that is not due is lost with the other. *)
Example entries_without_id_go_together :
  (let '(r, s) := sweep_topics (H := demo_outside) (H0 := demo_text) (λ _ _, Deleted) (λ _, []) (λ _, false) (Some 5) "due" false
     (seconds 500) (demo_sweep [ledger_row JNull 5 11 100; ledger_row JNull 5 12 900]) in (r, tree (files s))) =
  (Ok (mkReport 1%nat 1%nat 0%nat 0%nat 0%nat [] false [(JNull, JInt 11)]), demo_ledger []).
Proof. vm_compute. reflexivity. Qed.

